(** * Bank queue simulator: the discrete-event engine, its metrics and its views

    Shallow embedding of [BankSimulator] (generateArrivals, processEvents,
    simulateQueue, assignService, calculateMetrics), of [getSnapshotAtTime],
    of the samplers [randomExponential] and [randomTriangular], and of the
    parts of the views that compute something: the task counts of the
    metrics panel, the colour of a customer icon and the playback clock.

    Numbers.  A JavaScript [number] holding a time is modelled as an exact
    rational [Q]: no rounding, no NaN, no infinities.  The constants of the
    source ([0.0001], [5], [15], [100]) are the corresponding rationals.
    The one quotient whose divisor may be zero, the utilization of a teller,
    is a [JsNumber].  Array lengths and indices are [nat]; a server count
    read from the configuration is an integer [Z], since [new Array(count)]
    raises a RangeError on a count that is negative or above 2^32 - 1.  (It
    raises the same error on a count with a fractional part, which [Z] does
    not represent.)

    Randomness.  In the engine [Math.random], [randomExponential] and
    [randomTriangular] are not computed: every iteration of the arrival
    generator consumes one [Draw] holding the values these calls returned.
    A run is given the finite list of the draws made so far; [run] completes
    on it only if the generator loop has come to its end on these draws, so
    that a loop that never ends is a loop that no list of draws completes.
    The two samplers are modelled on their own, on the real numbers, as
    functions of the uniform draw; the sign of the gap [randomExponential]
    returns is that of the arrival rate ([gap_at_rate]).

    Shared objects.  The customers are JavaScript objects shared by
    [this.customers], the per-line [queueCustomers] arrays and the waiting
    buffer.  They live in one store (the [this.customers] array) and are
    referred to by their index in it. *)

From Stdlib Require Import QArith Qabs Lqa Lia ZArith List Bool Arith Permutation Sorted.
From Stdlib Require Strings.String Strings.Ascii Numbers.DecimalString Numbers.DecimalNat.
From Stdlib Require Reals Lra.
Import ListNotations.
Local Open Scope Q_scope.

(** ** Comparisons on numbers *)

(** [x < y] as a boolean. *)
Definition Qltb (x y : Q) : bool := negb (Qle_bool y x).

(** ** JavaScript arrays *)

(** [Array.prototype.sort(cmp)]: a stable insertion sort driven by the sign
    of the comparator.  The element being inserted goes in front of the first
    element it compares strictly below.  For a comparator that is a
    consistent order this is the order every engine returns. *)
Fixpoint insert_by {A : Type} (cmp : A -> A -> Q) (x : A) (l : list A) : list A :=
  match l with
  | [] => [x]
  | y :: l' => if Qltb (cmp x y) 0 then x :: y :: l' else y :: insert_by cmp x l'
  end.

Definition js_sort {A : Type} (cmp : A -> A -> Q) (l : list A) : list A :=
  fold_left (fun acc x => insert_by cmp x acc) l [].

(** [a[i] = v] for an index inside the array.  (Outside it JavaScript would
    grow the array; the engine only writes at indices it has read, see
    [teller_indices_in_range] below.) *)
Fixpoint array_set {A : Type} (i : nat) (v : A) (l : list A) : list A :=
  match l, i with
  | [], _ => []
  | _ :: l', O => v :: l'
  | x :: l', S i' => x :: array_set i' v l'
  end.

(** [a.findIndex(p)], with [None] for [-1]. *)
Fixpoint findIndex {A : Type} (p : A -> bool) (l : list A) : option nat :=
  match l with
  | [] => None
  | x :: l' => if p x then Some O else option_map S (findIndex p l')
  end.

(** [a.splice(i, 1)]: the array without its element at index [i]. *)
Fixpoint remove_at {A : Type} (i : nat) (l : list A) : list A :=
  match l, i with
  | [], _ => []
  | _ :: l', O => l'
  | x :: l', S i' => x :: remove_at i' l'
  end.

(** ** Data model (types.ts) *)

Inductive CustomerType := WALK_IN | RESERVED.
Inductive ServiceType := HIGH_COUNTER | LOW_COUNTER.
Inductive Sentiment := HAPPY | NEUTRAL | ANGRY.

Definition CustomerType_eqb (a b : CustomerType) : bool :=
  match a, b with
  | WALK_IN, WALK_IN | RESERVED, RESERVED => true
  | _, _ => false
  end.

Definition ServiceType_eqb (a b : ServiceType) : bool :=
  match a, b with
  | HIGH_COUNTER, HIGH_COUNTER | LOW_COUNTER, LOW_COUNTER => true
  | _, _ => false
  end.

Record CounterConfig := mkCounterConfig {
  count : Z;
  serviceMin : Q;
  serviceMode : Q;
  serviceMax : Q
}.

Record SimulationConfig := mkSimulationConfig {
  durationMinutes : Q;
  arrivalRatePerHour : Q;
  percentReserved : Q;
  percentHighCounterTasks : Q;
  highCounter : CounterConfig;
  lowCounter : CounterConfig
}.

Record Customer := mkCustomer {
  id : nat;
  type : CustomerType;
  serviceType : ServiceType;
  arrivalTime : Q;
  serviceStartTime : option Q;
  serviceEndTime : option Q;
  tellerId : option nat;
  waitTime : Q;
  serviceTime : Q;
  sentiment : Sentiment
}.

(** The internal events of [simulateQueue]: an arrival carries the customer
    id, a teller-free event the teller index. *)
Inductive QueueEventType :=
| ARRIVAL (customerId : nat)
| TELLER_FREE (tellerIndex : nat).

Record QueueEvent := mkQueueEvent {
  time : Q;
  etype : QueueEventType
}.

Definition is_teller_free (e : QueueEvent) : bool :=
  match etype e with
  | TELLER_FREE _ => true
  | ARRIVAL _ => false
  end.

(** ** Arrival generator *)

(** What the random source returned during one iteration of the generator
    loop: the inter-arrival gap ([randomExponential(lambda)]), the two
    [Math.random()] values of the class and task draws, and the service
    duration ([randomTriangular] with the parameters of the chosen line). *)
Record Draw := mkDraw {
  interArrival : Q;
  uReserved : Q;
  uHighCounter : Q;
  serviceDraw : Q
}.

(** The [while (time < durationMinutes)] loop on the draws supplied: the
    customers it has pushed when it leaves the loop or, if the draws are used
    up first, when the last of them has been consumed ([loop_exits] tells
    the two apart). *)
Fixpoint generateArrivals_from (cfg : SimulationConfig) (time0 : Q) (idCounter : nat)
         (draws : list Draw) : list Customer :=
  match draws with
  | [] => []
  | d :: rest =>
    if Qltb time0 (durationMinutes cfg) then
      let time1 := time0 + interArrival d in
      if Qltb (durationMinutes cfg) time1 then []
      else
        let isReserved := Qltb (uReserved d * 100) (percentReserved cfg) in
        let isHighCounter := Qltb (uHighCounter d * 100) (percentHighCounterTasks cfg) in
        {| id := idCounter;
           type := if isReserved then RESERVED else WALK_IN;
           serviceType := if isHighCounter then HIGH_COUNTER else LOW_COUNTER;
           arrivalTime := time1;
           serviceStartTime := None;
           serviceEndTime := None;
           tellerId := None;
           waitTime := 0;
           serviceTime := serviceDraw d;
           sentiment := HAPPY |}
        :: generateArrivals_from cfg time1 (S idCounter) rest
    else []
  end.

Definition generateArrivals (cfg : SimulationConfig) (draws : list Draw) : list Customer :=
  generateArrivals_from cfg 0 1%nat draws.

(** Whether the loop is left on the draws supplied: the condition
    [time < durationMinutes] fails, or the [break] is taken.  It is not left
    when an iteration is due and no draw remains. *)
Fixpoint loop_exits (cfg : SimulationConfig) (time0 : Q) (draws : list Draw) : bool :=
  if Qltb time0 (durationMinutes cfg) then
    match draws with
    | [] => false
    | d :: rest =>
      let time1 := time0 + interArrival d in
      if Qltb (durationMinutes cfg) time1 then true else loop_exits cfg time1 rest
    end
  else true.

(** ** Queue simulation engine *)

(** The comparator of the event loop:
    [Math.abs(a.time - b.time) < 0.0001 ? (a.type === 'TELLER_FREE' ? -1 : 1)
                                        : a.time - b.time].
    On timestamps that are pairwise equal or at least the tolerance apart it
    orders by time, teller-free events first among equal times.  On
    timestamps closer than the tolerance without being equal (a near tie) it
    is not transitive, and the order of the sorted queue is the one the
    insertion sort above gives. *)
Definition tolerance : Q := 1 # 10000.

Definition compareEvents (a b : QueueEvent) : Q :=
  if Qltb (Qabs (time a - time b)) tolerance
  then (if is_teller_free a then -1 else 1)
  else time a - time b.

(** The comparator of the initial sort of the queue. *)
Definition compareTime (a b : QueueEvent) : Q := time a - time b.

Record QueueState := mkQueueState {
  store : list Customer;         (* the shared customer objects, [this.customers] *)
  pq : list QueueEvent;
  waitingBuffer : list nat;      (* references into [store] *)
  tellersFreeAt : list Q
}.

(** The fields written by [assignService] on the customer object. *)
Definition assign_fields (c : Customer) (tellerIdx : nat) (startTime : Q) : Customer :=
  let w := startTime - arrivalTime c in
  {| id := id c;
     type := type c;
     serviceType := serviceType c;
     arrivalTime := arrivalTime c;
     serviceStartTime := Some startTime;
     serviceEndTime := Some (startTime + serviceTime c);
     tellerId := Some tellerIdx;
     waitTime := w;
     serviceTime := serviceTime c;
     sentiment := if Qltb 15 w then ANGRY else if Qltb 5 w then NEUTRAL else HAPPY |}.

(** [assignService(customer, tellerIdx, startTime, tellersFreeAt, pq)].
    [None] stands for the TypeError of writing a field of [undefined]. *)
Definition assignService (ref tellerIdx : nat) (startTime : Q) (st : QueueState)
  : option QueueState :=
  match nth_error (store st) ref with
  | None => None
  | Some c =>
    let c' := assign_fields c tellerIdx startTime in
    Some {| store := array_set ref c' (store st);
            pq := pq st ++ [mkQueueEvent (startTime + serviceTime c) (TELLER_FREE tellerIdx)];
            waitingBuffer := waitingBuffer st;
            tellersFreeAt := array_set tellerIdx (startTime + serviceTime c) (tellersFreeAt st) |}
  end.

Definition is_reserved (store : list Customer) (ref : nat) : bool :=
  match nth_error store ref with
  | Some c => CustomerType_eqb (type c) RESERVED
  | None => false
  end.

(** [popNextCustomer]: the first reserved customer of the buffer if there is
    one, else the head of the buffer; returns the customer and the buffer
    left. *)
Definition popNextCustomer (store : list Customer) (buffer : list nat)
  : option (nat * list nat) :=
  match buffer with
  | [] => None
  | first :: others =>
    match findIndex (is_reserved store) buffer with
    | Some reservedIdx => Some (nth reservedIdx buffer first, remove_at reservedIdx buffer)
    | None => Some (first, others)
    end
  end.

(** The scan [for (i = 0; i < tellersFreeAt.length; i++)
    if (tellersFreeAt[i] <= currentTime) { bestTellerIdx = i; break; }]. *)
Definition findFreeTeller (tellers : list Q) (currentTime : Q) : option nat :=
  findIndex (fun freeAt => Qle_bool freeAt currentTime) tellers.

(** [queueCustomers.find(c => c.id === customerId)]. *)
Definition find_customer (store : list Customer) (queueCustomers : list nat)
           (customerId : nat) : option nat :=
  find (fun ref => match nth_error store ref with
                   | Some c => Nat.eqb (id c) customerId
                   | None => false
                   end) queueCustomers.

(** The body of the loop after [pq.shift()]: [st] already has the event
    removed.  Returns the next state and, when a customer was assigned, its
    reference and teller. *)
Definition process_event (queueCustomers : list nat) (ev : QueueEvent) (st : QueueState)
  : option (QueueState * option (nat * nat)) :=
  let currentTime := time ev in
  match etype ev with
  | ARRIVAL customerId =>
    match find_customer (store st) queueCustomers customerId with
    | None => None
    | Some ref =>
      match findFreeTeller (tellersFreeAt st) currentTime with
      | Some bestTellerIdx =>
        option_map (fun st' => (st', Some (ref, bestTellerIdx)))
                   (assignService ref bestTellerIdx currentTime st)
      | None =>
        Some ({| store := store st;
                 pq := pq st;
                 waitingBuffer := waitingBuffer st ++ [ref];
                 tellersFreeAt := tellersFreeAt st |}, None)
      end
    end
  | TELLER_FREE tellerIdx =>
    match popNextCustomer (store st) (waitingBuffer st) with
    | Some (nextCustomer, buffer') =>
      option_map (fun st' => (st', Some (nextCustomer, tellerIdx)))
                 (assignService nextCustomer tellerIdx currentTime
                    {| store := store st;
                       pq := pq st;
                       waitingBuffer := buffer';
                       tellersFreeAt := tellersFreeAt st |})
    | None => Some (st, None)
    end
  end.

(** One processed event, as observed from outside the loop: the event taken
    off the queue, the events left on the queue by [pq.shift()], the
    assignment the event caused (customer reference and teller), and the
    free-at vector after it. *)
Record Processed := mkProcessed {
  event : QueueEvent;
  pending : list QueueEvent;
  assignment : option (nat * nat);
  tellersAfter : list Q
}.

Inductive LoopResult :=
| Finished (st : QueueState) (processed : list Processed)
| TypeError
| OutOfFuel.

(** [while (pq.length > 0) { pq.sort(compareEvents); event = pq.shift(); ... }]
    with a bound on the number of iterations. *)
Fixpoint event_loop (fuel : nat) (queueCustomers : list nat) (st : QueueState) : LoopResult :=
  match pq st with
  | [] => Finished st []
  | _ :: _ =>
    match fuel with
    | O => OutOfFuel
    | S fuel' =>
      match js_sort compareEvents (pq st) with
      | [] => Finished st []
      | ev :: rest =>
        match process_event queueCustomers ev
                {| store := store st;
                   pq := rest;
                   waitingBuffer := waitingBuffer st;
                   tellersFreeAt := tellersFreeAt st |} with
        | None => TypeError
        | Some (st', a) =>
          match event_loop fuel' queueCustomers st' with
          | Finished st'' tr => Finished st'' (mkProcessed ev rest a (tellersFreeAt st') :: tr)
          | TypeError => TypeError
          | OutOfFuel => OutOfFuel
          end
        end
      end
    end
  end.

(** The arrival event pushed for a customer of the line. *)
Definition arrival_event (store : list Customer) (ref : nat) : list QueueEvent :=
  match nth_error store ref with
  | Some c => [mkQueueEvent (arrivalTime c) (ARRIVAL (id c))]
  | None => []
  end.

Definition initial_state (store : list Customer) (queueCustomers : list nat)
           (tellers : list Q) : QueueState :=
  {| store := store;
     pq := js_sort compareTime (flat_map (arrival_event store) queueCustomers);
     waitingBuffer := [];
     tellersFreeAt := tellers |}.

(** Two events per customer at most are ever processed (see
    [runs_length]); the loop is run with that many iterations and one to
    spare, see [simulateQueue_finishes]. *)
Definition loop_bound (queueCustomers : list nat) : nat :=
  S (2 * length queueCustomers).

Definition simulateQueue (store : list Customer) (queueCustomers : list nat)
           (tellers : list Q) : LoopResult :=
  event_loop (loop_bound queueCustomers) queueCustomers
             (initial_state store queueCustomers tellers).

(** ** processEvents and run *)

Inductive RunError :=
| RangeError          (* [new Array(count)] with a count that is no array length *)
| UndefinedCustomer   (* a field of [undefined] was written *)
| IterationBound      (* the bound of [event_loop] was reached *)
| OutOfDraws.         (* the generator loop was still running when the draws ended *)

Inductive Outcome (A : Type) :=
| Failed (e : RunError)
| Completed (a : A).
Arguments Failed {A} e.
Arguments Completed {A} a.

(** The largest array length, 2^32 - 1. *)
Definition max_array_length : Z := 4294967295.

(** [new Array(count).fill(v)]: a RangeError unless [count] is an array
    length. *)
Definition new_filled_array {A : Type} (count : Z) (v : A) : Outcome (list A) :=
  if ((count <? 0) || (max_array_length <? count))%Z then Failed RangeError
  else Completed (repeat v (Z.to_nat count)).

Definition compareArrival (a b : Customer) : Q := arrivalTime a - arrivalTime b.

(** [this.customers.filter(c => c.serviceType === line)], as references. *)
Definition line_customers (line : ServiceType) (population : list Customer) : list nat :=
  filter (fun ref => match nth_error population ref with
                     | Some c => ServiceType_eqb (serviceType c) line
                     | None => false
                     end)
         (seq 0 (length population)).

Definition loop_outcome (r : LoopResult) : Outcome (QueueState * list Processed) :=
  match r with
  | Finished st tr => Completed (st, tr)
  | TypeError => Failed UndefinedCustomer
  | OutOfFuel => Failed IterationBound
  end.

(** What [processEvents] leaves behind: the customer objects, and for each
    line the events its loop processed. *)
Record Processing := mkProcessing {
  population : list Customer;
  highProcessed : list Processed;
  lowProcessed : list Processed
}.

Definition processEvents (cfg : SimulationConfig) (generated : list Customer)
  : Outcome Processing :=
  match new_filled_array (count (highCounter cfg)) 0 with
  | Failed e => Failed e
  | Completed highTellersFreeAt =>
    match new_filled_array (count (lowCounter cfg)) 0 with
    | Failed e => Failed e
    | Completed lowTellersFreeAt =>
      let sorted := js_sort compareArrival generated in
      match loop_outcome (simulateQueue sorted (line_customers HIGH_COUNTER sorted)
                                        highTellersFreeAt) with
      | Failed e => Failed e
      | Completed (st1, trHigh) =>
        match loop_outcome (simulateQueue (store st1) (line_customers LOW_COUNTER (store st1))
                                          lowTellersFreeAt) with
        | Failed e => Failed e
        | Completed (st2, trLow) =>
          Completed {| population := store st2;
                       highProcessed := trHigh;
                       lowProcessed := trLow |}
        end
      end
    end
  end.

(** The part of [SimulationResult] the snapshot projector reads.  (The
    metrics block is computed from it by [calculateMetrics] below; the
    observational event log is not modelled.) *)
Record SimulationResult := mkSimulationResult {
  customers : list Customer;
  config : SimulationConfig
}.

(** [run()], for the draws the random source returns: [generateArrivals()]
    must have left its loop before [processEvents()] is entered. *)
Definition run (cfg : SimulationConfig) (draws : list Draw) : Outcome SimulationResult :=
  if loop_exits cfg 0 draws then
    match processEvents cfg (generateArrivals cfg draws) with
    | Failed e => Failed e
    | Completed p => Completed {| customers := population p; config := cfg |}
    end
  else Failed OutOfDraws.

(** ** Snapshot projector *)

Module Snapshot.

Record t := mk {
  time : Q;
  customersInQueueHigh : list Customer;
  customersInQueueLow : list Customer;
  customersAtTellerHigh : list (option Customer);
  customersAtTellerLow : list (option Customer);
  finishedCount : nat
}.

End Snapshot.

(** [c.arrivalTime <= time && (c.serviceStartTime === null || c.serviceStartTime > time)]
    on the customers of one line. *)
Definition in_queue_at (line : ServiceType) (t : Q) (c : Customer) : bool :=
  ServiceType_eqb (serviceType c) line
  && Qle_bool (arrivalTime c) t
  && match serviceStartTime c with
     | None => true
     | Some s => Qltb t s
     end.

(** [c.serviceStartTime !== null && c.serviceStartTime <= time &&
     (c.serviceEndTime === null || c.serviceEndTime > time)]. *)
Definition at_teller_at (t : Q) (c : Customer) : bool :=
  match serviceStartTime c with
  | None => false
  | Some s =>
    Qle_bool s t
    && match serviceEndTime c with
       | None => true
       | Some e => Qltb t e
       end
  end.

(** [if (c.tellerId !== null && c.tellerId < arr.length) arr[c.tellerId] = c]. *)
Definition place_at_teller (c : Customer) (arr : list (option Customer))
  : list (option Customer) :=
  match tellerId c with
  | Some i => if Nat.ltb i (length arr) then array_set i (Some c) arr else arr
  | None => arr
  end.

(** The body of [customers.forEach] on the pair of teller arrays. *)
Definition place_customer (t : Q)
           (arrs : list (option Customer) * list (option Customer)) (c : Customer)
  : list (option Customer) * list (option Customer) :=
  if at_teller_at t c then
    match serviceType c with
    | HIGH_COUNTER => (place_at_teller c (fst arrs), snd arrs)
    | LOW_COUNTER => (fst arrs, place_at_teller c (snd arrs))
    end
  else arrs.

(** [c.serviceEndTime !== null && c.serviceEndTime <= time]. *)
Definition finished_at (t : Q) (c : Customer) : bool :=
  match serviceEndTime c with
  | None => false
  | Some e => Qle_bool e t
  end.

Definition getSnapshotAtTime (result : SimulationResult) (t : Q) : Outcome Snapshot.t :=
  let cs := customers result in
  let inQueueHigh := js_sort compareArrival (filter (in_queue_at HIGH_COUNTER t) cs) in
  let inQueueLow := js_sort compareArrival (filter (in_queue_at LOW_COUNTER t) cs) in
  match new_filled_array (count (highCounter (config result))) (@None Customer) with
  | Failed e => Failed e
  | Completed atTellerHigh0 =>
    match new_filled_array (count (lowCounter (config result))) (@None Customer) with
    | Failed e => Failed e
    | Completed atTellerLow0 =>
      let arrs := fold_left (place_customer t) cs (atTellerHigh0, atTellerLow0) in
      Completed {| Snapshot.time := t;
                   Snapshot.customersInQueueHigh := inQueueHigh;
                   Snapshot.customersInQueueLow := inQueueLow;
                   Snapshot.customersAtTellerHigh := fst arrs;
                   Snapshot.customersAtTellerLow := snd arrs;
                   Snapshot.finishedCount := length (filter (finished_at t) cs) |}
    end
  end.

(** * Vocabulary of the properties *)

(** ** Array lengths *)

(** [n] is an array length: an integer from 0 to 2^32 - 1. *)
Definition array_length (n : Z) : Prop := (0 <= n <= max_array_length)%Z.

(** ** Snapshot projector *)

(** The service of [c] has ended by time [t]. *)
Definition ended_by (t : Q) (c : Customer) : Prop :=
  exists e, serviceEndTime c = Some e /\ e <= t.

(** [c] was served ("finished" in the metrics aggregator). *)
Definition was_served (c : Customer) : Prop :=
  exists e, serviceEndTime c = Some e.

(** [n] elements of [l] satisfy [P]. *)
Inductive counts {A : Type} (P : A -> Prop) : list A -> nat -> Prop :=
| counts_nil : counts P [] 0
| counts_yes x l n : P x -> counts P l n -> counts P (x :: l) (S n)
| counts_no x l n : ~ P x -> counts P l n -> counts P (x :: l) n.

(** What a teller array may hold at index [i]. *)
Definition placed_ok (line : ServiceType) (t : Q) (cs : list Customer) (n i : nat)
           (c : Customer) : Prop :=
  In c cs /\ serviceType c = line /\ tellerId c = Some i /\ (i < n)%nat /\
  at_teller_at t c = true.

Definition slots_ok (line : ServiceType) (t : Q) (cs : list Customer)
           (arr : list (option Customer)) : Prop :=
  forall i c, nth_error arr i = Some (Some c) -> placed_ok line t cs (length arr) i c.

(** A customer listed as waiting at [t] has arrived and has not started. *)
Definition waiting_at (t : Q) (c : Customer) : Prop :=
  arrivalTime c <= t /\
  (serviceStartTime c = None \/ exists s, serviceStartTime c = Some s /\ t < s).

(** ** Queue simulation engine *)

(** [c'] is the customer [c] taken into service by teller [i] at time [t]:
    identity, class, line, arrival time and service duration are those of
    [c]; the service starts at [t] and ends a service duration later; the
    wait is the time from the arrival to [t]; the sentiment follows the wait
    (Happy up to 5, Neutral up to 15, Angry beyond). *)
Definition taken_into_service (c : Customer) (i : nat) (t : Q) (c' : Customer) : Prop :=
  id c' = id c /\ type c' = type c /\ serviceType c' = serviceType c /\
  arrivalTime c' = arrivalTime c /\ serviceTime c' = serviceTime c /\
  serviceStartTime c' = Some t /\
  serviceEndTime c' = Some (t + serviceTime c) /\
  tellerId c' = Some i /\
  waitTime c' = t - arrivalTime c /\
  (waitTime c' <= 5 -> sentiment c' = HAPPY) /\
  (5 < waitTime c' -> waitTime c' <= 15 -> sentiment c' = NEUTRAL) /\
  (15 < waitTime c' -> sentiment c' = ANGRY).

(** The teller-free event that ends the service of [c] started by teller
    [i] at time [t]. *)
Definition service_end (c : Customer) (i : nat) (t : Q) : QueueEvent :=
  mkQueueEvent (t + serviceTime c) (TELLER_FREE i).

(** [v'] is the free-at vector [v] with the entry of teller [i] moved to
    [f]. *)
Definition teller_booked (v : list Q) (i : nat) (f : Q) (v' : list Q) : Prop :=
  length v' = length v /\ nth_error v' i = Some f /\
  forall j, j <> i -> nth_error v' j = nth_error v j.

(** The customer objects [s'] are the objects [s] with the one at [r]
    replaced: all the others are untouched. *)
Definition others_untouched (s : list Customer) (r : nat) (s' : list Customer) : Prop :=
  length s' = length s /\ forall x, x <> r -> nth_error s' x = nth_error s x.

(** The four ways one event is processed, as a relation between the state
    after [pq.shift()] and the state at the end of the iteration. *)
Inductive step_spec (queueCustomers : list nat) (ev : QueueEvent) (st : QueueState)
  : QueueState -> option (nat * nat) -> Prop :=
| step_arrival_assign customerId ref i c :
    etype ev = ARRIVAL customerId ->
    find_customer (store st) queueCustomers customerId = Some ref ->
    findFreeTeller (tellersFreeAt st) (time ev) = Some i ->
    nth_error (store st) ref = Some c ->
    step_spec queueCustomers ev st
      {| store := array_set ref (assign_fields c i (time ev)) (store st);
         pq := pq st ++ [mkQueueEvent (time ev + serviceTime c) (TELLER_FREE i)];
         waitingBuffer := waitingBuffer st;
         tellersFreeAt := array_set i (time ev + serviceTime c) (tellersFreeAt st) |}
      (Some (ref, i))
| step_arrival_wait customerId ref :
    etype ev = ARRIVAL customerId ->
    find_customer (store st) queueCustomers customerId = Some ref ->
    findFreeTeller (tellersFreeAt st) (time ev) = None ->
    step_spec queueCustomers ev st
      {| store := store st;
         pq := pq st;
         waitingBuffer := waitingBuffer st ++ [ref];
         tellersFreeAt := tellersFreeAt st |}
      None
| step_free_idle i :
    etype ev = TELLER_FREE i ->
    popNextCustomer (store st) (waitingBuffer st) = None ->
    step_spec queueCustomers ev st st None
| step_free_assign i ref buffer' c :
    etype ev = TELLER_FREE i ->
    popNextCustomer (store st) (waitingBuffer st) = Some (ref, buffer') ->
    nth_error (store st) ref = Some c ->
    step_spec queueCustomers ev st
      {| store := array_set ref (assign_fields c i (time ev)) (store st);
         pq := pq st ++ [mkQueueEvent (time ev + serviceTime c) (TELLER_FREE i)];
         waitingBuffer := buffer';
         tellersFreeAt := array_set i (time ev + serviceTime c) (tellersFreeAt st) |}
      (Some (ref, i)).

(** The state handed to [process_event]: [st] with its queue replaced by
    what is left after the shift. *)
Definition with_pq (st : QueueState) (rest : list QueueEvent) : QueueState :=
  {| store := store st;
     pq := rest;
     waitingBuffer := waitingBuffer st;
     tellersFreeAt := tellersFreeAt st |}.

Definition is_arrival (e : QueueEvent) : bool := negb (is_teller_free e).

(** Twice the pending arrivals, plus the pending teller-free events, plus
    the customers waiting: what is left to do. *)
Definition work_left (st : QueueState) : nat :=
  2 * length (filter is_arrival (pq st)) + length (filter is_teller_free (pq st))
  + length (waitingBuffer st).

(** The teller-free event an assignment pushes on the queue. *)
Definition spawned (population : list Customer) (p : Processed) : list QueueEvent :=
  match assignment p with
  | Some (ref, i) =>
    match nth_error population ref with
    | Some c => [mkQueueEvent (time (event p) + serviceTime c) (TELLER_FREE i)]
    | None => []
    end
  | None => []
  end.

(** The customers assigned along a run of the loop, in order. *)
Definition assigned_refs (tr : list Processed) : list nat :=
  flat_map (fun p => match assignment p with
                     | Some (ref, _) => [ref]
                     | None => []
                     end) tr.

(** The fields of a customer that [assignService] never writes. *)
Definition same_static (c c0 : Customer) : Prop :=
  id c = id c0 /\ type c = type c0 /\ serviceType c = serviceType c0 /\
  arrivalTime c = arrivalTime c0 /\ serviceTime c = serviceTime c0.

(** A customer object as the generator creates it. *)
Definition fresh (c : Customer) : Prop :=
  serviceStartTime c = None /\ serviceEndTime c = None /\ tellerId c = None.

(** Runs of the event loop: from [st], processing the events [tr] in this
    order, the loop ends in [st'] with an empty queue. *)
Inductive runs (queueCustomers : list nat) : QueueState -> list Processed -> QueueState -> Prop :=
| runs_done st :
    pq st = [] -> runs queueCustomers st [] st
| runs_step st ev rest st1 a tr st2 :
    js_sort compareEvents (pq st) = ev :: rest ->
    step_spec queueCustomers ev (with_pq st rest) st1 a ->
    runs queueCustomers st1 tr st2 ->
    runs queueCustomers st (mkProcessed ev rest a (tellersFreeAt st1) :: tr) st2.

(** States of the loop over the population [init] (the customer objects as
    they were when the loop started): the objects differ from [init] only in
    the fields [assignService] writes, every pending arrival is the arrival
    of a customer of the line, the waiting buffer holds customers of the
    population, and every pending teller-free event names an existing
    teller. *)
Record wf (init : list Customer) (queueCustomers : list nat) (st : QueueState) : Prop := mk_wf {
  wf_store : Forall2 same_static (store st) init;
  wf_arrivals : forall e cid, In e (pq st) -> etype e = ARRIVAL cid ->
                              exists r, find_customer init queueCustomers cid = Some r;
  wf_buffer : Forall (fun r => (r < length init)%nat) (waitingBuffer st);
  wf_tellers : forall e i, In e (pq st) -> etype e = TELLER_FREE i ->
                           (i < length (tellersFreeAt st))%nat
}.

(** The customers whose arrival event is pending. *)
Definition pending_refs (init : list Customer) (queueCustomers : list nat)
           (l : list QueueEvent) : list nat :=
  flat_map (fun e => match etype e with
                     | ARRIVAL cid =>
                       match find_customer init queueCustomers cid with
                       | Some r => [r]
                       | None => []
                       end
                     | TELLER_FREE _ => []
                     end) l.

(** The customers that can still be assigned: arrival pending, or waiting. *)
Definition avail (init : list Customer) (queueCustomers : list nat) (st : QueueState)
  : list nat :=
  pending_refs init queueCustomers (pq st) ++ waitingBuffer st.

(** States of the loop over a population with distinct ids: every pending
    arrival carries the id and the arrival time of one customer of the line,
    no customer is both pending and waiting or twice either, and the objects
    of these customers are as they were at the start. *)
Record tracked (init : list Customer) (queueCustomers : list nat) (st : QueueState)
  : Prop := mk_tracked {
  tk_wf : wf init queueCustomers st;
  tk_arrivals : forall e cid, In e (pq st) -> etype e = ARRIVAL cid ->
      exists r c, find_customer init queueCustomers cid = Some r /\
                  nth_error init r = Some c /\ time e = arrivalTime c;
  tk_avail : NoDup (avail init queueCustomers st);
  tk_untouched : forall r, In r (avail init queueCustomers st) ->
      In r queueCustomers /\ nth_error (store st) r = nth_error init r
}.

(** What one iteration does to the customer objects: nothing, or the
    assignment of one customer that could still be assigned. *)
Definition step_effect (init : list Customer) (queueCustomers : list nat)
           (ev : QueueEvent) (st st1 : QueueState) (a : option (nat * nat)) : Prop :=
  match a with
  | Some (r, i) =>
    Permutation (avail init queueCustomers st) (r :: avail init queueCustomers st1) /\
    exists c, nth_error init r = Some c /\
              store st1 = array_set r (assign_fields c i (time ev)) (store st) /\
              tellersFreeAt st1 = array_set i (time ev + serviceTime c) (tellersFreeAt st)
  | None =>
    Permutation (avail init queueCustomers st) (avail init queueCustomers st1) /\
    store st1 = store st /\ tellersFreeAt st1 = tellersFreeAt st
  end.

(** ** Order of the events *)

(** The timestamps of [l] are pairwise equal or at least the tolerance of
    the comparator apart: no two of them are "equal" for the comparator
    without being equal. *)
Definition separated (l : list QueueEvent) : Prop :=
  forall x y, In x l -> In y l ->
    time x == time y \/ tolerance <= Qabs (time x - time y).

(** The same, decided. *)
Definition separatedb (l : list QueueEvent) : bool :=
  forallb (fun x =>
    forallb (fun y => Qeq_bool (time x) (time y)
                      || Qle_bool tolerance (Qabs (time x - time y))) l) l.

(** No near tie at the moment [p] was taken off the queue: the timestamps
    of the event taken and of the events left are separated. *)
Definition no_near_tie (p : Processed) : Prop := separated (event p :: pending p).

Definition no_near_tieb (p : Processed) : bool := separatedb (event p :: pending p).

(** [a] is due no later than [b]: an earlier timestamp, or the same
    timestamp without [a] being an arrival and [b] a teller-free event. *)
Definition precedes (a b : QueueEvent) : Prop :=
  time a < time b \/
  (time a == time b /\ (is_teller_free a = true \/ is_teller_free b = false)).

(** [q] is a whole multiple of [step]. *)
Definition on_grid (step q : Q) : Prop := exists k : Z, q == inject_Z k * step.

(** ** Servers and service intervals *)

(** The tellers that have a teller-free event pending. *)
Definition free_indices (l : list QueueEvent) : list nat :=
  flat_map (fun e => match etype e with
                     | TELLER_FREE i => [i]
                     | ARRIVAL _ => []
                     end) l.

(** The service of [c1] ends before the service of [c2] starts, or the
    other way round. *)
Definition disjoint_service (c1 c2 : Customer) : Prop :=
  forall s1 s2, serviceStartTime c1 = Some s1 -> serviceStartTime c2 = Some s2 ->
    s1 + serviceTime c1 <= s2 \/ s2 + serviceTime c2 <= s1.

(** Service bookkeeping of one line: a waiting customer arrived before
    every teller becomes free; a served customer started no earlier than it
    arrived, on a teller whose free-at is at least the end of that service;
    two customers served by one teller have disjoint services. *)
Record service_ok (init : list Customer) (queueCustomers : list nat)
       (population : list Customer) (tellers : list Q) (buffer : list nat) : Prop :=
  mk_service_ok {
  so_waiting : forall r c f, In r buffer -> nth_error init r = Some c -> In f tellers ->
      arrivalTime c < f;
  so_served : forall r c s, In r queueCustomers -> nth_error population r = Some c ->
      serviceStartTime c = Some s ->
      arrivalTime c <= s /\
      exists i f, tellerId c = Some i /\ nth_error tellers i = Some f /\
                  s + serviceTime c <= f;
  so_disjoint : forall r1 r2 c1 c2 i, r1 <> r2 ->
      In r1 queueCustomers -> In r2 queueCustomers ->
      nth_error population r1 = Some c1 -> nth_error population r2 = Some c2 ->
      tellerId c1 = Some i -> tellerId c2 = Some i ->
      disjoint_service c1 c2
}.

(** States of the loop in which the pending teller-free events and the
    free-at vector agree: at most one event per teller, carrying the free-at
    time of that teller. *)
Record ordered (init : list Customer) (queueCustomers : list nat) (st : QueueState)
  : Prop := mk_ordered {
  od_tracked : tracked init queueCustomers st;
  od_one_free : NoDup (free_indices (pq st));
  od_free_at : forall e i, In e (pq st) -> etype e = TELLER_FREE i ->
      nth_error (tellersFreeAt st) i = Some (time e);
  od_service : service_ok init queueCustomers (store st) (tellersFreeAt st)
                          (waitingBuffer st)
}.

(** The event taken off the queue is not an arrival that overtakes a
    pending teller-free event of the same or an earlier time. *)
Definition head_ok (ev : QueueEvent) (rest : list QueueEvent) : Prop :=
  is_teller_free ev = false ->
  forall e, In e rest -> is_teller_free e = true -> time ev < time e.

(** Pointwise order on free-at vectors. *)
Definition tellers_le (v1 v2 : list Q) : Prop :=
  length v1 = length v2 /\
  forall i f1 f2, nth_error v1 i = Some f1 -> nth_error v2 i = Some f2 -> f1 <= f2.

(** Every pending timestamp is a whole multiple of [step]. *)
Definition gridded (step : Q) (st : QueueState) : Prop :=
  forall e, In e (pq st) -> on_grid step (time e).

(** The arrival time and the service duration of [c] are whole multiples of
    [step], and the duration is not negative. *)
Definition customer_on_grid (step : Q) (c : Customer) : Prop :=
  on_grid step (arrivalTime c) /\ on_grid step (serviceTime c) /\ 0 <= serviceTime c.

(** ** Customer records *)

(** The derived fields of a customer that has a start time agree with it:
    wait, end and sentiment are those [assignService] computes. *)
Definition consistent (c : Customer) : Prop :=
  forall s, serviceStartTime c = Some s ->
    waitTime c = s - arrivalTime c /\
    serviceEndTime c = Some (s + serviceTime c) /\
    (waitTime c <= 5 -> sentiment c = HAPPY) /\
    (5 < waitTime c -> waitTime c <= 15 -> sentiment c = NEUTRAL) /\
    (15 < waitTime c -> sentiment c = ANGRY).

(** The draws of one iteration of the generator are whole multiples of
    [step], and the service duration is not negative. *)
Definition draw_on_grid (step : Q) (d : Draw) : Prop :=
  on_grid step (interArrival d) /\ on_grid step (serviceDraw d) /\ 0 <= serviceDraw d.

(** A customer object exactly as [generateArrivals] pushes it. *)
Definition as_created (c : Customer) : Prop :=
  fresh c /\ waitTime c = 0 /\ sentiment c = HAPPY.

(** The configured server count of a line. *)
Definition line_count (cfg : SimulationConfig) (line : ServiceType) : Z :=
  match line with
  | HIGH_COUNTER => count (highCounter cfg)
  | LOW_COUNTER => count (lowCounter cfg)
  end.

(** * Worked inputs *)

(** One teller per line; three customers of the high-counter line arrive at
    1, 2 and 3: a walk-in (10 minutes of service), a walk-in (4 minutes) and
    a reserved customer (2 minutes); the fourth gap takes the clock past the
    horizon. *)
Definition example_config : SimulationConfig :=
  mkSimulationConfig 60 60 50 100 (mkCounterConfig 1 2 4 8) (mkCounterConfig 1 10 15 25).

Definition example_draws : list Draw :=
  [mkDraw 1 (9 # 10) 0 10; mkDraw 1 (9 # 10) 0 4; mkDraw 1 (1 # 10) 0 2;
   mkDraw 60 (1 # 2) 0 3].

Definition example_created : list Customer :=
  Eval vm_compute in generateArrivals example_config example_draws.

Definition example_processing : Processing :=
  Eval vm_compute in
    match processEvents example_config example_created with
    | Completed p => p
    | Failed _ => mkProcessing [] [] []
    end.

Definition example_result : SimulationResult :=
  {| customers := population example_processing; config := example_config |}.

(** The state of the high-counter line of the example when its loop starts,
    the events it processes and the state it ends in. *)
Definition example_line : list nat := [0; 1; 2]%nat.

Definition example_start : QueueState :=
  Eval vm_compute in initial_state example_created example_line [0].

Definition example_end : QueueState :=
  Eval vm_compute in
    match simulateQueue example_created example_line [0] with
    | Finished st _ => st
    | _ => example_start
    end.

Definition example_trace : list Processed :=
  Eval vm_compute in
    match simulateQueue example_created example_line [0] with
    | Finished _ tr => tr
    | _ => []
    end.

(** The moment of the example at which teller 0 becomes free (time 11)
    while the second walk-in and the reserved customer are waiting. *)
Definition example_waiting : QueueState :=
  {| store := array_set 0 (assign_fields (nth 0 example_created
                                              (mkCustomer 0 WALK_IN HIGH_COUNTER 0 None None
                                                          None 0 0 HAPPY)) 0 1)
                        example_created;
     pq := [];
     waitingBuffer := [1; 2]%nat;
     tellersFreeAt := [11] |}.

(** A high-counter line without servers that receives all the traffic. *)
Definition no_server_config : SimulationConfig :=
  mkSimulationConfig 60 60 20 100 (mkCounterConfig 0 2 4 8) (mkCounterConfig 2 10 15 25).

Definition no_server_draws : list Draw := [mkDraw 1 (1 # 2) 0 3; mkDraw 60 (1 # 2) 0 3].

(** A customer that arrives one minute before the horizon. *)
Definition late_draws : list Draw := [mkDraw 59 (1 # 2) 0 5; mkDraw 2 (1 # 2) 0 5].

Definition late_result : SimulationResult :=
  Eval vm_compute in
    match run example_config late_draws with
    | Completed r => r
    | Failed _ => mkSimulationResult [] example_config
    end.

(** A result, not produced by [run], in which a customer being served
    carries a teller index beyond the configured tellers. *)
Definition stray_result : SimulationResult :=
  {| customers :=
       [mkCustomer 1 WALK_IN HIGH_COUNTER 0 (Some 0) (Some 10) (Some 7%nat) 0 10 HAPPY;
        mkCustomer 2 WALK_IN HIGH_COUNTER 1 (Some 1) (Some 3) (Some 0%nat) 0 2 HAPPY;
        mkCustomer 3 RESERVED LOW_COUNTER 1 None None None 0 2 HAPPY];
     config := example_config |}.
(** * The metrics aggregator *)

(** ** Numbers that a division may produce *)

(** [busyTime / durationMinutes] divides by a configured number, which may
    be zero: the quotient is a rational, an infinity or NaN.  (The two signed
    zeros are not told apart: a zero divisor counts as [+0].) *)
Inductive JsNumber :=
| Finite (q : Q)
| PlusInfinity
| MinusInfinity
| NaN.

(** [a / b] on two finite numbers. *)
Definition js_div (a b : Q) : JsNumber :=
  if Qeq_bool b 0 then
    if Qeq_bool a 0 then NaN
    else if Qltb 0 a then PlusInfinity else MinusInfinity
  else Finite (a / b).

(** [Math.max(a, b)] and [Math.min(a, b)] on finite numbers. *)
Definition Math_max (a b : Q) : Q := if Qltb a b then b else a.

Definition Math_min (a b : Q) : Q := if Qltb b a then b else a.

(** [Math.min(1, x)]. *)
Definition Math_min_1 (x : JsNumber) : JsNumber :=
  match x with
  | Finite q => Finite (Math_min 1 q)
  | PlusInfinity => Finite 1
  | MinusInfinity => MinusInfinity
  | NaN => NaN
  end.

(** [Math.max(...l)] on a non-empty array. *)
Definition Math_max_of (first : Q) (others : list Q) : Q := fold_left Math_max others first.

(** [n || 1] on an array length. *)
Definition or_one (n : nat) : Q :=
  match n with
  | O => 1
  | S _ => inject_Z (Z.of_nat n)
  end.

(** [l.reduce((a, b) => a + b, 0)]. *)
Definition reduce_sum (l : list Q) : Q := fold_left Qplus l 0.

(** ** Text *)

Module Text.
Import String.
Local Open Scope string_scope.

(** A non-negative integer in decimal, as template literals print it. *)
Definition decimal (n : nat) : string :=
  DecimalString.NilEmpty.string_of_uint (Nat.to_uint n).

(** [`${labelPrefix} ${i + 1}`]. *)
Definition teller_label (labelPrefix : string) (i : nat) : string :=
  labelPrefix ++ " " ++ decimal (i + 1).

Definition High : string := "High".

Definition Low : string := "Low".

End Text.

(** ** Records of the metrics block *)

Module TellerMetric.

Record t := mk {
  id : nat;
  label : String.string;
  servedCount : nat;
  busyTime : Q;
  idleTime : Q;
  utilization : JsNumber
}.

End TellerMetric.

Record SentimentStats := mkSentimentStats {
  happy : nat;
  neutral : nat;
  angry : nat
}.

Record TellerStats := mkTellerStats {
  high : list TellerMetric.t;
  low : list TellerMetric.t
}.

Record Metrics := mkMetrics {
  avgWaitTime : Q;
  maxWaitTime : Q;
  avgQueueLengthHigh : Q;
  avgQueueLengthLow : Q;
  maxQueueLengthHigh : Q;
  maxQueueLengthLow : Q;
  avgWaitTimeWalkIn : Q;
  avgWaitTimeReserved : Q;
  throughput : nat;
  tellerStats : TellerStats;
  sentimentStats : SentimentStats
}.

(** ** calculateMetrics *)

(** [c.serviceEndTime !== null]. *)
Definition has_ended (c : Customer) : bool :=
  match serviceEndTime c with
  | Some _ => true
  | None => false
  end.

Definition has_type (ty : CustomerType) (c : Customer) : bool :=
  CustomerType_eqb (type c) ty.

Definition Sentiment_eqb (a b : Sentiment) : bool :=
  match a, b with
  | HAPPY, HAPPY | NEUTRAL, NEUTRAL | ANGRY, ANGRY => true
  | _, _ => false
  end.

Definition has_sentiment (s : Sentiment) (c : Customer) : bool :=
  Sentiment_eqb (sentiment c) s.

(** [c.serviceType === type && c.tellerId === i]. *)
Definition served_by (line : ServiceType) (i : nat) (c : Customer) : bool :=
  ServiceType_eqb (serviceType c) line
  && match tellerId c with
     | Some j => Nat.eqb j i
     | None => false
     end.

(** The callback of [Array.from({ length: count }, (_, i) => ...)] in
    [createTellerStats]. *)
Definition teller_metric (durationMinutes : Q) (finished : list Customer)
           (line : ServiceType) (labelPrefix : String.string) (i : nat) : TellerMetric.t :=
  let myCustomers := filter (served_by line i) finished in
  let busyTime := fold_left (fun acc c => acc + serviceTime c) myCustomers 0 in
  {| TellerMetric.id := i;
     TellerMetric.label := Text.teller_label labelPrefix i;
     TellerMetric.servedCount := length myCustomers;
     TellerMetric.busyTime := busyTime;
     TellerMetric.idleTime := Math_max 0 (durationMinutes - busyTime);
     TellerMetric.utilization := Math_min_1 (js_div busyTime durationMinutes) |}.

(** [createTellerStats(count, type, labelPrefix)]; a negative [count] is an
    array-like of length 0. *)
Definition createTellerStats (durationMinutes : Q) (finished : list Customer)
           (count : Z) (line : ServiceType) (labelPrefix : String.string)
  : list TellerMetric.t :=
  map (teller_metric durationMinutes finished line labelPrefix) (seq 0 (Z.to_nat count)).

(** [calculateMetrics()] on [this.customers] and [this.config]: the
    [metrics] field of the result. *)
Definition calculateMetrics (cs : list Customer) (cfg : SimulationConfig) : Metrics :=
  let finished := filter has_ended cs in
  let waitTimes := map waitTime finished in
  let walkIns := filter (has_type WALK_IN) finished in
  let reserved := filter (has_type RESERVED) finished in
  {| avgWaitTime := reduce_sum waitTimes / or_one (length finished);
     maxWaitTime := match waitTimes with
                    | [] => 0
                    | w :: ws => Math_max_of w ws
                    end;
     avgQueueLengthHigh := 0;
     avgQueueLengthLow := 0;
     maxQueueLengthHigh := 0;
     maxQueueLengthLow := 0;
     avgWaitTimeWalkIn :=
       fold_left (fun a b => a + waitTime b) walkIns 0 / or_one (length walkIns);
     avgWaitTimeReserved :=
       fold_left (fun a b => a + waitTime b) reserved 0 / or_one (length reserved);
     throughput := length finished;
     tellerStats :=
       {| high := createTellerStats (durationMinutes cfg) finished
                                    (count (highCounter cfg)) HIGH_COUNTER Text.High;
          low := createTellerStats (durationMinutes cfg) finished
                                   (count (lowCounter cfg)) LOW_COUNTER Text.Low |};
     sentimentStats :=
       {| happy := length (filter (has_sentiment HAPPY) finished);
          neutral := length (filter (has_sentiment NEUTRAL) finished);
          angry := length (filter (has_sentiment ANGRY) finished) |} |}.

(** The metrics block of the result [run()] returns. *)
Definition metrics (result : SimulationResult) : Metrics :=
  calculateMetrics (customers result) (config result).
(** * The views *)

(** ** MetricsPanel: task counts *)

Module MetricsPanel.

(** [customers.filter(c => c.serviceEndTime !== null)]. *)
Definition finishedCustomers (result : SimulationResult) : list Customer :=
  filter has_ended (customers result).

Definition on_line (line : ServiceType) (c : Customer) : bool :=
  ServiceType_eqb (serviceType c) line.

Definition highCounterTasks (result : SimulationResult) : nat :=
  length (filter (on_line HIGH_COUNTER) (finishedCustomers result)).

Definition lowCounterTasks (result : SimulationResult) : nat :=
  length (filter (on_line LOW_COUNTER) (finishedCustomers result)).

End MetricsPanel.

(** ** Visualizer: the colour of a customer icon *)

Module CustomerIcon.
Import String.
Local Open Scope string_scope.

Definition blue : string := "bg-blue-500".

Definition red : string := "bg-red-500 animate-pulse".

Definition yellow : string := "bg-yellow-500".

Definition emerald : string := "bg-emerald-500".

(** The class [bgColor] of the icon of [customer] drawn at [currentTime];
    [isServing] is set for the icon drawn at a teller station and unset for
    the icons of a waiting line. *)
Definition bgColor (customer : Customer) (currentTime : Q) (isServing : bool) : string :=
  if isServing then blue
  else
    let currentWait := currentTime - arrivalTime customer in
    if Qltb 15 currentWait then red
    else if Qltb 5 currentWait then yellow
    else emerald.

(** The colour the legend of the floor plan gives to a sentiment: emerald
    for "Happy", yellow for "Impatient", red for "Angry". *)
Definition legend (s : Sentiment) : string :=
  match s with
  | HAPPY => emerald
  | NEUTRAL => yellow
  | ANGRY => red
  end.

End CustomerIcon.

(** ** App: the playback clock *)

Module App.

Definition tickRate : Q := 50.

(** [(tickRate / 1000) * playbackSpeed * 2]. *)
Definition timeAdvance (playbackSpeed : Q) : Q := (tickRate / 1000) * playbackSpeed * 2.

(** The playback state: [currentTime] and [isPlaying]. *)
Record Playback := mkPlayback {
  currentTime : Q;
  isPlaying : bool
}.

(** One firing of the interval, which is installed only while [isPlaying]
    is set: the updater of [setCurrentTime], and [setIsPlaying(false)] when
    the horizon is reached. *)
Definition tick (durationMinutes playbackSpeed : Q) (s : Playback) : Playback :=
  if isPlaying s then
    let next := currentTime s + timeAdvance playbackSpeed in
    if Qle_bool durationMinutes next
    then {| currentTime := durationMinutes; isPlaying := false |}
    else {| currentTime := next; isPlaying := true |}
  else s.

(** The state [handleRunSimulation] sets. *)
Definition started : Playback := {| currentTime := 0; isPlaying := true |}.

(** The state after [n] firings. *)
Fixpoint ticks (durationMinutes playbackSpeed : Q) (n : nat) (s : Playback) : Playback :=
  match n with
  | O => s
  | S n' => ticks durationMinutes playbackSpeed n' (tick durationMinutes playbackSpeed s)
  end.

End App.

(** * The samplers *)

(** [randomExponential] and [randomTriangular] compute a logarithm and a
    square root; they are modelled on the real numbers, as functions of the
    value [u] that [Math.random()] returned. *)
Module Sampling.
Import Reals.
Local Open Scope R_scope.

(** [-Math.log(1 - u) / lambda]. *)
Definition randomExponential (lambda u : R) : R := - ln (1 - u) / lambda.

Definition randomTriangular (min max mode u : R) : R :=
  let F := (mode - min) / (max - min) in
  if Rlt_dec u F then min + sqrt (u * (max - min) * (mode - min))
  else max - sqrt ((1 - u) * (max - min) * (max - mode)).

End Sampling.
(** * Vocabulary of the further properties *)

(** ** Arrival generator *)

(** The clock of the generator after the gaps of [draws] were added to it,
    starting from [time0]. *)
Definition elapsed_from (time0 : Q) (draws : list Draw) : Q :=
  fold_left (fun t d => t + interArrival d) draws time0.

Definition elapsed (draws : list Draw) : Q := elapsed_from 0 draws.

(** [a] has arrived no later than [b]. *)
Definition arrives_before (a b : Customer) : Prop := arrivalTime a <= arrivalTime b.

(** ** Queue simulation engine *)

(** States of the loop in which no teller is forgotten: a teller without a
    pending teller-free event is free by the time of every pending event,
    and while somebody waits every teller has a teller-free event pending. *)
Record staffed (st : QueueState) : Prop := mk_staffed {
  sf_idle : forall i f e, nth_error (tellersFreeAt st) i = Some f -> In e (pq st) ->
      In i (free_indices (pq st)) \/ f <= time e;
  sf_waiting : waitingBuffer st <> [] ->
      forall i, (i < length (tellersFreeAt st))%nat -> In i (free_indices (pq st))
}.

(** The events processed for a line. *)
Definition line_processed (p : Processing) (line : ServiceType) : list Processed :=
  match line with
  | HIGH_COUNTER => highProcessed p
  | LOW_COUNTER => lowProcessed p
  end.

(** The arrival time of the customer at index [r] of the population. *)
Definition arrival_of (init : list Customer) (r : nat) : Q :=
  match nth_error init r with
  | Some c => arrivalTime c
  | None => 0
  end.

(** [r2] has no right to pass [r1] in the waiting line: [r1] is reserved,
    or [r2] is a walk-in. *)
Definition keeps_place (init : list Customer) (r1 r2 : nat) : Prop :=
  is_reserved init r1 = true \/ is_reserved init r2 = false.

(** The customer at index [r] has been assigned, with start time [s]. *)
Definition started_at (population : list Customer) (r : nat) (s : Q) : Prop :=
  exists c, nth_error population r = Some c /\ serviceStartTime c = Some s.

(** States of the loop in which nobody was passed without right: the
    waiting customers arrived before every pending event and stand in the
    order of their arrival; the services started before every pending event;
    a served customer did not arrive after a waiting one it had no right to
    pass; and of two served customers the one that arrived first, if the
    other had no right to pass it, started first. *)
Record fair (init : list Customer) (qc : list nat) (st : QueueState) : Prop := mk_fair {
  fr_past : forall r e, In r (waitingBuffer st) -> In e (pq st) ->
      arrival_of init r <= time e;
  fr_buffer : StronglySorted (fun r1 r2 => arrival_of init r1 <= arrival_of init r2)
                             (waitingBuffer st);
  fr_started : forall r s e, In r qc -> started_at (store st) r s -> In e (pq st) ->
      s <= time e;
  fr_waiting : forall r1 r2 s2, In r1 (waitingBuffer st) -> In r2 qc ->
      started_at (store st) r2 s2 -> keeps_place init r1 r2 ->
      arrival_of init r2 <= arrival_of init r1;
  fr_order : forall r1 r2 s1 s2, In r1 qc -> In r2 qc ->
      started_at (store st) r1 s1 -> started_at (store st) r2 s2 ->
      keeps_place init r1 r2 -> arrival_of init r1 < arrival_of init r2 -> s1 <= s2
}.

(** ** Snapshot projector *)

(** The number of tellers of an array that hold a customer. *)
Definition occupied (arr : list (option Customer)) : nat :=
  length (filter (fun slot => match slot with Some _ => true | None => false end) arr).

(** [c] has arrived by time [t]. *)
Definition arrived_by (t : Q) (c : Customer) : Prop := arrivalTime c <= t.

(** The same, decided. *)
Definition arrived_byb (t : Q) (c : Customer) : bool := Qle_bool (arrivalTime c) t.

(** [c] is a customer of [line] that is waiting at [t]. *)
Definition waiting_in (line : ServiceType) (t : Q) (c : Customer) : Prop :=
  serviceType c = line /\ waiting_at t c.

(** The teller array of [line] in the pair of arrays the projector fills. *)
Definition line_slots (line : ServiceType)
           (arrs : list (option Customer) * list (option Customer))
  : list (option Customer) :=
  match line with
  | HIGH_COUNTER => fst arrs
  | LOW_COUNTER => snd arrs
  end.

(** The teller arrays of a snapshot. *)
Definition snapshot_slots (s : Snapshot.t) (line : ServiceType) : list (option Customer) :=
  line_slots line (Snapshot.customersAtTellerHigh s, Snapshot.customersAtTellerLow s).

(** [c1] and [c2] are both in service at [t], at the same teller of the
    same line. *)
Definition clash (t : Q) (c1 c2 : Customer) : Prop :=
  at_teller_at t c1 = true /\ at_teller_at t c2 = true /\
  serviceType c1 = serviceType c2 /\ tellerId c1 = tellerId c2.

(** ** Handing a teller over *)

(** Teller [i] of the line served the customer at index [r] until [t]. *)
Definition handed_over_by (qc : list nat) (population : list Customer) (i : nat) (t : Q)
           (r : nat) : Prop :=
  exists c, In r qc /\ nth_error population r = Some c /\
            tellerId c = Some i /\ serviceEndTime c = Some t.

(** States of the loop in which every pending teller-free event is the end
    of a service by that teller, and every service of the line started on
    the arrival of its customer or when its teller ended the service of
    another customer. *)
Record relayed (qc : list nat) (st : QueueState) : Prop := mk_relayed {
  rl_pending : forall e i, In e (pq st) -> etype e = TELLER_FREE i ->
      exists r, handed_over_by qc (store st) i (time e) r;
  rl_started : forall r c s i, In r qc -> nth_error (store st) r = Some c ->
      serviceStartTime c = Some s -> tellerId c = Some i ->
      s = arrivalTime c \/ exists r', r' <> r /\ handed_over_by qc (store st) i s r'
}.

(** ** Busy tellers *)

(** Teller [i] of the line serves somebody from [s] to [e]. *)
Definition serving (qc : list nat) (population : list Customer) (i : nat) (s e : Q) : Prop :=
  exists r c, In r qc /\ nth_error population r = Some c /\ tellerId c = Some i /\
              serviceStartTime c = Some s /\ serviceEndTime c = Some e.

(** Teller [i] of the line is busy at [t]. *)
Definition busy_at (qc : list nat) (population : list Customer) (i : nat) (t : Q) : Prop :=
  exists s e, serving qc population i s e /\ s <= t /\ t < e.

(** States of the loop in which nobody waits for an idle teller: every
    pending teller-free event is the end of a service by that teller; from
    the arrival of a waiting customer until a teller becomes free that teller
    is busy; and every teller was busy from the arrival of a served customer
    until its service started. *)
Record conserving (init : list Customer) (qc : list nat) (st : QueueState) : Prop :=
  mk_conserving {
  cs_pending : forall e i, In e (pq st) -> etype e = TELLER_FREE i ->
      exists s, serving qc (store st) i s (time e);
  cs_waiting : forall r i f t, In r (waitingBuffer st) ->
      nth_error (tellersFreeAt st) i = Some f ->
      arrival_of init r <= t -> t < f -> busy_at qc (store st) i t;
  cs_served : forall r s i t, In r qc -> started_at (store st) r s ->
      (i < length (tellersFreeAt st))%nat ->
      arrival_of init r <= t -> t < s -> busy_at qc (store st) i t
}.

(** ** The arrival rate *)


(** ** Times after the start of the clock *)

(** A customer that arrived at a time that is not negative, has a positive
    service duration, and whose service, if it has one, ends after time 0. *)
Definition ends_after_zero (c : Customer) : Prop :=
  0 <= arrivalTime c /\ 0 < serviceTime c /\
  forall e, serviceEndTime c = Some e -> 0 < e.

(** States of the loop in which no pending timestamp is negative and every
    customer ends after time 0. *)
Definition after_zero (st : QueueState) : Prop :=
  (forall e, In e (pq st) -> 0 <= time e) /\ Forall ends_after_zero (store st).
(** * Further worked inputs *)

(** The three customers of the example as [run] leaves them: the first
    walk-in is served from 1 to 11, the reserved customer from 11 to 13 and
    the second walk-in from 13 to 17, all by teller 0 of the high-counter
    line. *)
Definition example_first : Customer :=
  Eval vm_compute in
    nth 0 (customers example_result) (mkCustomer 0 WALK_IN HIGH_COUNTER 0 None None None 0 0 HAPPY).

Definition example_second : Customer :=
  Eval vm_compute in
    nth 1 (customers example_result) (mkCustomer 0 WALK_IN HIGH_COUNTER 0 None None None 0 0 HAPPY).

Definition example_third : Customer :=
  Eval vm_compute in
    nth 2 (customers example_result) (mkCustomer 0 WALK_IN HIGH_COUNTER 0 None None None 0 0 HAPPY).

Definition empty_snapshot : Snapshot.t := Snapshot.mk 0 [] [] [] [] 0.

(** The snapshots of the example at 12 (the reserved customer is at the
    teller, the second walk-in waits, the first walk-in has finished) and at
    14. *)
Definition example_snapshot_12 : Snapshot.t :=
  Eval vm_compute in
    match getSnapshotAtTime example_result 12 with
    | Completed s => s
    | Failed _ => empty_snapshot
    end.

Definition example_snapshot_14 : Snapshot.t :=
  Eval vm_compute in
    match getSnapshotAtTime example_result 14 with
    | Completed s => s
    | Failed _ => empty_snapshot
    end.

(** The configuration of the example with a duration of zero. *)
Definition zero_duration_config : SimulationConfig :=
  mkSimulationConfig 0 60 50 100 (mkCounterConfig 1 2 4 8) (mkCounterConfig 1 10 15 25).

Definition zero_duration_result : SimulationResult :=
  {| customers := []; config := zero_duration_config |}.

(** A result, not produced by [run], whose high-counter line is configured
    with -1 servers, and one whose low-counter line is configured with 2^32
    servers. *)
Definition negative_count_result : SimulationResult :=
  {| customers := [];
     config := mkSimulationConfig 60 60 50 100 (mkCounterConfig (-1) 2 4 8)
                                  (mkCounterConfig 1 10 15 25) |}.

Definition huge_count_result : SimulationResult :=
  {| customers := [];
     config := mkSimulationConfig 60 60 50 100 (mkCounterConfig 1 2 4 8)
                                  (mkCounterConfig 4294967296 10 15 25) |}.

(** A customer that arrives at time 0 and needs no service time: both draws
    are 0, as the samplers return them for a uniform draw of 0 and a service
    minimum of 0. *)
Definition instant_config : SimulationConfig :=
  mkSimulationConfig 60 60 50 100 (mkCounterConfig 1 0 4 8) (mkCounterConfig 1 10 15 25).

Definition instant_draws : list Draw := [mkDraw 0 (9 # 10) 0 0; mkDraw 61 (1 # 2) 0 3].

Definition instant_result : SimulationResult :=
  Eval vm_compute in
    match run instant_config instant_draws with
    | Completed r => r
    | Failed _ => mkSimulationResult [] instant_config
    end.

(** One high-counter teller that serves for 1 to 3 minutes, and all the
    traffic on its line. *)
Definition near_tie_config : SimulationConfig :=
  mkSimulationConfig 60 60 0 100 (mkCounterConfig 1 1 2 3) (mkCounterConfig 1 10 15 25).

(** Customer 1 arrives at 1 and is served for 1.00005 minutes; customer 2
    arrives at 2; the third gap leads past the horizon. *)
Definition near_tie_draws : list Draw :=
  [mkDraw 1 (1 # 2) 0 (100005 # 100000); mkDraw 1 (1 # 2) 0 2; mkDraw 60 (1 # 2) 0 2].

(** * Properties *)

(** ** Numbers and arrays *)

Lemma Qltb_lt (x y : Q) : Qltb x y = true <-> x < y.
Proof.
  unfold Qltb. rewrite negb_true_iff. split; intro H.
  - apply Qnot_le_lt. intro Hle. apply Qle_bool_iff in Hle. congruence.
  - destruct (Qle_bool y x) eqn:E; [|reflexivity].
    apply Qle_bool_iff in E. exfalso. apply (Qlt_not_le _ _ H E).
Qed.

Lemma Qltb_ge (x y : Q) : Qltb x y = false <-> y <= x.
Proof.
  unfold Qltb. rewrite negb_false_iff. apply Qle_bool_iff.
Qed.

Lemma Qle_bool_false (x y : Q) : Qle_bool x y = false <-> y < x.
Proof.
  rewrite <- Qltb_lt. unfold Qltb. rewrite negb_true_iff. reflexivity.
Qed.

Lemma insert_by_perm {A : Type} (cmp : A -> A -> Q) (x : A) (l : list A) :
  Permutation (insert_by cmp x l) (x :: l).
Proof.
  induction l as [|y l IH]; simpl.
  - apply Permutation_refl.
  - destruct (Qltb (cmp x y) 0).
    + apply Permutation_refl.
    + eapply Permutation_trans; [apply perm_skip, IH | apply perm_swap].
Qed.

Lemma fold_insert_perm {A : Type} (cmp : A -> A -> Q) (l acc : list A) :
  Permutation (fold_left (fun acc x => insert_by cmp x acc) l acc) (acc ++ l).
Proof.
  revert acc. induction l as [|x l IH]; intro acc; simpl.
  - rewrite app_nil_r. apply Permutation_refl.
  - eapply Permutation_trans; [apply IH|].
    eapply Permutation_trans; [apply Permutation_app_tail, insert_by_perm|].
    simpl. apply Permutation_middle.
Qed.

Lemma js_sort_perm {A : Type} (cmp : A -> A -> Q) (l : list A) :
  Permutation (js_sort cmp l) l.
Proof. apply (fold_insert_perm cmp l []). Qed.

Lemma js_sort_In {A : Type} (cmp : A -> A -> Q) (l : list A) (x : A) :
  In x (js_sort cmp l) <-> In x l.
Proof.
  split; apply Permutation_in; [|apply Permutation_sym]; apply js_sort_perm.
Qed.

Lemma js_sort_length {A : Type} (cmp : A -> A -> Q) (l : list A) :
  length (js_sort cmp l) = length l.
Proof. apply Permutation_length, js_sort_perm. Qed.

Lemma array_set_length {A : Type} (i : nat) (v : A) (l : list A) :
  length (array_set i v l) = length l.
Proof.
  revert i. induction l as [|x l IH]; intros [|i]; simpl; auto.
Qed.

Lemma nth_error_array_set_eq {A : Type} (i : nat) (v : A) (l : list A) :
  (i < length l)%nat -> nth_error (array_set i v l) i = Some v.
Proof.
  revert i. induction l as [|x l IH]; intros [|i] H; simpl in *; try lia; auto.
  apply IH. lia.
Qed.

Lemma nth_error_array_set_neq {A : Type} (i j : nat) (v : A) (l : list A) :
  i <> j -> nth_error (array_set i v l) j = nth_error l j.
Proof.
  revert i j. induction l as [|x l IH]; intros [|i] [|j] H; simpl in *;
    try reflexivity; try congruence.
  apply IH. congruence.
Qed.

Lemma nth_error_array_set {A : Type} (i j : nat) (v : A) (l : list A) (y : A) :
  nth_error (array_set i v l) j = Some y ->
  (j = i /\ y = v /\ (i < length l)%nat) \/ (j <> i /\ nth_error l j = Some y).
Proof.
  intro H. destruct (Nat.eq_dec j i) as [->|Hne].
  - left. assert (Hlt : (i < length l)%nat).
    { rewrite <- (array_set_length i v l). apply nth_error_Some. congruence. }
    rewrite nth_error_array_set_eq in H by exact Hlt. split; [reflexivity|]. split; congruence.
  - right. split; [exact Hne|]. rewrite nth_error_array_set_neq in H by congruence. exact H.
Qed.

(** ** Snapshot projector *)

Lemma finished_at_ended (t : Q) (c : Customer) :
  finished_at t c = true <-> ended_by t c.
Proof.
  unfold finished_at, ended_by. destruct (serviceEndTime c) as [e|].
  - rewrite Qle_bool_iff. split.
    + intro H. exists e. auto.
    + intros [e' [E H]]. inversion E. subst. exact H.
  - split; [discriminate|]. intros [e' [E _]]. discriminate.
Qed.

Lemma counts_filter {A : Type} (P : A -> Prop) (p : A -> bool) (l : list A) :
  (forall x, p x = true <-> P x) -> counts P l (length (filter p l)).
Proof.
  intro H. induction l as [|x l IH]; simpl.
  - constructor.
  - destruct (p x) eqn:E; simpl.
    + apply counts_yes; [apply H, E | exact IH].
    + apply counts_no; [|exact IH]. intro HP. apply H in HP. congruence.
Qed.

Lemma counts_fun {A : Type} (P : A -> Prop) (l : list A) (n m : nat) :
  counts P l n -> counts P l m -> n = m.
Proof.
  intro H. revert m. induction H; intros m Hm; inversion Hm; subst; auto; try contradiction.
Qed.

Lemma counts_none {A : Type} (P : A -> Prop) (l : list A) :
  (forall x, In x l -> ~ P x) -> counts P l 0.
Proof.
  induction l as [|x l IH]; intro H; constructor.
  - apply H. left. reflexivity.
  - apply IH. intros y Hy. apply H. right. exact Hy.
Qed.

Lemma counts_ext {A : Type} (P R : A -> Prop) (l : list A) (n : nat) :
  (forall x, In x l -> (P x <-> R x)) -> counts P l n -> counts R l n.
Proof.
  intros H Hc. induction Hc.
  - constructor.
  - apply counts_yes; [apply (H x); [left; reflexivity | assumption]|].
    apply IHHc. intros y Hy. apply H. right. exact Hy.
  - apply counts_no; [intro HR; apply (H x) in HR; [contradiction | left; reflexivity]|].
    apply IHHc. intros y Hy. apply H. right. exact Hy.
Qed.

Lemma new_filled_array_ok {A : Type} (n : Z) (v : A) :
  array_length n -> new_filled_array n v = Completed (repeat v (Z.to_nat n)).
Proof.
  intros [H1 H2]. unfold new_filled_array.
  destruct (n <? 0)%Z eqn:E; [apply Z.ltb_lt in E; lia|].
  destruct (max_array_length <? n)%Z eqn:E'; [apply Z.ltb_lt in E'; lia | reflexivity].
Qed.

Lemma new_filled_array_fails {A : Type} (n : Z) (v : A) :
  ~ array_length n -> new_filled_array n v = Failed RangeError.
Proof.
  intro H. unfold new_filled_array.
  destruct (n <? 0)%Z eqn:E; [reflexivity|].
  destruct (max_array_length <? n)%Z eqn:E'; [reflexivity|].
  exfalso. apply H. apply Z.ltb_ge in E, E'. split; assumption.
Qed.

Lemma new_filled_array_inv {A : Type} (n : Z) (v : A) (l : list A) :
  new_filled_array n v = Completed l -> array_length n /\ l = repeat v (Z.to_nat n).
Proof.
  unfold new_filled_array. intro H.
  destruct (n <? 0)%Z eqn:E; [discriminate|].
  destruct (max_array_length <? n)%Z eqn:E'; [discriminate|].
  apply Z.ltb_ge in E, E'. inversion H. split; [split; assumption | reflexivity].
Qed.

Lemma array_length_dec (n : Z) : array_length n \/ ~ array_length n.
Proof. unfold array_length. lia. Qed.

Lemma place_at_teller_length (c : Customer) (arr : list (option Customer)) :
  length (place_at_teller c arr) = length arr.
Proof.
  unfold place_at_teller. destruct (tellerId c) as [i|]; [|reflexivity].
  destruct (Nat.ltb i (length arr)); [apply array_set_length | reflexivity].
Qed.

Lemma place_customer_length (t : Q) (arrs : list (option Customer) * list (option Customer))
      (c : Customer) :
  length (fst (place_customer t arrs c)) = length (fst arrs) /\
  length (snd (place_customer t arrs c)) = length (snd arrs).
Proof.
  unfold place_customer. destruct (at_teller_at t c); [|auto].
  destruct (serviceType c); simpl; rewrite place_at_teller_length; auto.
Qed.

Lemma fold_place_length (t : Q) (cs : list Customer)
      (arrs : list (option Customer) * list (option Customer)) :
  length (fst (fold_left (place_customer t) cs arrs)) = length (fst arrs) /\
  length (snd (fold_left (place_customer t) cs arrs)) = length (snd arrs).
Proof.
  revert arrs. induction cs as [|c cs IH]; intro arrs; simpl; [auto|].
  destruct (IH (place_customer t arrs c)) as [H1 H2].
  destruct (place_customer_length t arrs c) as [H3 H4]. split; congruence.
Qed.

Lemma place_at_teller_ok (line : ServiceType) (t : Q) (cs : list Customer) (c : Customer)
      (arr : list (option Customer)) :
  In c cs -> serviceType c = line -> at_teller_at t c = true ->
  slots_ok line t cs arr -> slots_ok line t cs (place_at_teller c arr).
Proof.
  intros Hin Hl Hat Hok i c' Hn. rewrite place_at_teller_length.
  unfold place_at_teller in Hn. destruct (tellerId c) as [j|] eqn:Ej; [|apply Hok, Hn].
  destruct (Nat.ltb j (length arr)) eqn:Elt; [|apply Hok, Hn].
  apply Nat.ltb_lt in Elt.
  apply nth_error_array_set in Hn. destruct Hn as [[-> [Hc _]]|[_ Hn]]; [|apply Hok, Hn].
  inversion Hc. subst c'. repeat split; auto.
Qed.

Lemma fold_place_ok (t : Q) (all cs : list Customer)
      (arrs : list (option Customer) * list (option Customer)) :
  incl cs all ->
  slots_ok HIGH_COUNTER t all (fst arrs) -> slots_ok LOW_COUNTER t all (snd arrs) ->
  slots_ok HIGH_COUNTER t all (fst (fold_left (place_customer t) cs arrs)) /\
  slots_ok LOW_COUNTER t all (snd (fold_left (place_customer t) cs arrs)).
Proof.
  revert arrs. induction cs as [|c cs IH]; intros arrs Hincl H1 H2; simpl; [auto|].
  apply IH.
  - intros x Hx. apply Hincl. right. exact Hx.
  - unfold place_customer. destruct (at_teller_at t c) eqn:Hat; [|exact H1].
    destruct (serviceType c) eqn:Hs; simpl; [|exact H1].
    apply place_at_teller_ok; auto. apply Hincl. left. reflexivity.
  - unfold place_customer. destruct (at_teller_at t c) eqn:Hat; [|exact H2].
    destruct (serviceType c) eqn:Hs; simpl; [exact H2|].
    apply place_at_teller_ok; auto. apply Hincl. left. reflexivity.
Qed.

Lemma slots_ok_empty (line : ServiceType) (t : Q) (cs : list Customer) (n : nat) :
  slots_ok line t cs (repeat None n).
Proof.
  intros i c H. apply nth_error_In in H. apply repeat_spec in H. discriminate.
Qed.

Lemma in_queue_at_waiting (line : ServiceType) (t : Q) (c : Customer) :
  in_queue_at line t c = true -> serviceType c = line /\ waiting_at t c.
Proof.
  unfold in_queue_at, waiting_at. rewrite !andb_true_iff. intros [[H1 H2] H3].
  split; [destruct (serviceType c), line; simpl in H1; congruence|].
  split; [apply Qle_bool_iff, H2|].
  destruct (serviceStartTime c) as [s|]; [right|left; reflexivity].
  exists s. split; [reflexivity | apply Qltb_lt, H3].
Qed.

Lemma getSnapshotAtTime_eq (result : SimulationResult) (t : Q) :
  array_length (count (highCounter (config result))) ->
  array_length (count (lowCounter (config result))) ->
  getSnapshotAtTime result t =
  Completed
    (let arrs := fold_left (place_customer t) (customers result)
                           (repeat None (Z.to_nat (count (highCounter (config result)))),
                            repeat None (Z.to_nat (count (lowCounter (config result))))) in
     {| Snapshot.time := t;
        Snapshot.customersInQueueHigh :=
          js_sort compareArrival (filter (in_queue_at HIGH_COUNTER t) (customers result));
        Snapshot.customersInQueueLow :=
          js_sort compareArrival (filter (in_queue_at LOW_COUNTER t) (customers result));
        Snapshot.customersAtTellerHigh := fst arrs;
        Snapshot.customersAtTellerLow := snd arrs;
        Snapshot.finishedCount := length (filter (finished_at t) (customers result)) |}).
Proof.
  intros H1 H2. unfold getSnapshotAtTime.
  rewrite (new_filled_array_ok _ (@None Customer) H1).
  rewrite (new_filled_array_ok _ (@None Customer) H2). reflexivity.
Qed.

Lemma getSnapshotAtTime_finishedCount (result : SimulationResult) (t : Q) (s : Snapshot.t) :
  getSnapshotAtTime result t = Completed s ->
  Snapshot.finishedCount s = length (filter (finished_at t) (customers result)).
Proof.
  unfold getSnapshotAtTime. intro H.
  destruct (new_filled_array (count (highCounter (config result))) None); [discriminate|].
  destruct (new_filled_array (count (lowCounter (config result))) None); [discriminate|].
  inversion H. reflexivity.
Qed.


(** ** Queue simulation engine: one event *)

Lemma process_event_spec (qc : list nat) (ev : QueueEvent) (st st' : QueueState)
      (a : option (nat * nat)) :
  process_event qc ev st = Some (st', a) -> step_spec qc ev st st' a.
Proof.
  unfold process_event. destruct (etype ev) as [cid|i] eqn:Et.
  - destruct (find_customer (store st) qc cid) as [ref|] eqn:Ef; [|discriminate].
    destruct (findFreeTeller (tellersFreeAt st) (time ev)) as [i|] eqn:Eb.
    + unfold assignService. destruct (nth_error (store st) ref) as [c|] eqn:Ec; [|discriminate].
      simpl. intro H. inversion H. subst. eapply step_arrival_assign; eauto.
    + intro H. inversion H. subst. eapply step_arrival_wait; eauto.
  - destruct (popNextCustomer (store st) (waitingBuffer st)) as [[r b']|] eqn:Ep.
    + unfold assignService. simpl.
      destruct (nth_error (store st) r) as [c|] eqn:Ec; [|discriminate].
      simpl. intro H. inversion H. subst. eapply step_free_assign; eauto.
    + intro H. inversion H. subst. eapply step_free_idle; eauto.
Qed.

Lemma findIndex_Some {A : Type} (p : A -> bool) (l : list A) (i : nat) :
  findIndex p l = Some i ->
  exists x, nth_error l i = Some x /\ p x = true /\
            forall j y, (j < i)%nat -> nth_error l j = Some y -> p y = false.
Proof.
  revert i. induction l as [|x l IH]; intros i H; simpl in H; [discriminate|].
  destruct (p x) eqn:E.
  - inversion H. subst. exists x. repeat split; auto. intros j y Hj. lia.
  - destruct (findIndex p l) as [k|] eqn:Ek; [|discriminate]. inversion H. subst.
    destruct (IH k eq_refl) as [z [Hz [Hpz Hmin]]]. exists z. repeat split; auto.
    intros [|j] y Hj Hy; simpl in Hy.
    + inversion Hy. subst. exact E.
    + apply (Hmin j y); [lia | exact Hy].
Qed.

Lemma findIndex_None {A : Type} (p : A -> bool) (l : list A) :
  findIndex p l = None -> forall x, In x l -> p x = false.
Proof.
  induction l as [|x l IH]; intros H y Hy; simpl in *; [contradiction|].
  destruct (p x) eqn:E; [discriminate|].
  destruct (findIndex p l); [discriminate|].
  destruct Hy as [<-|Hy]; [exact E | apply IH; auto].
Qed.

Lemma remove_at_split {A : Type} (l : list A) (i : nat) (x : A) :
  nth_error l i = Some x ->
  exists l1 l2, l = l1 ++ x :: l2 /\ length l1 = i /\ remove_at i l = l1 ++ l2.
Proof.
  revert i. induction l as [|y l IH]; intros [|i] H; simpl in H; try discriminate.
  - inversion H. subst. exists [], l. auto.
  - destruct (IH i H) as [l1 [l2 [E [L R]]]]. exists (y :: l1), l2. simpl.
    rewrite R. subst l. split; [reflexivity|]. split; [congruence|reflexivity].
Qed.

(** [popNextCustomer] takes the first reserved customer if there is one,
    else the head of the buffer; the others keep their order. *)
Lemma popNextCustomer_spec (store0 : list Customer) (buffer buffer' : list nat) (r : nat) :
  popNextCustomer store0 buffer = Some (r, buffer') ->
  exists l1 l2,
    buffer = l1 ++ r :: l2 /\ buffer' = l1 ++ l2 /\
    (forall x, In x l1 -> is_reserved store0 x = false) /\
    (is_reserved store0 r = false -> l1 = [] /\ forall x, In x l2 -> is_reserved store0 x = false).
Proof.
  unfold popNextCustomer. destruct buffer as [|first others]; [discriminate|].
  destruct (findIndex (is_reserved store0) (first :: others)) as [k|] eqn:Ek.
  - intro H. injection H as Hr Hb.
    destruct (findIndex_Some _ _ _ Ek) as [x [Hx [Hp Hmin]]].
    change (nth k (first :: others) first = r) in Hr.
    rewrite (nth_error_nth _ _ first Hx) in Hr. subst x.
    destruct (remove_at_split _ _ _ Hx) as [l1 [l2 [E [L R]]]].
    exists l1, l2. rewrite R in Hb. subst buffer'. repeat split; auto.
    + intros y Hy. apply In_nth_error in Hy. destruct Hy as [j Hj].
      apply (Hmin j y).
      * rewrite <- L. apply nth_error_Some. congruence.
      * rewrite E. rewrite nth_error_app1; [exact Hj|]. apply nth_error_Some. congruence.
    + congruence.
    + congruence.
  - intro H. inversion H. subst. clear H. exists [], buffer'. repeat split; auto.
    + intros x [].
    + intros x Hx. apply (findIndex_None _ _ Ek). right. exact Hx.
Qed.

Lemma popNextCustomer_None (store0 : list Customer) (buffer : list nat) :
  popNextCustomer store0 buffer = None <-> buffer = [].
Proof.
  unfold popNextCustomer. destruct buffer as [|first others]; [tauto|].
  destruct (findIndex (is_reserved store0) (first :: others)); split; discriminate.
Qed.

Lemma findFreeTeller_Some (tellers : list Q) (t : Q) (i : nat) :
  findFreeTeller tellers t = Some i ->
  exists f, nth_error tellers i = Some f /\ f <= t /\
            forall j g, (j < i)%nat -> nth_error tellers j = Some g -> t < g.
Proof.
  intro H. destruct (findIndex_Some _ _ _ H) as [f [Hf [Hp Hmin]]].
  exists f. split; [exact Hf|]. split; [apply Qle_bool_iff, Hp|].
  intros j g Hj Hg. apply Qle_bool_false. apply (Hmin j g Hj Hg).
Qed.

Lemma findFreeTeller_None (tellers : list Q) (t : Q) :
  findFreeTeller tellers t = None -> forall f, In f tellers -> t < f.
Proof.
  intros H f Hf. apply Qle_bool_false. apply (findIndex_None _ _ H f Hf).
Qed.

Lemma find_customer_Some (store0 : list Customer) (qc : list nat) (cid ref : nat) :
  find_customer store0 qc cid = Some ref ->
  In ref qc /\ exists c, nth_error store0 ref = Some c /\ id c = cid.
Proof.
  unfold find_customer. intro H. apply find_some in H. destruct H as [Hin H].
  split; [exact Hin|]. destruct (nth_error store0 ref) as [c|]; [|discriminate].
  exists c. split; [reflexivity | apply Nat.eqb_eq, H].
Qed.

Lemma is_reserved_true (store0 : list Customer) (r : nat) :
  is_reserved store0 r = true <-> exists c, nth_error store0 r = Some c /\ type c = RESERVED.
Proof.
  unfold is_reserved. destruct (nth_error store0 r) as [c|].
  - split.
    + intro H. exists c. split; [reflexivity|]. destruct (type c); [discriminate|reflexivity].
    + intros [c' [E H]]. inversion E. subst. rewrite H. reflexivity.
  - split; [discriminate|]. intros [c' [E _]]. discriminate.
Qed.

(** What [assignService] writes, in words. *)
Lemma assign_fields_taken (c : Customer) (i : nat) (t : Q) :
  taken_into_service c i t (assign_fields c i t).
Proof.
  unfold taken_into_service. simpl.
  repeat (split; [reflexivity|]).
  destruct (Qltb 15 (t - arrivalTime c)) eqn:E15.
  - apply Qltb_lt in E15. repeat split; intros; try reflexivity; exfalso; lra.
  - apply Qltb_ge in E15. destruct (Qltb 5 (t - arrivalTime c)) eqn:E5.
    + apply Qltb_lt in E5. repeat split; intros; try reflexivity; exfalso; lra.
    + apply Qltb_ge in E5. repeat split; intros; try reflexivity; exfalso; lra.
Qed.

Lemma array_set_untouched (s : list Customer) (r : nat) (c : Customer) :
  others_untouched s r (array_set r c s).
Proof.
  split; [apply array_set_length|].
  intros x Hx. apply nth_error_array_set_neq. congruence.
Qed.

Lemma array_set_booked (v : list Q) (i : nat) (f : Q) :
  (i < length v)%nat -> teller_booked v i f (array_set i f v).
Proof.
  intro Hi. split; [apply array_set_length|].
  split; [apply nth_error_array_set_eq, Hi|].
  intros j Hj. apply nth_error_array_set_neq. congruence.
Qed.

(** C1.  When a teller-free event for teller [s] is processed and customers
    are waiting, one customer [r] leaves the buffer, the others keeping
    their order, and is taken into service by [s] at the time of the event:
    start, end, teller, wait and sentiment are written on its object and on
    no other, the teller is booked until the end of that service, and the
    teller-free event of that end is queued.  If any reserved customer is
    waiting, [r] is a reserved customer, whatever the walk-in customers
    enqueued before it; and no customer enqueued before [r] is of the class
    of [r]: inside a class the order of dequeue is the order of enqueue. *)
Theorem teller_free_serves_reserved_first (qc : list nat) (ev : QueueEvent)
        (st : QueueState) (s : nat) :
  etype ev = TELLER_FREE s ->
  Forall (fun r => (r < length (store st))%nat) (waitingBuffer st) ->
  waitingBuffer st <> [] ->
  exists r c c' l1 l2 st',
    process_event qc ev st = Some (st', Some (r, s)) /\
    waitingBuffer st = l1 ++ r :: l2 /\
    waitingBuffer st' = l1 ++ l2 /\
    nth_error (store st) r = Some c /\
    ((exists x cx, In x (waitingBuffer st) /\ nth_error (store st) x = Some cx /\
                   type cx = RESERVED) ->
     type c = RESERVED) /\
    (forall x cx, In x l1 -> nth_error (store st) x = Some cx -> type cx <> type c) /\
    nth_error (store st') r = Some c' /\
    taken_into_service c s (time ev) c' /\
    others_untouched (store st) r (store st') /\
    ((s < length (tellersFreeAt st))%nat ->
     teller_booked (tellersFreeAt st) s (time ev + serviceTime c) (tellersFreeAt st')) /\
    pq st' = pq st ++ [service_end c s (time ev)].
Proof.
  intros Et Hvalid Hne.
  destruct (popNextCustomer (store st) (waitingBuffer st)) as [[r b']|] eqn:Ep.
  2:{ apply popNextCustomer_None in Ep. contradiction. }
  destruct (popNextCustomer_spec _ _ _ _ Ep) as [l1 [l2 [E [E' [Hl1 Hwalk]]]]].
  assert (Hr : (r < length (store st))%nat).
  { rewrite Forall_forall in Hvalid. apply Hvalid. rewrite E. apply in_elt. }
  assert (Hc : exists c, nth_error (store st) r = Some c).
  { destruct (nth_error (store st) r) as [c|] eqn:Ec; [exists c; reflexivity|].
    apply nth_error_None in Ec. lia. }
  destruct Hc as [c Ec].
  exists r, c, (assign_fields c s (time ev)), l1, l2. eexists. split.
  { unfold process_event. rewrite Et, Ep. unfold assignService. simpl. rewrite Ec.
    simpl. reflexivity. }
  simpl. split; [exact E|]. split; [exact E'|]. split; [exact Ec|]. split.
  { intros [x [cx [Hx [Hcx Hres]]]].
    assert (Hxr : is_reserved (store st) x = true).
    { apply is_reserved_true. exists cx. split; assumption. }
    destruct (is_reserved (store st) r) eqn:Er.
    + apply is_reserved_true in Er. destruct Er as [c0 [E1 E2]]. congruence.
    + destruct (Hwalk eq_refl) as [Hnil Hl2]. subst l1. rewrite E in Hx.
      destruct Hx as [<-|Hx]; [congruence|]. rewrite (Hl2 x Hx) in Hxr. discriminate. }
  split.
  { intros x cx Hx Hcx Heq. destruct (is_reserved (store st) r) eqn:Er.
    + apply is_reserved_true in Er. destruct Er as [c0 [E1 E2]].
      assert (c0 = c) by congruence. subst c0.
      assert (Hxr : is_reserved (store st) x = true).
      { apply is_reserved_true. exists cx. split; [exact Hcx | congruence]. }
      rewrite (Hl1 x Hx) in Hxr. discriminate.
    + destruct (Hwalk eq_refl) as [Hnil _]. subst l1. destruct Hx. }
  split; [apply nth_error_array_set_eq, Hr|].
  split; [apply assign_fields_taken|].
  split; [apply array_set_untouched|].
  split; [apply array_set_booked | reflexivity].
Qed.

Lemma findFreeTeller_complete (tellers : list Q) (t : Q) :
  (exists i f, nth_error tellers i = Some f /\ f <= t) ->
  exists i, findFreeTeller tellers t = Some i.
Proof.
  intros [i [f [Hf Hle]]]. destruct (findFreeTeller tellers t) as [k|] eqn:E.
  - exists k. reflexivity.
  - exfalso. apply nth_error_In in Hf.
    apply (Qlt_not_le _ _ (findFreeTeller_None _ _ E f Hf) Hle).
Qed.

(** [find_customer] returns the first customer of the line that carries the
    id, and returns one whenever the line has one. *)
Lemma find_customer_first (store0 : list Customer) (qc : list nat) (cid ref : nat) :
  find_customer store0 qc cid = Some ref ->
  exists l1 l2, qc = l1 ++ ref :: l2 /\
    forall x cx, In x l1 -> nth_error store0 x = Some cx -> id cx <> cid.
Proof.
  unfold find_customer. induction qc as [|y qc IH]; simpl; [discriminate|].
  destruct (nth_error store0 y) as [cy|] eqn:Ey.
  - destruct (Nat.eqb (id cy) cid) eqn:Eid.
    + intro H. inversion H. subst y. exists [], qc. split; [reflexivity|]. intros x cx [].
    + intro H. destruct (IH H) as [l1 [l2 [E Hl1]]]. exists (y :: l1), l2.
      split; [rewrite E; reflexivity|].
      intros x cx [<-|Hx] Hcx; [|apply (Hl1 x cx Hx Hcx)].
      apply Nat.eqb_neq in Eid. congruence.
  - intro H. destruct (IH H) as [l1 [l2 [E Hl1]]]. exists (y :: l1), l2.
    split; [rewrite E; reflexivity|].
    intros x cx [<-|Hx] Hcx; [congruence | apply (Hl1 x cx Hx Hcx)].
Qed.

Lemma find_customer_complete (store0 : list Customer) (qc : list nat) (cid : nat) :
  (exists ref c, In ref qc /\ nth_error store0 ref = Some c /\ id c = cid) ->
  exists ref, find_customer store0 qc cid = Some ref.
Proof.
  intros [ref [c [Hin [Hc Hid]]]].
  destruct (find_customer store0 qc cid) as [r|] eqn:E; [exists r; reflexivity|].
  exfalso. unfold find_customer in E.
  pose proof (find_none _ _ E ref Hin) as Hn. simpl in Hn. rewrite Hc in Hn.
  apply Nat.eqb_neq in Hn. contradiction.
Qed.

(** C5.  An arrival event concerns the first customer of the line that
    carries its id.  The servers are scanned in index order: if some server
    has free-at at most the current time, the customer is taken into service
    by the first such server (every lower index is still busy, whatever the
    free-at values of the later ones) at the current time: its object, and
    no other, receives start, end, teller, wait and sentiment, the teller is
    booked until the end of the service and the teller-free event of that
    end is queued, the waiting buffer being left as it is.  Otherwise the
    customer is appended to the waiting buffer and nothing else changes. *)
Theorem arrival_takes_first_free_teller (qc : list nat) (ev : QueueEvent)
        (st : QueueState) (customerId : nat) :
  etype ev = ARRIVAL customerId ->
  (exists ref c, In ref qc /\ nth_error (store st) ref = Some c /\ id c = customerId) ->
  exists ref c l1 l2,
    qc = l1 ++ ref :: l2 /\
    nth_error (store st) ref = Some c /\ id c = customerId /\
    (forall x cx, In x l1 -> nth_error (store st) x = Some cx -> id cx <> customerId) /\
    ((exists i f, nth_error (tellersFreeAt st) i = Some f /\ f <= time ev) ->
     exists i f st' c',
       nth_error (tellersFreeAt st) i = Some f /\ f <= time ev /\
       (forall j g, (j < i)%nat -> nth_error (tellersFreeAt st) j = Some g -> time ev < g) /\
       process_event qc ev st = Some (st', Some (ref, i)) /\
       nth_error (store st') ref = Some c' /\
       taken_into_service c i (time ev) c' /\
       others_untouched (store st) ref (store st') /\
       teller_booked (tellersFreeAt st) i (time ev + serviceTime c) (tellersFreeAt st') /\
       pq st' = pq st ++ [service_end c i (time ev)] /\
       waitingBuffer st' = waitingBuffer st) /\
    ((forall i f, nth_error (tellersFreeAt st) i = Some f -> time ev < f) ->
     process_event qc ev st =
     Some ({| store := store st;
              pq := pq st;
              waitingBuffer := waitingBuffer st ++ [ref];
              tellersFreeAt := tellersFreeAt st |}, None)).
Proof.
  intros Et Hex. destruct (find_customer_complete _ _ _ Hex) as [ref Ef].
  destruct (find_customer_Some _ _ _ _ Ef) as [_ [c [Ec Hid]]].
  destruct (find_customer_first _ _ _ _ Ef) as [l1 [l2 [Eqc Hl1]]].
  exists ref, c, l1, l2. split; [exact Eqc|]. split; [exact Ec|]. split; [exact Hid|].
  split; [exact Hl1|]. split.
  - intro Hfree. destruct (findFreeTeller_complete _ _ Hfree) as [i Ei].
    destruct (findFreeTeller_Some _ _ _ Ei) as [f [Hf [Hle Hmin]]].
    assert (Hi : (i < length (tellersFreeAt st))%nat) by (apply nth_error_Some; congruence).
    assert (Hr : (ref < length (store st))%nat) by (apply nth_error_Some; congruence).
    exists i, f. eexists. exists (assign_fields c i (time ev)).
    split; [exact Hf|]. split; [exact Hle|]. split; [exact Hmin|]. split.
    { unfold process_event. rewrite Et, Ef, Ei. unfold assignService. rewrite Ec.
      simpl. reflexivity. }
    simpl. split; [apply nth_error_array_set_eq, Hr|].
    split; [apply assign_fields_taken|].
    split; [apply array_set_untouched|].
    split; [apply array_set_booked, Hi|]. split; reflexivity.
  - intro Hall. unfold process_event. rewrite Et, Ef.
    destruct (findFreeTeller (tellersFreeAt st) (time ev)) as [i|] eqn:Ei; [|reflexivity].
    exfalso. destruct (findFreeTeller_Some _ _ _ Ei) as [f [Hf [Hle _]]].
    apply (Qlt_not_le _ _ (Hall i f Hf) Hle).
Qed.

(** ** Queue simulation engine: the loop *)

Lemma same_static_refl (c : Customer) : same_static c c.
Proof. unfold same_static. tauto. Qed.

Lemma same_static_assign (c c0 : Customer) (i : nat) (t : Q) :
  same_static c c0 -> same_static (assign_fields c i t) c0.
Proof. unfold same_static. simpl. tauto. Qed.

Lemma Forall2_nth_error_l {A B : Type} (R : A -> B -> Prop) (l1 : list A) (l2 : list B)
      (i : nat) (x : A) :
  Forall2 R l1 l2 -> nth_error l1 i = Some x -> exists y, nth_error l2 i = Some y /\ R x y.
Proof.
  intro H. revert i. induction H as [|a b l1 l2 Hab H IH]; intros [|i] Hx; simpl in *;
    try discriminate.
  - inversion Hx. subst. exists b. auto.
  - apply IH, Hx.
Qed.

Lemma Forall2_nth_error_r {A B : Type} (R : A -> B -> Prop) (l1 : list A) (l2 : list B)
      (i : nat) (y : B) :
  Forall2 R l1 l2 -> nth_error l2 i = Some y -> exists x, nth_error l1 i = Some x /\ R x y.
Proof.
  intro H. revert i. induction H as [|a b l1 l2 Hab H IH]; intros [|i] Hy; simpl in *;
    try discriminate.
  - inversion Hy. subst. exists a. auto.
  - apply IH, Hy.
Qed.

Lemma Forall2_array_set {A B : Type} (R : A -> B -> Prop) (l1 : list A) (l2 : list B)
      (i : nat) (x : A) (y : B) :
  Forall2 R l1 l2 -> nth_error l2 i = Some y -> R x y -> Forall2 R (array_set i x l1) l2.
Proof.
  intro H. revert i. induction H as [|a b l1 l2 Hab H IH]; intros [|i] Hy Hxy; simpl in *;
    try discriminate.
  - inversion Hy. subst. constructor; assumption.
  - constructor; [assumption | apply IH; assumption].
Qed.

Lemma find_customer_static (s1 s2 : list Customer) (qc : list nat) (cid : nat) :
  Forall2 same_static s1 s2 -> find_customer s1 qc cid = find_customer s2 qc cid.
Proof.
  intro H. unfold find_customer.
  assert (Hext : forall (f g : nat -> bool) (l : list nat),
             (forall r, f r = g r) -> find f l = find g l).
  { intros f g l Hfg. induction l as [|x l IH]; simpl; [reflexivity|].
    rewrite Hfg, IH. reflexivity. }
  apply Hext. intro r.
  destruct (nth_error s1 r) as [c|] eqn:E1.
  - destruct (Forall2_nth_error_l _ _ _ _ _ H E1) as [c0 [E2 [Hid _]]]. rewrite E2, Hid.
    reflexivity.
  - destruct (nth_error s2 r) as [c0|] eqn:E2; [|reflexivity].
    destruct (Forall2_nth_error_r _ _ _ _ _ H E2) as [c [E3 _]]. congruence.
Qed.

Lemma sorted_queue_In (l : list QueueEvent) (ev : QueueEvent) (rest : list QueueEvent)
      (e : QueueEvent) :
  js_sort compareEvents l = ev :: rest -> (In e l <-> e = ev \/ In e rest).
Proof.
  intro H. rewrite <- (js_sort_In compareEvents l e), H. simpl. intuition.
Qed.

Lemma sorted_queue_perm (l : list QueueEvent) (ev : QueueEvent) (rest : list QueueEvent) :
  js_sort compareEvents l = ev :: rest -> Permutation l (ev :: rest).
Proof.
  intro H. rewrite <- H. apply Permutation_sym, js_sort_perm.
Qed.

Lemma wf_step (init : list Customer) (qc : list nat) (st st1 : QueueState)
      (ev : QueueEvent) (rest : list QueueEvent) (a : option (nat * nat)) :
  wf init qc st ->
  js_sort compareEvents (pq st) = ev :: rest ->
  step_spec qc ev (with_pq st rest) st1 a ->
  wf init qc st1 /\ length (tellersFreeAt st1) = length (tellersFreeAt st).
Proof.
  intros [Hs Ha Hb Ht] Hsort Hstep.
  assert (Hin : forall e, In e rest -> In e (pq st)).
  { intros e He. apply (sorted_queue_In _ _ _ e Hsort). right. exact He. }
  assert (Hev : In ev (pq st)).
  { apply (sorted_queue_In _ _ _ ev Hsort). left. reflexivity. }
  assert (Hlen : length (store st) = length init) by (eapply Forall2_length; eauto).
  inversion Hstep; subst; simpl in *.
  - (* arrival, assigned *)
    destruct (Forall2_nth_error_l _ _ _ _ _ Hs H2) as [c0 [Ec0 Hst]].
    destruct (findFreeTeller_Some _ _ _ H1) as [f [Hf _]].
    split; [|apply array_set_length]. constructor; simpl.
    + eapply Forall2_array_set; [exact Hs | exact Ec0 | apply same_static_assign, Hst].
    + intros e cid He Hc. apply in_app_or in He. destruct He as [He|[<-|[]]].
      * eapply Ha; [apply Hin; eassumption | eassumption].
      * discriminate.
    + exact Hb.
    + intros e k He Hk. rewrite array_set_length.
      apply in_app_or in He. destruct He as [He|[<-|[]]].
      * eapply Ht; [apply Hin; eassumption | eassumption].
      * simpl in Hk. inversion Hk. subst. apply nth_error_Some. congruence.
  - (* arrival, waiting *)
    split; [|reflexivity]. constructor; simpl; auto.
    + intros e cid He Hc. eapply Ha; [apply Hin; eassumption | eassumption].
    + apply Forall_app. split; [exact Hb|]. constructor; [|constructor].
      destruct (find_customer_Some _ _ _ _ H0) as [_ [c [Ec _]]].
      rewrite <- Hlen. apply nth_error_Some. congruence.
    + intros e k He Hk. eapply Ht; [apply Hin; eassumption | eassumption].
  - (* teller free, nobody waiting *)
    split; [|reflexivity]. constructor; simpl; auto.
    + intros e cid He Hc. eapply Ha; [apply Hin; eassumption | eassumption].
    + intros e k He Hk. eapply Ht; [apply Hin; eassumption | eassumption].
  - (* teller free, next customer assigned *)
    destruct (Forall2_nth_error_l _ _ _ _ _ Hs H1) as [c0 [Ec0 Hst]].
    destruct (popNextCustomer_spec _ _ _ _ H0) as [l1 [l2 [E [E' _]]]].
    split; [|apply array_set_length]. constructor; simpl.
    + eapply Forall2_array_set; [exact Hs | exact Ec0 | apply same_static_assign, Hst].
    + intros e cid He Hc. apply in_app_or in He. destruct He as [He|[<-|[]]].
      * eapply Ha; [apply Hin; eassumption | eassumption].
      * discriminate.
    + subst buffer'. rewrite E in Hb. rewrite Forall_app in Hb. destruct Hb as [Hb1 Hb2].
      inversion Hb2. subst. apply Forall_app. split; assumption.
    + intros e k He Hk. rewrite array_set_length.
      apply in_app_or in He. destruct He as [He|[<-|[]]].
      * eapply Ht; [apply Hin; eassumption | eassumption].
      * simpl in Hk. inversion Hk. subst. eapply Ht; [exact Hev | eassumption].
Qed.

(** Under [wf] no iteration dereferences an undefined customer. *)
Lemma wf_progress (init : list Customer) (qc : list nat) (st : QueueState)
      (ev : QueueEvent) (rest : list QueueEvent) :
  wf init qc st ->
  js_sort compareEvents (pq st) = ev :: rest ->
  exists st1 a, process_event qc ev (with_pq st rest) = Some (st1, a).
Proof.
  intros [Hs Ha Hb Ht] Hsort.
  assert (Hev : In ev (pq st)).
  { apply (sorted_queue_In _ _ _ ev Hsort). left. reflexivity. }
  assert (Hlen : length (store st) = length init) by (eapply Forall2_length; eauto).
  unfold process_event. simpl. destruct (etype ev) as [cid|i] eqn:Et.
  - destruct (Ha ev cid Hev Et) as [r Hr].
    rewrite (find_customer_static _ _ _ _ Hs). rewrite Hr.
    rewrite <- (find_customer_static _ _ _ _ Hs) in Hr.
    destruct (find_customer_Some _ _ _ _ Hr) as [_ [c [Ec _]]].
    destruct (findFreeTeller (tellersFreeAt st) (time ev)) as [i|].
    + unfold assignService. simpl. rewrite Ec. simpl. eauto.
    + eauto.
  - destruct (popNextCustomer (store st) (waitingBuffer st)) as [[r b']|] eqn:Ep.
    + destruct (popNextCustomer_spec _ _ _ _ Ep) as [l1 [l2 [E _]]].
      assert (Hr : (r < length (store st))%nat).
      { rewrite Hlen. rewrite Forall_forall in Hb. apply Hb. rewrite E. apply in_elt. }
      unfold assignService. simpl.
      destruct (nth_error (store st) r) as [c|] eqn:Ec.
      * simpl. eauto.
      * apply nth_error_None in Ec. lia.
    + eauto.
Qed.

Lemma filter_length_perm {A : Type} (p : A -> bool) (l1 l2 : list A) :
  Permutation l1 l2 -> length (filter p l1) = length (filter p l2).
Proof.
  intro H. induction H; simpl; auto.
  - destruct (p x); simpl; congruence.
  - destruct (p x), (p y); reflexivity.
  - congruence.
Qed.

Lemma work_left_step (qc : list nat) (st st1 : QueueState) (ev : QueueEvent)
      (rest : list QueueEvent) (a : option (nat * nat)) :
  js_sort compareEvents (pq st) = ev :: rest ->
  step_spec qc ev (with_pq st rest) st1 a ->
  S (work_left st1) = work_left st.
Proof.
  intros Hsort Hstep. apply sorted_queue_perm in Hsort. unfold work_left.
  rewrite (filter_length_perm is_arrival _ _ Hsort).
  rewrite (filter_length_perm is_teller_free _ _ Hsort).
  inversion Hstep; subst; simpl; unfold is_arrival, is_teller_free in *; simpl;
    rewrite ?H, ?H0; simpl; rewrite ?filter_app, ?length_app; simpl; try lia.
  destruct (popNextCustomer_spec _ _ _ _ H0) as [l1 [l2 [E [E' _]]]].
  simpl in E. rewrite E, E', !length_app. simpl. lia.
Qed.

Lemma js_sort_nil_inv {A : Type} (cmp : A -> A -> Q) (l : list A) :
  js_sort cmp l = [] -> l = [].
Proof.
  intro H. apply length_zero_iff_nil. rewrite <- (js_sort_length cmp l), H. reflexivity.
Qed.

(** The loop function computes a run. *)
Lemma event_loop_runs (qc : list nat) (fuel : nat) (st st' : QueueState)
      (tr : list Processed) :
  event_loop fuel qc st = Finished st' tr -> runs qc st tr st'.
Proof.
  revert st st' tr. induction fuel as [|fuel IH]; intros st st' tr H; simpl in H.
  - destruct (pq st) eqn:Epq; [|discriminate]. inversion H. subst. apply runs_done, Epq.
  - destruct (pq st) as [|e0 l0] eqn:Epq.
    { inversion H. subst. apply runs_done, Epq. }
    rewrite <- Epq in H.
    destruct (js_sort compareEvents (pq st)) as [|ev rest] eqn:Es.
    { apply js_sort_nil_inv in Es. congruence. }
    destruct (process_event qc ev
                {| store := store st; pq := rest; waitingBuffer := waitingBuffer st;
                   tellersFreeAt := tellersFreeAt st |}) as [[st1 a]|] eqn:Ep;
      [|discriminate].
    destruct (event_loop fuel qc st1) as [st2 tr2| |] eqn:El; try discriminate.
    inversion H. subst. eapply runs_step; [exact Es | | apply IH, El].
    apply process_event_spec. exact Ep.
Qed.

(** Termination: from a well-formed state the loop finishes within
    [work_left] iterations, without dereferencing an undefined customer. *)
Lemma event_loop_finishes (init : list Customer) (qc : list nat) (fuel : nat)
      (st : QueueState) :
  wf init qc st -> (work_left st < fuel)%nat ->
  exists st' tr, event_loop fuel qc st = Finished st' tr.
Proof.
  revert st. induction fuel as [|fuel IH]; intros st Hwf Hlt; [lia|]. simpl.
  destruct (pq st) as [|e0 l0] eqn:Epq; [eauto|]. rewrite <- Epq.
  destruct (js_sort compareEvents (pq st)) as [|ev rest] eqn:Es.
  { apply js_sort_nil_inv in Es. congruence. }
  destruct (wf_progress _ _ _ _ _ Hwf Es) as [st1 [a Ep]]. unfold with_pq in Ep.
  rewrite Ep.
  pose proof (process_event_spec _ _ _ _ _ Ep) as Hstep.
  destruct (wf_step _ _ _ _ _ _ _ Hwf Es Hstep) as [Hwf1 _].
  pose proof (work_left_step _ _ _ _ _ _ Es Hstep) as Hw.
  destruct (IH st1 Hwf1) as [st2 [tr2 E2]]; [lia|]. rewrite E2. eauto.
Qed.

Lemma runs_wf (init : list Customer) (qc : list nat) (st st' : QueueState)
      (tr : list Processed) :
  runs qc st tr st' -> wf init qc st ->
  wf init qc st' /\ pq st' = [] /\
  length (tellersFreeAt st') = length (tellersFreeAt st).
Proof.
  intro H. induction H as [st Hpq|st ev rest st1 a tr st2 Hs Hstep Hruns IH]; intro Hwf.
  - auto.
  - destruct (wf_step _ _ _ _ _ _ _ Hwf Hs Hstep) as [Hwf1 Hlen].
    destruct (IH Hwf1) as [H1 [H2 H3]]. split; [exact H1|]. split; [exact H2 | congruence].
Qed.

Lemma runs_length (qc : list nat) (st st' : QueueState) (tr : list Processed) :
  runs qc st tr st' ->
  (length tr + length (waitingBuffer st') = work_left st)%nat.
Proof.
  intro H. induction H as [st Hpq|st ev rest st1 a tr st2 Hs Hstep Hruns IH].
  - unfold work_left. rewrite Hpq. simpl. reflexivity.
  - pose proof (work_left_step _ _ _ _ _ _ Hs Hstep). simpl. lia.
Qed.

Lemma step_pushes (init : list Customer) (qc : list nat) (st0 st1 : QueueState)
      (ev : QueueEvent) (a : option (nat * nat)) :
  Forall2 same_static (store st0) init ->
  step_spec qc ev st0 st1 a ->
  pq st1 = pq st0 ++ spawned init (mkProcessed ev (pq st0) a (tellersFreeAt st1)).
Proof.
  intros Hs Hstep. inversion Hstep; subst; unfold spawned; simpl.
  - destruct (Forall2_nth_error_l _ _ _ _ _ Hs H2) as [c0 [Ec0 [_ [_ [_ [_ Hst]]]]]].
    rewrite Ec0, Hst. reflexivity.
  - rewrite app_nil_r. reflexivity.
  - rewrite app_nil_r. reflexivity.
  - destruct (Forall2_nth_error_l _ _ _ _ _ Hs H1) as [c0 [Ec0 [_ [_ [_ [_ Hst]]]]]].
    rewrite Ec0, Hst. reflexivity.
Qed.

(** Every event that is ever on the queue (the initial ones and those the
    assignments push) is processed exactly once. *)
Lemma runs_consumes_all (init : list Customer) (qc : list nat) (st st' : QueueState)
      (tr : list Processed) :
  runs qc st tr st' -> wf init qc st ->
  Permutation (map event tr) (pq st ++ flat_map (spawned init) tr).
Proof.
  intro H. induction H as [st Hpq|st ev rest st1 a tr st2 Hs Hstep Hruns IH]; intro Hwf.
  - rewrite Hpq. constructor.
  - destruct (wf_step _ _ _ _ _ _ _ Hwf Hs Hstep) as [Hwf1 _].
    specialize (IH Hwf1).
    rewrite (step_pushes init qc (with_pq st rest) st1 ev a (wf_store _ _ _ Hwf) Hstep) in IH.
    simpl pq in IH.
    simpl. eapply Permutation_trans; [apply perm_skip, IH|].
    rewrite <- app_assoc. change (Permutation ((ev :: rest) ++
      spawned init (mkProcessed ev rest a (tellersFreeAt st1)) ++ flat_map (spawned init) tr)
      (pq st ++ spawned init (mkProcessed ev rest a (tellersFreeAt st1)) ++
       flat_map (spawned init) tr)).
    apply Permutation_app_tail. apply Permutation_sym, sorted_queue_perm, Hs.
Qed.

Lemma find_customer_exists (store0 : list Customer) (qc : list nat) (r : nat) (c : Customer) :
  In r qc -> nth_error store0 r = Some c ->
  exists r', find_customer store0 qc (id c) = Some r'.
Proof.
  intros Hin Hc. unfold find_customer.
  destruct (find _ qc) as [r'|] eqn:E; [eauto|].
  exfalso. pose proof (find_none _ _ E r Hin) as Hn. simpl in Hn.
  rewrite Hc, Nat.eqb_refl in Hn. discriminate.
Qed.

Lemma arrival_event_In (store0 : list Customer) (qc : list nat) (e : QueueEvent) :
  In e (flat_map (arrival_event store0) qc) <->
  exists r c, In r qc /\ nth_error store0 r = Some c /\
              e = mkQueueEvent (arrivalTime c) (ARRIVAL (id c)).
Proof.
  rewrite in_flat_map. unfold arrival_event. split.
  - intros [r [Hr He]]. destruct (nth_error store0 r) as [c|] eqn:Ec; [|destruct He].
    destruct He as [<-|[]]. exists r, c. auto.
  - intros [r [c [Hr [Hc ->]]]]. exists r. split; [exact Hr|]. rewrite Hc. left. reflexivity.
Qed.

Lemma arrival_events_length (store0 : list Customer) (qc : list nat) :
  (length (flat_map (arrival_event store0) qc) <= length qc)%nat.
Proof.
  induction qc as [|r qc IH]; simpl; [lia|]. rewrite length_app. unfold arrival_event at 1.
  destruct (nth_error store0 r); simpl; lia.
Qed.

Lemma filter_all {A : Type} (p : A -> bool) (l : list A) :
  (forall x, In x l -> p x = true) -> filter p l = l.
Proof.
  induction l as [|x l IH]; intro H; simpl; [reflexivity|].
  rewrite (H x (or_introl eq_refl)), IH; [reflexivity|].
  intros y Hy. apply H. right. exact Hy.
Qed.

Lemma filter_none {A : Type} (p : A -> bool) (l : list A) :
  (forall x, In x l -> p x = false) -> filter p l = [].
Proof.
  induction l as [|x l IH]; intro H; simpl; [reflexivity|].
  rewrite (H x (or_introl eq_refl)). apply IH.
  intros y Hy. apply H. right. exact Hy.
Qed.

Lemma initial_queue_arrivals (store0 : list Customer) (qc : list nat) (tellers : list Q)
      (e : QueueEvent) :
  In e (pq (initial_state store0 qc tellers)) ->
  exists r c, In r qc /\ nth_error store0 r = Some c /\
              e = mkQueueEvent (arrivalTime c) (ARRIVAL (id c)).
Proof.
  simpl. intro H. apply js_sort_In in H. apply arrival_event_In. exact H.
Qed.

Lemma initial_state_wf (store0 : list Customer) (qc : list nat) (tellers : list Q) :
  wf store0 qc (initial_state store0 qc tellers).
Proof.
  constructor.
  - simpl. induction store0 as [|c l IH]; constructor; [apply same_static_refl | exact IH].
  - intros e cid He Hc. apply initial_queue_arrivals in He.
    destruct He as [r [c [Hr [Ec ->]]]]. simpl in Hc. inversion Hc. subst.
    eapply find_customer_exists; eauto.
  - constructor.
  - intros e i He Hc. apply initial_queue_arrivals in He.
    destruct He as [r [c [Hr [Ec ->]]]]. discriminate.
Qed.

Lemma initial_work_left (store0 : list Customer) (qc : list nat) (tellers : list Q) :
  (work_left (initial_state store0 qc tellers) <= 2 * length qc)%nat.
Proof.
  unfold work_left. set (st := initial_state store0 qc tellers).
  assert (Harr : forall e, In e (pq st) -> is_arrival e = true /\ is_teller_free e = false).
  { intros e He. apply initial_queue_arrivals in He.
    destruct He as [r [c [_ [_ ->]]]]. split; reflexivity. }
  rewrite (filter_all is_arrival); [|intros e He; apply Harr, He].
  rewrite (filter_none is_teller_free); [|intros e He; apply Harr, He].
  simpl. rewrite js_sort_length. pose proof (arrival_events_length store0 qc). lia.
Qed.

Lemma runs_assigned_valid (init : list Customer) (qc : list nat) (st st' : QueueState)
      (tr : list Processed) :
  runs qc st tr st' -> wf init qc st ->
  forall p r i, In p tr -> assignment p = Some (r, i) ->
    exists c, nth_error init r = Some c /\
              spawned init p = [mkQueueEvent (time (event p) + serviceTime c) (TELLER_FREE i)].
Proof.
  intro H. induction H as [st Hpq|st ev rest st1 a tr st2 Hs Hstep Hruns IH];
    intros Hwf p r i Hp Ha.
  - destruct Hp.
  - destruct (wf_step _ _ _ _ _ _ _ Hwf Hs Hstep) as [Hwf1 _].
    destruct Hp as [<-|Hp]; [|eapply IH; eauto].
    simpl in Ha. subst a. unfold spawned. simpl.
    assert (Hc : exists c, nth_error (store st) r = Some c).
    { inversion Hstep; subst; simpl in *; eauto. }
    destruct Hc as [c Hc].
    destruct (Forall2_nth_error_l _ _ _ _ _ (wf_store _ _ _ Hwf) Hc) as [c0 [Ec0 _]].
    exists c0. rewrite Ec0. auto.
Qed.

(** The loop finishes within its bound, from every population and every
    vector of tellers. *)
Lemma simulateQueue_finishes (store0 : list Customer) (qc : list nat) (tellers : list Q) :
  exists st tr, simulateQueue store0 qc tellers = Finished st tr.
Proof.
  apply (event_loop_finishes store0 qc (loop_bound qc) _ (initial_state_wf store0 qc tellers)).
  pose proof (initial_work_left store0 qc tellers). unfold loop_bound. lia.
Qed.

(** An assignment writes the customer object and the teller entry at
    indices inside their arrays. *)
Lemma teller_indices_in_range (init : list Customer) (qc : list nat) (st : QueueState)
      (ev : QueueEvent) (rest : list QueueEvent) (st' : QueueState) (r i : nat) :
  wf init qc st -> js_sort compareEvents (pq st) = ev :: rest ->
  step_spec qc ev (with_pq st rest) st' (Some (r, i)) ->
  (r < length (store st))%nat /\ (i < length (tellersFreeAt st))%nat.
Proof.
  intros Hwf Hs Hstep. inversion Hstep; subst; simpl in *.
  - split; [apply nth_error_Some; congruence|].
    match goal with
    | Hfree : findFreeTeller _ _ = Some _ |- _ =>
      destruct (findFreeTeller_Some _ _ _ Hfree) as [f [Hf _]]
    end.
    apply nth_error_Some. congruence.
  - split; [apply nth_error_Some; congruence|].
    apply (wf_tellers _ _ _ Hwf ev); [|assumption].
    apply (sorted_queue_In _ _ _ ev Hs). left. reflexivity.
Qed.

(** C8.  For every population, every line and every vector of tellers, the
    event loop of [simulateQueue] terminates (within its bound, raising
    nothing) with an empty queue.  The events it processed are, as a
    multiset, the arrival events of the customers of the line together with
    the teller-free events pushed by the assignments: each event is consumed
    exactly once.  Every assignment pushes exactly one teller-free event and
    nothing else does; so the number of processed events is the number of
    arrivals plus the number of assignments, at most twice the number of
    customers of the line. *)
Theorem event_loop_terminates (store0 : list Customer) (qc : list nat) (tellers : list Q) :
  exists st tr,
    simulateQueue store0 qc tellers = Finished st tr /\
    pq st = [] /\
    Permutation (map event tr)
                (flat_map (arrival_event store0) qc ++ flat_map (spawned store0) tr) /\
    (forall p, In p tr ->
       match assignment p with
       | Some (r, i) =>
         exists c, nth_error store0 r = Some c /\
                   spawned store0 p =
                   [mkQueueEvent (time (event p) + serviceTime c) (TELLER_FREE i)]
       | None => spawned store0 p = []
       end) /\
    (length tr <= 2 * length qc)%nat.
Proof.
  pose proof (initial_state_wf store0 qc tellers) as Hwf.
  pose proof (initial_work_left store0 qc tellers) as Hw.
  destruct (simulateQueue_finishes store0 qc tellers) as [st [tr E]].
  exists st, tr. split; [exact E|].
  pose proof (event_loop_runs _ _ _ _ _ E) as Hruns.
  destruct (runs_wf _ _ _ _ _ Hruns Hwf) as [_ [Hpq _]]. split; [exact Hpq|]. split.
  - eapply Permutation_trans; [apply (runs_consumes_all _ _ _ _ _ Hruns Hwf)|].
    apply Permutation_app_tail. simpl. apply js_sort_perm.
  - split.
    + intros p Hp. destruct (assignment p) as [[r i]|] eqn:Ea.
      * eapply runs_assigned_valid; eauto.
      * unfold spawned. rewrite Ea. reflexivity.
    + pose proof (runs_length _ _ _ _ Hruns). lia.
Qed.

(** ** Queue simulation engine: who is assigned, and when *)

Lemma pending_refs_app (init : list Customer) (qc : list nat) (l1 l2 : list QueueEvent) :
  pending_refs init qc (l1 ++ l2) = pending_refs init qc l1 ++ pending_refs init qc l2.
Proof. unfold pending_refs. apply flat_map_app. Qed.

Lemma pending_refs_perm (init : list Customer) (qc : list nat) (l1 l2 : list QueueEvent) :
  Permutation l1 l2 -> Permutation (pending_refs init qc l1) (pending_refs init qc l2).
Proof. intro H. unfold pending_refs. apply Permutation_flat_map, H. Qed.

Lemma pending_refs_In (init : list Customer) (qc : list nat) (l : list QueueEvent) (r : nat) :
  In r (pending_refs init qc l) ->
  exists e cid, In e l /\ etype e = ARRIVAL cid /\ find_customer init qc cid = Some r.
Proof.
  unfold pending_refs. rewrite in_flat_map. intros [e [He Hr]].
  destruct (etype e) as [cid|i] eqn:Et; [|destruct Hr].
  destruct (find_customer init qc cid) as [r'|] eqn:Ef; [|destruct Hr].
  destruct Hr as [<-|[]]. exists e, cid. auto.
Qed.

Lemma tracked_step (init : list Customer) (qc : list nat) (st st1 : QueueState)
      (ev : QueueEvent) (rest : list QueueEvent) (a : option (nat * nat)) :
  tracked init qc st ->
  js_sort compareEvents (pq st) = ev :: rest ->
  step_spec qc ev (with_pq st rest) st1 a ->
  tracked init qc st1 /\ step_effect init qc ev st st1 a.
Proof.
  intros Htk Hsort Hstep. destruct Htk as [Hwf Harr Hnd Hun].
  destruct (wf_step _ _ _ _ _ _ _ Hwf Hsort Hstep) as [Hwf1 _].
  pose proof (sorted_queue_perm _ _ _ Hsort) as Hperm.
  assert (Hin : forall e, In e rest -> In e (pq st)).
  { intros e He. apply (sorted_queue_In _ _ _ e Hsort). right. exact He. }
  assert (Hev : In ev (pq st)).
  { apply (sorted_queue_In _ _ _ ev Hsort). left. reflexivity. }
  assert (Hav : Permutation (avail init qc st)
                            (pending_refs init qc [ev] ++ pending_refs init qc rest
                             ++ waitingBuffer st)).
  { unfold avail. rewrite app_assoc. apply Permutation_app_tail.
    rewrite <- pending_refs_app. apply pending_refs_perm. exact Hperm. }
  assert (Hstat : Forall2 same_static (store st) init) by apply Hwf.
  inversion Hstep; subst; simpl in *.
  - (* arrival, assigned *)
    destruct (Harr ev customerId Hev H) as [r0 [c0 [Ef0 [Ec0 Etime]]]].
    rewrite (find_customer_static _ _ _ _ Hstat) in H0.
    assert (ref = r0) by congruence. subst r0.
    rewrite H, Ef0 in Hav. simpl in Hav.
    assert (Hav1 : avail init qc
                     {| store := array_set ref (assign_fields c i (time ev)) (store st);
                        pq := rest ++ [mkQueueEvent (time ev + serviceTime c) (TELLER_FREE i)];
                        waitingBuffer := waitingBuffer st;
                        tellersFreeAt := array_set i (time ev + serviceTime c)
                                                   (tellersFreeAt st) |}
                   = pending_refs init qc rest ++ waitingBuffer st).
    { unfold avail. simpl. rewrite pending_refs_app. simpl. rewrite app_nil_r. reflexivity. }
    assert (Hc : nth_error init ref = Some c).
    { rewrite <- (proj2 (Hun ref (Permutation_in _ (Permutation_sym Hav) (or_introl eq_refl)))).
      exact H2. }
    assert (Hnd1 : NoDup (ref :: pending_refs init qc rest ++ waitingBuffer st)).
    { eapply Permutation_NoDup; [exact Hav | exact Hnd]. }
    split.
    + constructor; [exact Hwf1 | | |].
      * intros e cid He Hc'. simpl in He. apply in_app_or in He.
        destruct He as [He|[<-|[]]]; [|discriminate]. apply (Harr e cid (Hin e He) Hc').
      * rewrite Hav1. inversion Hnd1. assumption.
      * rewrite Hav1. intros r Hr. simpl.
        assert (Hr' : In r (avail init qc st)).
        { apply (Permutation_in _ (Permutation_sym Hav)). right. exact Hr. }
        destruct (Hun r Hr') as [Hq Hs]. split; [exact Hq|].
        rewrite nth_error_array_set_neq; [exact Hs|].
        intro. subst r. inversion Hnd1. contradiction.
    + unfold step_effect. rewrite Hav1. split; [exact Hav|].
      exists c. auto.
  - (* arrival, waiting *)
    destruct (Harr ev customerId Hev H) as [r0 [c0 [Ef0 [Ec0 Etime]]]].
    rewrite (find_customer_static _ _ _ _ Hstat) in H0.
    assert (ref = r0) by congruence. subst r0.
    rewrite H, Ef0 in Hav. simpl in Hav.
    assert (Hav1 : Permutation (avail init qc st)
                     (avail init qc {| store := store st; pq := rest;
                                       waitingBuffer := waitingBuffer st ++ [ref];
                                       tellersFreeAt := tellersFreeAt st |})).
    { unfold avail at 2. simpl. eapply Permutation_trans; [exact Hav|].
      rewrite app_assoc. apply Permutation_cons_append. }
    split.
    + constructor; [exact Hwf1 | | |].
      * intros e cid He Hc'. apply (Harr e cid (Hin e He) Hc').
      * eapply Permutation_NoDup; [exact Hav1 | exact Hnd].
      * intros r Hr. apply Hun. apply (Permutation_in _ (Permutation_sym Hav1)). exact Hr.
    + unfold step_effect. auto.
  - (* teller free, nobody waiting *)
    rewrite H in Hav. simpl in Hav.
    split.
    + constructor; [exact Hwf1 | | |].
      * intros e cid He Hc'. apply (Harr e cid (Hin e He) Hc').
      * eapply Permutation_NoDup; [exact Hav | exact Hnd].
      * intros r Hr. apply Hun. apply (Permutation_in _ (Permutation_sym Hav)). exact Hr.
    + unfold step_effect. auto.
  - (* teller free, next customer assigned *)
    rewrite H in Hav. simpl in Hav.
    destruct (popNextCustomer_spec _ _ _ _ H0) as [l1 [l2 [E [E' _]]]].
    assert (Hav1 : avail init qc
                     {| store := array_set ref (assign_fields c i (time ev)) (store st);
                        pq := rest ++ [mkQueueEvent (time ev + serviceTime c) (TELLER_FREE i)];
                        waitingBuffer := buffer';
                        tellersFreeAt := array_set i (time ev + serviceTime c)
                                                   (tellersFreeAt st) |}
                   = pending_refs init qc rest ++ l1 ++ l2).
    { unfold avail. simpl. rewrite pending_refs_app. simpl. rewrite app_nil_r.
      subst buffer'. reflexivity. }
    assert (Hav2 : Permutation (avail init qc st)
                               (ref :: pending_refs init qc rest ++ l1 ++ l2)).
    { eapply Permutation_trans; [exact Hav|]. rewrite E.
      rewrite app_assoc. apply Permutation_sym.
      rewrite app_assoc. apply Permutation_middle. }
    assert (Hc : nth_error init ref = Some c).
    { rewrite <- (proj2 (Hun ref (Permutation_in _ (Permutation_sym Hav2) (or_introl eq_refl)))).
      exact H1. }
    assert (Hnd1 : NoDup (ref :: pending_refs init qc rest ++ l1 ++ l2)).
    { eapply Permutation_NoDup; [exact Hav2 | exact Hnd]. }
    split.
    + constructor; [exact Hwf1 | | |].
      * intros e cid He Hc'. simpl in He. apply in_app_or in He.
        destruct He as [He|[<-|[]]]; [|discriminate]. apply (Harr e cid (Hin e He) Hc').
      * rewrite Hav1. inversion Hnd1. assumption.
      * rewrite Hav1. intros r Hr. simpl.
        assert (Hr' : In r (avail init qc st)).
        { apply (Permutation_in _ (Permutation_sym Hav2)). right. exact Hr. }
        destruct (Hun r Hr') as [Hq Hs]. split; [exact Hq|].
        rewrite nth_error_array_set_neq; [exact Hs|].
        intro. subst r. inversion Hnd1. contradiction.
    + unfold step_effect. rewrite Hav1. split; [exact Hav2|].
      exists c. auto.
Qed.

(** ** The comparator and the order of extraction *)

Lemma compareEvents_neg (x y : QueueEvent) :
  time x == time y \/ tolerance <= Qabs (time x - time y) ->
  (Qltb (compareEvents x y) 0 = true <->
   time x < time y \/ (time x == time y /\ is_teller_free x = true)).
Proof.
  intro Hsep. unfold compareEvents.
  destruct (Qltb (Qabs (time x - time y)) tolerance) eqn:Enear.
  - apply Qltb_lt in Enear.
    assert (Heq : time x == time y).
    { destruct Hsep as [H|H]; [exact H|]. exfalso. apply (Qlt_not_le _ _ Enear H). }
    destruct (is_teller_free x); rewrite Qltb_lt; split.
    + intros _. right. split; [exact Heq | reflexivity].
    + intros _. reflexivity.
    + intro H. exfalso. revert H. apply Qle_not_lt. discriminate.
    + intros [H|[_ H]]; [|discriminate]. exfalso. rewrite Heq in H.
      apply (Qlt_irrefl _ H).
  - apply Qltb_ge in Enear. rewrite Qltb_lt. split.
    + intro H. left. lra.
    + intros [H|[H _]]; [lra|]. exfalso.
      assert (H0 : Qabs (time x - time y) == 0).
      { rewrite H. setoid_replace (time y - time y) with 0 by ring. reflexivity. }
      rewrite H0 in Enear. unfold tolerance in Enear. revert Enear. apply Qlt_not_le.
      reflexivity.
Qed.

Lemma precedes_trans (a b c : QueueEvent) : precedes a b -> precedes b c -> precedes a c.
Proof.
  unfold precedes. intros [H1|[H1 K1]] [H2|[H2 K2]].
  - left. lra.
  - left. lra.
  - left. lra.
  - right. split; [lra|].
    destruct K1 as [K1|K1]; [left; exact K1|].
    destruct K2 as [K2|K2]; [congruence | right; exact K2].
Qed.

Lemma insert_sorted (x : QueueEvent) (l : list QueueEvent) :
  separated (x :: l) ->
  StronglySorted precedes l ->
  StronglySorted precedes (insert_by compareEvents x l).
Proof.
  intros Hsep Hs. induction Hs as [|y l Hs IH Hy]; simpl.
  - repeat constructor.
  - assert (Hxy : time x == time y \/ tolerance <= Qabs (time x - time y)).
    { apply Hsep; simpl; auto. }
    pose proof (compareEvents_neg x y Hxy) as Hneg.
    destruct (Qltb (compareEvents x y) 0) eqn:E.
    + assert (Hp : precedes x y).
      { destruct (proj1 Hneg eq_refl) as [H|[H K]]; [left; exact H|].
        right. split; [exact H | left; exact K]. }
      constructor; [constructor; assumption|]. constructor; [exact Hp|].
      rewrite Forall_forall in *. intros z Hz. eapply precedes_trans; [exact Hp|].
      apply Hy, Hz.
    + assert (Hno : ~ (time x < time y \/ (time x == time y /\ is_teller_free x = true))).
      { intro K. apply Hneg in K. discriminate. }
      assert (Hp : precedes y x).
      { destruct (Qlt_le_dec (time y) (time x)) as [H|H]; [left; exact H|].
        destruct (Qlt_le_dec (time x) (time y)) as [H'|H'].
        - exfalso. apply Hno. left. exact H'.
        - right. split; [lra|]. destruct (is_teller_free x) eqn:Ex; [|right; reflexivity].
          exfalso. apply Hno. right. split; [lra | reflexivity]. }
      constructor.
      * apply IH. intros u v Hu Hv. apply Hsep; simpl in *; tauto.
      * rewrite Forall_forall in *. intros z Hz.
        apply (Permutation_in _ (insert_by_perm compareEvents x l)) in Hz.
        destruct Hz as [<-|Hz]; [exact Hp | apply Hy, Hz].
Qed.

Lemma fold_insert_sorted (l acc : list QueueEvent) :
  separated (acc ++ l) ->
  StronglySorted precedes acc ->
  StronglySorted precedes (fold_left (fun acc x => insert_by compareEvents x acc) l acc).
Proof.
  revert acc. induction l as [|x l IH]; intros acc Hsep Hs; simpl; [exact Hs|].
  apply IH.
  - intros u v Hu Hv. apply Hsep.
    + apply in_app_or in Hu. destruct Hu as [Hu|Hu]; [|apply in_or_app; right; right; exact Hu].
      apply (Permutation_in _ (insert_by_perm compareEvents x acc)) in Hu.
      apply in_or_app. destruct Hu as [<-|Hu]; [right; left; reflexivity | left; exact Hu].
    + apply in_app_or in Hv. destruct Hv as [Hv|Hv]; [|apply in_or_app; right; right; exact Hv].
      apply (Permutation_in _ (insert_by_perm compareEvents x acc)) in Hv.
      apply in_or_app. destruct Hv as [<-|Hv]; [right; left; reflexivity | left; exact Hv].
  - apply insert_sorted; [|exact Hs].
    intros u v Hu Hv. apply Hsep; apply in_or_app; simpl in *.
    + destruct Hu as [<-|Hu]; [right; left; reflexivity | left; exact Hu].
    + destruct Hv as [<-|Hv]; [right; left; reflexivity | left; exact Hv].
Qed.

(** On separated timestamps the sort of the loop returns the events in the
    order of [precedes]. *)
Lemma js_sort_events_sorted (l : list QueueEvent) :
  separated l -> StronglySorted precedes (js_sort compareEvents l).
Proof.
  intro H. apply fold_insert_sorted; [exact H | constructor].
Qed.

Lemma sorted_head_precedes (l : list QueueEvent) (ev : QueueEvent) (rest : list QueueEvent) :
  separated l -> js_sort compareEvents l = ev :: rest ->
  forall e, In e rest -> precedes ev e.
Proof.
  intros Hsep Hs. pose proof (js_sort_events_sorted l Hsep) as H. rewrite Hs in H.
  inversion H. subst. rewrite Forall_forall in *. assumption.
Qed.

(** In every iteration of a run of the loop, if the
    timestamps of the pending events are pairwise equal or at least 0.0001
    apart, the event taken off the queue has the smallest timestamp of all
    pending events, and no pending teller-free event with that same
    timestamp is left behind an arrival. *)
Theorem extraction_order_on_separated_timestamps
        (qc : list nat) (st st' : QueueState) (p : Processed) (tr : list Processed) :
  runs qc st (p :: tr) st' ->
  separated (pq st) ->
  In (event p) (pq st) /\
  forall e, In e (pq st) ->
    time (event p) <= time e /\
    (time e == time (event p) -> is_teller_free e = true ->
     is_teller_free (event p) = true).
Proof.
  intros Hruns Hsep. inversion Hruns as [|st0 ev rest st1 a tr0 st2 Hs Hstep Hr]. subst.
  simpl. split; [apply (sorted_queue_In _ _ _ ev Hs); left; reflexivity|].
  intros e He. apply (sorted_queue_In _ _ _ e Hs) in He. destruct He as [->|He].
  - split; [apply Qle_refl | auto].
  - destruct (sorted_head_precedes _ _ _ Hsep Hs e He) as [H|[H K]].
    + split; [apply Qlt_le_weak, H|]. intros Heq _. exfalso. rewrite Heq in H.
      apply (Qlt_irrefl _ H).
    + split; [rewrite H; apply Qle_refl|]. intros _ Hf.
      destruct K as [K|K]; [exact K | congruence].
Qed.

Lemma separatedb_sound (l : list QueueEvent) : separatedb l = true -> separated l.
Proof.
  unfold separatedb. rewrite forallb_forall. intros H x y Hx Hy.
  specialize (H x Hx). rewrite forallb_forall in H. specialize (H y Hy).
  apply orb_true_iff in H. destruct H as [H|H].
  - left. apply Qeq_bool_iff, H.
  - right. apply Qle_bool_iff, H.
Qed.

Lemma no_near_tieb_sound (tr : list Processed) :
  forallb no_near_tieb tr = true -> Forall no_near_tie tr.
Proof.
  rewrite forallb_forall, Forall_forall. intros H p Hp.
  apply separatedb_sound. apply (H p Hp).
Qed.

(** ** Servers and service intervals *)

Lemma In_array_set {A : Type} (i : nat) (v x : A) (l : list A) :
  In x (array_set i v l) -> x = v \/ In x l.
Proof.
  intro H. apply In_nth_error in H. destruct H as [j Hj].
  apply nth_error_array_set in Hj. destruct Hj as [[_ [-> _]]|[_ Hj]]; [left; reflexivity|].
  right. eapply nth_error_In, Hj.
Qed.

Lemma tellers_le_refl (v : list Q) : tellers_le v v.
Proof.
  split; [reflexivity|]. intros i f1 f2 H1 H2. rewrite H1 in H2. inversion H2.
  apply Qle_refl.
Qed.

Lemma tellers_le_trans (v1 v2 v3 : list Q) :
  tellers_le v1 v2 -> tellers_le v2 v3 -> tellers_le v1 v3.
Proof.
  intros [L1 H1] [L2 H2]. split; [congruence|]. intros i f1 f3 E1 E3.
  destruct (nth_error v2 i) as [f2|] eqn:E2.
  - eapply Qle_trans; [eapply H1 | eapply H2]; eauto.
  - apply nth_error_None in E2. assert (nth_error v1 i <> None) by congruence.
    apply nth_error_Some in H. lia.
Qed.

Lemma tellers_le_set (v : list Q) (i : nat) (f x : Q) :
  nth_error v i = Some f -> f <= x -> tellers_le v (array_set i x v).
Proof.
  intros Hf Hle. split; [symmetry; apply array_set_length|]. intros j f1 f2 H1 H2.
  apply nth_error_array_set in H2. destruct H2 as [[-> [-> _]]|[_ H2]].
  - rewrite Hf in H1. inversion H1. subst. exact Hle.
  - rewrite H1 in H2. inversion H2. apply Qle_refl.
Qed.

(** Assigning a waiting or arriving customer [ref], untouched so far, to a
    teller that is free at the time [t] of the event keeps the service
    bookkeeping. *)
Lemma assign_service_ok (init : list Customer) (qc : list nat) (population : list Customer)
      (tellers : list Q) (buffer buffer' : list nat) (ref i : nat) (c : Customer)
      (f t : Q) :
  service_ok init qc population tellers buffer ->
  nth_error tellers i = Some f -> f <= t ->
  In ref qc -> nth_error population ref = Some c -> fresh c ->
  arrivalTime c <= t -> 0 <= serviceTime c ->
  incl buffer' buffer ->
  service_ok init qc (array_set ref (assign_fields c i t) population)
             (array_set i (t + serviceTime c) tellers) buffer'.
Proof.
  intros [Hw Hs Hd] Hf Hft Hq Hc Hfresh Harr Hdur Hincl.
  assert (Hi : (i < length tellers)%nat) by (apply nth_error_Some; congruence).
  assert (Href : (ref < length population)%nat) by (apply nth_error_Some; congruence).
  constructor.
  - intros r c0 g Hr Hc0 Hg. apply In_array_set in Hg. destruct Hg as [->|Hg].
    + assert (arrivalTime c0 < f).
      { apply (Hw r c0 f (Hincl r Hr) Hc0). eapply nth_error_In, Hf. }
      lra.
    + apply (Hw r c0 g (Hincl r Hr) Hc0 Hg).
  - intros r c1 s Hr Hc1 Hs1.
    apply nth_error_array_set in Hc1. destruct Hc1 as [[-> [-> _]]|[Hne Hc1]].
    + simpl in Hs1. inversion Hs1. subst s. simpl. split; [exact Harr|].
      exists i, (t + serviceTime c). split; [reflexivity|].
      split; [apply nth_error_array_set_eq, Hi | apply Qle_refl].
    + destruct (Hs r c1 s Hr Hc1 Hs1) as [Ha [k [g [Hk [Hg Hle]]]]].
      split; [exact Ha|]. destruct (Nat.eq_dec k i) as [->|Hki].
      * exists i, (t + serviceTime c). split; [exact Hk|].
        split; [apply nth_error_array_set_eq, Hi|].
        rewrite Hf in Hg. inversion Hg. subst g. lra.
      * exists k, g. split; [exact Hk|]. split; [|exact Hle].
        rewrite nth_error_array_set_neq; [exact Hg | congruence].
  - intros r1 r2 c1 c2 k Hne Hr1 Hr2 Hc1 Hc2 Hk1 Hk2 s1 s2 Hs1 Hs2.
    apply nth_error_array_set in Hc1. apply nth_error_array_set in Hc2.
    destruct Hc1 as [[-> [-> _]]|[Hne1 Hc1]]; destruct Hc2 as [[-> [-> _]]|[Hne2 Hc2]].
    + congruence.
    + simpl in Hs1, Hk1. inversion Hs1. inversion Hk1. subst s1 k. simpl.
      destruct (Hs r2 c2 s2 Hr2 Hc2 Hs2) as [_ [k [g [Hk [Hg Hle]]]]].
      assert (k = i) by congruence. subst k. rewrite Hf in Hg. inversion Hg. subst g.
      right. lra.
    + simpl in Hs2, Hk2. inversion Hs2. inversion Hk2. subst s2 k. simpl.
      destruct (Hs r1 c1 s1 Hr1 Hc1 Hs1) as [_ [k [g [Hk [Hg Hle]]]]].
      assert (k = i) by congruence. subst k. rewrite Hf in Hg. inversion Hg. subst g.
      left. lra.
    + apply (Hd r1 r2 c1 c2 k Hne Hr1 Hr2 Hc1 Hc2 Hk1 Hk2 s1 s2 Hs1 Hs2).
Qed.

Lemma pending_refs_intro (init : list Customer) (qc : list nat) (l : list QueueEvent)
      (e : QueueEvent) (cid r : nat) :
  In e l -> etype e = ARRIVAL cid -> find_customer init qc cid = Some r ->
  In r (pending_refs init qc l).
Proof.
  intros He Ht Hf. unfold pending_refs. apply in_flat_map. exists e. split; [exact He|].
  rewrite Ht, Hf. left. reflexivity.
Qed.

Lemma free_indices_app (l1 l2 : list QueueEvent) :
  free_indices (l1 ++ l2) = free_indices l1 ++ free_indices l2.
Proof. unfold free_indices. apply flat_map_app. Qed.

Lemma free_indices_perm (l1 l2 : list QueueEvent) :
  Permutation l1 l2 -> Permutation (free_indices l1) (free_indices l2).
Proof. intro H. unfold free_indices. apply Permutation_flat_map, H. Qed.

Lemma free_indices_In (l : list QueueEvent) (i : nat) :
  In i (free_indices l) <-> exists e, In e l /\ etype e = TELLER_FREE i.
Proof.
  unfold free_indices. rewrite in_flat_map. split.
  - intros [e [He Hi]]. destruct (etype e) as [cid|k] eqn:Et; [destruct Hi|].
    destruct Hi as [<-|[]]. exists e. auto.
  - intros [e [He Ht]]. exists e. split; [exact He|]. rewrite Ht. left. reflexivity.
Qed.

Lemma is_teller_free_true (e : QueueEvent) :
  is_teller_free e = true <-> exists i, etype e = TELLER_FREE i.
Proof.
  unfold is_teller_free. destruct (etype e) as [cid|i].
  - split; [discriminate | intros [i H]; discriminate].
  - split; eauto.
Qed.

Lemma separated_head_ok (l : list QueueEvent) (ev : QueueEvent) (rest : list QueueEvent) :
  separated l -> js_sort compareEvents l = ev :: rest -> head_ok ev rest.
Proof.
  intros Hsep Hs Hev e He Hf.
  destruct (sorted_head_precedes _ _ _ Hsep Hs e He) as [H|[_ [K|K]]];
    [exact H | congruence | congruence].
Qed.

Section OneLine.

Variables (init : list Customer) (qc : list nat).

(** The customers of the line are as the generator left them, with service
    durations that are not negative. *)
Hypothesis qc_fresh : forall r c, In r qc -> nth_error init r = Some c -> fresh c.
Hypothesis qc_durations : forall r c, In r qc -> nth_error init r = Some c ->
                                      0 <= serviceTime c.

Lemma ordered_step (st st1 : QueueState) (ev : QueueEvent) (rest : list QueueEvent)
      (a : option (nat * nat)) :
  ordered init qc st ->
  js_sort compareEvents (pq st) = ev :: rest ->
  head_ok ev rest ->
  step_spec qc ev (with_pq st rest) st1 a ->
  ordered init qc st1 /\ tellers_le (tellersFreeAt st) (tellersFreeAt st1).
Proof.
  intros [Htk Hone Hfree Hso] Hsort Hhead Hstep.
  destruct (tracked_step _ _ _ _ _ _ _ Htk Hsort Hstep) as [Htk1 _].
  pose proof (sorted_queue_perm _ _ _ Hsort) as Hperm.
  assert (Hin : forall e, In e rest -> In e (pq st)).
  { intros e He. apply (sorted_queue_In _ _ _ e Hsort). right. exact He. }
  assert (Hev : In ev (pq st)).
  { apply (sorted_queue_In _ _ _ ev Hsort). left. reflexivity. }
  assert (Hstat : Forall2 same_static (store st) init) by apply Htk.
  assert (Hone2 : forall l, free_indices [ev] = l -> NoDup (l ++ free_indices rest)).
  { intros l <-. rewrite <- free_indices_app.
    apply (Permutation_NoDup (free_indices_perm _ _ Hperm) Hone). }
  destruct Htk as [Hwf Harr Hnd Hun].
  inversion Hstep; subst; simpl in *.
  - (* arrival, assigned *)
    destruct (Harr ev customerId Hev H) as [r0 [c0 [Ef0 [Ec0 Etime]]]].
    rewrite (find_customer_static _ _ _ _ Hstat) in H0.
    assert (ref = r0) by congruence. subst r0.
    assert (Hav : In ref (avail init qc st)).
    { apply in_or_app. left. eapply pending_refs_intro; eauto. }
    destruct (Hun ref Hav) as [Hq Hsame].
    assert (c = c0) by congruence. subst c0.
    destruct (findFreeTeller_Some _ _ _ H1) as [f [Hf [Hft _]]].
    assert (Hni : ~ In i (free_indices rest)).
    { intro Hi. apply free_indices_In in Hi. destruct Hi as [e [He Het]].
      pose proof (Hfree e i (Hin e He) Het) as Hfe. rewrite Hf in Hfe. inversion Hfe.
      assert (Hlt : time ev < time e).
      { apply Hhead; [unfold is_teller_free; rewrite H; reflexivity | exact He |].
        apply is_teller_free_true. eauto. }
      subst f. apply (Qlt_not_le _ _ Hlt Hft). }
    assert (Hone' : NoDup ([] ++ free_indices rest)).
    { apply Hone2. unfold free_indices. simpl. rewrite H. reflexivity. }
    simpl in Hone'.
    split; [|eapply tellers_le_set; [exact Hf|]].
    + constructor; [exact Htk1 | | |]; simpl.
      * rewrite free_indices_app. simpl.
        apply (Permutation_NoDup (Permutation_cons_append _ i)).
        constructor; assumption.
      * intros e k He Hk. apply in_app_or in He. destruct He as [He|[<-|[]]].
        -- rewrite nth_error_array_set_neq; [apply (Hfree e k (Hin e He) Hk)|].
           intro. subst k. apply Hni. apply free_indices_In. eauto.
        -- simpl in Hk. inversion Hk. subst k. simpl.
           apply nth_error_array_set_eq. apply nth_error_Some. congruence.
      * apply (assign_service_ok init qc _ _ _ _ ref i c f (time ev) Hso Hf Hft Hq H2).
        -- apply (qc_fresh ref c Hq Ec0).
        -- rewrite Etime. apply Qle_refl.
        -- apply (qc_durations ref c Hq Ec0).
        -- apply incl_refl.
    + pose proof (qc_durations ref c Hq Ec0). lra.
  - (* arrival, waiting *)
    destruct (Harr ev customerId Hev H) as [r0 [c0 [Ef0 [Ec0 Etime]]]].
    rewrite (find_customer_static _ _ _ _ Hstat) in H0.
    assert (ref = r0) by congruence. subst r0.
    assert (Hone' : NoDup ([] ++ free_indices rest)).
    { apply Hone2. unfold free_indices. simpl. rewrite H. reflexivity. }
    simpl in Hone'.
    split; [|apply tellers_le_refl].
    constructor; [exact Htk1 | exact Hone' | |]; simpl.
    + intros e k He Hk. apply (Hfree e k (Hin e He) Hk).
    + destruct Hso as [Hw Hs Hd]. constructor; [|exact Hs|exact Hd].
      intros r c f Hr Hc Hf. apply in_app_or in Hr. destruct Hr as [Hr|[<-|[]]].
      * apply (Hw r c f Hr Hc Hf).
      * assert (c = c0) by congruence. subst c0. rewrite <- Etime.
        apply (findFreeTeller_None _ _ H1 f Hf).
  - (* teller free, nobody waiting *)
    assert (Hone' : NoDup ([i] ++ free_indices rest)).
    { apply Hone2. unfold free_indices. simpl. rewrite H. reflexivity. }
    simpl in Hone'. apply NoDup_cons_iff in Hone'. destruct Hone' as [Hni Hone'].
    split; [|apply tellers_le_refl].
    constructor; [exact Htk1 | exact Hone' | |]; simpl.
    + intros e k He Hk. apply (Hfree e k (Hin e He) Hk).
    + exact Hso.
  - (* teller free, next customer assigned *)
    assert (Hone' : NoDup ([i] ++ free_indices rest)).
    { apply Hone2. unfold free_indices. simpl. rewrite H. reflexivity. }
    simpl in Hone'. apply NoDup_cons_iff in Hone'. destruct Hone' as [Hni Hone'].
    destruct (popNextCustomer_spec _ _ _ _ H0) as [l1 [l2 [E [E' _]]]].
    assert (Hbuf : In ref (waitingBuffer st)) by (rewrite E; apply in_elt).
    assert (Hav : In ref (avail init qc st)) by (apply in_or_app; right; exact Hbuf).
    destruct (Hun ref Hav) as [Hq Hsame].
    assert (Ec0 : nth_error init ref = Some c) by congruence.
    pose proof (Hfree ev i Hev H) as Hf.
    assert (Harrive : arrivalTime c < time ev).
    { apply (so_waiting _ _ _ _ _ Hso ref c (time ev) Hbuf Ec0). eapply nth_error_In, Hf. }
    split; [|eapply tellers_le_set; [exact Hf|]].
    + constructor; [exact Htk1 | | |]; simpl.
      * rewrite free_indices_app. simpl.
        apply (Permutation_NoDup (Permutation_cons_append _ i)).
        constructor; assumption.
      * intros e k He Hk. apply in_app_or in He. destruct He as [He|[<-|[]]].
        -- rewrite nth_error_array_set_neq; [apply (Hfree e k (Hin e He) Hk)|].
           intro. subst k. apply Hni. apply free_indices_In. eauto.
        -- simpl in Hk. inversion Hk. subst k. simpl.
           apply nth_error_array_set_eq. apply nth_error_Some. congruence.
      * apply (assign_service_ok init qc _ _ (waitingBuffer st) _ ref i c (time ev) (time ev)
                                 Hso Hf (Qle_refl _) Hq H1).
        -- apply (qc_fresh ref c Hq Ec0).
        -- apply Qlt_le_weak, Harrive.
        -- apply (qc_durations ref c Hq Ec0).
        -- subst buffer'. rewrite E. intros x Hx. apply in_app_or in Hx.
           apply in_or_app. simpl. tauto.
    + pose proof (qc_durations ref c Hq Ec0). lra.
Qed.

(** A run without near ties from an ordered state ends in an ordered state,
    and the free-at vectors it goes through only grow. *)
Lemma runs_ordered (st st' : QueueState) (tr : list Processed) :
  runs qc st tr st' -> ordered init qc st -> Forall no_near_tie tr ->
  ordered init qc st' /\
  StronglySorted tellers_le (tellersFreeAt st :: map tellersAfter tr).
Proof.
  intro H. induction H as [st Hpq|st ev rest st1 a tr st2 Hs Hstep Hruns IH];
    intros Hord Hsep.
  - split; [exact Hord|]. repeat constructor.
  - inversion Hsep as [|p l Hp Hl]. subst. unfold no_near_tie in Hp. simpl in Hp.
    assert (Hhead : head_ok ev rest).
    { apply (separated_head_ok (pq st)); [|exact Hs].
      intros x y Hx Hy. apply Hp; rewrite <- Hs; apply js_sort_In; assumption. }
    destruct (ordered_step st st1 ev rest a Hord Hs Hhead Hstep) as [Hord1 Hle].
    destruct (IH Hord1 Hl) as [Hord2 Hsorted]. split; [exact Hord2|].
    simpl. constructor; [exact Hsorted|].
    inversion Hsorted as [|v l' Hl' Hv]. subst.
    constructor; [exact Hle|]. rewrite Forall_forall in *. intros v Hv'.
    eapply tellers_le_trans; [exact Hle | apply Hv, Hv'].
Qed.

End OneLine.

(** ** Timestamps on a grid *)

Lemma on_grid_plus (step x y : Q) : on_grid step x -> on_grid step y -> on_grid step (x + y).
Proof.
  intros [k1 H1] [k2 H2]. exists (k1 + k2)%Z. rewrite inject_Z_plus, H1, H2. ring.
Qed.

Lemma on_grid_zero (step : Q) : on_grid step 0.
Proof. exists 0%Z. ring. Qed.

Lemma on_grid_separated (step x y : Q) :
  tolerance <= step -> on_grid step x -> on_grid step y ->
  x == y \/ tolerance <= Qabs (x - y).
Proof.
  intros Hstep [k1 H1] [k2 H2].
  assert (Hpos : 0 < step) by (unfold tolerance in Hstep; lra).
  destruct (Z.eq_dec k1 k2) as [->|Hne].
  - left. rewrite H1, H2. reflexivity.
  - right. destruct (Z_lt_le_dec k1 k2) as [Hlt|Hge].
    + assert (Hk : inject_Z k1 + 1 <= inject_Z k2).
      { assert (Hk0 : inject_Z (k1 + 1) <= inject_Z k2) by (rewrite <- Zle_Qle; lia).
        rewrite inject_Z_plus in Hk0. exact Hk0. }
      assert (Hm : (inject_Z k1 + 1) * step <= inject_Z k2 * step).
      { apply Qmult_le_compat_r; [exact Hk | lra]. }
      apply Qabs_case; intros; lra.
    + assert (Hk : inject_Z k2 + 1 <= inject_Z k1).
      { assert (Hk0 : inject_Z (k2 + 1) <= inject_Z k1) by (rewrite <- Zle_Qle; lia).
        rewrite inject_Z_plus in Hk0. exact Hk0. }
      assert (Hm : (inject_Z k2 + 1) * step <= inject_Z k1 * step).
      { apply Qmult_le_compat_r; [exact Hk | lra]. }
      apply Qabs_case; intros; lra.
Qed.

Lemma gridded_separated (step : Q) (st : QueueState) :
  tolerance <= step -> gridded step st -> separated (pq st).
Proof.
  intros Hstep Hg x y Hx Hy. apply (on_grid_separated step); auto.
Qed.

Section OneLineOnGrid.

Variables (step : Q) (init : list Customer) (qc : list nat).

Hypothesis step_coarse : tolerance <= step.
Hypothesis qc_on_grid : forall r c, In r qc -> nth_error init r = Some c ->
                                    customer_on_grid step c.
Hypothesis qc_fresh : forall r c, In r qc -> nth_error init r = Some c -> fresh c.

Lemma gridded_step (st st1 : QueueState) (ev : QueueEvent) (rest : list QueueEvent)
      (a : option (nat * nat)) :
  tracked init qc st -> gridded step st ->
  js_sort compareEvents (pq st) = ev :: rest ->
  step_spec qc ev (with_pq st rest) st1 a ->
  gridded step st1.
Proof.
  intros Htk Hg Hsort Hstep.
  assert (Hin : forall e, In e rest -> In e (pq st)).
  { intros e He. apply (sorted_queue_In _ _ _ e Hsort). right. exact He. }
  assert (Hev : In ev (pq st)).
  { apply (sorted_queue_In _ _ _ ev Hsort). left. reflexivity. }
  assert (Hstat : Forall2 same_static (store st) init) by apply Htk.
  assert (Hnew : forall ref c, In ref qc -> nth_error (store st) ref = Some c ->
                               on_grid step (time ev + serviceTime c)).
  { intros ref c Hq Hc.
    destruct (Forall2_nth_error_l _ _ _ _ _ Hstat Hc) as [c0 [Ec0 [_ [_ [_ [_ Hst]]]]]].
    rewrite Hst. apply on_grid_plus; [apply Hg, Hev|].
    apply (qc_on_grid ref c0 Hq Ec0). }
  inversion Hstep; subst; simpl in *; intros e He; simpl in He.
  - apply in_app_or in He. destruct He as [He|[<-|[]]]; [apply Hg, Hin, He|]. simpl.
    apply (Hnew ref c); [|exact H2].
    apply (find_customer_Some _ _ _ _ H0).
  - apply Hg, Hin, He.
  - apply Hg, Hin, He.
  - apply in_app_or in He. destruct He as [He|[<-|[]]]; [apply Hg, Hin, He|]. simpl.
    apply (Hnew ref c); [|exact H1].
    destruct (popNextCustomer_spec _ _ _ _ H0) as [l1 [l2 [E _]]].
    apply (tk_untouched _ _ _ Htk ref). apply in_or_app. right. rewrite E. apply in_elt.
Qed.

(** On such a grid a run has no near ties. *)
Lemma runs_on_grid (st st' : QueueState) (tr : list Processed) :
  runs qc st tr st' -> tracked init qc st -> gridded step st ->
  Forall no_near_tie tr.
Proof.
  intro H. induction H as [st Hpq|st ev rest st1 a tr st2 Hs Hstep Hruns IH];
    intros Htk Hg; constructor.
  - unfold no_near_tie. simpl. intros x y Hx Hy.
    apply (gridded_separated step st step_coarse Hg);
      apply (js_sort_In compareEvents); rewrite Hs; assumption.
  - apply IH.
    + apply (proj1 (tracked_step init qc st st1 ev rest a Htk Hs Hstep)).
    + apply (gridded_step st st1 ev rest a Htk Hg Hs Hstep).
Qed.

End OneLineOnGrid.

(** ** The initial state of the loop *)

Lemma unique_id_ref (init : list Customer) (r1 r2 : nat) (c1 c2 : Customer) :
  NoDup (map id init) ->
  nth_error init r1 = Some c1 -> nth_error init r2 = Some c2 -> id c1 = id c2 -> r1 = r2.
Proof.
  intros Hnd H1 H2 Hid.
  apply (proj1 (NoDup_nth_error (map id init)) Hnd).
  - rewrite length_map. apply nth_error_Some. congruence.
  - rewrite !nth_error_map, H1, H2. simpl. congruence.
Qed.

Lemma find_customer_unique (init : list Customer) (qc : list nat) (r : nat) (c : Customer) :
  NoDup (map id init) -> In r qc -> nth_error init r = Some c ->
  find_customer init qc (id c) = Some r.
Proof.
  intros Hnd Hr Hc. destruct (find_customer_exists _ _ _ _ Hr Hc) as [r' Hr'].
  destruct (find_customer_Some _ _ _ _ Hr') as [_ [c' [Hc' Hid]]].
  rewrite (unique_id_ref init r r' c c' Hnd Hc Hc'); [exact Hr' | congruence].
Qed.

Lemma initial_pending_refs (init : list Customer) (qc l : list nat) :
  NoDup (map id init) -> incl l qc ->
  pending_refs init qc (flat_map (arrival_event init) l)
  = filter (fun r => Nat.ltb r (length init)) l.
Proof.
  intros Hnd. induction l as [|r l IH]; intro Hincl; simpl; [reflexivity|].
  rewrite pending_refs_app, IH by (intros x Hx; apply Hincl; right; exact Hx).
  unfold arrival_event. destruct (nth_error init r) as [c|] eqn:Ec.
  - assert (Hlt : Nat.ltb r (length init) = true).
    { apply Nat.ltb_lt. apply nth_error_Some. congruence. }
    rewrite Hlt. unfold pending_refs. simpl.
    rewrite (find_customer_unique init qc r c Hnd (Hincl r (or_introl eq_refl)) Ec).
    reflexivity.
  - assert (Hlt : Nat.ltb r (length init) = false).
    { apply Nat.ltb_ge. apply nth_error_None. exact Ec. }
    rewrite Hlt. reflexivity.
Qed.

Lemma initial_state_tracked (init : list Customer) (qc : list nat) (tellers : list Q) :
  NoDup (map id init) -> NoDup qc ->
  tracked init qc (initial_state init qc tellers).
Proof.
  intros Hnd Hq.
  assert (Hav : Permutation (avail init qc (initial_state init qc tellers))
                            (filter (fun r => Nat.ltb r (length init)) qc)).
  { unfold avail. simpl. rewrite app_nil_r.
    rewrite <- (initial_pending_refs init qc qc Hnd (incl_refl qc)).
    apply pending_refs_perm, js_sort_perm. }
  constructor.
  - apply initial_state_wf.
  - intros e cid He Hc. apply initial_queue_arrivals in He.
    destruct He as [r [c [Hr [Ec ->]]]]. simpl in Hc. inversion Hc. subst.
    exists r, c. split; [apply find_customer_unique; assumption|]. auto.
  - eapply Permutation_NoDup; [apply Permutation_sym, Hav|]. apply NoDup_filter, Hq.
  - intros r Hr. apply (Permutation_in _ Hav) in Hr. apply filter_In in Hr.
    split; [apply Hr | reflexivity].
Qed.

Lemma initial_state_ordered (init : list Customer) (qc : list nat) (tellers : list Q) :
  NoDup (map id init) -> NoDup qc ->
  (forall r c, In r qc -> nth_error init r = Some c -> fresh c) ->
  ordered init qc (initial_state init qc tellers).
Proof.
  intros Hnd Hq Hfresh.
  assert (Hnotf : forall e i, In e (pq (initial_state init qc tellers)) ->
                              etype e = TELLER_FREE i -> False).
  { intros e i He Hi. apply initial_queue_arrivals in He.
    destruct He as [r [c [_ [_ ->]]]]. discriminate. }
  constructor.
  - apply initial_state_tracked; assumption.
  - assert (E : free_indices (pq (initial_state init qc tellers)) = []).
    { destruct (free_indices _) as [|i l] eqn:E; [reflexivity|]. exfalso.
      assert (Hi : In i (free_indices (pq (initial_state init qc tellers)))).
      { rewrite E. left. reflexivity. }
      apply free_indices_In in Hi. destruct Hi as [e [He Hi]]. eapply Hnotf; eauto. }
    rewrite E. constructor.
  - intros e i He Hi. exfalso. eapply Hnotf; eauto.
  - simpl. constructor.
    + intros r c f [].
    + intros r c s Hr Hc Hs. destruct (Hfresh r c Hr Hc) as [Hs0 _]. congruence.
    + intros r1 r2 c1 c2 i _ Hr1 _ Hc1 _ _ _ s1 s2 Hs1 _.
      destruct (Hfresh r1 c1 Hr1 Hc1) as [Hs0 _]. congruence.
Qed.

Lemma initial_state_gridded (step : Q) (init : list Customer) (qc : list nat)
      (tellers : list Q) :
  (forall r c, In r qc -> nth_error init r = Some c -> customer_on_grid step c) ->
  gridded step (initial_state init qc tellers).
Proof.
  intros Hg e He. apply initial_queue_arrivals in He.
  destruct He as [r [c [Hr [Ec ->]]]]. simpl. apply (Hg r c Hr Ec).
Qed.

(** A run from a tracked state assigns every customer at most once, and
    only customers that could still be assigned; an assigned customer ends
    with the fields written by that one assignment, every other object is
    left as it was. *)
Lemma runs_tracked (init : list Customer) (qc : list nat) (st st' : QueueState)
      (tr : list Processed) :
  runs qc st tr st' -> tracked init qc st ->
  tracked init qc st' /\
  NoDup (assigned_refs tr) /\
  incl (assigned_refs tr) (avail init qc st) /\
  (forall r, ~ In r (assigned_refs tr) -> nth_error (store st') r = nth_error (store st) r) /\
  (forall p r i, In p tr -> assignment p = Some (r, i) ->
     exists c, nth_error init r = Some c /\
               nth_error (store st') r = Some (assign_fields c i (time (event p)))).
Proof.
  intro H. induction H as [st Hpq|st ev rest st1 a tr st2 Hs Hstep Hruns IH]; intro Htk.
  - split; [exact Htk|]. split; [constructor|]. split; [intros x []|].
    split; [reflexivity | intros p r i []].
  - destruct (tracked_step _ _ _ _ _ _ _ Htk Hs Hstep) as [Htk1 Heff].
    destruct (IH Htk1) as [Htk2 [Hnd [Hincl [Hsame Hass]]]].
    split; [exact Htk2|]. unfold assigned_refs. simpl.
    fold (assigned_refs tr). destruct a as [[r i]|]; simpl in *.
    + destruct Heff as [Hperm [c [Ec [Estore Etell]]]].
      pose proof (Permutation_NoDup Hperm (tk_avail _ _ _ Htk)) as Hnd1.
      assert (Hr : ~ In r (assigned_refs tr)).
      { intro Hr. apply Hincl in Hr. inversion Hnd1. contradiction. }
      assert (Hlen : (r < length (store st))%nat).
      { rewrite (Forall2_length (wf_store _ _ _ (tk_wf _ _ _ Htk))).
        apply nth_error_Some. congruence. }
      split; [constructor; assumption|]. split.
      { intros x [<-|Hx].
        - apply (Permutation_in _ (Permutation_sym Hperm)). left. reflexivity.
        - apply (Permutation_in _ (Permutation_sym Hperm)). right. apply Hincl, Hx. }
      split.
      { intros x Hx. rewrite Hsame by tauto. rewrite Estore.
        apply nth_error_array_set_neq. tauto. }
      intros p x k [<-|Hp] Hk.
      * simpl in Hk. inversion Hk. subst x k. exists c. split; [exact Ec|].
        rewrite (Hsame r Hr), Estore. simpl. apply nth_error_array_set_eq, Hlen.
      * apply (Hass p x k Hp Hk).
    + destruct Heff as [Hperm [Estore Etell]].
      split; [exact Hnd|]. split.
      { intros x Hx. apply (Permutation_in _ (Permutation_sym Hperm)). apply Hincl, Hx. }
      split.
      { intros x Hx. rewrite Hsame by exact Hx. rewrite Estore. reflexivity. }
      intros p x k [<-|Hp] Hk; [discriminate | apply (Hass p x k Hp Hk)].
Qed.

(** ** Customer records along a run *)

Lemma assign_fields_consistent (c : Customer) (i : nat) (t : Q) :
  consistent (assign_fields c i t).
Proof.
  intros s Hs. simpl in *. inversion Hs. subst s.
  split; [reflexivity|]. split; [reflexivity|].
  destruct (Qltb 15 (t - arrivalTime c)) eqn:E15.
  - apply Qltb_lt in E15. repeat split; intros; try reflexivity; exfalso; lra.
  - apply Qltb_ge in E15. destruct (Qltb 5 (t - arrivalTime c)) eqn:E5.
    + apply Qltb_lt in E5. repeat split; intros; try reflexivity; exfalso; lra.
    + apply Qltb_ge in E5. repeat split; intros; try reflexivity; exfalso; lra.
Qed.

Lemma fresh_consistent (c : Customer) : fresh c -> consistent c.
Proof. intros [H _] s Hs. congruence. Qed.

Lemma Forall_array_set {A : Type} (P : A -> Prop) (i : nat) (v : A) (l : list A) :
  Forall P l -> P v -> Forall P (array_set i v l).
Proof.
  intros Hl Hv. rewrite Forall_forall in *. intros x Hx.
  apply In_array_set in Hx. destruct Hx as [->|Hx]; auto.
Qed.

Lemma runs_consistent (qc : list nat) (st st' : QueueState) (tr : list Processed) :
  runs qc st tr st' -> Forall consistent (store st) -> Forall consistent (store st').
Proof.
  intro H. induction H as [st Hpq|st ev rest st1 a tr st2 Hs Hstep Hruns IH]; intro Hc.
  - exact Hc.
  - apply IH. inversion Hstep; subst; simpl in *; try exact Hc;
      apply Forall_array_set; try exact Hc; apply assign_fields_consistent.
Qed.

(** ** The two lines *)

Lemma line_customers_In (line : ServiceType) (population : list Customer) (r : nat) :
  In r (line_customers line population) <->
  exists c, nth_error population r = Some c /\ serviceType c = line.
Proof.
  unfold line_customers. rewrite filter_In, in_seq. split.
  - intros [_ H]. destruct (nth_error population r) as [c|]; [|discriminate].
    exists c. split; [reflexivity|]. destruct (serviceType c), line; simpl in H; congruence.
  - intros [c [Hc Hl]]. split.
    + split; [lia|]. simpl. apply nth_error_Some. congruence.
    + rewrite Hc, Hl. destruct line; reflexivity.
Qed.

Lemma line_customers_NoDup (line : ServiceType) (population : list Customer) :
  NoDup (line_customers line population).
Proof. unfold line_customers. apply NoDup_filter, seq_NoDup. Qed.

Lemma line_customers_static (line : ServiceType) (s1 s2 : list Customer) :
  Forall2 same_static s1 s2 -> line_customers line s1 = line_customers line s2.
Proof.
  intro H. unfold line_customers. rewrite (Forall2_length H).
  apply filter_ext. intro r. destruct (nth_error s1 r) as [c|] eqn:E1.
  - destruct (Forall2_nth_error_l _ _ _ _ _ H E1) as [c0 [E2 [_ [_ [Hs _]]]]].
    rewrite E2, Hs. reflexivity.
  - destruct (nth_error s2 r) as [c0|] eqn:E2; [|reflexivity].
    destruct (Forall2_nth_error_r _ _ _ _ _ H E2) as [c [E3 _]]. congruence.
Qed.

Lemma same_static_ids (s1 s2 : list Customer) :
  Forall2 same_static s1 s2 -> map id s1 = map id s2.
Proof.
  intro H. induction H as [|a b l1 l2 Hab H IH]; simpl; [reflexivity|].
  destruct Hab as [Hid _]. congruence.
Qed.

Lemma processEvents_inv (cfg : SimulationConfig) (created : list Customer) (p : Processing) :
  processEvents cfg created = Completed p ->
  exists st1 st2,
    (0 <= count (highCounter cfg))%Z /\ (0 <= count (lowCounter cfg))%Z /\
    simulateQueue (js_sort compareArrival created)
                  (line_customers HIGH_COUNTER (js_sort compareArrival created))
                  (repeat 0 (Z.to_nat (count (highCounter cfg))))
    = Finished st1 (highProcessed p) /\
    simulateQueue (store st1) (line_customers LOW_COUNTER (store st1))
                  (repeat 0 (Z.to_nat (count (lowCounter cfg))))
    = Finished st2 (lowProcessed p) /\
    population p = store st2.
Proof.
  unfold processEvents. intro H.
  destruct (new_filled_array (count (highCounter cfg)) 0) as [e|v1] eqn:E1; [discriminate|].
  destruct (new_filled_array (count (lowCounter cfg)) 0) as [e|v2] eqn:E2; [discriminate|].
  apply new_filled_array_inv in E1, E2. destruct E1 as [[E1 _] ->], E2 as [[E2 _] ->].
  destruct (simulateQueue _ _ (repeat 0 (Z.to_nat (count (highCounter cfg)))))
    as [st1 tr1| |] eqn:S1; simpl in H; try discriminate.
  destruct (simulateQueue (store st1) _ _) as [st2 tr2| |] eqn:S2; simpl in H;
    try discriminate.
  inversion H. subst p. simpl. exists st1, st2. auto.
Qed.

Lemma processEvents_counts (cfg : SimulationConfig) (created : list Customer) (p : Processing) :
  processEvents cfg created = Completed p ->
  array_length (count (highCounter cfg)) /\ array_length (count (lowCounter cfg)).
Proof.
  unfold processEvents. intro H.
  destruct (new_filled_array (count (highCounter cfg)) 0) as [e|v1] eqn:E1; [discriminate|].
  destruct (new_filled_array (count (lowCounter cfg)) 0) as [e|v2] eqn:E2; [discriminate|].
  apply new_filled_array_inv in E1, E2. split; [apply E1 | apply E2].
Qed.



(** ** The generated population *)

Lemma generateArrivals_ids (cfg : SimulationConfig) (draws : list Draw) (t : Q) (k : nat) :
  map id (generateArrivals_from cfg t k draws)
  = seq k (length (generateArrivals_from cfg t k draws)).
Proof.
  revert t k. induction draws as [|d draws IH]; intros t k; simpl; [reflexivity|].
  destruct (Qltb t (durationMinutes cfg)); [|reflexivity].
  destruct (Qltb (durationMinutes cfg) (t + interArrival d)); [reflexivity|].
  simpl. rewrite IH. reflexivity.
Qed.

Lemma generateArrivals_NoDup (cfg : SimulationConfig) (draws : list Draw) :
  NoDup (map id (generateArrivals cfg draws)).
Proof. unfold generateArrivals. rewrite generateArrivals_ids. apply seq_NoDup. Qed.

Lemma generateArrivals_created (cfg : SimulationConfig) (draws : list Draw) (t : Q) (k : nat) :
  Forall as_created (generateArrivals_from cfg t k draws).
Proof.
  revert t k. induction draws as [|d draws IH]; intros t k; simpl; [constructor|].
  destruct (Qltb t (durationMinutes cfg)); [|constructor].
  destruct (Qltb (durationMinutes cfg) (t + interArrival d)); [constructor|].
  constructor; [|apply IH]. unfold as_created, fresh. simpl. tauto.
Qed.

Lemma generateArrivals_on_grid (step : Q) (cfg : SimulationConfig) (draws : list Draw)
      (t : Q) (k : nat) :
  on_grid step t -> Forall (draw_on_grid step) draws ->
  Forall (customer_on_grid step) (generateArrivals_from cfg t k draws).
Proof.
  revert t k. induction draws as [|d draws IH]; intros t k Ht Hd; simpl; [constructor|].
  inversion Hd as [|d' l' [Hg [Hs Hp]] Hrest]. subst.
  destruct (Qltb t (durationMinutes cfg)); [|constructor].
  destruct (Qltb (durationMinutes cfg) (t + interArrival d)); [constructor|].
  assert (Ht' : on_grid step (t + interArrival d)) by (apply on_grid_plus; assumption).
  constructor; [|apply IH; assumption]. unfold customer_on_grid. simpl. tauto.
Qed.

Lemma generateArrivals_durations (cfg : SimulationConfig) (draws : list Draw)
      (t : Q) (k : nat) :
  Forall (fun d => 0 <= serviceDraw d) draws ->
  Forall (fun c => 0 <= serviceTime c) (generateArrivals_from cfg t k draws).
Proof.
  revert t k. induction draws as [|d draws IH]; intros t k Hd; simpl; [constructor|].
  inversion Hd as [|d' l' Hp Hrest]. subst.
  destruct (Qltb t (durationMinutes cfg)); [|constructor].
  destruct (Qltb (durationMinutes cfg) (t + interArrival d)); [constructor|].
  constructor; [exact Hp | apply IH; assumption].
Qed.

(** ** One line, from the first arrival to the empty queue *)

Lemma simulateQueue_line (init : list Customer) (line : ServiceType) (tellers : list Q)
      (st : QueueState) (tr : list Processed) :
  NoDup (map id init) ->
  simulateQueue init (line_customers line init) tellers = Finished st tr ->
  runs (line_customers line init) (initial_state init (line_customers line init) tellers)
       tr st /\
  tracked init (line_customers line init) st /\
  NoDup (assigned_refs tr) /\
  incl (assigned_refs tr) (line_customers line init) /\
  (forall r, ~ In r (assigned_refs tr) -> nth_error (store st) r = nth_error init r) /\
  (forall p r i, In p tr -> assignment p = Some (r, i) ->
     exists c, nth_error init r = Some c /\
               nth_error (store st) r = Some (assign_fields c i (time (event p)))).
Proof.
  intros Hnd Hsim. unfold simulateQueue in Hsim.
  pose proof (event_loop_runs _ _ _ _ _ Hsim) as Hruns.
  pose proof (initial_state_tracked init (line_customers line init) tellers Hnd
                (line_customers_NoDup line init)) as Htk.
  destruct (runs_tracked _ _ _ _ _ Hruns Htk) as [Htk' [Hn [Hincl [Hsame Hass]]]].
  split; [exact Hruns|]. split; [exact Htk'|]. split; [exact Hn|]. split.
  - intros r Hr. apply (tk_untouched _ _ _ Htk r). apply Hincl, Hr.
  - split; [exact Hsame | exact Hass].
Qed.

Lemma simulateQueue_line_ordered (init : list Customer) (line : ServiceType)
      (tellers : list Q) (st : QueueState) (tr : list Processed) :
  NoDup (map id init) ->
  (forall c, In c init -> serviceType c = line -> fresh c /\ 0 <= serviceTime c) ->
  simulateQueue init (line_customers line init) tellers = Finished st tr ->
  Forall no_near_tie tr ->
  ordered init (line_customers line init) st /\
  StronglySorted tellers_le (tellers :: map tellersAfter tr).
Proof.
  intros Hnd Hline Hsim Hsep.
  destruct (simulateQueue_line init line tellers st tr Hnd Hsim) as [Hruns _].
  assert (Hq : forall r c, In r (line_customers line init) -> nth_error init r = Some c ->
                           fresh c /\ 0 <= serviceTime c).
  { intros r c Hr Hc. apply line_customers_In in Hr. destruct Hr as [c' [Hc' Hl]].
    assert (c' = c) by congruence. subst c'. apply Hline; [|exact Hl].
    eapply nth_error_In, Hc. }
  apply (runs_ordered init (line_customers line init)
           (fun r c Hr Hc => proj1 (Hq r c Hr Hc))
           (fun r c Hr Hc => proj2 (Hq r c Hr Hc)) _ _ _ Hruns); [|exact Hsep].
  apply initial_state_ordered; [exact Hnd | apply line_customers_NoDup|].
  intros r c Hr Hc. apply (Hq r c Hr Hc).
Qed.

(** With arrival times and service durations on a grid that is not finer
    than the tolerance, the run of a line has no near ties. *)
Lemma simulateQueue_line_on_grid (step : Q) (init : list Customer) (line : ServiceType)
      (tellers : list Q) (st : QueueState) (tr : list Processed) :
  tolerance <= step ->
  NoDup (map id init) ->
  (forall c, In c init -> serviceType c = line -> customer_on_grid step c) ->
  simulateQueue init (line_customers line init) tellers = Finished st tr ->
  Forall no_near_tie tr.
Proof.
  intros Hstep Hnd Hline Hsim.
  destruct (simulateQueue_line init line tellers st tr Hnd Hsim) as [Hruns _].
  assert (Hq : forall r c, In r (line_customers line init) -> nth_error init r = Some c ->
                           customer_on_grid step c).
  { intros r c Hr Hc. apply line_customers_In in Hr. destruct Hr as [c' [Hc' Hl]].
    assert (c' = c) by congruence. subst c'. apply Hline; [|exact Hl].
    eapply nth_error_In, Hc. }
  apply (runs_on_grid step init (line_customers line init) Hstep Hq _ _ _ Hruns).
  - apply initial_state_tracked; [exact Hnd | apply line_customers_NoDup].
  - apply initial_state_gridded. intros r c Hr Hc. apply (Hq r c Hr Hc).
Qed.

(** X30.  Take a population with distinct ids in which the customers of a
    line are as the generator left them, with service durations that are not
    negative.  The loop of the line finishes.  If no near tie occurred in
    the run (whenever an event was taken off the queue, any two pending
    timestamps were equal or at least the tolerance of the comparator apart,
    so that the comparator ordered them by time), then the free-at vectors
    the loop went through (the initial one, then the one after each
    processed event) never decrease at any index, and two customers of the
    line served by one teller have service intervals that do not overlap. *)
Theorem teller_intervals_never_overlap
        (init : list Customer) (line : ServiceType) (tellers : list Q) :
  NoDup (map id init) ->
  (forall c, In c init -> serviceType c = line -> fresh c /\ 0 <= serviceTime c) ->
  exists st tr,
    simulateQueue init (line_customers line init) tellers = Finished st tr /\
    (Forall no_near_tie tr ->
     StronglySorted tellers_le (tellers :: map tellersAfter tr) /\
     forall r1 r2 c1 c2 i,
       r1 <> r2 ->
       nth_error (store st) r1 = Some c1 -> nth_error (store st) r2 = Some c2 ->
       serviceType c1 = line -> serviceType c2 = line ->
       tellerId c1 = Some i -> tellerId c2 = Some i ->
       disjoint_service c1 c2).
Proof.
  intros Hnd Hline.
  destruct (simulateQueue_finishes init (line_customers line init) tellers)
    as [st [tr Hsim]].
  exists st, tr. split; [exact Hsim|]. intro Hsep.
  destruct (simulateQueue_line_ordered init line tellers st tr Hnd Hline Hsim Hsep)
    as [Hord Hmono].
  split; [exact Hmono|].
  intros r1 r2 c1 c2 i Hne Hc1 Hc2 Hl1 Hl2 Hi1 Hi2.
  assert (Hstat : Forall2 same_static (store st) init).
  { apply (wf_store _ _ _ (tk_wf _ _ _ (od_tracked _ _ _ Hord))). }
  assert (Hin : forall r c, nth_error (store st) r = Some c -> serviceType c = line ->
                            In r (line_customers line init)).
  { intros r c Hc Hl. destruct (Forall2_nth_error_l _ _ _ _ _ Hstat Hc)
      as [c0 [Ec0 [_ [_ [Hs _]]]]].
    apply line_customers_In. exists c0. split; [exact Ec0 | congruence]. }
  apply (so_disjoint _ _ _ _ _ (od_service _ _ _ Hord) r1 r2 c1 c2 i Hne
           (Hin r1 c1 Hc1 Hl1) (Hin r2 c2 Hc2 Hl2) Hc1 Hc2 Hi1 Hi2).
Qed.

(** ** Both lines: the final population *)

Lemma lines_disjoint (population : list Customer) (r : nat) :
  In r (line_customers HIGH_COUNTER population) ->
  In r (line_customers LOW_COUNTER population) -> False.
Proof.
  intros H1 H2. apply line_customers_In in H1, H2.
  destruct H1 as [c1 [E1 L1]]. destruct H2 as [c2 [E2 L2]]. congruence.
Qed.

Lemma assigned_refs_In (tr : list Processed) (r : nat) :
  In r (assigned_refs tr) <-> exists p i, In p tr /\ assignment p = Some (r, i).
Proof.
  unfold assigned_refs. rewrite in_flat_map. split.
  - intros [p [Hp Hr]]. destruct (assignment p) as [[r' i]|] eqn:E; [|destruct Hr].
    destruct Hr as [<-|[]]. exists p, i. auto.
  - intros [p [i [Hp Ha]]]. exists p. split; [exact Hp|]. rewrite Ha. left. reflexivity.
Qed.

Lemma NoDup_disjoint_app {A : Type} (l1 l2 : list A) :
  NoDup l1 -> NoDup l2 -> (forall x, In x l1 -> In x l2 -> False) -> NoDup (l1 ++ l2).
Proof.
  intros H1 H2 Hd. induction H1 as [|x l1 Hx H1 IH]; simpl; [exact H2|].
  constructor.
  - intro Hin. apply in_app_or in Hin. destruct Hin as [Hin|Hin]; [contradiction|].
    apply (Hd x); [left; reflexivity | exact Hin].
  - apply IH. intros y Hy1 Hy2. apply (Hd y); [right; exact Hy1 | exact Hy2].
Qed.

Section Population.

Variables (cfg : SimulationConfig) (created : list Customer) (p : Processing).

Hypothesis created_ids : NoDup (map id created).
Hypothesis created_fresh : Forall fresh created.
Hypothesis processed : processEvents cfg created = Completed p.


Lemma sorted_ids : NoDup (map id (js_sort compareArrival created)).
Proof.
  eapply Permutation_NoDup; [|exact created_ids].
  apply Permutation_map, Permutation_sym, js_sort_perm.
Qed.

Lemma sorted_fresh (c : Customer) : In c (js_sort compareArrival created) -> fresh c.
Proof.
  intro H. apply js_sort_In in H. rewrite Forall_forall in created_fresh.
  apply created_fresh, H.
Qed.

(** The two runs behind [processed], with what each did to the objects. *)
Lemma processEvents_runs :
  exists st1 st2,
    simulateQueue (js_sort compareArrival created) (line_customers HIGH_COUNTER (js_sort compareArrival created))
                  (repeat 0 (Z.to_nat (count (highCounter cfg))))
    = Finished st1 (highProcessed p) /\
    simulateQueue (store st1) (line_customers LOW_COUNTER (store st1))
                  (repeat 0 (Z.to_nat (count (lowCounter cfg))))
    = Finished st2 (lowProcessed p) /\
    population p = store st2 /\
    Forall2 same_static (store st1) (js_sort compareArrival created) /\
    Forall2 same_static (store st2) (js_sort compareArrival created) /\
    NoDup (map id (store st1)) /\
    line_customers LOW_COUNTER (store st1) = line_customers LOW_COUNTER (js_sort compareArrival created) /\
    incl (assigned_refs (highProcessed p)) (line_customers HIGH_COUNTER (js_sort compareArrival created)) /\
    incl (assigned_refs (lowProcessed p)) (line_customers LOW_COUNTER (js_sort compareArrival created)) /\
    (forall r, In r (line_customers LOW_COUNTER (js_sort compareArrival created)) ->
               nth_error (store st1) r = nth_error (js_sort compareArrival created) r) /\
    (forall r, In r (line_customers HIGH_COUNTER (js_sort compareArrival created)) ->
               nth_error (store st2) r = nth_error (store st1) r).
Proof.
  destruct (processEvents_inv _ _ _ processed) as [st1 [st2 [_ [_ [S1 [S2 Hp]]]]]].
  destruct (simulateQueue_line (js_sort compareArrival created) HIGH_COUNTER _ st1 _ sorted_ids S1)
    as [_ [Htk1 [_ [Hin1 [Hsame1 _]]]]].
  assert (Hst1 : Forall2 same_static (store st1) (js_sort compareArrival created)).
  { apply (wf_store _ _ _ (tk_wf _ _ _ Htk1)). }
  assert (Hid1 : NoDup (map id (store st1))).
  { rewrite (same_static_ids _ _ Hst1). exact sorted_ids. }
  pose proof (line_customers_static LOW_COUNTER _ _ Hst1) as Hq.
  destruct (simulateQueue_line (store st1) LOW_COUNTER _ st2 _ Hid1 S2)
    as [_ [Htk2 [_ [Hin2 [Hsame2 _]]]]].
  assert (Hst2 : Forall2 same_static (store st2) (js_sort compareArrival created)).
  { pose proof (wf_store _ _ _ (tk_wf _ _ _ Htk2)) as H2.
    clear - H2 Hst1. revert H2 Hst1. generalize (store st2) (store st1) (js_sort compareArrival created).
    intros l2 l1 l0 H2. revert l0. induction H2 as [|a b l2 l1 Hab H2 IH]; intros l0 H1.
    - inversion H1. constructor.
    - inversion H1 as [|b' c0 l1' l0' Hbc H1']. subst. constructor; [|apply IH, H1'].
      unfold same_static in *. intuition congruence. }
  exists st1, st2. split; [exact S1|]. split; [exact S2|]. split; [exact Hp|].
  split; [exact Hst1|]. split; [exact Hst2|]. split; [exact Hid1|]. split; [exact Hq|].
  split; [exact Hin1|]. split; [rewrite <- Hq; exact Hin2|]. split.
  - intros r Hr. apply Hsame1. intro Ha. apply Hin1 in Ha.
    apply (lines_disjoint (js_sort compareArrival created) r Ha Hr).
  - intros r Hr. apply Hsame2. intro Ha. apply Hin2 in Ha. rewrite Hq in Ha.
    apply (lines_disjoint (js_sort compareArrival created) r Hr Ha).
Qed.

Lemma processEvents_lines :
  Forall2 same_static (population p) (js_sort compareArrival created) /\
  NoDup (assigned_refs (highProcessed p) ++ assigned_refs (lowProcessed p)) /\
  (forall r, ~ In r (assigned_refs (highProcessed p) ++ assigned_refs (lowProcessed p)) -> nth_error (population p) r = nth_error (js_sort compareArrival created) r) /\
  (forall q r i, In q (highProcessed p ++ lowProcessed p) -> assignment q = Some (r, i) ->
     exists c, nth_error (js_sort compareArrival created) r = Some c /\
               nth_error (population p) r = Some (assign_fields c i (time (event q)))) /\
  Forall consistent (population p).
Proof.
  destruct processEvents_runs
    as [st1 [st2 [S1 [S2 [Hp [Hst1 [Hst2 [Hid1 [Hq [Hin1 [Hin2 [Hlow Hhigh]]]]]]]]]]]].
  destruct (simulateQueue_line (js_sort compareArrival created) HIGH_COUNTER _ st1 _ sorted_ids S1)
    as [Hruns1 [_ [Hnd1 [_ [Hsame1 Hass1]]]]].
  destruct (simulateQueue_line (store st1) LOW_COUNTER _ st2 _ Hid1 S2)
    as [Hruns2 [_ [Hnd2 [_ [Hsame2 Hass2]]]]].
  rewrite Hp. split; [exact Hst2|]. split.
  { apply NoDup_disjoint_app; [exact Hnd1 | exact Hnd2|].
    intros r H1 H2. apply (lines_disjoint (js_sort compareArrival created) r (Hin1 r H1) (Hin2 r H2)). }
  split.
  { intros r Hr. rewrite Hsame2, Hsame1; [reflexivity | |];
      intro Ha; apply Hr; apply in_or_app; tauto. }
  split.
  { intros q r i Hq' Ha. apply in_app_or in Hq'. destruct Hq' as [Hq'|Hq'].
    - destruct (Hass1 q r i Hq' Ha) as [c [Ec Es]]. exists c. split; [exact Ec|].
      rewrite Hhigh; [exact Es|]. apply Hin1. apply assigned_refs_In. eauto.
    - destruct (Hass2 q r i Hq' Ha) as [c [Ec Es]]. exists c. split; [|exact Es].
      rewrite <- Hlow; [exact Ec|]. apply Hin2. apply assigned_refs_In. eauto. }
  apply (runs_consistent _ _ _ _ Hruns2). apply (runs_consistent _ _ _ _ Hruns1).
  simpl. rewrite Forall_forall. intros c Hc. apply fresh_consistent, sorted_fresh, Hc.
Qed.

(** In a run without near ties, nobody starts before arriving. *)
Lemma processEvents_starts_after_arrival :
  Forall (fun c => 0 <= serviceTime c) created ->
  Forall no_near_tie (highProcessed p ++ lowProcessed p) ->
  forall c s, In c (population p) -> serviceStartTime c = Some s -> arrivalTime c <= s.
Proof.
  intros Hdur Hsep c s Hc Hs.
  apply Forall_app in Hsep. destruct Hsep as [Hsep1 Hsep2].
  destruct processEvents_runs
    as [st1 [st2 [S1 [S2 [Hp [Hst1 [Hst2 [Hid1 [Hq [Hin1 [Hin2 [Hlow Hhigh]]]]]]]]]]]].
  assert (Hsorted : forall c0, In c0 (js_sort compareArrival created) ->
                               fresh c0 /\ 0 <= serviceTime c0).
  { intros c0 H0. split; [apply sorted_fresh, H0|]. apply js_sort_In in H0.
    rewrite Forall_forall in Hdur. apply Hdur, H0. }
  destruct (simulateQueue_line_ordered (js_sort compareArrival created) HIGH_COUNTER _ st1 _
              sorted_ids (fun c0 H0 _ => Hsorted c0 H0) S1 Hsep1) as [Hord1 _].
  assert (Hlowfresh : forall c0, In c0 (store st1) -> serviceType c0 = LOW_COUNTER ->
                                 fresh c0 /\ 0 <= serviceTime c0).
  { intros c0 H0 Hl. apply In_nth_error in H0. destruct H0 as [r Hr].
    assert (Hrl : In r (line_customers LOW_COUNTER (js_sort compareArrival created))).
    { rewrite <- Hq. apply line_customers_In. eauto. }
    rewrite (Hlow r Hrl) in Hr. apply Hsorted. eapply nth_error_In, Hr. }
  destruct (simulateQueue_line_ordered (store st1) LOW_COUNTER _ st2 _ Hid1
              Hlowfresh S2 Hsep2) as [Hord2 _].
  rewrite Hp in Hc. apply In_nth_error in Hc. destruct Hc as [r Hr].
  destruct (serviceType c) eqn:Hl.
  - assert (Hrh : In r (line_customers HIGH_COUNTER (js_sort compareArrival created))).
    { destruct (Forall2_nth_error_l _ _ _ _ _ Hst2 Hr) as [c0 [Ec0 [_ [_ [Hs0 _]]]]].
      apply line_customers_In. exists c0. split; [exact Ec0 | congruence]. }
    rewrite (Hhigh r Hrh) in Hr.
    apply (so_served _ _ _ _ _ (od_service _ _ _ Hord1) r c s Hrh Hr Hs).
  - assert (Hrl : In r (line_customers LOW_COUNTER (store st1))).
    { rewrite Hq.
      destruct (Forall2_nth_error_l _ _ _ _ _ Hst2 Hr) as [c0 [Ec0 [_ [_ [Hs0 _]]]]].
      apply line_customers_In. exists c0. split; [exact Ec0 | congruence]. }
    apply (so_served _ _ _ _ _ (od_service _ _ _ Hord2) r c s Hrl Hr Hs).
Qed.

(** On a grid that is not finer than the tolerance, a run has no near
    ties. *)
Lemma processEvents_on_grid (step : Q) :
  tolerance <= step -> Forall (customer_on_grid step) created ->
  Forall no_near_tie (highProcessed p ++ lowProcessed p).
Proof.
  intros Hstep Hgrid.
  destruct processEvents_runs
    as [st1 [st2 [S1 [S2 [Hp [Hst1 [Hst2 [Hid1 [Hq [Hin1 [Hin2 [Hlow Hhigh]]]]]]]]]]]].
  assert (Hsorted : forall c0, In c0 (js_sort compareArrival created) ->
                               customer_on_grid step c0).
  { intros c0 H0. apply js_sort_In in H0. rewrite Forall_forall in Hgrid.
    apply Hgrid, H0. }
  apply Forall_app. split.
  - eapply (simulateQueue_line_on_grid step (js_sort compareArrival created) HIGH_COUNTER);
      [exact Hstep | exact sorted_ids | | exact S1].
    intros c0 H0 _. apply Hsorted, H0.
  - eapply (simulateQueue_line_on_grid step (store st1) LOW_COUNTER);
      [exact Hstep | exact Hid1 | | exact S2].
    intros c0 H0 Hl. apply In_nth_error in H0. destruct H0 as [r Hr].
    assert (Hrl : In r (line_customers LOW_COUNTER (js_sort compareArrival created))).
    { rewrite <- Hq. apply line_customers_In. eauto. }
    rewrite (Hlow r Hrl) in Hr. apply Hsorted. eapply nth_error_In, Hr.
Qed.

End Population.

(** ** A line without servers *)



(** ** The whole run *)

Lemma run_inv (cfg : SimulationConfig) (draws : list Draw) (result : SimulationResult) :
  run cfg draws = Completed result ->
  exists p, processEvents cfg (generateArrivals cfg draws) = Completed p /\
            customers result = population p /\ config result = cfg.
Proof.
  unfold run. destruct (loop_exits cfg 0 draws); [|discriminate].
  destruct (processEvents cfg (generateArrivals cfg draws)) as [e|p]; [discriminate|].
  intro H. inversion H. subst. exists p. auto.
Qed.

Lemma run_exits (cfg : SimulationConfig) (draws : list Draw) (result : SimulationResult) :
  run cfg draws = Completed result -> loop_exits cfg 0 draws = true.
Proof.
  unfold run. destruct (loop_exits cfg 0 draws); [reflexivity | discriminate].
Qed.

Lemma run_counts (cfg : SimulationConfig) (draws : list Draw) (result : SimulationResult) :
  run cfg draws = Completed result ->
  array_length (count (highCounter (config result))) /\
  array_length (count (lowCounter (config result))).
Proof.
  intro H. destruct (run_inv _ _ _ H) as [p [Hp [_ ->]]].
  apply (processEvents_counts _ _ _ Hp).
Qed.


Lemma generateArrivals_fresh (cfg : SimulationConfig) (draws : list Draw) :
  Forall fresh (generateArrivals cfg draws).
Proof.
  eapply Forall_impl; [|apply generateArrivals_created]. intros c [H _]. exact H.
Qed.

(** With gaps and service durations on a grid that is not finer than the
    tolerance, a run has no near ties. *)
Lemma draws_on_grid_no_near_tie (step : Q) (cfg : SimulationConfig) (draws : list Draw)
      (p : Processing) :
  tolerance <= step -> Forall (draw_on_grid step) draws ->
  processEvents cfg (generateArrivals cfg draws) = Completed p ->
  Forall no_near_tie (highProcessed p ++ lowProcessed p).
Proof.
  intros Hstep Hgrid Hp.
  apply (processEvents_on_grid cfg _ p (generateArrivals_NoDup cfg draws) Hp step Hstep).
  apply generateArrivals_on_grid; [apply on_grid_zero | exact Hgrid].
Qed.

(** X17.  After a run, every customer with a defined service start time [s]
    has wait [s - arrival] and end [s + serviceTime] (the very numbers the
    engine computed), and its sentiment is Happy for a wait of at most 5,
    Neutral for a wait above 5 and at most 15, Angry for a wait above 15.
    The wait is not negative when the service durations drawn are not
    negative and no near tie occurred in the run: whenever an event was
    taken off a queue, any two pending timestamps were equal or at least the
    tolerance of the comparator apart. *)
Theorem served_customer_times (cfg : SimulationConfig) (draws : list Draw)
        (result : SimulationResult) :
  run cfg draws = Completed result ->
  forall c s, In c (customers result) -> serviceStartTime c = Some s ->
    waitTime c = s - arrivalTime c /\
    serviceEndTime c = Some (s + serviceTime c) /\
    (waitTime c <= 5 -> sentiment c = HAPPY) /\
    (5 < waitTime c -> waitTime c <= 15 -> sentiment c = NEUTRAL) /\
    (15 < waitTime c -> sentiment c = ANGRY) /\
    (forall p, processEvents cfg (generateArrivals cfg draws) = Completed p ->
               Forall (fun d => 0 <= serviceDraw d) draws ->
               Forall no_near_tie (highProcessed p ++ lowProcessed p) ->
               0 <= waitTime c).
Proof.
  intros Hrun c s Hc Hs. destruct (run_inv _ _ _ Hrun) as [p [Hp [Ecs _]]].
  rewrite Ecs in Hc.
  destruct (processEvents_lines cfg _ p (generateArrivals_NoDup cfg draws)
              (generateArrivals_fresh cfg draws) Hp) as [_ [_ [_ [_ Hcons]]]].
  rewrite Forall_forall in Hcons.
  destruct (Hcons c Hc s Hs) as [Hw [He [H1 [H2 H3]]]].
  repeat (split; [assumption|]).
  intros p' Hp' Hdur Hsep.
  assert (p' = p) by congruence. subst p'.
  assert (Harr : arrivalTime c <= s).
  { apply (processEvents_starts_after_arrival cfg _ p (generateArrivals_NoDup cfg draws)
             (generateArrivals_fresh cfg draws) Hp); [|exact Hsep | exact Hc | exact Hs].
    apply generateArrivals_durations, Hdur. }
  rewrite Hw. lra.
Qed.

(** C7, as amended.  The generator creates every customer once, with its
    own id, with start time, end time and teller unset, wait 0 and
    sentiment Happy.  [processEvents] keeps every one of them, at the
    position the sort by arrival time gives it.  A customer is assigned at
    most once over both lines; an assigned customer ends with exactly the
    fields that one assignment wrote on the created object, and a customer
    that was never assigned ends as it was created, with no start and no
    end. *)
Theorem customer_lifecycle (cfg : SimulationConfig) (draws : list Draw) (p : Processing) :
  processEvents cfg (generateArrivals cfg draws) = Completed p ->
  NoDup (map id (generateArrivals cfg draws)) /\
  Forall as_created (generateArrivals cfg draws) /\
  Permutation (js_sort compareArrival (generateArrivals cfg draws))
              (generateArrivals cfg draws) /\
  length (population p) = length (generateArrivals cfg draws) /\
  NoDup (assigned_refs (highProcessed p) ++ assigned_refs (lowProcessed p)) /\
  forall r c0,
    nth_error (js_sort compareArrival (generateArrivals cfg draws)) r = Some c0 ->
    (~ In r (assigned_refs (highProcessed p) ++ assigned_refs (lowProcessed p)) /\
     nth_error (population p) r = Some c0 /\ fresh c0) \/
    (exists q i, In q (highProcessed p ++ lowProcessed p) /\
                 assignment q = Some (r, i) /\
                 nth_error (population p) r
                 = Some (assign_fields c0 i (time (event q)))).
Proof.
  intro Hp.
  destruct (processEvents_lines cfg _ p (generateArrivals_NoDup cfg draws)
              (generateArrivals_fresh cfg draws) Hp) as [Hst [Hnd [Hsame [Hass _]]]].
  split; [apply generateArrivals_NoDup|].
  split; [apply generateArrivals_created|].
  split; [apply js_sort_perm|].
  split; [rewrite (Forall2_length Hst); apply js_sort_length|].
  split; [exact Hnd|].
  intros r c0 Hc0.
  set (assigned := assigned_refs (highProcessed p) ++ assigned_refs (lowProcessed p)) in *.
  destruct (in_dec Nat.eq_dec r assigned) as [Hin|Hnin].
  - right. unfold assigned in Hin. apply in_app_or in Hin.
    assert (Hq : exists q i, In q (highProcessed p ++ lowProcessed p) /\
                             assignment q = Some (r, i)).
    { destruct Hin as [Hin|Hin]; apply assigned_refs_In in Hin;
        destruct Hin as [q [i [Hq Ha]]]; exists q, i; split; auto; apply in_or_app; auto. }
    destruct Hq as [q [i [Hq Ha]]]. exists q, i. split; [exact Hq|]. split; [exact Ha|].
    destruct (Hass q r i Hq Ha) as [c [Ec Es]]. congruence.
  - left. split; [exact Hnin|]. split; [rewrite (Hsame r Hnin); exact Hc0|].
    pose proof (generateArrivals_fresh cfg draws) as Hf. rewrite Forall_forall in Hf.
    apply Hf. apply (js_sort_In compareArrival). eapply nth_error_In, Hc0.
Qed.


(** * The theorems on the worked inputs *)

Lemma example_run : run example_config example_draws = Completed example_result.
Proof. vm_compute. reflexivity. Qed.

Lemma example_processed :
  processEvents example_config (generateArrivals example_config example_draws)
  = Completed example_processing.
Proof. vm_compute. reflexivity. Qed.

(** At time 11 teller 0 becomes free while the walk-in of time 2 and the
    reserved customer of time 3 wait, in this order: the reserved customer
    (reference 2) is served, from 11 to 13, after a wait of 8, and the
    walk-in stays in the buffer. *)
Lemma teller_free_serves_reserved_first_example :
  exists st' c',
    process_event example_line (mkQueueEvent 11 (TELLER_FREE 0)) example_waiting
    = Some (st', Some (2%nat, 0%nat)) /\
    waitingBuffer st' = [1%nat] /\
    nth_error (store st') 2 = Some c' /\
    id c' = 3%nat /\ type c' = RESERVED /\
    serviceStartTime c' = Some 11 /\ serviceEndTime c' = Some (11 + 2) /\
    tellerId c' = Some 0%nat /\ waitTime c' = 11 - 3 /\ sentiment c' = NEUTRAL /\
    nth_error (store st') 1 = nth_error (store example_waiting) 1 /\
    nth_error (tellersFreeAt st') 0 = Some (11 + 2).
Proof.
  destruct (teller_free_serves_reserved_first example_line (mkQueueEvent 11 (TELLER_FREE 0))
              example_waiting 0 eq_refl)
    as [r [c [c' [l1 [l2 [st' [Hp [Hb [Hb' [Hc [Hres [Hfifo [Hc' [Htaken [Hothers [Hbook Hpq]]]]]]]]]]]]]]]].
  - simpl. repeat constructor.
  - simpl. discriminate.
  - assert (Hreserved : type c = RESERVED).
    { apply Hres. exists 2%nat. eexists. split; [simpl; auto|]. split; reflexivity. }
    assert (Hr : r = 2%nat /\ l1 = [1%nat] /\ l2 = []).
    { simpl in Hb. destruct l1 as [|x [|y l1]].
      - simpl in Hb. inversion Hb. subst r. simpl in Hc. inversion Hc. subst c.
        discriminate Hreserved.
      - simpl in Hb. inversion Hb. auto.
      - simpl in Hb. inversion Hb. destruct l1; discriminate. }
    destruct Hr as [-> [-> ->]]. simpl in Hc. inversion Hc. subst c. clear Hc.
    destruct Htaken as [T1 [T2 [T3 [T4 [T5 [T6 [T7 [T8 [T9 [T10 [T11 T12]]]]]]]]]]].
    simpl in *.
    exists st', c'. split; [exact Hp|]. split; [exact Hb'|]. split; [exact Hc'|].
    split; [exact T1|]. split; [exact T2|]. split; [exact T6|]. split; [exact T7|].
    split; [exact T8|]. split; [exact T9|]. split.
    { apply T11; rewrite T9; reflexivity || (intro H; discriminate H). }
    split.
    { apply (proj2 Hothers 1%nat). discriminate. }
    apply (proj1 (proj2 (Hbook Nat.lt_0_1))).
Defined.

(** The arrival of customer 1 at time 1 finds teller 0 free: the customer
    (reference 0) is served at once, from 1 to 11, without waiting. *)
Lemma arrival_takes_first_free_teller_example :
  exists st' c',
    process_event example_line (mkQueueEvent 1 (ARRIVAL 1)) example_start
    = Some (st', Some (0%nat, 0%nat)) /\
    nth_error (store st') 0 = Some c' /\
    id c' = 1%nat /\
    serviceStartTime c' = Some 1 /\ serviceEndTime c' = Some (1 + 10) /\
    tellerId c' = Some 0%nat /\ waitTime c' = 1 - 1 /\ sentiment c' = HAPPY /\
    nth_error (tellersFreeAt st') 0 = Some (1 + 10) /\
    waitingBuffer st' = [].
Proof.
  destruct (arrival_takes_first_free_teller example_line (mkQueueEvent 1 (ARRIVAL 1))
              example_start 1 eq_refl)
    as [ref [c [l1 [l2 [Hq [Hc [Hid [Hfirst [Hfree _]]]]]]]]].
  - exists 0%nat. eexists. split; [simpl; auto|]. split; reflexivity.
  - assert (Hr : ref = 0%nat).
    { unfold example_line in Hq. destruct l1 as [|x l1]; [inversion Hq; reflexivity|].
      exfalso. inversion Hq. subst x.
      apply (Hfirst 0%nat (nth 0 example_created
                             (mkCustomer 0 WALK_IN HIGH_COUNTER 0 None None None 0 0 HAPPY)));
        [left; reflexivity | reflexivity | reflexivity]. }
    subst ref. simpl in Hc. inversion Hc. subst c. clear Hc.
    destruct Hfree as [i [f [st' [c' [Hf [Hle [Hmin [Hp [Hc' [Htaken [_ [Hbook [_ Hbuf]]]]]]]]]]]]].
    { exists 0%nat, 0. split; [reflexivity | apply Qle_bool_iff; reflexivity]. }
    assert (Hi : i = 0%nat).
    { destruct i as [|i]; [reflexivity|]. simpl in Hf. destruct i; discriminate. }
    subst i.
    destruct Htaken as [T1 [T2 [T3 [T4 [T5 [T6 [T7 [T8 [T9 [T10 [T11 T12]]]]]]]]]]].
    destruct Hbook as [_ [Hb _]]. simpl in *.
    exists st', c'. split; [exact Hp|]. split; [exact Hc'|]. split; [exact T1|].
    split; [exact T6|]. split; [exact T7|]. split; [exact T8|]. split; [exact T9|].
    split; [apply T10; rewrite T9; intro H; discriminate H|].
    split; [exact Hb | exact Hbuf].
Defined.

(** C2.  One teller; customer 1 arrives at 1 and is served until 2.00005,
    customer 2 arrives at 2.  The second iteration takes the teller-free
    event of time 2.00005 off the queue while the arrival of time 2 is
    pending: the smallest timestamp is not extracted first.  The buffer is
    empty then, so nobody is called.  The arrival, taken next, finds the
    teller booked until 2.00005 and joins the buffer; no event is left to
    call the customer, who ends the run unserved beside a teller that is
    idle from 2.00005 on. *)
Lemma smallest_timestamp_not_first :
  exists p c1 c2,
    processEvents near_tie_config (generateArrivals near_tie_config near_tie_draws)
    = Completed p /\
    map (fun q => (event q, pending q, assignment q)) (highProcessed p)
    = [(mkQueueEvent 1 (ARRIVAL 1), [mkQueueEvent 2 (ARRIVAL 2)], Some (0, 0)%nat);
       (mkQueueEvent (200005 # 100000) (TELLER_FREE 0), [mkQueueEvent 2 (ARRIVAL 2)], None);
       (mkQueueEvent 2 (ARRIVAL 2), [], None)] /\
    time (mkQueueEvent 2 (ARRIVAL 2))
    < time (mkQueueEvent (200005 # 100000) (TELLER_FREE 0)) /\
    run near_tie_config near_tie_draws
    = Completed {| customers := [c1; c2]; config := near_tie_config |} /\
    id c1 = 1%nat /\ serviceStartTime c1 = Some 1 /\
    serviceEndTime c1 = Some (200005 # 100000) /\
    id c2 = 2%nat /\ arrivalTime c2 = 2 /\
    serviceStartTime c2 = None /\ serviceEndTime c2 = None.
Proof.
  eexists. eexists. eexists. split; [vm_compute; reflexivity|].
  split; [reflexivity|]. split; [reflexivity|].
  split; [vm_compute; reflexivity|]. repeat split.
Qed.

Lemma example_line_runs :
  exists tr, runs example_line example_start
                  (mkProcessed (mkQueueEvent 1 (ARRIVAL 1))
                               [mkQueueEvent 2 (ARRIVAL 2); mkQueueEvent 3 (ARRIVAL 3)]
                               (Some (0, 0)%nat) [11] :: tr)
                  example_end.
Proof.
  eexists. apply (event_loop_runs example_line 7). vm_compute. reflexivity.
Qed.

Lemma example_start_separated : separated (pq example_start).
Proof.
  intros x y Hx Hy. simpl in Hx, Hy.
  destruct Hx as [<-|[<-|[<-|[]]]]; destruct Hy as [<-|[<-|[<-|[]]]]; simpl;
    solve [left; reflexivity | right; vm_compute; discriminate].
Qed.

(** The first iteration of the example takes the arrival of time 1, the
    smallest of the pending timestamps 1, 2 and 3. *)
Lemma extraction_order_on_separated_timestamps_example :
  In (mkQueueEvent 1 (ARRIVAL 1)) (pq example_start) /\
  forall e, In e (pq example_start) ->
    1 <= time e /\
    (time e == 1 -> is_teller_free e = true ->
     is_teller_free (mkQueueEvent 1 (ARRIVAL 1)) = true).
Proof.
  destruct example_line_runs as [tr Hruns].
  apply (extraction_order_on_separated_timestamps example_line example_start example_end
           (mkProcessed (mkQueueEvent 1 (ARRIVAL 1))
                        [mkQueueEvent 2 (ARRIVAL 2); mkQueueEvent 3 (ARRIVAL 3)]
                        (Some (0, 0)%nat) [11]) tr Hruns).
  apply example_start_separated.
Defined.

(** The reserved customer of the example waits from 3 to 11: wait 8, end 13,
    Neutral. *)
Lemma served_customer_times_example :
  let c := mkCustomer 3 RESERVED HIGH_COUNTER 3 (Some 11) (Some 13) (Some 0%nat) 8 2 NEUTRAL in
  waitTime c = 11 - arrivalTime c /\
  serviceEndTime c = Some (11 + serviceTime c) /\
  (waitTime c <= 5 -> sentiment c = HAPPY) /\
  (5 < waitTime c -> waitTime c <= 15 -> sentiment c = NEUTRAL) /\
  (15 < waitTime c -> sentiment c = ANGRY) /\
  0 <= waitTime c.
Proof.
  intro c.
  assert (Hin : In c (customers example_result)).
  { simpl. right. right. left. reflexivity. }
  destruct (served_customer_times example_config example_draws example_result example_run
              c 11 Hin eq_refl) as [H1 [H2 [H3 [H4 [H5 H6]]]]].
  repeat (split; [assumption|]).
  apply (H6 example_processing example_processed).
  - repeat constructor; simpl; discriminate.
  - apply no_near_tieb_sound. vm_compute. reflexivity.
Defined.

Lemma example_created_line (c : Customer) :
  In c example_created -> serviceType c = HIGH_COUNTER ->
  fresh c /\ 0 <= serviceTime c.
Proof.
  intros Hc _. simpl in Hc. destruct Hc as [<-|[<-|[<-|[]]]];
    (split; [repeat split | simpl; discriminate]).
Qed.

Lemma example_trace_run :
  simulateQueue example_created (line_customers HIGH_COUNTER example_created) [0]
  = Finished example_end example_trace.
Proof. vm_compute. reflexivity. Qed.

(** In the example teller 0 serves [1,11), [11,13) and [13,17), and its
    free-at goes 0, 11, 11, 11, 13, 17, 17. *)
Lemma teller_intervals_never_overlap_example :
  exists st tr,
    simulateQueue example_created (line_customers HIGH_COUNTER example_created) [0]
    = Finished st tr /\
    StronglySorted tellers_le ([0] :: map tellersAfter tr) /\
    forall r1 r2 c1 c2 i,
      r1 <> r2 ->
      nth_error (store st) r1 = Some c1 -> nth_error (store st) r2 = Some c2 ->
      serviceType c1 = HIGH_COUNTER -> serviceType c2 = HIGH_COUNTER ->
      tellerId c1 = Some i -> tellerId c2 = Some i ->
      disjoint_service c1 c2.
Proof.
  assert (Hnd : NoDup (map id example_created)).
  { simpl. repeat constructor; simpl; intuition discriminate. }
  destruct (teller_intervals_never_overlap example_created HIGH_COUNTER [0] Hnd
              example_created_line) as [st [tr [Hsim Himp]]].
  exists st, tr. split; [exact Hsim|]. apply Himp.
  rewrite example_trace_run in Hsim. injection Hsim as _ <-.
  apply no_near_tieb_sound. vm_compute. reflexivity.
Defined.

(** In the example the three customers are created with ids 1, 2, 3, and
    each is assigned exactly once. *)
Lemma customer_lifecycle_example :
  NoDup (map id (generateArrivals example_config example_draws)) /\
  Forall as_created (generateArrivals example_config example_draws) /\
  Permutation (js_sort compareArrival (generateArrivals example_config example_draws))
              (generateArrivals example_config example_draws) /\
  length (population example_processing)
  = length (generateArrivals example_config example_draws) /\
  NoDup (assigned_refs (highProcessed example_processing)
         ++ assigned_refs (lowProcessed example_processing)) /\
  forall r c0,
    nth_error (js_sort compareArrival (generateArrivals example_config example_draws)) r
    = Some c0 ->
    (~ In r (assigned_refs (highProcessed example_processing)
             ++ assigned_refs (lowProcessed example_processing)) /\
     nth_error (population example_processing) r = Some c0 /\ fresh c0) \/
    (exists q i, In q (highProcessed example_processing ++ lowProcessed example_processing) /\
                 assignment q = Some (r, i) /\
                 nth_error (population example_processing) r
                 = Some (assign_fields c0 i (time (event q)))).
Proof.
  apply (customer_lifecycle example_config example_draws example_processing).
  exact example_processed.
Defined.

(** A customer is created with wait 0 and sentiment Happy, not with these
    fields unset; in a line without servers it is returned unserved with
    that wait and that sentiment. *)
Lemma created_with_wait_and_sentiment :
  exists c,
    generateArrivals no_server_config no_server_draws = [c] /\
    waitTime c = 0 /\ sentiment c = HAPPY /\
    run no_server_config no_server_draws
    = Completed {| customers := [c]; config := no_server_config |} /\
    serviceStartTime c = None.
Proof.
  eexists. split; [vm_compute; reflexivity|]. repeat split. 
Qed.



(** * Further properties *)

(** ** The arrival generator *)

Lemma generateArrivals_length (cfg : SimulationConfig) (draws : list Draw) (t : Q) (k : nat) :
  (length (generateArrivals_from cfg t k draws) <= length draws)%nat.
Proof.
  revert t k. induction draws as [|d draws IH]; intros t k; simpl; [lia|].
  destruct (Qltb t (durationMinutes cfg)); [|simpl; lia].
  destruct (Qltb (durationMinutes cfg) (t + interArrival d)); simpl; [lia|].
  specialize (IH (t + interArrival d) (S k)). lia.
Qed.

(** X1.  The generator numbers the customers 1, 2, 3, ... in the order it
    creates them, and creates at most one customer per iteration. *)
Theorem generated_ids_count_from_one (cfg : SimulationConfig) (draws : list Draw) :
  map id (generateArrivals cfg draws) = seq 1 (length (generateArrivals cfg draws)) /\
  (length (generateArrivals cfg draws) <= length draws)%nat.
Proof.
  split; [apply generateArrivals_ids | apply generateArrivals_length].
Qed.

Lemma generateArrivals_nth (cfg : SimulationConfig) (draws : list Draw) (t : Q) (i k : nat)
      (c : Customer) :
  nth_error (generateArrivals_from cfg t i draws) k = Some c ->
  exists d, nth_error draws k = Some d /\
    arrivalTime c = elapsed_from t (firstn (S k) draws) /\
    serviceTime c = serviceDraw d /\
    type c = (if Qltb (uReserved d * 100) (percentReserved cfg) then RESERVED else WALK_IN) /\
    serviceType c = (if Qltb (uHighCounter d * 100) (percentHighCounterTasks cfg)
                     then HIGH_COUNTER else LOW_COUNTER) /\
    elapsed_from t (firstn k draws) < durationMinutes cfg /\
    arrivalTime c <= durationMinutes cfg.
Proof.
  revert t i k. induction draws as [|d draws IH]; intros t i k; simpl.
  - destruct k; discriminate.
  - destruct (Qltb t (durationMinutes cfg)) eqn:Ht; [|destruct k; discriminate].
    destruct (Qltb (durationMinutes cfg) (t + interArrival d)) eqn:Hd;
      [destruct k; discriminate|].
    apply Qltb_lt in Ht. apply Qltb_ge in Hd.
    destruct k as [|k]; simpl.
    + intro H. inversion H; subst c; clear H. simpl. exists d.
      repeat split; try reflexivity; assumption.
    + intro H. destruct (IH _ _ _ H) as [d' [Hn [Ha [Hs [Hty [Hst [Hlt Hle]]]]]]].
      exists d'. repeat split; assumption.
Qed.

(** X2.  The [k]-th customer created is built from the [k]-th iteration:
    its arrival time is the sum of the first [k + 1] gaps, its service time,
    class and line are those drawn in that iteration, the clock was below the
    horizon when the iteration began, and the arrival is not after the
    horizon. *)
Theorem generated_customer_from_its_draw (cfg : SimulationConfig) (draws : list Draw)
        (k : nat) (c : Customer) :
  nth_error (generateArrivals cfg draws) k = Some c ->
  exists d, nth_error draws k = Some d /\
    arrivalTime c = elapsed (firstn (S k) draws) /\
    serviceTime c = serviceDraw d /\
    (type c = RESERVED <-> uReserved d * 100 < percentReserved cfg) /\
    (serviceType c = HIGH_COUNTER <-> uHighCounter d * 100 < percentHighCounterTasks cfg) /\
    elapsed (firstn k draws) < durationMinutes cfg /\
    arrivalTime c <= durationMinutes cfg.
Proof.
  intro H. destruct (generateArrivals_nth _ _ _ _ _ _ H)
    as [d [Hn [Ha [Hs [Hty [Hst [Hlt Hle]]]]]]].
  exists d. split; [exact Hn|]. split; [exact Ha|]. split; [exact Hs|].
  split; [|split; [|split; assumption]].
  - rewrite Hty. destruct (Qltb (uReserved d * 100) (percentReserved cfg)) eqn:E.
    + apply Qltb_lt in E. tauto.
    + apply Qltb_ge in E. split; [discriminate|].
      intro L. exfalso. apply (Qlt_not_le _ _ L E).
  - rewrite Hst.
    destruct (Qltb (uHighCounter d * 100) (percentHighCounterTasks cfg)) eqn:E.
    + apply Qltb_lt in E. tauto.
    + apply Qltb_ge in E. split; [discriminate|].
      intro L. exfalso. apply (Qlt_not_le _ _ L E).
Qed.

Lemma generateArrivals_stop (cfg : SimulationConfig) (draws : list Draw) (t : Q) (i : nat) :
  let n := length (generateArrivals_from cfg t i draws) in
  n = length draws \/
  durationMinutes cfg <= elapsed_from t (firstn n draws) \/
  durationMinutes cfg < elapsed_from t (firstn (S n) draws).
Proof.
  revert t i. induction draws as [|d draws IH]; intros t i; simpl; [left; reflexivity|].
  destruct (Qltb t (durationMinutes cfg)) eqn:Ht.
  - destruct (Qltb (durationMinutes cfg) (t + interArrival d)) eqn:Hd.
    + apply Qltb_lt in Hd. right. right. simpl. exact Hd.
    + simpl. destruct (IH (t + interArrival d) (S i)) as [H|[H|H]].
      * left. f_equal. exact H.
      * right. left. exact H.
      * right. right. exact H.
  - apply Qltb_ge in Ht. right. left. simpl. exact Ht.
Qed.

(** X3.  The generator stops only when the draws are used up, when the
    clock has reached the horizon, or at the first arrival that would fall
    after the horizon; with a horizon that is not positive it creates no
    customer. *)
Theorem generator_stops_at_the_horizon (cfg : SimulationConfig) (draws : list Draw) :
  (length (generateArrivals cfg draws) = length draws \/
   durationMinutes cfg <= elapsed (firstn (length (generateArrivals cfg draws)) draws) \/
   durationMinutes cfg
   < elapsed (firstn (S (length (generateArrivals cfg draws))) draws)) /\
  (durationMinutes cfg <= 0 -> generateArrivals cfg draws = []).
Proof.
  split; [apply generateArrivals_stop|].
  intro H. unfold generateArrivals. destruct draws as [|d draws]; simpl; [reflexivity|].
  apply Qltb_ge in H. rewrite H. reflexivity.
Qed.

Lemma generateArrivals_classes (cfg : SimulationConfig) (draws : list Draw) (t : Q) (i : nat)
      (P : Draw -> Prop) (R : Customer -> Prop) :
  (forall d c, P d ->
     type c = (if Qltb (uReserved d * 100) (percentReserved cfg) then RESERVED else WALK_IN) ->
     serviceType c = (if Qltb (uHighCounter d * 100) (percentHighCounterTasks cfg)
                      then HIGH_COUNTER else LOW_COUNTER) ->
     R c) ->
  Forall P draws -> Forall R (generateArrivals_from cfg t i draws).
Proof.
  intros HR HP. apply Forall_forall. intros c Hc.
  apply In_nth_error in Hc. destruct Hc as [k Hk].
  destruct (generateArrivals_nth _ _ _ _ _ _ Hk) as [d [Hn [_ [_ [Hty [Hst _]]]]]].
  apply (HR d c); [|assumption|assumption].
  rewrite Forall_forall in HP. apply HP. apply (nth_error_In _ _ Hn).
Qed.

(** X4.  With uniform draws in [0, 1): at 0 percent reserved every
    customer is a walk-in and at 100 percent every customer is reserved; at
    0 percent high-counter tasks every customer goes to the low-counter line
    and at 100 percent every customer goes to the high-counter line. *)
Theorem generated_classes_at_extreme_percentages (cfg : SimulationConfig)
        (draws : list Draw) :
  Forall (fun d => 0 <= uReserved d /\ uReserved d < 1 /\
                   0 <= uHighCounter d /\ uHighCounter d < 1) draws ->
  (percentReserved cfg <= 0 ->
   Forall (fun c => type c = WALK_IN) (generateArrivals cfg draws)) /\
  (100 <= percentReserved cfg ->
   Forall (fun c => type c = RESERVED) (generateArrivals cfg draws)) /\
  (percentHighCounterTasks cfg <= 0 ->
   Forall (fun c => serviceType c = LOW_COUNTER) (generateArrivals cfg draws)) /\
  (100 <= percentHighCounterTasks cfg ->
   Forall (fun c => serviceType c = HIGH_COUNTER) (generateArrivals cfg draws)).
Proof.
  intro Hu. unfold generateArrivals.
  repeat split; intro Hp;
    (eapply generateArrivals_classes; [|exact Hu]);
    intros d c [H0 [H1 [H2 H3]]] Hty Hst; simpl.
  - rewrite Hty. replace (Qltb (uReserved d * 100) (percentReserved cfg)) with false;
      [reflexivity|]. symmetry. apply Qltb_ge. lra.
  - rewrite Hty. replace (Qltb (uReserved d * 100) (percentReserved cfg)) with true;
      [reflexivity|]. symmetry. apply Qltb_lt. lra.
  - rewrite Hst.
    replace (Qltb (uHighCounter d * 100) (percentHighCounterTasks cfg)) with false;
      [reflexivity|]. symmetry. apply Qltb_ge. lra.
  - rewrite Hst.
    replace (Qltb (uHighCounter d * 100) (percentHighCounterTasks cfg)) with true;
      [reflexivity|]. symmetry. apply Qltb_lt. lra.
Qed.

(** *** Sorting what is sorted *)

Lemma insert_by_last {A : Type} (cmp : A -> A -> Q) (x : A) (l : list A) :
  (forall y, In y l -> 0 <= cmp x y) -> insert_by cmp x l = l ++ [x].
Proof.
  induction l as [|y l IH]; intro H; simpl; [reflexivity|].
  replace (Qltb (cmp x y) 0) with false.
  - rewrite IH; [reflexivity|]. intros z Hz. apply H. right. exact Hz.
  - symmetry. apply Qltb_ge. apply H. left. reflexivity.
Qed.

Lemma fold_insert_sorted_id {A : Type} (cmp : A -> A -> Q) (l acc : list A) :
  StronglySorted (fun y x => 0 <= cmp x y) (acc ++ l) ->
  fold_left (fun a x => insert_by cmp x a) l acc = acc ++ l.
Proof.
  revert acc. induction l as [|x l IH]; intros acc H; simpl.
  - rewrite app_nil_r. reflexivity.
  - rewrite insert_by_last.
    + rewrite IH; rewrite <- app_assoc; [reflexivity | exact H].
    + intros y Hy. clear IH. induction acc as [|z acc IHacc]; [destruct Hy|].
      simpl in H. inversion H as [|? ? Hs Hf]; subst. destruct Hy as [->|Hy].
      * rewrite Forall_forall in Hf. apply Hf. apply in_or_app. right. left. reflexivity.
      * apply IHacc; assumption.
Qed.

Lemma js_sort_sorted_id {A : Type} (cmp : A -> A -> Q) (l : list A) :
  StronglySorted (fun y x => 0 <= cmp x y) l -> js_sort cmp l = l.
Proof. intro H. unfold js_sort. rewrite fold_insert_sorted_id; [reflexivity | exact H]. Qed.

Lemma arrives_before_compare (l : list Customer) :
  StronglySorted arrives_before l ->
  StronglySorted (fun y x => 0 <= compareArrival x y) l.
Proof.
  induction 1 as [|c l Hs IH Hf]; constructor; [exact IH|].
  eapply Forall_impl; [|exact Hf]. intros d Hd. unfold compareArrival.
  unfold arrives_before in Hd. lra.
Qed.

Lemma generateArrivals_after (cfg : SimulationConfig) (draws : list Draw) (t : Q) (i : nat) :
  Forall (fun d => 0 <= interArrival d) draws ->
  Forall (fun c => t <= arrivalTime c) (generateArrivals_from cfg t i draws).
Proof.
  intro H. revert t i. induction H as [|d draws Hd Hds IH]; intros t i; simpl; [constructor|].
  destruct (Qltb t (durationMinutes cfg)); [|constructor].
  destruct (Qltb (durationMinutes cfg) (t + interArrival d)); [constructor|].
  constructor; simpl; [lra|].
  eapply Forall_impl; [|apply IH]. simpl. intros c Hc. lra.
Qed.

Lemma generateArrivals_sorted (cfg : SimulationConfig) (draws : list Draw) (t : Q) (i : nat) :
  Forall (fun d => 0 <= interArrival d) draws ->
  StronglySorted arrives_before (generateArrivals_from cfg t i draws).
Proof.
  intro H. revert t i. induction H as [|d draws Hd Hds IH]; intros t i; simpl; [constructor|].
  destruct (Qltb t (durationMinutes cfg)); [|constructor].
  destruct (Qltb (durationMinutes cfg) (t + interArrival d)); [constructor|].
  constructor; [apply IH|].
  eapply Forall_impl; [|apply (generateArrivals_after cfg draws _ _ Hds)].
  intros c Hc. unfold arrives_before. simpl. exact Hc.
Qed.

Lemma generateArrivals_sort_id (cfg : SimulationConfig) (draws : list Draw) :
  Forall (fun d => 0 <= interArrival d) draws ->
  js_sort compareArrival (generateArrivals cfg draws) = generateArrivals cfg draws.
Proof.
  intro H. apply js_sort_sorted_id, arrives_before_compare, generateArrivals_sorted, H.
Qed.

Lemma same_static_sorted (l1 l2 : list Customer) :
  Forall2 same_static l1 l2 -> StronglySorted arrives_before l2 ->
  StronglySorted arrives_before l1.
Proof.
  induction 1 as [|c1 c2 l1 l2 Hc Hl IH]; intro Hs; [constructor|].
  inversion Hs as [|? ? Hs' Hf]; subst. constructor; [apply IH, Hs'|].
  clear IH Hs Hs'. induction Hl as [|d1 d2 l1 l2 Hd Hl IH]; [constructor|].
  inversion Hf; subst. constructor; [|apply IH; assumption].
  unfold arrives_before in *. destruct Hc as [_ [_ [_ [Ha _]]]].
  destruct Hd as [_ [_ [_ [Hb _]]]]. rewrite Ha, Hb. assumption.
Qed.

(** X5.  When no gap is negative the customers are created in the order of
    their arrival, so the sort of [processEvents] moves nobody: the result
    lists the customers in the order of creation, the customer at index [k]
    being the one numbered [k + 1], with the class, line, arrival time and
    service time it was created with, and in the order of arrival. *)
Theorem result_keeps_creation_order (cfg : SimulationConfig) (draws : list Draw)
        (result : SimulationResult) :
  Forall (fun d => 0 <= interArrival d) draws ->
  run cfg draws = Completed result ->
  Forall2 same_static (customers result) (generateArrivals cfg draws) /\
  map id (customers result) = seq 1 (length (customers result)) /\
  StronglySorted arrives_before (customers result).
Proof.
  intros Hgaps Hrun. destruct (run_inv _ _ _ Hrun) as [p [Hp [Hcs _]]].
  destruct (processEvents_lines cfg (generateArrivals cfg draws) p
              (generateArrivals_NoDup cfg draws) (generateArrivals_fresh cfg draws) Hp)
    as [Hst _].
  rewrite (generateArrivals_sort_id cfg draws Hgaps) in Hst. rewrite Hcs.
  split; [exact Hst|]. split.
  - rewrite (same_static_ids _ _ Hst). rewrite (Forall2_length Hst).
    apply generateArrivals_ids.
  - apply (same_static_sorted _ _ Hst). apply generateArrivals_sorted, Hgaps.
Qed.

(** ** The two loops of processEvents, seen one line at a time *)

(** The loop of a line starts from customer objects that differ from the
    sorted population only in what the loop of the other line wrote on the
    customers of the other line, and the customers of the line are in the
    result as that loop left them. *)
Lemma processEvents_line_view (cfg : SimulationConfig) (created : list Customer)
      (p : Processing) (line : ServiceType) :
  NoDup (map id created) ->
  processEvents cfg created = Completed p ->
  exists init st,
    simulateQueue init (line_customers line init)
                  (repeat 0 (Z.to_nat (line_count cfg line)))
    = Finished st (line_processed p line) /\
    NoDup (map id init) /\
    Forall2 same_static init (js_sort compareArrival created) /\
    (forall c, In c init -> serviceType c = line -> In c created) /\
    (forall r c, nth_error (population p) r = Some c -> serviceType c = line ->
                 nth_error (store st) r = Some c /\ In r (line_customers line init)) /\
    (0 <= line_count cfg line)%Z /\
    (forall r, In r (line_customers line init) ->
               nth_error (population p) r = nth_error (store st) r).
Proof.
  intros Hids Hp.
  destruct (processEvents_inv _ _ _ Hp) as [? [? [Hc1 [Hc2 _]]]].
  destruct (processEvents_runs cfg created p Hids Hp)
    as [st1 [st2 [S1 [S2 [Hpop [Hst1 [Hst2 [Hid1 [Hq [Hin1 [Hin2 [Hlow Hhigh]]]]]]]]]]]].
  destruct line; simpl.
  - exists (js_sort compareArrival created), st1.
    split; [exact S1|]. split; [apply sorted_ids; assumption|].
    split.
    { clear. induction (js_sort compareArrival created); constructor;
        [apply same_static_refl | assumption]. }
    split; [intros c Hc _; apply js_sort_In in Hc; exact Hc|].
    split; [|split; [exact Hc1 | intros r Hr; rewrite Hpop; apply Hhigh, Hr]].
    intros r c Hr Hl. rewrite Hpop in Hr.
    assert (Hrh : In r (line_customers HIGH_COUNTER (js_sort compareArrival created))).
    { destruct (Forall2_nth_error_l _ _ _ _ _ Hst2 Hr) as [c0 [Ec0 [_ [_ [Hs0 _]]]]].
      apply line_customers_In. exists c0. split; [exact Ec0 | congruence]. }
    split; [|exact Hrh]. rewrite <- (Hhigh r Hrh). exact Hr.
  - exists (store st1), st2.
    split; [exact S2|]. split; [exact Hid1|]. split; [exact Hst1|].
    split; [|split; [|split; [exact Hc2 | intros r _; rewrite Hpop; reflexivity]]].
    + intros c Hc Hl. apply In_nth_error in Hc. destruct Hc as [r Hr].
      assert (Hrl : In r (line_customers LOW_COUNTER (js_sort compareArrival created))).
      { rewrite <- Hq. apply line_customers_In. eauto. }
      rewrite (Hlow r Hrl) in Hr. apply nth_error_In in Hr. apply js_sort_In in Hr. exact Hr.
    + intros r c Hr Hl. rewrite Hpop in Hr. split; [exact Hr|].
      destruct (Forall2_nth_error_l _ _ _ _ _ Hst2 Hr) as [c0 [Ec0 Hs0]].
      destruct (Forall2_nth_error_r _ _ _ _ _ Hst1 Ec0) as [c1 [Ec1 Hs1]].
      apply line_customers_In. exists c1. split; [exact Ec1|].
      destruct Hs0 as [_ [_ [Hs0 _]]]. destruct Hs1 as [_ [_ [Hs1 _]]]. congruence.
Qed.
(** ** Nobody is left waiting *)

Lemma separated_head_first (l : list QueueEvent) (ev : QueueEvent) (rest : list QueueEvent) :
  separated l -> js_sort compareEvents l = ev :: rest ->
  forall e, In e rest -> time ev <= time e.
Proof.
  intros Hsep Hs e He. destruct (sorted_head_precedes _ _ _ Hsep Hs e He) as [H|[H _]]; lra.
Qed.

Lemma free_indices_arrival (ev : QueueEvent) (rest : list QueueEvent) (cid i : nat) :
  etype ev = ARRIVAL cid -> In i (free_indices (ev :: rest)) -> In i (free_indices rest).
Proof. unfold free_indices. simpl. intros ->. simpl. tauto. Qed.

Lemma free_indices_other (ev : QueueEvent) (rest : list QueueEvent) (i j : nat) :
  etype ev = TELLER_FREE i -> j <> i -> In j (free_indices (ev :: rest)) ->
  In j (free_indices rest).
Proof.
  unfold free_indices. simpl. intros ->. simpl. intros Hne [H|H]; [congruence | exact H].
Qed.

Lemma nth_error_array_set_cases {A : Type} (i j : nat) (v x : A) (l : list A) :
  nth_error (array_set i v l) j = Some x ->
  (j = i /\ x = v) \/ (j <> i /\ nth_error l j = Some x).
Proof.
  intro H. destruct (Nat.eq_dec j i) as [->|Hne].
  - left. split; [reflexivity|].
    assert (Hlt : (i < length l)%nat).
    { rewrite <- (array_set_length i v l). apply nth_error_Some. congruence. }
    rewrite (nth_error_array_set_eq i v l Hlt) in H. congruence.
  - right. split; [exact Hne|]. rewrite nth_error_array_set_neq in H; auto.
Qed.

Lemma runs_avail (init : list Customer) (qc : list nat) (st st' : QueueState)
      (tr : list Processed) :
  runs qc st tr st' -> tracked init qc st ->
  Permutation (avail init qc st) (assigned_refs tr ++ avail init qc st').
Proof.
  intro H. induction H as [st Hpq|st ev rest st1 a tr st2 Hs Hstep Hruns IH]; intro Htk.
  - apply Permutation_refl.
  - destruct (tracked_step _ _ _ _ _ _ _ Htk Hs Hstep) as [Htk1 Heff].
    specialize (IH Htk1). unfold assigned_refs. simpl. fold (assigned_refs tr).
    destruct a as [[r i]|]; simpl in *.
    + destruct Heff as [Hperm _]. eapply Permutation_trans; [exact Hperm|].
      constructor. exact IH.
    + destruct Heff as [Hperm _]. eapply Permutation_trans; [exact Hperm | exact IH].
Qed.

Section Liveness.

Variables (init : list Customer) (qc : list nat).

Hypothesis qc_fresh : forall r c, In r qc -> nth_error init r = Some c -> fresh c.
Hypothesis qc_durations : forall r c, In r qc -> nth_error init r = Some c ->
                                      0 <= serviceTime c.

Lemma staffed_step (st st1 : QueueState) (ev : QueueEvent) (rest : list QueueEvent)
      (a : option (nat * nat)) :
  ordered init qc st -> staffed st ->
  js_sort compareEvents (pq st) = ev :: rest ->
  (forall e, In e rest -> time ev <= time e) ->
  step_spec qc ev (with_pq st rest) st1 a ->
  staffed st1.
Proof.
  intros [Htk Hone Hfree Hso] [Hidle Hwait] Hsort Hmin Hstep.
  pose proof (sorted_queue_perm _ _ _ Hsort) as Hperm.
  assert (Hin : forall e, In e rest -> In e (pq st)).
  { intros e He. apply (sorted_queue_In _ _ _ e Hsort). right. exact He. }
  assert (Hev : In ev (pq st)).
  { apply (sorted_queue_In _ _ _ ev Hsort). left. reflexivity. }
  assert (Hfi : forall i, In i (free_indices (pq st)) -> In i (free_indices (ev :: rest))).
  { intros i Hi. apply (Permutation_in _ (free_indices_perm _ _ Hperm) Hi). }
  assert (Hstat : Forall2 same_static (store st) init) by apply Htk.
  destruct Htk as [Hwf Harr Hnd Hun].
  inversion Hstep; subst; simpl in *.
  - (* arrival, assigned *)
    destruct (Harr ev customerId Hev H) as [r0 [c0 [Ef0 [Ec0 Etime]]]].
    rewrite (find_customer_static _ _ _ _ Hstat) in H0.
    assert (ref = r0) by congruence. subst r0.
    assert (Hav : In ref (avail init qc st)).
    { apply in_or_app. left. eapply pending_refs_intro; eauto. }
    destruct (Hun ref Hav) as [Hq Hsame].
    assert (c = c0) by congruence. subst c0.
    pose proof (qc_durations ref c Hq Ec0) as Hd.
    constructor; simpl.
    + intros j f e Hj He. rewrite free_indices_app. simpl.
      destruct (nth_error_array_set_cases _ _ _ _ _ Hj) as [[-> ->]|[Hne Hj']].
      * left. apply in_or_app. right. left. reflexivity.
      * apply in_app_or in He. destruct He as [He|[<-|[]]].
        -- destruct (Hidle j f e Hj' (Hin e He)) as [K|K]; [left|right; exact K].
           apply in_or_app. left. apply (free_indices_arrival ev rest customerId j H).
           apply Hfi, K.
        -- destruct (Hidle j f ev Hj' Hev) as [K|K]; [left|right; simpl; lra].
           apply in_or_app. left. apply (free_indices_arrival ev rest customerId j H).
           apply Hfi, K.
    + intros Hne j Hj. rewrite array_set_length in Hj. rewrite free_indices_app. simpl.
      apply in_or_app. destruct (Nat.eq_dec j i) as [->|Hji]; [right; left; reflexivity|].
      left. apply (free_indices_arrival ev rest customerId j H). apply Hfi.
      apply (Hwait Hne j Hj).
  - (* arrival, waiting *)
    constructor; simpl.
    + intros j f e Hj He.
      destruct (Hidle j f e Hj (Hin e He)) as [K|K]; [left|right; exact K].
      apply (free_indices_arrival ev rest customerId j H). apply Hfi, K.
    + intros _ j Hj. apply nth_error_Some in Hj.
      destruct (nth_error (tellersFreeAt st) j) as [f|] eqn:Ej; [|congruence].
      destruct (Hidle j f ev Ej Hev) as [K|K].
      * apply (free_indices_arrival ev rest customerId j H). apply Hfi, K.
      * exfalso. pose proof (findFreeTeller_None _ _ H1 f (nth_error_In _ _ Ej)). lra.
  - (* teller free, nobody waiting *)
    apply popNextCustomer_None in H0.
    constructor; simpl.
    + intros j f e Hj He. destruct (Nat.eq_dec j i) as [->|Hji].
      * right. rewrite (Hfree ev i Hev H) in Hj. inversion Hj. subst f. apply Hmin, He.
      * destruct (Hidle j f e Hj (Hin e He)) as [K|K]; [left|right; exact K].
        apply (free_indices_other ev rest i j H Hji). apply Hfi, K.
    + intro Hne. congruence.
  - (* teller free, next customer assigned *)
    destruct (popNextCustomer_spec _ _ _ _ H0) as [l1 [l2 [E [E' _]]]].
    assert (Hbuf : In ref (waitingBuffer st)) by (rewrite E; apply in_elt).
    assert (Hav : In ref (avail init qc st)) by (apply in_or_app; right; exact Hbuf).
    destruct (Hun ref Hav) as [Hq Hsame].
    assert (Ec0 : nth_error init ref = Some c) by congruence.
    pose proof (qc_durations ref c Hq Ec0) as Hd.
    assert (Hne0 : waitingBuffer st <> []).
    { intro K. rewrite K in Hbuf. destruct Hbuf. }
    constructor; simpl.
    + intros j f e Hj He. rewrite free_indices_app. simpl.
      destruct (nth_error_array_set_cases _ _ _ _ _ Hj) as [[-> ->]|[Hne Hj']].
      * left. apply in_or_app. right. left. reflexivity.
      * left. apply in_or_app. left. apply (free_indices_other ev rest i j H Hne).
        apply Hfi. apply (Hwait Hne0 j). apply nth_error_Some. congruence.
    + intros _ j Hj. rewrite array_set_length in Hj. rewrite free_indices_app. simpl.
      apply in_or_app. destruct (Nat.eq_dec j i) as [->|Hji]; [right; left; reflexivity|].
      left. apply (free_indices_other ev rest i j H Hji). apply Hfi.
      apply (Hwait Hne0 j Hj).
Qed.

(** An invariant that every iteration without a near tie keeps holds when
    the loop ends. *)
Lemma runs_invariant (I : QueueState -> Prop) :
  (forall st st1 ev rest a,
     ordered init qc st -> staffed st -> I st ->
     js_sort compareEvents (pq st) = ev :: rest ->
     (forall e, In e rest -> precedes ev e) ->
     step_spec qc ev (with_pq st rest) st1 a -> I st1) ->
  forall st st' tr,
    runs qc st tr st' -> ordered init qc st -> staffed st -> I st ->
    Forall no_near_tie tr ->
    ordered init qc st' /\ staffed st' /\ I st'.
Proof.
  intros HI st st' tr H.
  induction H as [st Hpq|st ev rest st1 a tr st2 Hs Hstep Hruns IH];
    intros Hord Hsf Hi Hsep.
  - auto.
  - inversion Hsep as [|p l Hp Hl]. subst. unfold no_near_tie in Hp. simpl in Hp.
    assert (Hsep0 : separated (pq st)).
    { intros x y Hx Hy. apply Hp; rewrite <- Hs; apply js_sort_In; assumption. }
    pose proof (sorted_head_precedes _ _ _ Hsep0 Hs) as Hprec.
    destruct (ordered_step init qc qc_fresh qc_durations st st1 ev rest a Hord Hs
                (separated_head_ok _ _ _ Hsep0 Hs) Hstep) as [Hord1 _].
    apply IH; [exact Hord1 | | | exact Hl].
    + apply (staffed_step st st1 ev rest a Hord Hsf Hs); [|exact Hstep].
      apply (separated_head_first _ _ _ Hsep0 Hs).
    + apply (HI st st1 ev rest a); assumption.
Qed.

(** With at least one teller, each free by the time of every pending
    arrival, a run without near ties assigns every customer whose arrival
    is pending or who is waiting. *)
Lemma runs_serves_all (st st' : QueueState) (tr : list Processed) :
  runs qc st tr st' -> ordered init qc st -> staffed st -> Forall no_near_tie tr ->
  tellersFreeAt st <> [] ->
  Permutation (avail init qc st) (assigned_refs tr).
Proof.
  intros Hruns Hord Hsf Hsep Hne.
  destruct (runs_invariant (fun _ => True) (fun _ _ _ _ _ _ _ _ _ _ _ => I)
              st st' tr Hruns Hord Hsf I Hsep) as [Hord' [Hsf' _]].
  destruct (runs_wf init qc st st' tr Hruns (tk_wf _ _ _ (od_tracked _ _ _ Hord)))
    as [_ [Hpq Hlen]].
  pose proof (runs_avail init qc st st' tr Hruns (od_tracked _ _ _ Hord)) as Hperm.
  assert (Hbuf : waitingBuffer st' = []).
  { destruct (waitingBuffer st') as [|r l] eqn:E; [reflexivity|]. exfalso.
    assert (Hi : In 0%nat (free_indices (pq st'))).
    { apply (sf_waiting _ Hsf'); [rewrite E; discriminate|]. rewrite Hlen.
      destruct (tellersFreeAt st); [congruence | simpl; lia]. }
    rewrite Hpq in Hi. destruct Hi. }
  unfold avail in Hperm at 2. rewrite Hpq, Hbuf in Hperm. simpl in Hperm.
  rewrite app_nil_r in Hperm. exact Hperm.
Qed.

End Liveness.

Lemma initial_state_staffed (init : list Customer) (qc : list nat) (tellers : list Q) :
  (forall f r c, In f tellers -> In r qc -> nth_error init r = Some c ->
                 f <= arrivalTime c) ->
  staffed (initial_state init qc tellers).
Proof.
  intro H. constructor; simpl.
  - intros i f e Hf He. right.
    apply (initial_queue_arrivals init qc tellers) in He.
    destruct He as [r [c [Hr [Hc ->]]]]. simpl.
    apply (H f r c); [eapply nth_error_In, Hf | exact Hr | exact Hc].
  - intro K. congruence.
Qed.

Lemma initial_avail (init : list Customer) (qc : list nat) (tellers : list Q) :
  NoDup (map id init) ->
  Permutation (avail init qc (initial_state init qc tellers))
              (filter (fun r => Nat.ltb r (length init)) qc).
Proof.
  intro Hnd. unfold avail. simpl. rewrite app_nil_r.
  rewrite <- (initial_pending_refs init qc qc Hnd (incl_refl qc)).
  apply pending_refs_perm, js_sort_perm.
Qed.

Lemma line_hypotheses (init : list Customer) (line : ServiceType) (P : Customer -> Prop) :
  (forall c, In c init -> serviceType c = line -> P c) ->
  forall r c, In r (line_customers line init) -> nth_error init r = Some c -> P c.
Proof.
  intros H r c Hr Hc. apply line_customers_In in Hr. destruct Hr as [c' [Hc' Hl]].
  assert (c' = c) by congruence. subst c'. apply H; [|exact Hl]. eapply nth_error_In, Hc.
Qed.

(** A line with at least one teller, each free by the time of the first
    arrival, serves every customer of the line in a run without near ties. *)
Lemma simulateQueue_line_serves_all (init : list Customer) (line : ServiceType)
      (tellers : list Q) (st : QueueState) (tr : list Processed) :
  NoDup (map id init) ->
  (forall c, In c init -> serviceType c = line ->
             fresh c /\ 0 <= serviceTime c /\ forall f, In f tellers -> f <= arrivalTime c) ->
  tellers <> [] ->
  simulateQueue init (line_customers line init) tellers = Finished st tr ->
  Forall no_near_tie tr ->
  forall r, In r (line_customers line init) ->
    exists c i t, nth_error init r = Some c /\
                  nth_error (store st) r = Some (assign_fields c i t).
Proof.
  intros Hnd Hline Hne Hsim Hsep r Hr.
  destruct (simulateQueue_line init line tellers st tr Hnd Hsim)
    as [Hruns [_ [_ [_ [_ Hass]]]]].
  pose proof (line_hypotheses init line _ Hline) as Hq.
  assert (Hperm : Permutation (avail init (line_customers line init)
                                     (initial_state init (line_customers line init) tellers))
                              (assigned_refs tr)).
  { apply (runs_serves_all init (line_customers line init)
             (fun r c Hr Hc => proj1 (Hq r c Hr Hc))
             (fun r c Hr Hc => proj1 (proj2 (Hq r c Hr Hc))) _ st tr Hruns);
      [| |exact Hsep|exact Hne].
    - apply initial_state_ordered; [exact Hnd | apply line_customers_NoDup|].
      intros r0 c0 Hr0 Hc0. apply (Hq r0 c0 Hr0 Hc0).
    - apply initial_state_staffed. intros f r0 c0 Hf Hr0 Hc0.
      apply (proj2 (proj2 (Hq r0 c0 Hr0 Hc0))). exact Hf. }
  assert (Hin : In r (assigned_refs tr)).
  { apply (Permutation_in _ Hperm).
    apply (Permutation_in _ (Permutation_sym (initial_avail init _ tellers Hnd))).
    apply filter_In. split; [exact Hr|].
    apply line_customers_In in Hr. destruct Hr as [c [Hc _]].
    apply Nat.ltb_lt. apply nth_error_Some. congruence. }
  apply assigned_refs_In in Hin. destruct Hin as [q [i [Hq1 Hq2]]].
  destruct (Hass q r i Hq1 Hq2) as [c [Hc Hst]].
  exists c, i, (time (event q)). split; assumption.
Qed.

Lemma generateArrivals_facts (cfg : SimulationConfig) (draws : list Draw) (c : Customer) :
  Forall (fun d => 0 <= interArrival d /\ 0 <= serviceDraw d) draws ->
  In c (generateArrivals cfg draws) ->
  fresh c /\ 0 <= serviceTime c /\ 0 <= arrivalTime c.
Proof.
  intros Hd Hc. split; [|split].
  - pose proof (generateArrivals_fresh cfg draws) as H. rewrite Forall_forall in H.
    apply H, Hc.
  - assert (H : Forall (fun c => 0 <= serviceTime c) (generateArrivals cfg draws)).
    { apply generateArrivals_durations. eapply Forall_impl; [|exact Hd]. simpl. tauto. }
    rewrite Forall_forall in H. apply H, Hc.
  - assert (H : Forall (fun c => 0 <= arrivalTime c) (generateArrivals cfg draws)).
    { apply generateArrivals_after. eapply Forall_impl; [|exact Hd]. simpl. tauto. }
    rewrite Forall_forall in H. apply H, Hc.
Qed.

(** X6.  A line that has at least one teller serves every customer that
    joins it: when no gap and no service duration is negative and no near
    tie occurred in the loop of the line, every customer of the line has a
    start time, not before its arrival, and an end time. *)
Theorem every_customer_is_served (cfg : SimulationConfig) (draws : list Draw)
        (p : Processing) (line : ServiceType) :
  Forall (fun d => 0 <= interArrival d /\ 0 <= serviceDraw d) draws ->
  processEvents cfg (generateArrivals cfg draws) = Completed p ->
  Forall no_near_tie (line_processed p line) ->
  (0 < line_count cfg line)%Z ->
  forall c, In c (population p) -> serviceType c = line ->
    exists s, serviceStartTime c = Some s /\
              serviceEndTime c = Some (s + serviceTime c) /\
              arrivalTime c <= s.
Proof.
  intros Hd Hp Hsep Hcount c Hc Hl.
  destruct (processEvents_line_view cfg _ p line (generateArrivals_NoDup cfg draws) Hp)
    as [init [st [Hsim [Hnd [Hstat [Hcreated [Hview _]]]]]]].
  apply In_nth_error in Hc. destruct Hc as [r Hr].
  destruct (Hview r c Hr Hl) as [Hst Hrl].
  assert (Hline : forall c0, In c0 init -> serviceType c0 = line ->
                    fresh c0 /\ 0 <= serviceTime c0 /\
                    forall f, In f (repeat 0 (Z.to_nat (line_count cfg line))) ->
                              f <= arrivalTime c0).
  { intros c0 H0 L0.
    destruct (generateArrivals_facts cfg draws c0 Hd (Hcreated c0 H0 L0)) as [F [D A]].
    split; [exact F|]. split; [exact D|]. intros f Hf. apply repeat_spec in Hf.
    subst f. exact A. }
  assert (Hne : repeat 0 (Z.to_nat (line_count cfg line)) <> []).
  { destruct (Z.to_nat (line_count cfg line)) eqn:E; [lia | discriminate]. }
  destruct (simulateQueue_line_serves_all init line _ st _ Hnd Hline Hne Hsim Hsep r Hrl)
    as [c0 [i [t [Hc0 Hst']]]].
  assert (c = assign_fields c0 i t) by congruence. subst c.
  exists t. simpl. split; [reflexivity|]. split; [reflexivity|].
  destruct (simulateQueue_line_ordered init line _ st _ Hnd
              (fun c1 H1 L1 => conj (proj1 (Hline c1 H1 L1)) (proj1 (proj2 (Hline c1 H1 L1))))
              Hsim Hsep) as [Hord _].
  apply (so_served _ _ _ _ _ (od_service _ _ _ Hord) r _ t Hrl Hst eq_refl).
Qed.

(** ** Teller indices *)

Lemma runs_assigned_in_range (init : list Customer) (qc : list nat) (st st' : QueueState)
      (tr : list Processed) :
  runs qc st tr st' -> wf init qc st ->
  forall p r i, In p tr -> assignment p = Some (r, i) ->
                (i < length (tellersFreeAt st))%nat.
Proof.
  intro H. induction H as [st Hpq|st ev rest st1 a tr st2 Hs Hstep Hruns IH];
    intros Hwf p r i Hp Ha; [destruct Hp|].
  destruct (wf_step _ _ _ _ _ _ _ Hwf Hs Hstep) as [Hwf1 Hlen].
  destruct Hp as [<-|Hp].
  - simpl in Ha. subst a.
    apply (teller_indices_in_range init qc st ev rest st1 r i Hwf Hs Hstep).
  - rewrite <- Hlen. apply (IH Hwf1 p r i Hp Ha).
Qed.

(** What the loops of [processEvents] leave on a customer: nothing, or the
    fields of one assignment to a teller of its line. *)
Lemma processEvents_customer (cfg : SimulationConfig) (created : list Customer)
      (p : Processing) (c : Customer) :
  NoDup (map id created) -> Forall fresh created ->
  processEvents cfg created = Completed p ->
  In c (population p) ->
  (In c created) \/
  (exists c0 i t, In c0 created /\ c = assign_fields c0 i t /\
                  (Z.of_nat i < line_count cfg (serviceType c))%Z).
Proof.
  intros Hids Hfresh Hp Hc. apply In_nth_error in Hc. destruct Hc as [r Hr].
  destruct (processEvents_line_view cfg created p (serviceType c) Hids Hp)
    as [init [st [Hsim [Hnd [Hstat [Hcreated [Hview [Hcount _]]]]]]]].
  destruct (Hview r c Hr eq_refl) as [Hst Hrl].
  destruct (simulateQueue_line init _ _ st _ Hnd Hsim)
    as [Hruns [_ [_ [_ [Hsame Hass]]]]].
  destruct (in_dec Nat.eq_dec r (assigned_refs (line_processed p (serviceType c))))
    as [Hin|Hnin].
  - right. apply assigned_refs_In in Hin. destruct Hin as [q [i [Hq Ha]]].
    destruct (Hass q r i Hq Ha) as [c0 [Hc0 Hst']].
    assert (E : c = assign_fields c0 i (time (event q))) by congruence.
    exists c0, i, (time (event q)). split; [|split; [exact E|]].
    + apply Hcreated; [eapply nth_error_In, Hc0|]. rewrite E. reflexivity.
    + pose proof (runs_assigned_in_range init _ _ _ _ Hruns
                    (initial_state_wf _ _ _) q r i Hq Ha) as Hlt.
      simpl in Hlt. rewrite repeat_length in Hlt. lia.
  - left. rewrite (Hsame r Hnin) in Hst. apply Hcreated; [eapply nth_error_In, Hst|].
    reflexivity.
Qed.

(** X7.  Whatever the draws, a customer of the result that has a teller
    has one of its own line: its teller index is below the configured count
    of that line. *)
Theorem served_teller_is_in_range (cfg : SimulationConfig) (draws : list Draw)
        (result : SimulationResult) :
  run cfg draws = Completed result ->
  forall c i, In c (customers result) -> tellerId c = Some i ->
    (Z.of_nat i < line_count (config result) (serviceType c))%Z.
Proof.
  intros Hrun c i Hc Hi. destruct (run_inv _ _ _ Hrun) as [p [Hp [Hcs Hcfg]]].
  rewrite Hcs in Hc. rewrite Hcfg.
  destruct (processEvents_customer cfg _ p c (generateArrivals_NoDup cfg draws)
              (generateArrivals_fresh cfg draws) Hp Hc) as [H|[c0 [j [t [_ [E Hlt]]]]]].
  - pose proof (generateArrivals_fresh cfg draws) as F. rewrite Forall_forall in F.
    destruct (F c H) as [_ [_ Hn]]. congruence.
  - rewrite E in Hi. simpl in Hi. inversion Hi. subst j. exact Hlt.
Qed.

(** ** Nobody is passed without right *)

Lemma StronglySorted_app_last {A : Type} (R : A -> A -> Prop) (l : list A) (y : A) :
  StronglySorted R l -> (forall x, In x l -> R x y) -> StronglySorted R (l ++ [y]).
Proof.
  induction 1 as [|x l Hs IH Hf]; intro H; simpl.
  - repeat constructor.
  - constructor.
    + apply IH. intros z Hz. apply H. right. exact Hz.
    + apply Forall_app. split; [exact Hf|]. constructor; [|constructor].
      apply H. left. reflexivity.
Qed.

Lemma StronglySorted_remove {A : Type} (R : A -> A -> Prop) (l1 l2 : list A) (x : A) :
  StronglySorted R (l1 ++ x :: l2) ->
  StronglySorted R (l1 ++ l2) /\ forall y, In y l2 -> R x y.
Proof.
  induction l1 as [|z l1 IH]; simpl; intro H; inversion H as [|? ? Hs Hf]; subst.
  - split; [exact Hs|]. rewrite Forall_forall in Hf. exact Hf.
  - destruct (IH Hs) as [Hs' Hx]. split; [|exact Hx]. constructor; [exact Hs'|].
    rewrite Forall_forall in *. intros y Hy. apply Hf. apply in_app_or in Hy.
    apply in_or_app. simpl. tauto.
Qed.

Lemma is_reserved_static (s1 s2 : list Customer) (r : nat) :
  Forall2 same_static s1 s2 -> is_reserved s1 r = is_reserved s2 r.
Proof.
  intro H. unfold is_reserved. destruct (nth_error s1 r) as [c|] eqn:E.
  - destruct (Forall2_nth_error_l _ _ _ _ _ H E) as [c0 [-> [_ [Ht _]]]].
    rewrite Ht. reflexivity.
  - destruct (nth_error s2 r) as [c0|] eqn:E0; [|reflexivity].
    destruct (Forall2_nth_error_r _ _ _ _ _ H E0) as [c [Ec _]]. congruence.
Qed.

Lemma started_at_set (population : list Customer) (ref r i : nat) (c : Customer) (t s : Q) :
  started_at (array_set ref (assign_fields c i t) population) r s ->
  (r = ref /\ s = t) \/ (r <> ref /\ started_at population r s).
Proof.
  intros [c' [Hc Hs]].
  destruct (nth_error_array_set_cases _ _ _ _ _ Hc) as [[-> ->]|[Hne Hc']].
  - left. simpl in Hs. inversion Hs. auto.
  - right. split; [exact Hne|]. exists c'. auto.
Qed.

Lemma started_after_arrival (init : list Customer) (qc : list nat) (st : QueueState)
      (r : nat) (s : Q) :
  ordered init qc st -> In r qc -> started_at (store st) r s -> arrival_of init r <= s.
Proof.
  intros Hord Hr [c [Hc Hs]].
  destruct (so_served _ _ _ _ _ (od_service _ _ _ Hord) r c s Hr Hc Hs) as [Ha _].
  assert (Hstat : Forall2 same_static (store st) init) by apply Hord.
  destruct (Forall2_nth_error_l _ _ _ _ _ Hstat Hc) as [c0 [Ec0 [_ [_ [_ [E _]]]]]].
  unfold arrival_of. rewrite Ec0, <- E. exact Ha.
Qed.

Section Fairness.

Variables (init : list Customer) (qc : list nat).

Hypothesis qc_durations : forall r c, In r qc -> nth_error init r = Some c ->
                                      0 <= serviceTime c.

Lemma fair_step (st st1 : QueueState) (ev : QueueEvent) (rest : list QueueEvent)
      (a : option (nat * nat)) :
  ordered init qc st -> staffed st -> fair init qc st ->
  js_sort compareEvents (pq st) = ev :: rest ->
  (forall e, In e rest -> precedes ev e) ->
  step_spec qc ev (with_pq st rest) st1 a ->
  fair init qc st1.
Proof.
  intros Hord Hsf [Hpast Hbuf Hstarted Hwaiting Horder] Hsort Hprec Hstep.
  pose proof Hord as [Htk Hone Hfree Hso].
  assert (Hmin : forall e, In e rest -> time ev <= time e).
  { intros e He. destruct (Hprec e He) as [K|[K _]]; lra. }
  assert (Hin : forall e, In e rest -> In e (pq st)).
  { intros e He. apply (sorted_queue_In _ _ _ e Hsort). right. exact He. }
  assert (Hev : In ev (pq st)).
  { apply (sorted_queue_In _ _ _ ev Hsort). left. reflexivity. }
  assert (Hstat : Forall2 same_static (store st) init) by apply Htk.
  assert (Hafterarr : forall r s, In r qc -> started_at (store st) r s ->
                                  arrival_of init r <= s).
  { intros r s. apply started_after_arrival, Hord. }
  destruct Htk as [Hwf Harr Hnd Hun].
  inversion Hstep; subst; simpl in *.
  - (* arrival, assigned *)
    destruct (Harr ev customerId Hev H) as [r0 [c0 [Ef0 [Ec0 Etime]]]].
    rewrite (find_customer_static _ _ _ _ Hstat) in H0.
    assert (ref = r0) by congruence. subst r0.
    assert (Hav : In ref (avail init qc st)).
    { apply in_or_app. left. eapply pending_refs_intro; eauto. }
    destruct (Hun ref Hav) as [Hq Hsame].
    assert (c = c0) by congruence. subst c0.
    pose proof (qc_durations ref c Hq Ec0) as Hd.
    assert (Earr : arrival_of init ref = time ev).
    { unfold arrival_of. rewrite Ec0. symmetry. exact Etime. }
    assert (Hempty : waitingBuffer st = []).
    { destruct (waitingBuffer st) as [|w l] eqn:Ew; [reflexivity|]. exfalso.
      destruct (findFreeTeller_Some _ _ _ H1) as [f [Hf [Hft _]]].
      assert (Hi : In i (free_indices (pq st))).
      { apply (sf_waiting _ Hsf); [rewrite Ew; discriminate|].
        apply nth_error_Some. congruence. }
      apply free_indices_In in Hi. destruct Hi as [e [He Hei]].
      pose proof (Hfree e i He Hei) as Hfe. rewrite Hf in Hfe. inversion Hfe. subst f.
      apply (sorted_queue_In _ _ _ e Hsort) in He. destruct He as [->|He]; [congruence|].
      destruct (Hprec e He) as [K|[_ [K|K]]].
      - lra.
      - unfold is_teller_free in K. rewrite H in K. discriminate.
      - unfold is_teller_free in K. rewrite Hei in K. discriminate. }
    rewrite Hempty in *.
    assert (Hst' : forall r s e, In r qc ->
               started_at (array_set ref (assign_fields c i (time ev)) (store st)) r s ->
               In e (rest ++ [mkQueueEvent (time ev + serviceTime c) (TELLER_FREE i)]) ->
               s <= time e).
    { intros r s e Hr Hs He. apply in_app_or in He.
      destruct (started_at_set _ _ _ _ _ _ _ Hs) as [[-> ->]|[Hne Hs']].
      - destruct He as [He|[<-|[]]]; [apply Hmin, He | simpl; lra].
      - destruct He as [He|[<-|[]]]; [apply (Hstarted r s e Hr Hs' (Hin e He))|].
        pose proof (Hstarted r s ev Hr Hs' Hev). simpl. lra. }
    constructor; simpl.
    + intros r e [].
    + constructor.
    + exact Hst'.
    + intros r1 r2 s2 [].
    + intros r1 r2 s1 s2 Hr1 Hr2 Hs1 Hs2 Hk Hlt.
      destruct (started_at_set _ _ _ _ _ _ _ Hs1) as [[-> ->]|[Hne1 Hs1']];
        destruct (started_at_set _ _ _ _ _ _ _ Hs2) as [[-> ->]|[Hne2 Hs2']].
      * lra.
      * pose proof (Hstarted r2 s2 ev Hr2 Hs2' Hev).
        pose proof (Hafterarr r2 s2 Hr2 Hs2'). rewrite Earr in Hlt. lra.
      * apply (Hstarted r1 s1 ev Hr1 Hs1' Hev).
      * apply (Horder r1 r2 s1 s2); assumption.
  - (* arrival, waiting *)
    destruct (Harr ev customerId Hev H) as [r0 [c0 [Ef0 [Ec0 Etime]]]].
    rewrite (find_customer_static _ _ _ _ Hstat) in H0.
    assert (ref = r0) by congruence. subst r0.
    assert (Earr : arrival_of init ref = time ev).
    { unfold arrival_of. rewrite Ec0. symmetry. exact Etime. }
    constructor; simpl.
    + intros r e Hr He. apply in_app_or in Hr. destruct Hr as [Hr|[<-|[]]].
      * apply (Hpast r e Hr (Hin e He)).
      * rewrite Earr. apply Hmin, He.
    + apply StronglySorted_app_last; [exact Hbuf|]. intros x Hx. rewrite Earr.
      apply (Hpast x ev Hx Hev).
    + intros r s e Hr Hs He. apply (Hstarted r s e Hr Hs (Hin e He)).
    + intros r1 r2 s2 Hr1 Hr2 Hs2 Hk. apply in_app_or in Hr1.
      destruct Hr1 as [Hr1|[<-|[]]]; [apply (Hwaiting r1 r2 s2); assumption|].
      pose proof (Hstarted r2 s2 ev Hr2 Hs2 Hev).
      pose proof (Hafterarr r2 s2 Hr2 Hs2). rewrite Earr. lra.
    + exact Horder.
  - (* teller free, nobody waiting *)
    constructor; simpl.
    + intros r e Hr He. apply (Hpast r e Hr (Hin e He)).
    + exact Hbuf.
    + intros r s e Hr Hs He. apply (Hstarted r s e Hr Hs (Hin e He)).
    + exact Hwaiting.
    + exact Horder.
  - (* teller free, next customer assigned *)
    destruct (popNextCustomer_spec _ _ _ _ H0) as [l1 [l2 [E [E' [Hl1 Hwalk]]]]].
    assert (Hbufin : In ref (waitingBuffer st)) by (rewrite E; apply in_elt).
    assert (Hav : In ref (avail init qc st)) by (apply in_or_app; right; exact Hbufin).
    destruct (Hun ref Hav) as [Hq Hsame].
    assert (Ec0 : nth_error init ref = Some c) by congruence.
    pose proof (qc_durations ref c Hq Ec0) as Hd.
    assert (Hsub : forall r, In r buffer' -> In r (waitingBuffer st)).
    { subst buffer'. rewrite E. intros r Hr. apply in_app_or in Hr.
      apply in_or_app. simpl. tauto. }
    rewrite E in Hbuf. destruct (StronglySorted_remove _ _ _ _ Hbuf) as [Hs' Hafter].
    assert (Hst' : forall r s e, In r qc ->
               started_at (array_set ref (assign_fields c i (time ev)) (store st)) r s ->
               In e (rest ++ [mkQueueEvent (time ev + serviceTime c) (TELLER_FREE i)]) ->
               s <= time e).
    { intros r s e Hr Hs He. apply in_app_or in He.
      destruct (started_at_set _ _ _ _ _ _ _ Hs) as [[-> ->]|[Hne Hs'']].
      - destruct He as [He|[<-|[]]]; [apply Hmin, He | simpl; lra].
      - destruct He as [He|[<-|[]]]; [apply (Hstarted r s e Hr Hs'' (Hin e He))|].
        pose proof (Hstarted r s ev Hr Hs'' Hev). simpl. lra. }
    constructor; simpl.
    + intros r e Hr He. apply in_app_or in He. destruct He as [He|[<-|[]]].
      * apply (Hpast r e (Hsub r Hr) (Hin e He)).
      * pose proof (Hpast r ev (Hsub r Hr) Hev). simpl. lra.
    + subst buffer'. exact Hs'.
    + exact Hst'.
    + intros r1 r2 s2 Hr1 Hr2 Hs2 Hk.
      destruct (started_at_set _ _ _ _ _ _ _ Hs2) as [[-> ->]|[Hne2 Hs2']];
        [|apply (Hwaiting r1 r2 s2); auto].
      subst buffer'. apply in_app_or in Hr1. destruct Hr1 as [Hr1|Hr1];
        [|apply Hafter, Hr1].
      exfalso. pose proof (Hl1 r1 Hr1) as Hw.
      rewrite (is_reserved_static _ _ r1 Hstat) in Hw.
      destruct Hk as [Hk|Hk]; [congruence|].
      rewrite <- (is_reserved_static _ _ ref Hstat) in Hk.
      destruct (Hwalk Hk) as [-> _]. destruct Hr1.
    + intros r1 r2 s1 s2 Hr1 Hr2 Hs1 Hs2 Hk Hlt.
      destruct (started_at_set _ _ _ _ _ _ _ Hs1) as [[-> ->]|[Hne1 Hs1']];
        destruct (started_at_set _ _ _ _ _ _ _ Hs2) as [[-> ->]|[Hne2 Hs2']].
      * lra.
      * pose proof (Hwaiting ref r2 s2 Hbufin Hr2 Hs2' Hk). lra.
      * apply (Hstarted r1 s1 ev Hr1 Hs1' Hev).
      * apply (Horder r1 r2 s1 s2); assumption.
Qed.

End Fairness.

Lemma initial_state_fair (init : list Customer) (qc : list nat) (tellers : list Q) :
  (forall r c, In r qc -> nth_error init r = Some c -> fresh c) ->
  fair init qc (initial_state init qc tellers).
Proof.
  intro Hfresh.
  assert (Hno : forall r s, In r qc -> started_at init r s -> False).
  { intros r s Hr [c [Hc Hs]]. destruct (Hfresh r c Hr Hc) as [K _]. congruence. }
  constructor; simpl.
  - intros r e [].
  - constructor.
  - intros r s e Hr Hs. destruct (Hno r s Hr Hs).
  - intros r1 r2 s2 [].
  - intros r1 r2 s1 s2 Hr1 _ Hs1. destruct (Hno r1 s1 Hr1 Hs1).
Qed.

(** In a run of a line without near ties, whose tellers are free by the
    time of the first arrival, the final state is fair and every customer of
    the line was assigned or is still waiting. *)
Lemma simulateQueue_line_fair (init : list Customer) (line : ServiceType)
      (tellers : list Q) (st : QueueState) (tr : list Processed) :
  NoDup (map id init) ->
  (forall c, In c init -> serviceType c = line ->
             fresh c /\ 0 <= serviceTime c /\ forall f, In f tellers -> f <= arrivalTime c) ->
  simulateQueue init (line_customers line init) tellers = Finished st tr ->
  Forall no_near_tie tr ->
  fair init (line_customers line init) st /\
  Forall2 same_static (store st) init /\
  forall r, In r (line_customers line init) ->
    In r (waitingBuffer st) \/ exists s, started_at (store st) r s.
Proof.
  intros Hnd Hline Hsim Hsep.
  destruct (simulateQueue_line init line tellers st tr Hnd Hsim)
    as [Hruns [Htk' [_ [_ [_ Hass]]]]].
  pose proof (line_hypotheses init line _ Hline) as Hq.
  assert (Hord : ordered init (line_customers line init)
                         (initial_state init (line_customers line init) tellers)).
  { apply initial_state_ordered; [exact Hnd | apply line_customers_NoDup|].
    intros r0 c0 Hr0 Hc0. apply (Hq r0 c0 Hr0 Hc0). }
  destruct (runs_invariant init (line_customers line init)
              (fun r c Hr Hc => proj1 (Hq r c Hr Hc))
              (fun r c Hr Hc => proj1 (proj2 (Hq r c Hr Hc)))
              (fair init (line_customers line init))
              (fair_step init (line_customers line init)
                         (fun r c Hr Hc => proj1 (proj2 (Hq r c Hr Hc))))
              _ st tr Hruns Hord) as [_ [_ Hfair]]; [| |exact Hsep|].
  { apply initial_state_staffed. intros f r0 c0 Hf Hr0 Hc0.
    apply (proj2 (proj2 (Hq r0 c0 Hr0 Hc0))). exact Hf. }
  { apply initial_state_fair. intros r c Hr Hc. apply (Hq r c Hr Hc). }
  split; [exact Hfair|]. split; [apply Htk'|].
  intros r Hr.
  pose proof (runs_avail init _ _ st tr Hruns (od_tracked _ _ _ Hord)) as Hperm.
  destruct (runs_wf init _ _ st tr Hruns (tk_wf _ _ _ (od_tracked _ _ _ Hord)))
    as [_ [Hpq _]].
  unfold avail in Hperm at 2. rewrite Hpq in Hperm. simpl in Hperm.
  assert (Hin : In r (assigned_refs tr ++ waitingBuffer st)).
  { apply (Permutation_in _ Hperm).
    apply (Permutation_in _ (Permutation_sym (initial_avail init _ tellers Hnd))).
    apply filter_In. split; [exact Hr|].
    apply line_customers_In in Hr. destruct Hr as [c [Hc _]].
    apply Nat.ltb_lt. apply nth_error_Some. congruence. }
  apply in_app_or in Hin. destruct Hin as [Hin|Hin]; [right|left; exact Hin].
  apply assigned_refs_In in Hin. destruct Hin as [q [i [Hq1 Hq2]]].
  destruct (Hass q r i Hq1 Hq2) as [c [Hc Hst]].
  exists (time (event q)), (assign_fields c i (time (event q))). split; [exact Hst|].
  reflexivity.
Qed.

Lemma arrival_of_static (population init : list Customer) (r : nat) (c : Customer) :
  Forall2 same_static population init -> nth_error population r = Some c ->
  arrival_of init r = arrivalTime c /\
  is_reserved init r = CustomerType_eqb (type c) RESERVED.
Proof.
  intros Hstat Hc.
  destruct (Forall2_nth_error_l _ _ _ _ _ Hstat Hc) as [c0 [Ec0 [_ [Ht [_ [Ea _]]]]]].
  unfold arrival_of, is_reserved. rewrite Ec0, Ea, Ht. auto.
Qed.

(** X8.  Nobody is passed without right.  When no gap and no service
    duration is negative and no near tie occurred in the loop of a line:
    if a customer of the line arrived strictly before another one, and is
    reserved or the other one is a walk-in, then whenever the later one was
    served the earlier one was served too, and started no later. *)
Theorem nobody_is_passed_without_right (cfg : SimulationConfig) (draws : list Draw)
        (p : Processing) (c1 c2 : Customer) (s2 : Q) :
  Forall (fun d => 0 <= interArrival d /\ 0 <= serviceDraw d) draws ->
  processEvents cfg (generateArrivals cfg draws) = Completed p ->
  In c1 (population p) -> In c2 (population p) ->
  serviceType c1 = serviceType c2 ->
  Forall no_near_tie (line_processed p (serviceType c2)) ->
  type c1 = RESERVED \/ type c2 = WALK_IN ->
  arrivalTime c1 < arrivalTime c2 ->
  serviceStartTime c2 = Some s2 ->
  exists s1, serviceStartTime c1 = Some s1 /\ s1 <= s2.
Proof.
  intros Hd Hp H1 H2 Hl Hsep Hty Hlt Hs2.
  destruct (processEvents_line_view cfg _ p (serviceType c2)
              (generateArrivals_NoDup cfg draws) Hp)
    as [init [st [Hsim [Hnd [_ [Hcreated [Hview _]]]]]]].
  apply In_nth_error in H1. destruct H1 as [r1 Hr1].
  apply In_nth_error in H2. destruct H2 as [r2 Hr2].
  destruct (Hview r1 c1 Hr1 Hl) as [Hst1 Hq1].
  destruct (Hview r2 c2 Hr2 eq_refl) as [Hst2 Hq2].
  assert (Hline : forall c0, In c0 init -> serviceType c0 = serviceType c2 ->
                    fresh c0 /\ 0 <= serviceTime c0 /\
                    forall f, In f (repeat 0 (Z.to_nat (line_count cfg (serviceType c2)))) ->
                              f <= arrivalTime c0).
  { intros c0 H0 L0.
    destruct (generateArrivals_facts cfg draws c0 Hd (Hcreated c0 H0 L0)) as [F [D A]].
    split; [exact F|]. split; [exact D|]. intros f Hf. apply repeat_spec in Hf.
    subst f. exact A. }
  destruct (simulateQueue_line_fair init _ _ st _ Hnd Hline Hsim Hsep)
    as [Hfair [Hstat Hall]].
  destruct (arrival_of_static _ _ r1 c1 Hstat Hst1) as [Ea1 Et1].
  destruct (arrival_of_static _ _ r2 c2 Hstat Hst2) as [Ea2 Et2].
  assert (Hk : keeps_place init r1 r2).
  { unfold keeps_place. rewrite Et1, Et2.
    destruct Hty as [-> | ->]; [left|right]; reflexivity. }
  assert (Hstart2 : started_at (store st) r2 s2) by (exists c2; auto).
  destruct (Hall r1 Hq1) as [Hw|[s1 Hstart1]].
  - exfalso. pose proof (fr_waiting _ _ _ Hfair r1 r2 s2 Hw Hq2 Hstart2 Hk) as K.
    rewrite Ea1, Ea2 in K. lra.
  - exists s1. split.
    + destruct Hstart1 as [c [Hc Hs]]. congruence.
    + apply (fr_order _ _ _ Hfair r1 r2 s1 s2 Hq1 Hq2 Hstart1 Hstart2 Hk).
      rewrite Ea1, Ea2. exact Hlt.
Qed.

(** ** A service starts on arrival or when the teller is handed over *)

Section Handover.

Variables (init : list Customer) (qc : list nat).

Hypothesis qc_fresh : forall r c, In r qc -> nth_error init r = Some c -> fresh c.

Lemma handed_over_kept (population : list Customer) (ref i j r : nat) (c : Customer)
      (t u : Q) :
  nth_error population ref = Some c -> tellerId c = None ->
  handed_over_by qc population j u r ->
  r <> ref /\
  handed_over_by qc (array_set ref (assign_fields c i t) population) j u r.
Proof.
  intros Hc Hn [c' [Hr [Hc' [Ht He]]]].
  assert (Hne : r <> ref) by (intro; subst r; congruence).
  split; [exact Hne|]. exists c'. split; [exact Hr|].
  split; [|auto]. rewrite nth_error_array_set_neq; [exact Hc'|]. congruence.
Qed.

Lemma relayed_assign (st : QueueState) (rest : list QueueEvent) (ev : QueueEvent)
      (ref i : nat) (c : Customer) (buffer' : list nat) :
  relayed qc st ->
  (forall e, In e rest -> In e (pq st)) ->
  In ref qc -> nth_error (store st) ref = Some c -> nth_error init ref = Some c ->
  (time ev = arrivalTime c \/ exists r, handed_over_by qc (store st) i (time ev) r) ->
  relayed qc {| store := array_set ref (assign_fields c i (time ev)) (store st);
                pq := rest ++ [mkQueueEvent (time ev + serviceTime c) (TELLER_FREE i)];
                waitingBuffer := buffer';
                tellersFreeAt := array_set i (time ev + serviceTime c) (tellersFreeAt st) |}.
Proof.
  intros [Hpend Hstart] Hin Hq Hc Hc0 Hev.
  destruct (qc_fresh ref c Hq Hc0) as [_ [_ Hn]].
  assert (Hlt : (ref < length (store st))%nat) by (apply nth_error_Some; congruence).
  constructor; simpl.
  - intros e j He Hj. apply in_app_or in He. destruct He as [He|[<-|[]]].
    + destruct (Hpend e j (Hin e He) Hj) as [r Hr]. exists r.
      apply (handed_over_kept _ _ _ _ _ _ _ _ Hc Hn Hr).
    + simpl in Hj. inversion Hj. subst j. simpl.
      exists ref, (assign_fields c i (time ev)). split; [exact Hq|].
      split; [apply nth_error_array_set_eq, Hlt|]. split; reflexivity.
  - intros r c' s j Hr Hc' Hs Hj.
    destruct (nth_error_array_set_cases _ _ _ _ _ Hc') as [[-> ->]|[Hne Hc'']].
    + simpl in Hs, Hj. inversion Hs. inversion Hj. subst s j. simpl.
      destruct Hev as [Hev|[r' Hev]]; [left; exact Hev|].
      right. exists r'. apply (handed_over_kept _ _ _ _ _ _ _ _ Hc Hn Hev).
    + destruct (Hstart r c' s j Hr Hc'' Hs Hj) as [K|[r' [Hne' K]]]; [left; exact K|].
      right. exists r'. split; [exact Hne'|].
      apply (handed_over_kept _ _ _ _ _ _ _ _ Hc Hn K).
Qed.

Lemma relayed_step (st st1 : QueueState) (ev : QueueEvent) (rest : list QueueEvent)
      (a : option (nat * nat)) :
  tracked init qc st -> relayed qc st ->
  js_sort compareEvents (pq st) = ev :: rest ->
  step_spec qc ev (with_pq st rest) st1 a ->
  relayed qc st1.
Proof.
  intros Htk Hrel Hsort Hstep.
  assert (Hin : forall e, In e rest -> In e (pq st)).
  { intros e He. apply (sorted_queue_In _ _ _ e Hsort). right. exact He. }
  assert (Hev : In ev (pq st)).
  { apply (sorted_queue_In _ _ _ ev Hsort). left. reflexivity. }
  assert (Hstat : Forall2 same_static (store st) init) by apply Htk.
  destruct Htk as [Hwf Harr Hnd Hun].
  inversion Hstep; subst; simpl in *.
  - (* arrival, assigned *)
    destruct (Harr ev customerId Hev H) as [r0 [c0 [Ef0 [Ec0 Etime]]]].
    rewrite (find_customer_static _ _ _ _ Hstat) in H0.
    assert (ref = r0) by congruence. subst r0.
    assert (Hav : In ref (avail init qc st)).
    { apply in_or_app. left. eapply pending_refs_intro; eauto. }
    destruct (Hun ref Hav) as [Hq Hsame].
    assert (c = c0) by congruence. subst c0.
    apply relayed_assign; auto.
  - (* arrival, waiting *)
    destruct Hrel as [Hpend Hstart]. constructor; simpl; [|exact Hstart].
    intros e j He Hj. apply (Hpend e j (Hin e He) Hj).
  - (* teller free, nobody waiting *)
    destruct Hrel as [Hpend Hstart]. constructor; simpl; [|exact Hstart].
    intros e j He Hj. apply (Hpend e j (Hin e He) Hj).
  - (* teller free, next customer assigned *)
    destruct (popNextCustomer_spec _ _ _ _ H0) as [l1 [l2 [E _]]].
    assert (Hbuf : In ref (waitingBuffer st)) by (rewrite E; apply in_elt).
    assert (Hav : In ref (avail init qc st)) by (apply in_or_app; right; exact Hbuf).
    destruct (Hun ref Hav) as [Hq Hsame].
    assert (Ec0 : nth_error init ref = Some c) by congruence.
    apply relayed_assign; auto.
    right. apply (rl_pending _ _ Hrel ev i Hev H).
Qed.

Lemma runs_relayed (st st' : QueueState) (tr : list Processed) :
  runs qc st tr st' -> tracked init qc st -> relayed qc st -> relayed qc st'.
Proof.
  intro H. induction H as [st Hpq|st ev rest st1 a tr st2 Hs Hstep Hruns IH];
    intros Htk Hrel; [exact Hrel|].
  apply IH.
  - apply (proj1 (tracked_step _ _ _ _ _ _ _ Htk Hs Hstep)).
  - apply (relayed_step st st1 ev rest a Htk Hrel Hs Hstep).
Qed.

End Handover.

Lemma initial_state_relayed (init : list Customer) (qc : list nat) (tellers : list Q) :
  (forall r c, In r qc -> nth_error init r = Some c -> fresh c) ->
  relayed qc (initial_state init qc tellers).
Proof.
  intro Hfresh. constructor; simpl.
  - intros e i He Hi. apply (initial_queue_arrivals init qc tellers) in He.
    destruct He as [r [c [_ [_ ->]]]]. discriminate.
  - intros r c s i Hr Hc Hs. destruct (Hfresh r c Hr Hc) as [K _]. congruence.
Qed.

(** X9.  Whatever the draws, a service starts either at the arrival of
    its customer or at the moment the same teller of the same line ends the
    service of another customer. *)
Theorem service_starts_on_arrival_or_handover (cfg : SimulationConfig) (draws : list Draw)
        (result : SimulationResult) (c : Customer) (start : Q) (i : nat) :
  run cfg draws = Completed result ->
  In c (customers result) ->
  serviceStartTime c = Some start -> tellerId c = Some i ->
  start = arrivalTime c \/
  exists c', In c' (customers result) /\ id c' <> id c /\
             serviceType c' = serviceType c /\
             tellerId c' = Some i /\ serviceEndTime c' = Some start.
Proof.
  intros Hrun Hc Hs Hi. destruct (run_inv _ _ _ Hrun) as [p [Hp [Hcs _]]].
  rewrite Hcs in *. apply In_nth_error in Hc. destruct Hc as [r Hr].
  destruct (processEvents_line_view cfg _ p (serviceType c)
              (generateArrivals_NoDup cfg draws) Hp)
    as [init [st [Hsim [Hnd [_ [Hcreated [Hview [_ Hback]]]]]]]].
  destruct (Hview r c Hr eq_refl) as [Hst Hq].
  destruct (simulateQueue_line init _ _ st _ Hnd Hsim) as [Hruns [Htk _]].
  assert (Hfresh : forall r0 c0, In r0 (line_customers (serviceType c) init) ->
                                 nth_error init r0 = Some c0 -> fresh c0).
  { apply line_hypotheses. intros c0 H0 L0.
    pose proof (generateArrivals_fresh cfg draws) as F. rewrite Forall_forall in F.
    apply F. apply (Hcreated c0 H0 L0). }
  pose proof (runs_relayed init _ Hfresh _ st _ Hruns
                (initial_state_tracked init _ _ Hnd (line_customers_NoDup _ init))
                (initial_state_relayed init _ _ Hfresh)) as Hrel.
  destruct (rl_started _ _ Hrel r c start i Hq Hst Hs Hi)
    as [K|[r' [Hne [c' [Hq' [Hc' [Ht He]]]]]]]; [left; exact K|].
  right. exists c'.
  pose proof (wf_store _ _ _ (tk_wf _ _ _ Htk)) as Hstat.
  destruct (Forall2_nth_error_l _ _ _ _ _ Hstat Hc') as [c1 [Ec1 [Hid1 [_ [Hl1 _]]]]].
  destruct (Forall2_nth_error_l _ _ _ _ _ Hstat Hst) as [c0 [Ec0 [Hid0 _]]].
  split; [|split; [|split; [|auto]]].
  - rewrite <- (Hback r' Hq') in Hc'. eapply nth_error_In, Hc'.
  - rewrite Hid1, Hid0. intro K. apply Hne.
    apply (unique_id_ref init r' r c1 c0 Hnd Ec1 Ec0 K).
  - apply line_customers_In in Hq'. destruct Hq' as [c2 [Ec2 Hl2]]. congruence.
Qed.

(** ** Nobody waits for an idle teller *)

Section Conserving.

Variables (init : list Customer) (qc : list nat).

Hypothesis qc_fresh : forall r c, In r qc -> nth_error init r = Some c -> fresh c.
Hypothesis qc_durations : forall r c, In r qc -> nth_error init r = Some c ->
                                      0 <= serviceTime c.

Lemma serving_kept (population : list Customer) (ref i j : nat) (c : Customer) (t s e : Q) :
  nth_error population ref = Some c -> tellerId c = None ->
  serving qc population j s e ->
  serving qc (array_set ref (assign_fields c i t) population) j s e.
Proof.
  intros Hc Hn [r [c' [Hr [Hc' [Ht [Hs He]]]]]]. exists r, c'. split; [exact Hr|].
  split; [|auto]. rewrite nth_error_array_set_neq; [exact Hc'|]. intro. subst r. congruence.
Qed.

Lemma busy_at_kept (population : list Customer) (ref i j : nat) (c : Customer) (t u : Q) :
  nth_error population ref = Some c -> tellerId c = None ->
  busy_at qc population j u ->
  busy_at qc (array_set ref (assign_fields c i t) population) j u.
Proof.
  intros Hc Hn [s [e [H [H1 H2]]]]. exists s, e. split; [|auto].
  apply serving_kept; assumption.
Qed.

Lemma serving_assigned (population : list Customer) (ref i : nat) (c : Customer) (t : Q) :
  In ref qc -> nth_error population ref = Some c ->
  serving qc (array_set ref (assign_fields c i t) population) i t (t + serviceTime c).
Proof.
  intros Hq Hc. exists ref, (assign_fields c i t). split; [exact Hq|].
  split; [|repeat split]. apply nth_error_array_set_eq. apply nth_error_Some. congruence.
Qed.

Lemma conserving_step (st st1 : QueueState) (ev : QueueEvent) (rest : list QueueEvent)
      (a : option (nat * nat)) :
  ordered init qc st -> staffed st -> fair init qc st /\ conserving init qc st ->
  js_sort compareEvents (pq st) = ev :: rest ->
  (forall e, In e rest -> precedes ev e) ->
  step_spec qc ev (with_pq st rest) st1 a ->
  fair init qc st1 /\ conserving init qc st1.
Proof.
  intros Hord Hsf [Hfair [Hpend Hwaitc Hserved]] Hsort Hprec Hstep.
  split; [apply (fair_step init qc qc_durations st st1 ev rest a); assumption|].
  pose proof Hord as [Htk Hone Hfree Hso].
  assert (Hmin : forall e, In e rest -> time ev <= time e).
  { intros e He. destruct (Hprec e He) as [K|[K _]]; lra. }
  assert (Hin : forall e, In e rest -> In e (pq st)).
  { intros e He. apply (sorted_queue_In _ _ _ e Hsort). right. exact He. }
  assert (Hev : In ev (pq st)).
  { apply (sorted_queue_In _ _ _ ev Hsort). left. reflexivity. }
  assert (Hstat : Forall2 same_static (store st) init) by apply Htk.
  destruct Htk as [Hwf Harr Hnd Hun].
  inversion Hstep; subst; simpl in *.
  - (* arrival, assigned *)
    destruct (Harr ev customerId Hev H) as [r0 [c0 [Ef0 [Ec0 Etime]]]].
    rewrite (find_customer_static _ _ _ _ Hstat) in H0.
    assert (ref = r0) by congruence. subst r0.
    assert (Hav : In ref (avail init qc st)).
    { apply in_or_app. left. eapply pending_refs_intro; eauto. }
    destruct (Hun ref Hav) as [Hq Hsame].
    assert (c = c0) by congruence. subst c0.
    destruct (qc_fresh ref c Hq Ec0) as [_ [_ Hn]].
    assert (Earr : arrival_of init ref = time ev).
    { unfold arrival_of. rewrite Ec0. symmetry. exact Etime. }
    assert (Hempty : waitingBuffer st = []).
    { destruct (waitingBuffer st) as [|w l] eqn:Ew; [reflexivity|]. exfalso.
      destruct (findFreeTeller_Some _ _ _ H1) as [f [Hf [Hft _]]].
      assert (Hi : In i (free_indices (pq st))).
      { apply (sf_waiting _ Hsf); [rewrite Ew; discriminate|].
        apply nth_error_Some. congruence. }
      apply free_indices_In in Hi. destruct Hi as [e [He Hei]].
      pose proof (Hfree e i He Hei) as Hfe. rewrite Hf in Hfe. inversion Hfe. subst f.
      apply (sorted_queue_In _ _ _ e Hsort) in He. destruct He as [->|He]; [congruence|].
      destruct (Hprec e He) as [K|[_ [K|K]]].
      - lra.
      - unfold is_teller_free in K. rewrite H in K. discriminate.
      - unfold is_teller_free in K. rewrite Hei in K. discriminate. }
    rewrite Hempty in *.
    constructor; simpl.
    + intros e j He Hj. apply in_app_or in He. destruct He as [He|[<-|[]]].
      * destruct (Hpend e j (Hin e He) Hj) as [s Hs]. exists s.
        apply serving_kept; assumption.
      * simpl in Hj. inversion Hj. subst j. exists (time ev). simpl.
        apply serving_assigned; assumption.
    + intros r j f t [].
    + intros r s j t Hr Hs Hj Ha Hlt. rewrite array_set_length in Hj.
      destruct (started_at_set _ _ _ _ _ _ _ Hs) as [[-> ->]|[Hne Hs']].
      * rewrite Earr in Ha. lra.
      * apply busy_at_kept; [assumption | assumption|].
        apply (Hserved r s j t); assumption.
  - (* arrival, waiting *)
    destruct (Harr ev customerId Hev H) as [r0 [c0 [Ef0 [Ec0 Etime]]]].
    rewrite (find_customer_static _ _ _ _ Hstat) in H0.
    assert (ref = r0) by congruence. subst r0.
    assert (Earr : arrival_of init ref = time ev).
    { unfold arrival_of. rewrite Ec0. symmetry. exact Etime. }
    constructor; simpl.
    + intros e j He Hj. apply (Hpend e j (Hin e He) Hj).
    + intros r j f t Hr Hf Ha Hlt. apply in_app_or in Hr.
      destruct Hr as [Hr|[<-|[]]]; [apply (Hwaitc r j f t); assumption|].
      rewrite Earr in Ha.
      destruct (sf_idle _ Hsf j f ev Hf Hev) as [K|K]; [|lra].
      apply free_indices_In in K. destruct K as [e [He Hej]].
      pose proof (Hfree e j He Hej) as Hfe. rewrite Hf in Hfe. inversion Hfe. subst f.
      destruct (Hpend e j He Hej) as [s Hs].
      exists s, (time e). split; [exact Hs|]. split; [|exact Hlt].
      destruct Hs as [r' [c' [Hr' [Hc' [_ [Hs' _]]]]]].
      assert (s <= time ev).
      { apply (fr_started _ _ _ Hfair r' s ev Hr'); [exists c'; auto | exact Hev]. }
      lra.
    + exact Hserved.
  - (* teller free, nobody waiting *)
    apply popNextCustomer_None in H0.
    constructor; simpl.
    + intros e j He Hj. apply (Hpend e j (Hin e He) Hj).
    + rewrite H0. intros r j f t [].
    + exact Hserved.
  - (* teller free, next customer assigned *)
    destruct (popNextCustomer_spec _ _ _ _ H0) as [l1 [l2 [E [E' _]]]].
    assert (Hbufin : In ref (waitingBuffer st)) by (rewrite E; apply in_elt).
    assert (Hav : In ref (avail init qc st)) by (apply in_or_app; right; exact Hbufin).
    destruct (Hun ref Hav) as [Hq Hsame].
    assert (Ec0 : nth_error init ref = Some c) by congruence.
    destruct (qc_fresh ref c Hq Ec0) as [_ [_ Hn]].
    pose proof (qc_durations ref c Hq Ec0) as Hd.
    assert (Hsub : forall r, In r buffer' -> In r (waitingBuffer st)).
    { subst buffer'. rewrite E. intros r Hr. apply in_app_or in Hr.
      apply in_or_app. simpl. tauto. }
    assert (Hne0 : waitingBuffer st <> []).
    { intro K. rewrite K in Hbufin. destruct Hbufin. }
    pose proof (Hfree ev i Hev H) as Hfi.
    assert (Hlater : forall j f, nth_error (tellersFreeAt st) j = Some f -> time ev <= f).
    { intros j f Hf.
      assert (Hj : In j (free_indices (pq st))).
      { apply (sf_waiting _ Hsf Hne0). apply nth_error_Some. congruence. }
      apply free_indices_In in Hj. destruct Hj as [e [He Hej]].
      pose proof (Hfree e j He Hej) as Hfe. rewrite Hf in Hfe. inversion Hfe. subst f.
      apply (sorted_queue_In _ _ _ e Hsort) in He. destruct He as [->|He];
        [apply Qle_refl | apply Hmin, He]. }
    constructor; simpl.
    + intros e j He Hj. apply in_app_or in He. destruct He as [He|[<-|[]]].
      * destruct (Hpend e j (Hin e He) Hj) as [s Hs]. exists s.
        apply serving_kept; assumption.
      * simpl in Hj. inversion Hj. subst j. exists (time ev). simpl.
        apply serving_assigned; assumption.
    + intros r j f t Hr Hf Ha Hlt.
      destruct (nth_error_array_set_cases _ _ _ _ _ Hf) as [[-> ->]|[Hne Hf']].
      * destruct (Qlt_le_dec t (time ev)) as [K|K].
        -- apply busy_at_kept; [assumption | assumption|].
           apply (Hwaitc r i (time ev) t (Hsub r Hr) Hfi Ha K).
        -- exists (time ev), (time ev + serviceTime c).
           split; [apply serving_assigned; assumption | auto].
      * apply busy_at_kept; [assumption | assumption|].
        apply (Hwaitc r j f t (Hsub r Hr) Hf' Ha Hlt).
    + intros r s j t Hr Hs Hj Ha Hlt. rewrite array_set_length in Hj.
      apply busy_at_kept; [assumption | assumption|].
      destruct (started_at_set _ _ _ _ _ _ _ Hs) as [[-> ->]|[Hne Hs']].
      * apply nth_error_Some in Hj.
        destruct (nth_error (tellersFreeAt st) j) as [f|] eqn:Ef; [|congruence].
        apply (Hwaitc ref j f t Hbufin Ef Ha).
        pose proof (Hlater j f Ef). lra.
      * apply (Hserved r s j t); assumption.
Qed.

End Conserving.

Lemma initial_state_conserving (init : list Customer) (qc : list nat) (tellers : list Q) :
  (forall r c, In r qc -> nth_error init r = Some c -> fresh c) ->
  conserving init qc (initial_state init qc tellers).
Proof.
  intro Hfresh. constructor; simpl.
  - intros e i He Hi. apply (initial_queue_arrivals init qc tellers) in He.
    destruct He as [r [c [_ [_ ->]]]]. discriminate.
  - intros r i f t [].
  - intros r s i t Hr [c [Hc Hs]]. destruct (Hfresh r c Hr Hc) as [K _]. congruence.
Qed.

(** X28.  Nobody waits for an idle teller.  When no gap and no service
    duration is negative and no near tie occurred in the loop of a line: at
    every moment from the arrival of a served customer until the start of
    its service, every teller of its line is busy serving somebody. *)
Theorem nobody_waits_for_an_idle_teller (cfg : SimulationConfig) (draws : list Draw)
        (p : Processing) (c : Customer) (start : Q) (i : nat) (t : Q) :
  Forall (fun d => 0 <= interArrival d /\ 0 <= serviceDraw d) draws ->
  processEvents cfg (generateArrivals cfg draws) = Completed p ->
  In c (population p) ->
  Forall no_near_tie (line_processed p (serviceType c)) ->
  serviceStartTime c = Some start ->
  (Z.of_nat i < line_count cfg (serviceType c))%Z ->
  arrivalTime c <= t -> t < start ->
  exists c' s e, In c' (population p) /\ serviceType c' = serviceType c /\
                 tellerId c' = Some i /\
                 serviceStartTime c' = Some s /\ serviceEndTime c' = Some e /\
                 s <= t /\ t < e.
Proof.
  intros Hd Hp Hc Hsep Hs Hi Ha Hlt.
  destruct (processEvents_line_view cfg _ p (serviceType c)
              (generateArrivals_NoDup cfg draws) Hp)
    as [init [st [Hsim [Hnd [_ [Hcreated [Hview [_ Hback]]]]]]]].
  apply In_nth_error in Hc. destruct Hc as [r Hr].
  destruct (Hview r c Hr eq_refl) as [Hst Hq].
  assert (Hline : forall c0, In c0 init -> serviceType c0 = serviceType c ->
                    fresh c0 /\ 0 <= serviceTime c0 /\
                    forall f, In f (repeat 0 (Z.to_nat (line_count cfg (serviceType c)))) ->
                              f <= arrivalTime c0).
  { intros c0 H0 L0.
    destruct (generateArrivals_facts cfg draws c0 Hd (Hcreated c0 H0 L0)) as [F [D A]].
    split; [exact F|]. split; [exact D|]. intros f Hf. apply repeat_spec in Hf.
    subst f. exact A. }
  pose proof (line_hypotheses init (serviceType c) _ Hline) as Hlq.
  destruct (simulateQueue_line init _ _ st _ Hnd Hsim) as [Hruns [Htk _]].
  assert (Hfresh : forall r0 c0, In r0 (line_customers (serviceType c) init) ->
                                 nth_error init r0 = Some c0 -> fresh c0).
  { intros r0 c0 Hr0 Hc0. apply (Hlq r0 c0 Hr0 Hc0). }
  assert (Hdur : forall r0 c0, In r0 (line_customers (serviceType c) init) ->
                               nth_error init r0 = Some c0 -> 0 <= serviceTime c0).
  { intros r0 c0 Hr0 Hc0. apply (Hlq r0 c0 Hr0 Hc0). }
  assert (Hord : ordered init (line_customers (serviceType c) init)
                         (initial_state init (line_customers (serviceType c) init)
                                        (repeat 0 (Z.to_nat (line_count cfg (serviceType c)))))).
  { apply initial_state_ordered; [exact Hnd | apply line_customers_NoDup | exact Hfresh]. }
  destruct (runs_invariant init _ Hfresh Hdur
              (fun s => fair init (line_customers (serviceType c) init) s /\
                        conserving init (line_customers (serviceType c) init) s)
              (conserving_step init _ Hfresh Hdur)
              _ st _ Hruns Hord) as [_ [_ [_ Hcons]]]; [| |exact Hsep|].
  { apply initial_state_staffed. intros f r0 c0 Hf Hr0 Hc0.
    apply (proj2 (proj2 (Hlq r0 c0 Hr0 Hc0))). exact Hf. }
  { split; [apply initial_state_fair | apply initial_state_conserving]; exact Hfresh. }
  pose proof (wf_store _ _ _ (tk_wf _ _ _ Htk)) as Hstat.
  destruct (arrival_of_static _ _ r c Hstat Hst) as [Earr _].
  destruct (runs_wf init _ _ st _ Hruns (initial_state_wf _ _ _)) as [_ [_ Hlen]].
  simpl in Hlen. rewrite repeat_length in Hlen.
  destruct (cs_served _ _ _ Hcons r start i t Hq) as [s [e [[r' [c' [Hq' [Hc' [Ht [Hs' He']]]]]] [H1 H2]]]].
  - exists c. auto.
  - rewrite Hlen. lia.
  - rewrite Earr. exact Ha.
  - exact Hlt.
  - exists c', s, e.
    destruct (Forall2_nth_error_l _ _ _ _ _ Hstat Hc') as [c1 [Ec1 [_ [_ [Hl1 _]]]]].
    assert (Hp' : nth_error (population p) r' = Some c')
      by (rewrite (Hback r' Hq'); exact Hc').
    split; [eapply nth_error_In, Hp'|].
    split; [|auto].
    apply line_customers_In in Hq'. destruct Hq' as [c2 [Ec2 Hl2]]. congruence.
Qed.
(** ** Times after the start of the clock *)

Lemma assign_ends_after_zero (c : Customer) (i : nat) (t : Q) :
  ends_after_zero c -> 0 <= t -> ends_after_zero (assign_fields c i t).
Proof.
  intros [Ha [Hd _]] Ht. split; [exact Ha|]. split; [exact Hd|].
  simpl. intros e He. inversion He. lra.
Qed.

Lemma after_zero_step (qc : list nat) (st st1 : QueueState) (ev : QueueEvent)
      (rest : list QueueEvent) (a : option (nat * nat)) :
  after_zero st ->
  js_sort compareEvents (pq st) = ev :: rest ->
  step_spec qc ev (with_pq st rest) st1 a ->
  after_zero st1.
Proof.
  intros [Hpq Hst] Hs Hstep.
  assert (Hev : 0 <= time ev).
  { apply Hpq. apply (sorted_queue_In _ _ _ ev Hs). left. reflexivity. }
  assert (Hrest : forall e, In e rest -> 0 <= time e).
  { intros e He. apply Hpq. apply (sorted_queue_In _ _ _ e Hs). right. exact He. }
  assert (Hassign : forall ref c i,
             nth_error (store st) ref = Some c ->
             after_zero
               {| store := array_set ref (assign_fields c i (time ev)) (store st);
                  pq := rest ++ [mkQueueEvent (time ev + serviceTime c) (TELLER_FREE i)];
                  waitingBuffer := waitingBuffer st1;
                  tellersFreeAt := tellersFreeAt st1 |}).
  { intros ref c i Hc.
    assert (Hok : ends_after_zero c).
    { rewrite Forall_forall in Hst. apply Hst. eapply nth_error_In, Hc. }
    split; simpl.
    - intros e He. apply in_app_or in He. destruct He as [He|[<-|[]]]; [apply Hrest, He|].
      simpl. destruct Hok as [_ [Hd _]]. lra.
    - apply Forall_array_set; [exact Hst | apply assign_ends_after_zero; assumption]. }
  inversion Hstep; subst; simpl in *.
  - destruct (Hassign ref c i H2) as [K1 K2]. split; assumption.
  - split; assumption.
  - split; assumption.
  - destruct (Hassign ref c i H1) as [K1 K2]. split; assumption.
Qed.

Lemma runs_after_zero (qc : list nat) (st st' : QueueState) (tr : list Processed) :
  runs qc st tr st' -> after_zero st -> after_zero st'.
Proof.
  intro H. induction H as [st Hpq|st ev rest st1 a tr st2 Hs Hstep Hruns IH]; intro Hz.
  - exact Hz.
  - apply IH. apply (after_zero_step qc st st1 ev rest a Hz Hs Hstep).
Qed.

Lemma initial_state_after_zero (store0 : list Customer) (qc : list nat) (tellers : list Q) :
  Forall ends_after_zero store0 -> after_zero (initial_state store0 qc tellers).
Proof.
  intro H. split; [|exact H].
  intros e He. apply initial_queue_arrivals in He. destruct He as [r [c [_ [Hc ->]]]].
  simpl. rewrite Forall_forall in H. apply (H c). eapply nth_error_In, Hc.
Qed.

Lemma simulateQueue_after_zero (store0 : list Customer) (qc : list nat) (tellers : list Q)
      (st : QueueState) (tr : list Processed) :
  simulateQueue store0 qc tellers = Finished st tr ->
  Forall ends_after_zero store0 -> Forall ends_after_zero (store st).
Proof.
  intros H H0. unfold simulateQueue in H. apply event_loop_runs in H.
  apply (runs_after_zero _ _ _ _ H (initial_state_after_zero _ _ _ H0)).
Qed.

Lemma generateArrivals_after_zero (cfg : SimulationConfig) (draws : list Draw)
      (t : Q) (k : nat) :
  0 <= t ->
  Forall (fun d => 0 <= interArrival d /\ 0 < serviceDraw d) draws ->
  Forall ends_after_zero (generateArrivals_from cfg t k draws).
Proof.
  revert t k. induction draws as [|d draws IH]; intros t k Ht Hd; simpl; [constructor|].
  inversion Hd as [|d' l' [Hg Hs] Hrest]. subst.
  destruct (Qltb t (durationMinutes cfg)); [|constructor].
  destruct (Qltb (durationMinutes cfg) (t + interArrival d)); [constructor|].
  constructor.
  - split; simpl; [lra|]. split; [exact Hs|]. intros e He. discriminate.
  - apply IH; [lra | exact Hrest].
Qed.

(** After a run on gaps that are not negative and positive service
    durations, every service that has an end ends after time 0. *)
Lemma run_ends_after_zero (cfg : SimulationConfig) (draws : list Draw)
      (result : SimulationResult) :
  run cfg draws = Completed result ->
  Forall (fun d => 0 <= interArrival d /\ 0 < serviceDraw d) draws ->
  Forall ends_after_zero (customers result).
Proof.
  intros Hrun Hd. destruct (run_inv _ _ _ Hrun) as [p [Hp [-> _]]].
  destruct (processEvents_inv _ _ _ Hp) as [st1 [st2 [_ [_ [S1 [S2 ->]]]]]].
  apply (simulateQueue_after_zero _ _ _ _ _ S2).
  apply (simulateQueue_after_zero _ _ _ _ _ S1).
  rewrite Forall_forall. intros c Hc. apply js_sort_In in Hc.
  pose proof (generateArrivals_after_zero cfg draws 0 1%nat (Qle_refl 0) Hd) as H.
  rewrite Forall_forall in H. apply H, Hc.
Qed.

(** ** The snapshot projector *)

Lemma in_queue_at_iff (line : ServiceType) (t : Q) (c : Customer) :
  in_queue_at line t c = true <-> waiting_in line t c.
Proof.
  split; [apply in_queue_at_waiting|].
  intros [Hl [Ha Hs]]. unfold in_queue_at. rewrite !andb_true_iff. repeat split.
  - rewrite Hl. destruct line; reflexivity.
  - apply Qle_bool_iff, Ha.
  - destruct Hs as [->|[s [-> Hs]]]; [reflexivity | apply Qltb_lt, Hs].
Qed.

Lemma insert_arrival_sorted (x : Customer) (l : list Customer) :
  StronglySorted arrives_before l ->
  StronglySorted arrives_before (insert_by compareArrival x l).
Proof.
  induction 1 as [|y l Hs IH Hf]; simpl; [repeat constructor|].
  rewrite Forall_forall in Hf. unfold compareArrival at 1.
  destruct (Qltb (arrivalTime x - arrivalTime y) 0) eqn:E.
  - apply Qltb_lt in E. constructor; [constructor; [exact Hs | apply Forall_forall, Hf]|].
    apply Forall_forall. intros z [<-|Hz]; unfold arrives_before in *; [lra|].
    specialize (Hf z Hz). lra.
  - apply Qltb_ge in E. constructor; [exact IH|].
    apply Forall_forall. intros z Hz.
    apply (Permutation_in _ (insert_by_perm compareArrival x l)) in Hz.
    destruct Hz as [<-|Hz]; [unfold arrives_before; lra | apply Hf, Hz].
Qed.

Lemma js_sort_arrival_sorted (l : list Customer) :
  StronglySorted arrives_before (js_sort compareArrival l).
Proof.
  unfold js_sort.
  assert (H : forall acc, StronglySorted arrives_before acc ->
                StronglySorted arrives_before
                  (fold_left (fun a x => insert_by compareArrival x a) l acc)).
  { induction l as [|x l IH]; intros acc Hacc; simpl; [exact Hacc|].
    apply IH, insert_arrival_sorted, Hacc. }
  apply H. constructor.
Qed.

Lemma getSnapshotAtTime_queues (result : SimulationResult) (t : Q) (s : Snapshot.t) :
  getSnapshotAtTime result t = Completed s ->
  Snapshot.customersInQueueHigh s
  = js_sort compareArrival (filter (in_queue_at HIGH_COUNTER t) (customers result)) /\
  Snapshot.customersInQueueLow s
  = js_sort compareArrival (filter (in_queue_at LOW_COUNTER t) (customers result)).
Proof.
  unfold getSnapshotAtTime. intro H.
  destruct (new_filled_array (count (highCounter (config result))) None); [discriminate|].
  destruct (new_filled_array (count (lowCounter (config result))) None); [discriminate|].
  inversion H. simpl. auto.
Qed.

Lemma waiting_line_spec (line : ServiceType) (t : Q) (cs : list Customer) :
  let queue := js_sort compareArrival (filter (in_queue_at line t) cs) in
  (forall c, In c cs -> waiting_in line t c -> In c queue) /\
  counts (waiting_in line t) cs (length queue) /\
  StronglySorted arrives_before queue.
Proof.
  simpl. split; [|split].
  - intros c Hc Hw. apply js_sort_In. apply filter_In. split; [exact Hc|].
    apply in_queue_at_iff, Hw.
  - rewrite js_sort_length. apply counts_filter. intro c. apply in_queue_at_iff.
  - apply js_sort_arrival_sorted.
Qed.

(** X10.  Each waiting line of a snapshot lists every customer of its line
    that has arrived by [t] and has not started by [t], as many times as the
    population holds it, in the order of arrival. *)
Theorem waiting_lines_are_complete_and_sorted (result : SimulationResult) (t : Q)
        (s : Snapshot.t) :
  getSnapshotAtTime result t = Completed s ->
  ((forall c, In c (customers result) -> waiting_in HIGH_COUNTER t c ->
              In c (Snapshot.customersInQueueHigh s)) /\
   counts (waiting_in HIGH_COUNTER t) (customers result)
          (length (Snapshot.customersInQueueHigh s)) /\
   StronglySorted arrives_before (Snapshot.customersInQueueHigh s)) /\
  ((forall c, In c (customers result) -> waiting_in LOW_COUNTER t c ->
              In c (Snapshot.customersInQueueLow s)) /\
   counts (waiting_in LOW_COUNTER t) (customers result)
          (length (Snapshot.customersInQueueLow s)) /\
   StronglySorted arrives_before (Snapshot.customersInQueueLow s)).
Proof.
  intro H. destruct (getSnapshotAtTime_queues _ _ _ H) as [-> ->].
  split; apply waiting_line_spec.
Qed.

Lemma filter_length_le_impl {A : Type} (p q : A -> bool) (l : list A) :
  (forall x, p x = true -> q x = true) ->
  (length (filter p l) <= length (filter q l))%nat.
Proof.
  intro H. induction l as [|x l IH]; simpl; [lia|].
  destruct (p x) eqn:E.
  - rewrite (H x E). simpl. lia.
  - destruct (q x); simpl; lia.
Qed.

(** X11.  The finished count of a snapshot never decreases as the time of
    the snapshot grows, and never exceeds the number of customers. *)
Theorem finishedCount_never_decreases (result : SimulationResult) (t1 t2 : Q)
        (s1 s2 : Snapshot.t) :
  getSnapshotAtTime result t1 = Completed s1 ->
  getSnapshotAtTime result t2 = Completed s2 ->
  t1 <= t2 ->
  (Snapshot.finishedCount s1 <= Snapshot.finishedCount s2)%nat /\
  (Snapshot.finishedCount s2 <= length (customers result))%nat.
Proof.
  intros H1 H2 Hle.
  rewrite (getSnapshotAtTime_finishedCount _ _ _ H1).
  rewrite (getSnapshotAtTime_finishedCount _ _ _ H2). split.
  - apply filter_length_le_impl. intros c. unfold finished_at.
    destruct (serviceEndTime c) as [e|]; [|discriminate].
    rewrite !Qle_bool_iff. intro. lra.
  - apply filter_length_le.
Qed.

(** *** Filling the teller arrays *)

Lemma place_customer_slots (t : Q) (arrs : list (option Customer) * list (option Customer))
      (c : Customer) (line : ServiceType) :
  line_slots line (place_customer t arrs c)
  = if at_teller_at t c && ServiceType_eqb (serviceType c) line
    then place_at_teller c (line_slots line arrs)
    else line_slots line arrs.
Proof.
  unfold place_customer. destruct (at_teller_at t c); [|reflexivity].
  destruct (serviceType c), line; reflexivity.
Qed.

Lemma ServiceType_eqb_eq (a b : ServiceType) : ServiceType_eqb a b = true <-> a = b.
Proof. destruct a, b; simpl; split; congruence. Qed.

Lemma fold_place_slots_length (t : Q) (cs : list Customer) (line : ServiceType)
      (arrs : list (option Customer) * list (option Customer)) :
  length (line_slots line (fold_left (place_customer t) cs arrs))
  = length (line_slots line arrs).
Proof.
  destruct (fold_place_length t cs arrs) as [H1 H2]. destruct line; assumption.
Qed.

Lemma fold_place_untouched (t : Q) (line : ServiceType) (i : nat) (cs : list Customer)
      (arrs : list (option Customer) * list (option Customer)) :
  (forall c, In c cs -> at_teller_at t c = true -> serviceType c = line ->
             tellerId c <> Some i) ->
  nth_error (line_slots line (fold_left (place_customer t) cs arrs)) i
  = nth_error (line_slots line arrs) i.
Proof.
  revert arrs. induction cs as [|c cs IH]; intros arrs H; simpl; [reflexivity|].
  rewrite IH; [|intros c' Hc'; apply H; right; exact Hc'].
  rewrite place_customer_slots.
  destruct (at_teller_at t c) eqn:Hat; [|reflexivity].
  destruct (ServiceType_eqb (serviceType c) line) eqn:Hl; [|reflexivity]. simpl.
  apply ServiceType_eqb_eq in Hl.
  pose proof (H c (or_introl eq_refl) Hat Hl) as Hne.
  unfold place_at_teller. destruct (tellerId c) as [j|]; [|reflexivity].
  destruct (Nat.ltb j (length (line_slots line arrs))); [|reflexivity].
  apply nth_error_array_set_neq. congruence.
Qed.

Lemma fold_place_shows (t : Q) (cs : list Customer)
      (arrs : list (option Customer) * list (option Customer)) (c : Customer) (i : nat) :
  ForallOrdPairs (fun c1 c2 => ~ clash t c1 c2) cs ->
  In c cs -> at_teller_at t c = true -> tellerId c = Some i ->
  (i < length (line_slots (serviceType c) arrs))%nat ->
  nth_error (line_slots (serviceType c) (fold_left (place_customer t) cs arrs)) i
  = Some (Some c).
Proof.
  intros Hpairs. revert arrs. induction Hpairs as [|c0 cs Hc0 Hcs IH];
    intros arrs Hin Hat Hi Hlt; [destruct Hin|].
  simpl. destruct Hin as [->|Hin].
  - rewrite fold_place_untouched.
    + rewrite place_customer_slots, Hat.
      replace (ServiceType_eqb (serviceType c) (serviceType c)) with true
        by (destruct (serviceType c); reflexivity).
      simpl. unfold place_at_teller. rewrite Hi.
      apply Nat.ltb_lt in Hlt. rewrite Hlt. apply Nat.ltb_lt in Hlt.
      apply nth_error_array_set_eq, Hlt.
    + intros c' Hc' Hat' Hl' Hi'. rewrite Forall_forall in Hc0.
      apply (Hc0 c' Hc'). repeat split; congruence.
  - apply IH; auto.
    destruct (place_customer_length t arrs c0) as [H1 H2].
    destruct (serviceType c); simpl in *; congruence.
Qed.

Lemma occupied_set (arr : list (option Customer)) (i : nat) (c : Customer) :
  nth_error arr i = Some None ->
  occupied (array_set i (Some c) arr) = S (occupied arr).
Proof.
  unfold occupied. revert i. induction arr as [|x arr IH]; intros i H.
  - destruct i; discriminate.
  - destruct i as [|i]; simpl in *.
    + inversion H. subst x. reflexivity.
    + specialize (IH i H). destruct x; simpl; rewrite IH; reflexivity.
Qed.

Lemma occupied_empty (n : nat) : occupied (repeat None n) = 0%nat.
Proof.
  unfold occupied. rewrite filter_none; [reflexivity|].
  intros x Hx. apply repeat_spec in Hx. subst x. reflexivity.
Qed.

Lemma fold_place_occupied (t : Q) (cs : list Customer)
      (arrs : list (option Customer) * list (option Customer)) :
  ForallOrdPairs (fun c1 c2 => ~ clash t c1 c2) cs ->
  (forall c, In c cs -> at_teller_at t c = true ->
     exists i, tellerId c = Some i /\
               nth_error (line_slots (serviceType c) arrs) i = Some None) ->
  (occupied (fst (fold_left (place_customer t) cs arrs))
   + occupied (snd (fold_left (place_customer t) cs arrs))
   = occupied (fst arrs) + occupied (snd arrs) + length (filter (at_teller_at t) cs))%nat.
Proof.
  intros Hpairs. revert arrs. induction Hpairs as [|c0 cs Hc0 Hcs IH]; intros arrs Hfree.
  - simpl. lia.
  - simpl. destruct (at_teller_at t c0) eqn:Hat.
    + destruct (Hfree c0 (or_introl eq_refl) Hat) as [i0 [Hi0 Hnone]].
      rewrite IH.
      * unfold place_customer. rewrite Hat. unfold place_at_teller. rewrite Hi0.
        assert (Hlt : (i0 < length (line_slots (serviceType c0) arrs))%nat).
        { apply nth_error_Some. congruence. }
        apply Nat.ltb_lt in Hlt.
        destruct (serviceType c0); simpl in *; rewrite Hlt, occupied_set by exact Hnone;
          lia.
      * intros c Hc Hatc.
        destruct (Hfree c (or_intror Hc) Hatc) as [i [Hi Hn]].
        exists i. split; [exact Hi|].
        rewrite place_customer_slots, Hat. simpl.
        destruct (ServiceType_eqb (serviceType c0) (serviceType c)) eqn:Hl; [|exact Hn].
        apply ServiceType_eqb_eq in Hl. unfold place_at_teller. rewrite Hi0.
        destruct (Nat.ltb i0 (length (line_slots (serviceType c) arrs))); [|exact Hn].
        rewrite nth_error_array_set_neq; [exact Hn|].
        intro. subst i0. rewrite Forall_forall in Hc0. apply (Hc0 c Hc).
        repeat split; congruence.
    + rewrite IH.
      * unfold place_customer. rewrite Hat. reflexivity.
      * intros c Hc Hatc. unfold place_customer. rewrite Hat.
        apply (Hfree c (or_intror Hc) Hatc).
Qed.

(** *** The customers of a result *)

Lemma ForallOrdPairs_nth {A : Type} (R : A -> A -> Prop) (l : list A) :
  (forall r1 r2 x1 x2, r1 <> r2 -> nth_error l r1 = Some x1 -> nth_error l r2 = Some x2 ->
                       R x1 x2) ->
  ForallOrdPairs R l.
Proof.
  induction l as [|x l IH]; intro H; constructor.
  - apply Forall_forall. intros y Hy. apply In_nth_error in Hy. destruct Hy as [r Hr].
    apply (H 0%nat (S r) x y); [discriminate | reflexivity | exact Hr].
  - apply IH. intros r1 r2 x1 x2 Hne H1 H2.
    apply (H (S r1) (S r2) x1 x2); [congruence | exact H1 | exact H2].
Qed.

(** What a customer of the result looks like when no service duration is
    negative and no near tie occurred: untouched, or served from a start
    time not before its arrival to the end time that follows, by a teller of
    its line. *)
Lemma processEvents_customer_times (cfg : SimulationConfig) (created : list Customer)
      (p : Processing) (c : Customer) :
  NoDup (map id created) -> Forall fresh created ->
  Forall (fun c => 0 <= serviceTime c) created ->
  processEvents cfg created = Completed p ->
  Forall no_near_tie (highProcessed p ++ lowProcessed p) ->
  In c (population p) ->
  (serviceStartTime c = None /\ serviceEndTime c = None /\ tellerId c = None) \/
  (exists s i, serviceStartTime c = Some s /\ serviceEndTime c = Some (s + serviceTime c) /\
               tellerId c = Some i /\
               (i < Z.to_nat (line_count cfg (serviceType c)))%nat /\
               arrivalTime c <= s /\ 0 <= serviceTime c).
Proof.
  intros Hids Hfresh Hdur Hp Hsep Hc.
  destruct (processEvents_customer cfg created p c Hids Hfresh Hp Hc)
    as [H|[c0 [i [t [H0 [E Hlt]]]]]].
  - left. rewrite Forall_forall in Hfresh. apply (Hfresh c H).
  - right. exists t, i.
    pose proof (processEvents_starts_after_arrival cfg created p Hids Hfresh Hp Hdur Hsep
                  c t Hc) as Ha.
    rewrite Forall_forall in Hdur. pose proof (Hdur c0 H0) as Hd.
    subst c. simpl in *. repeat split; auto. lia.
Qed.

Lemma processEvents_no_clash (cfg : SimulationConfig) (created : list Customer)
      (p : Processing) (t : Q) :
  NoDup (map id created) -> Forall fresh created ->
  Forall (fun c => 0 <= serviceTime c) created ->
  processEvents cfg created = Completed p ->
  Forall no_near_tie (highProcessed p ++ lowProcessed p) ->
  ForallOrdPairs (fun c1 c2 => ~ clash t c1 c2) (population p).
Proof.
  intros Hids Hfresh Hdur Hp Hsep. apply ForallOrdPairs_nth.
  intros r1 r2 c1 c2 Hne Hr1 Hr2 [Hat1 [Hat2 [Hl Hi]]].
  destruct (processEvents_line_view cfg created p (serviceType c1) Hids Hp)
    as [init [st [Hsim [Hnd [_ [Hcreated [Hview _]]]]]]].
  destruct (Hview r1 c1 Hr1 eq_refl) as [Hst1 Hq1].
  destruct (Hview r2 c2 Hr2 (eq_sym Hl)) as [Hst2 Hq2].
  assert (Hline : forall c0, In c0 init -> serviceType c0 = serviceType c1 ->
                             fresh c0 /\ 0 <= serviceTime c0).
  { intros c0 H0 L0. rewrite Forall_forall in Hfresh, Hdur.
    split; [apply Hfresh | apply Hdur]; apply (Hcreated c0 H0 L0). }
  assert (Hsep1 : Forall no_near_tie (line_processed p (serviceType c1))).
  { apply Forall_app in Hsep. destruct (serviceType c1); apply Hsep. }
  destruct (simulateQueue_line_ordered init _ _ st _ Hnd Hline Hsim Hsep1) as [Hord _].
  destruct (processEvents_customer_times cfg created p c1 Hids Hfresh Hdur Hp Hsep
              (nth_error_In _ _ Hr1))
    as [[S1 _]|[s1 [i1 [S1 [E1 [T1 _]]]]]].
  { unfold at_teller_at in Hat1. rewrite S1 in Hat1. discriminate. }
  destruct (processEvents_customer_times cfg created p c2 Hids Hfresh Hdur Hp Hsep
              (nth_error_In _ _ Hr2))
    as [[S2 _]|[s2 [i2 [S2 [E2 [T2 _]]]]]].
  { unfold at_teller_at in Hat2. rewrite S2 in Hat2. discriminate. }
  assert (i2 = i1) by congruence. subst i2.
  pose proof (so_disjoint _ _ _ _ _ (od_service _ _ _ Hord) r1 r2 c1 c2 i1 Hne Hq1 Hq2
                          Hst1 Hst2 T1 T2 s1 s2 S1 S2) as Hdis.
  unfold at_teller_at in Hat1, Hat2. rewrite S1, E1 in Hat1. rewrite S2, E2 in Hat2.
  apply andb_true_iff in Hat1, Hat2. destruct Hat1 as [A1 B1]. destruct Hat2 as [A2 B2].
  apply Qle_bool_iff in A1, A2. apply Qltb_lt in B1, B2. lra.
Qed.

Ltac decide_comparisons :=
  repeat match goal with
         | H : Qle_bool _ _ = true |- _ => apply Qle_bool_iff in H
         | H : Qle_bool _ _ = false |- _ => apply Qle_bool_false in H
         | H : Qltb _ _ = true |- _ => apply Qltb_lt in H
         | H : Qltb _ _ = false |- _ => apply Qltb_ge in H
         end.

(** A customer that is untouched, or served from a start not before its
    arrival for a duration that is not negative, is at every time in exactly
    one place if it has arrived (waiting in its line, at a teller, or
    finished) and nowhere if it has not. *)
Lemma one_place_at_a_time (t : Q) (c : Customer) :
  (serviceStartTime c = None /\ serviceEndTime c = None) \/
  (exists s, serviceStartTime c = Some s /\ serviceEndTime c = Some (s + serviceTime c) /\
             arrivalTime c <= s /\ 0 <= serviceTime c) ->
  (Nat.b2n (in_queue_at HIGH_COUNTER t c) + Nat.b2n (in_queue_at LOW_COUNTER t c)
   + Nat.b2n (at_teller_at t c) + Nat.b2n (finished_at t c)
   = Nat.b2n (arrived_byb t c))%nat.
Proof.
  unfold in_queue_at, at_teller_at, finished_at, arrived_byb.
  intros [[-> ->]|[s [-> [-> [Ha Hd]]]]].
  - destruct (serviceType c), (Qle_bool (arrivalTime c) t); reflexivity.
  - destruct (Qle_bool (arrivalTime c) t) eqn:E1, (Qltb t s) eqn:E2,
             (Qle_bool s t) eqn:E3, (Qltb t (s + serviceTime c)) eqn:E4,
             (Qle_bool (s + serviceTime c) t) eqn:E5;
      destruct (serviceType c); simpl; try reflexivity;
        exfalso; decide_comparisons; lra.
Qed.

Lemma places_add_up (t : Q) (cs : list Customer) :
  Forall (fun c =>
    (serviceStartTime c = None /\ serviceEndTime c = None) \/
    (exists s, serviceStartTime c = Some s /\ serviceEndTime c = Some (s + serviceTime c) /\
               arrivalTime c <= s /\ 0 <= serviceTime c)) cs ->
  (length (filter (in_queue_at HIGH_COUNTER t) cs)
   + length (filter (in_queue_at LOW_COUNTER t) cs)
   + length (filter (at_teller_at t) cs) + length (filter (finished_at t) cs)
   = length (filter (arrived_byb t) cs))%nat.
Proof.
  induction 1 as [|c cs Hc Hcs IH]; simpl; [reflexivity|].
  pose proof (one_place_at_a_time t c Hc) as H1.
  destruct (in_queue_at HIGH_COUNTER t c), (in_queue_at LOW_COUNTER t c),
           (at_teller_at t c), (finished_at t c), (arrived_byb t c);
    simpl in *; lia.
Qed.

Section SnapshotOfARun.

Variables (cfg : SimulationConfig) (draws : list Draw) (result : SimulationResult)
          (p : Processing).

Hypothesis ran : run cfg draws = Completed result.
Hypothesis processed : processEvents cfg (generateArrivals cfg draws) = Completed p.
Hypothesis durations : Forall (fun d => 0 <= serviceDraw d) draws.
Hypothesis no_ties : Forall no_near_tie (highProcessed p ++ lowProcessed p).

Lemma run_customers : customers result = population p /\ config result = cfg.
Proof.
  destruct (run_inv _ _ _ ran) as [p' [Hp' [Hcs Hcfg]]].
  assert (p' = p) by congruence. subst p'. auto.
Qed.

Lemma run_customer_times (c : Customer) :
  In c (customers result) ->
  (serviceStartTime c = None /\ serviceEndTime c = None /\ tellerId c = None) \/
  (exists s i, serviceStartTime c = Some s /\ serviceEndTime c = Some (s + serviceTime c) /\
               tellerId c = Some i /\
               (i < Z.to_nat (line_count cfg (serviceType c)))%nat /\
               arrivalTime c <= s /\ 0 <= serviceTime c).
Proof.
  destruct run_customers as [-> _].
  apply (processEvents_customer_times cfg _ p c (generateArrivals_NoDup cfg draws)
           (generateArrivals_fresh cfg draws)
           (generateArrivals_durations cfg draws 0 1%nat durations) processed no_ties).
Qed.

Lemma run_no_clash (t : Q) : ForallOrdPairs (fun c1 c2 => ~ clash t c1 c2) (customers result).
Proof.
  destruct run_customers as [-> _].
  apply (processEvents_no_clash cfg _ p t (generateArrivals_NoDup cfg draws)
           (generateArrivals_fresh cfg draws)
           (generateArrivals_durations cfg draws 0 1%nat durations) processed no_ties).
Qed.

Lemma run_snapshot (t : Q) (s : Snapshot.t) :
  getSnapshotAtTime result t = Completed s ->
  forall line,
    snapshot_slots s line
    = line_slots line
        (fold_left (place_customer t) (customers result)
                   (repeat None (Z.to_nat (line_count cfg HIGH_COUNTER)),
                    repeat None (Z.to_nat (line_count cfg LOW_COUNTER)))).
Proof.
  intros Hs line. destruct run_customers as [_ Hcfg].
  destruct (processEvents_counts _ _ _ processed) as [Hc1 Hc2].
  rewrite getSnapshotAtTime_eq in Hs by (rewrite Hcfg; assumption).
  inversion Hs. unfold snapshot_slots. simpl. rewrite Hcfg. reflexivity.
Qed.

Lemma run_slot_free (line : ServiceType) (i : nat) :
  (i < Z.to_nat (line_count cfg line))%nat ->
  nth_error (line_slots line (repeat (@None Customer) (Z.to_nat (line_count cfg HIGH_COUNTER)),
                              repeat (@None Customer) (Z.to_nat (line_count cfg LOW_COUNTER))))
            i = Some None.
Proof.
  intro H. destruct line; simpl in *; apply nth_error_repeat; exact H.
Qed.

End SnapshotOfARun.

(** X12.  In the snapshots of a result of [run], when no service duration
    is negative and no near tie occurred: a customer whose service has
    started by [t] and ends after [t] has a teller, and the teller array of
    its line holds this customer at the index of that teller. *)
Theorem customer_in_service_is_shown
        (cfg : SimulationConfig) (draws : list Draw) (result : SimulationResult)
        (p : Processing) (t : Q) (s : Snapshot.t) (c : Customer) (start : Q) :
  run cfg draws = Completed result ->
  processEvents cfg (generateArrivals cfg draws) = Completed p ->
  Forall (fun d => 0 <= serviceDraw d) draws ->
  Forall no_near_tie (highProcessed p ++ lowProcessed p) ->
  getSnapshotAtTime result t = Completed s ->
  In c (customers result) ->
  serviceStartTime c = Some start -> start <= t -> t < start + serviceTime c ->
  exists i, tellerId c = Some i /\
            nth_error (snapshot_slots s (serviceType c)) i = Some (Some c).
Proof.
  intros Hrun Hp Hdur Hsep Hs Hc Hstart H1 H2.
  destruct (run_customer_times cfg draws result p Hrun Hp Hdur Hsep c Hc)
    as [[S0 _]|[s0 [i [S0 [E0 [T0 [Hi _]]]]]]]; [congruence|].
  assert (s0 = start) by congruence. subst s0.
  exists i. split; [exact T0|].
  rewrite (run_snapshot cfg draws result p Hrun Hp t s Hs).
  apply fold_place_shows; [apply (run_no_clash cfg draws result p Hrun Hp Hdur Hsep)
                          | exact Hc | | exact T0 |].
  - unfold at_teller_at. rewrite Hstart, E0. apply andb_true_iff.
    split; [apply Qle_bool_iff, H1 | apply Qltb_lt, H2].
  - destruct (serviceType c); simpl in *; rewrite repeat_length; exact Hi.
Qed.

(** X13.  In the snapshots of a result of [run], when no service duration
    is negative and no near tie occurred, every customer that has arrived by
    [t] is shown exactly once: the lengths of the two waiting lines, the
    numbers of occupied tellers of the two lines and the finished count add
    up to the number of customers that have arrived by [t]. *)
Theorem snapshot_accounts_for_every_arrival
        (cfg : SimulationConfig) (draws : list Draw) (result : SimulationResult)
        (p : Processing) (t : Q) (s : Snapshot.t) :
  run cfg draws = Completed result ->
  processEvents cfg (generateArrivals cfg draws) = Completed p ->
  Forall (fun d => 0 <= serviceDraw d) draws ->
  Forall no_near_tie (highProcessed p ++ lowProcessed p) ->
  getSnapshotAtTime result t = Completed s ->
  counts (arrived_by t) (customers result)
         (length (Snapshot.customersInQueueHigh s)
          + length (Snapshot.customersInQueueLow s)
          + occupied (Snapshot.customersAtTellerHigh s)
          + occupied (Snapshot.customersAtTellerLow s)
          + Snapshot.finishedCount s).
Proof.
  intros Hrun Hp Hdur Hsep Hs.
  pose proof (run_customer_times cfg draws result p Hrun Hp Hdur Hsep) as Htimes.
  assert (Hocc : (occupied (Snapshot.customersAtTellerHigh s)
                  + occupied (Snapshot.customersAtTellerLow s)
                  = length (filter (at_teller_at t) (customers result)))%nat).
  { pose proof (run_snapshot cfg draws result p Hrun Hp t s Hs) as Hslots.
    pose proof (Hslots HIGH_COUNTER) as H1. pose proof (Hslots LOW_COUNTER) as H2.
    unfold snapshot_slots in H1, H2. simpl in H1, H2. rewrite H1, H2.
    rewrite fold_place_occupied.
    - simpl. rewrite !occupied_empty. reflexivity.
    - apply (run_no_clash cfg draws result p Hrun Hp Hdur Hsep).
    - intros c Hc Hat. destruct (Htimes c Hc) as [[S0 _]|[s0 [i [_ [_ [T0 [Hi _]]]]]]].
      + unfold at_teller_at in Hat. rewrite S0 in Hat. discriminate.
      + exists i. split; [exact T0|]. apply run_slot_free, Hi. }
  destruct (getSnapshotAtTime_queues _ _ _ Hs) as [Q1 Q2].
  pose proof (getSnapshotAtTime_finishedCount _ _ _ Hs) as Hf.
  pose proof (places_add_up t (customers result)) as Hsum.
  replace (length (Snapshot.customersInQueueHigh s)
           + length (Snapshot.customersInQueueLow s)
           + occupied (Snapshot.customersAtTellerHigh s)
           + occupied (Snapshot.customersAtTellerLow s)
           + Snapshot.finishedCount s)%nat
    with (length (filter (arrived_byb t) (customers result))).
  - apply counts_filter. intro c. unfold arrived_byb, arrived_by. apply Qle_bool_iff.
  - rewrite <- Hsum.
    + rewrite Q1, Q2, Hf, !js_sort_length. lia.
    + apply Forall_forall. intros c Hc.
      destruct (Htimes c Hc) as [[S0 [E0 _]]|[s0 [i [S0 [E0 [_ [_ [A0 D0]]]]]]]].
      * left. auto.
      * right. exists s0. auto.
Qed.

(** X29.  The snapshot projector never fails on the result of a completed
    run, at any time: it returns a snapshot whose teller arrays have the
    configured lengths. *)
Theorem snapshot_of_a_run_never_fails (cfg : SimulationConfig) (draws : list Draw)
        (result : SimulationResult) (t : Q) :
  run cfg draws = Completed result ->
  exists s, getSnapshotAtTime result t = Completed s /\
            Snapshot.time s = t /\
            length (Snapshot.customersAtTellerHigh s) = Z.to_nat (count (highCounter cfg)) /\
            length (Snapshot.customersAtTellerLow s) = Z.to_nat (count (lowCounter cfg)).
Proof.
  intro Hrun. destruct (run_inv _ _ _ Hrun) as [p [Hp [_ Hcfg]]].
  destruct (processEvents_counts _ _ _ Hp) as [Hc1 Hc2].
  eexists. split; [apply getSnapshotAtTime_eq; rewrite Hcfg; assumption|].
  cbn [Snapshot.time Snapshot.customersAtTellerHigh Snapshot.customersAtTellerLow].
  split; [reflexivity|].
  destruct (fold_place_length t (customers result)
              (repeat None (Z.to_nat (count (highCounter (config result)))),
               repeat None (Z.to_nat (count (lowCounter (config result))))))
    as [L1 L2].
  simpl in L1, L2. rewrite repeat_length in L1, L2. rewrite <- Hcfg.
  split; assumption.
Qed.

(** ** The metrics aggregator *)

Lemma filter_three_way {A : Type} (p q r : A -> bool) (l : list A) :
  (forall x, (Nat.b2n (p x) + Nat.b2n (q x) + Nat.b2n (r x) = 1)%nat) ->
  (length (filter p l) + length (filter q l) + length (filter r l) = length l)%nat.
Proof.
  intro H. induction l as [|x l IH]; simpl; [reflexivity|].
  specialize (H x). destruct (p x), (q x), (r x); simpl in *; lia.
Qed.

Lemma filter_two_way {A : Type} (p q : A -> bool) (l : list A) :
  (forall x, (Nat.b2n (p x) + Nat.b2n (q x) = 1)%nat) ->
  (length (filter p l) + length (filter q l) = length l)%nat.
Proof.
  intro H. induction l as [|x l IH]; simpl; [reflexivity|].
  specialize (H x). destruct (p x), (q x); simpl in *; lia.
Qed.

(** X14.  The three sentiment counts add up to the throughput: every
    finished customer is counted as happy, neutral or angry, and only once;
    and the throughput is at most the number of customers. *)
Theorem sentiment_counts_add_up (cs : list Customer) (cfg : SimulationConfig) :
  (happy (sentimentStats (calculateMetrics cs cfg))
   + neutral (sentimentStats (calculateMetrics cs cfg))
   + angry (sentimentStats (calculateMetrics cs cfg))
   = throughput (calculateMetrics cs cfg))%nat /\
  (throughput (calculateMetrics cs cfg) <= length cs)%nat.
Proof.
  simpl. split; [|apply filter_length_le].
  apply filter_three_way. intro c. unfold has_sentiment.
  destruct (sentiment c); reflexivity.
Qed.

(** X15.  The two task counts of the metrics panel add up to the
    throughput of the metrics block. *)
Theorem task_counts_add_up (result : SimulationResult) :
  (MetricsPanel.highCounterTasks result + MetricsPanel.lowCounterTasks result
   = throughput (metrics result))%nat.
Proof.
  unfold MetricsPanel.highCounterTasks, MetricsPanel.lowCounterTasks,
    MetricsPanel.finishedCustomers, metrics. simpl.
  apply filter_two_way. intro c. unfold MetricsPanel.on_line.
  destruct (serviceType c); reflexivity.
Qed.

(** *** Sums, maxima and averages *)

Lemma fold_plus_from (f : Customer -> Q) (l : list Customer) (a : Q) :
  fold_left (fun acc c => acc + f c) l a == a + fold_left (fun acc c => acc + f c) l 0.
Proof.
  revert a. induction l as [|c l IH]; intro a; simpl; [ring|].
  rewrite (IH (a + f c)), (IH (0 + f c)). ring.
Qed.

Lemma reduce_sum_map (f : Customer -> Q) (l : list Customer) :
  reduce_sum (map f l) = fold_left (fun acc c => acc + f c) l 0.
Proof.
  unfold reduce_sum. generalize 0. induction l as [|c l IH]; intro a; simpl;
    [reflexivity | apply IH].
Qed.

Lemma fold_plus_cons (f : Customer -> Q) (c : Customer) (l : list Customer) :
  fold_left (fun acc c => acc + f c) (c :: l) 0
  == f c + fold_left (fun acc c => acc + f c) l 0.
Proof. simpl. rewrite fold_plus_from. ring. Qed.

Lemma fold_plus_split (f : Customer -> Q) (p q : Customer -> bool) (l : list Customer) :
  (forall x, (Nat.b2n (p x) + Nat.b2n (q x) = 1)%nat) ->
  fold_left (fun acc c => acc + f c) l 0
  == fold_left (fun acc c => acc + f c) (filter p l) 0
     + fold_left (fun acc c => acc + f c) (filter q l) 0.
Proof.
  intro H. induction l as [|c l IH]; [simpl; ring|].
  rewrite fold_plus_cons, IH. specialize (H c). simpl filter.
  destruct (p c), (q c); simpl in H; try lia; rewrite fold_plus_cons; ring.
Qed.

Lemma fold_plus_bound (f : Customer -> Q) (l : list Customer) (m : Q) :
  (forall c, In c l -> f c <= m) ->
  fold_left (fun acc c => acc + f c) l 0 <= inject_Z (Z.of_nat (length l)) * m.
Proof.
  induction l as [|c l IH]; intro H.
  - cbn [length fold_left]. change (inject_Z (Z.of_nat 0)) with 0. lra.
  - rewrite fold_plus_cons. cbn [length]. rewrite Nat2Z.inj_succ. unfold Z.succ.
    rewrite inject_Z_plus.
    pose proof (H c (or_introl eq_refl)).
    assert (fold_left (fun acc c => acc + f c) l 0 <= inject_Z (Z.of_nat (length l)) * m).
    { apply IH. intros x Hx. apply H. right. exact Hx. }
    change (inject_Z 1) with 1. lra.
Qed.

Lemma or_one_pos (n : nat) : 0 < or_one n.
Proof.
  destruct n; simpl; [reflexivity|].
  change 0 with (inject_Z 0). rewrite <- Zlt_Qlt. lia.
Qed.

Lemma or_one_times (n : nat) (x : Q) :
  (n = 0%nat -> x == 0) -> x / or_one n * inject_Z (Z.of_nat n) == x.
Proof.
  intro H. destruct n.
  - rewrite (H eq_refl). simpl. reflexivity.
  - unfold or_one. field. pose proof (or_one_pos (S n)). unfold or_one in H0. lra.
Qed.

Lemma Math_max_cases (a b : Q) : (Math_max a b = a /\ b <= a) \/ (Math_max a b = b /\ a < b).
Proof.
  unfold Math_max. destruct (Qltb a b) eqn:E.
  - right. split; [reflexivity | apply Qltb_lt, E].
  - left. split; [reflexivity | apply Qltb_ge, E].
Qed.

Lemma Math_max_of_spec (first : Q) (others : list Q) :
  In (Math_max_of first others) (first :: others) /\
  forall x, In x (first :: others) -> x <= Math_max_of first others.
Proof.
  unfold Math_max_of. revert first. induction others as [|y l IH]; intro first; simpl.
  - split; [left; reflexivity|]. intros x [<-|[]]. apply Qle_refl.
  - destruct (IH (Math_max first y)) as [Hin Hmax]. split.
    + destruct Hin as [Hin|Hin]; [|right; right; exact Hin].
      destruct (Math_max_cases first y) as [[E _]|[E _]]; rewrite E in *;
        [left | right; left]; exact Hin.
    + intros x Hx.
      pose proof (Hmax (Math_max first y) (or_introl eq_refl)) as Hm.
      destruct (Math_max_cases first y) as [[E Hle]|[E Hlt]]; rewrite E in *;
        destruct Hx as [<-|[<-|Hx]]; try lra; apply Hmax; right; exact Hx.
Qed.

Lemma has_ended_served (c : Customer) : has_ended c = true <-> was_served c.
Proof.
  unfold has_ended, was_served. destruct (serviceEndTime c) as [e|]; split.
  - intros _. exists e. reflexivity.
  - reflexivity.
  - discriminate.
  - intros [e H]. discriminate.
Qed.

(** X16.  The maximum wait of the metrics block is an upper bound of the
    waits of all finished customers, and is the wait of one of them, or 0
    when nobody finished; the average wait never exceeds it. *)
Theorem maxWaitTime_is_the_maximum (cs : list Customer) (cfg : SimulationConfig) :
  (forall c, In c cs -> was_served c ->
             waitTime c <= maxWaitTime (calculateMetrics cs cfg)) /\
  ((exists c, In c cs /\ was_served c /\ waitTime c = maxWaitTime (calculateMetrics cs cfg)) \/
   (throughput (calculateMetrics cs cfg) = 0%nat /\
    maxWaitTime (calculateMetrics cs cfg) = 0)) /\
  avgWaitTime (calculateMetrics cs cfg) <= maxWaitTime (calculateMetrics cs cfg).
Proof.
  cbn [calculateMetrics avgWaitTime maxWaitTime throughput].
  assert (Hfin : forall c, In c cs -> was_served c -> In c (filter has_ended cs)).
  { intros c Hc Hs. apply filter_In. split; [exact Hc | apply has_ended_served, Hs]. }
  assert (Hback : forall c, In c (filter has_ended cs) -> In c cs /\ was_served c).
  { intros c Hc. apply filter_In in Hc. split; [apply Hc | apply has_ended_served, Hc]. }
  rewrite reduce_sum_map.
  destruct (filter has_ended cs) as [|c0 l] eqn:E; cbn [map length].
  - split; [|split].
    + intros c Hc Hs. destruct (Hfin c Hc Hs).
    + right. auto.
    + simpl. unfold Qdiv, Qle. simpl. lia.
  - destruct (Math_max_of_spec (waitTime c0) (map waitTime l)) as [Hin Hmax].
    change (waitTime c0 :: map waitTime l) with (map waitTime (c0 :: l)) in Hin, Hmax.
    split; [|split].
    + intros c Hc Hs. apply Hmax. apply in_map. apply (Hfin c Hc Hs).
    + left. apply in_map_iff in Hin. destruct Hin as [c [Hw Hc]].
      exists c. destruct (Hback c Hc) as [H1 H2]. auto.
    + apply Qle_shift_div_r; [apply (or_one_pos (S (length l)))|].
      rewrite Qmult_comm. apply (fold_plus_bound waitTime (c0 :: l)).
      intros c Hc. apply Hmax. apply in_map, Hc.
Qed.

Lemma fold_plus_nil_length (f : Customer -> Q) (l : list Customer) :
  length l = 0%nat -> fold_left (fun acc c => acc + f c) l 0 == 0.
Proof. destruct l; [reflexivity | discriminate]. Qed.

(** *** The statistics of the tellers *)

Lemma list_sum_map_add (f g : nat -> nat) (l : list nat) :
  list_sum (map (fun i => f i + g i)%nat l) = (list_sum (map f l) + list_sum (map g l))%nat.
Proof. induction l as [|x l IH]; simpl; [reflexivity | rewrite IH; lia]. Qed.

Lemma list_sum_indicator (j n start : nat) :
  list_sum (map (fun i => Nat.b2n (Nat.eqb j i)) (seq start n))
  = Nat.b2n (Nat.leb start j && Nat.ltb j (start + n)).
Proof.
  revert start. induction n as [|n IH]; intro start; simpl.
  - destruct (Nat.leb start j) eqn:E1; [|reflexivity].
    destruct (Nat.ltb j (start + 0)) eqn:E2; [|reflexivity].
    apply Nat.leb_le in E1. apply Nat.ltb_lt in E2. lia.
  - rewrite IH.
    destruct (Nat.eqb j start) eqn:E0, (Nat.leb (S start) j) eqn:E1,
             (Nat.ltb j (S start + n)) eqn:E2, (Nat.leb start j) eqn:E3,
             (Nat.ltb j (start + S n)) eqn:E4; simpl; try reflexivity; exfalso;
      repeat match goal with
             | H : Nat.eqb _ _ = true |- _ => apply Nat.eqb_eq in H
             | H : Nat.eqb _ _ = false |- _ => apply Nat.eqb_neq in H
             | H : Nat.leb _ _ = true |- _ => apply Nat.leb_le in H
             | H : Nat.leb _ _ = false |- _ => apply Nat.leb_gt in H
             | H : Nat.ltb _ _ = true |- _ => apply Nat.ltb_lt in H
             | H : Nat.ltb _ _ = false |- _ => apply Nat.ltb_ge in H
             end; lia.
Qed.

Lemma list_sum_zero (f : nat -> nat) (l : list nat) :
  (forall i, f i = 0%nat) -> list_sum (map f l) = 0%nat.
Proof. intro H. induction l as [|x l IH]; simpl; [reflexivity | rewrite H, IH; reflexivity]. Qed.

Lemma served_by_once (line : ServiceType) (n : nat) (c : Customer) :
  (serviceType c = line -> exists i, tellerId c = Some i /\ (i < n)%nat) ->
  list_sum (map (fun i => Nat.b2n (served_by line i c)) (seq 0 n))
  = Nat.b2n (MetricsPanel.on_line line c).
Proof.
  intro H. unfold served_by, MetricsPanel.on_line.
  destruct (ServiceType_eqb (serviceType c) line) eqn:E; simpl.
  - apply ServiceType_eqb_eq in E. destruct (H E) as [j [-> Hj]].
    rewrite list_sum_indicator. simpl. apply Nat.ltb_lt in Hj. rewrite Hj. reflexivity.
  - apply list_sum_zero. reflexivity.
Qed.

Lemma served_counts_sum (line : ServiceType) (n : nat) (l : list Customer) :
  (forall c, In c l -> serviceType c = line ->
             exists i, tellerId c = Some i /\ (i < n)%nat) ->
  list_sum (map (fun i => length (filter (served_by line i) l)) (seq 0 n))
  = length (filter (MetricsPanel.on_line line) l).
Proof.
  induction l as [|c l IH]; intro H.
  - simpl. apply list_sum_zero. reflexivity.
  - transitivity (list_sum (map (fun i => Nat.b2n (served_by line i c)
                                          + length (filter (served_by line i) l))%nat
                                (seq 0 n))).
    + f_equal. apply map_ext. intro i. simpl. destruct (served_by line i c); reflexivity.
    + rewrite list_sum_map_add, IH by (intros x Hx; apply H; right; exact Hx).
      rewrite served_by_once by (apply H; left; reflexivity).
      simpl. destruct (MetricsPanel.on_line line c); reflexivity.
Qed.

Lemma createTellerStats_served (d : Q) (finished : list Customer) (n : Z)
      (line : ServiceType) (prefix : String.string) :
  map TellerMetric.servedCount (createTellerStats d finished n line prefix)
  = map (fun i => length (filter (served_by line i) finished)) (seq 0 (Z.to_nat n)).
Proof. unfold createTellerStats. rewrite map_map. reflexivity. Qed.

(** X18.  In the metrics of a result of [run] the served counts of the
    tellers of the two lines add up to the throughput: every finished
    customer is counted at exactly one teller; and each line has one record
    per configured teller. *)
Theorem served_counts_add_up (cfg : SimulationConfig) (draws : list Draw)
        (result : SimulationResult) :
  run cfg draws = Completed result ->
  (list_sum (map TellerMetric.servedCount (high (tellerStats (metrics result))))
   + list_sum (map TellerMetric.servedCount (low (tellerStats (metrics result))))
   = throughput (metrics result))%nat /\
  length (high (tellerStats (metrics result))) = Z.to_nat (count (highCounter cfg)) /\
  length (low (tellerStats (metrics result))) = Z.to_nat (count (lowCounter cfg)).
Proof.
  intro Hrun. destruct (run_inv _ _ _ Hrun) as [p [Hp [Hcs Hcfg]]].
  unfold metrics. rewrite Hcfg.
  cbn [calculateMetrics tellerStats high low throughput].
  split; [|unfold createTellerStats; rewrite !length_map, !length_seq; auto].
  rewrite !createTellerStats_served.
  assert (Hrange : forall line c, In c (filter has_ended (customers result)) ->
                     serviceType c = line ->
                     exists i, tellerId c = Some i /\
                               (i < Z.to_nat (line_count cfg line))%nat).
  { intros line c Hc Hl. apply filter_In in Hc. destruct Hc as [Hc He]. rewrite Hcs in Hc.
    destruct (processEvents_customer cfg _ p c (generateArrivals_NoDup cfg draws)
                (generateArrivals_fresh cfg draws) Hp Hc) as [H|[c0 [i [t [_ [E Hlt]]]]]].
    - pose proof (generateArrivals_fresh cfg draws) as F. rewrite Forall_forall in F.
      destruct (F c H) as [_ [Hn _]]. unfold has_ended in He. rewrite Hn in He.
      discriminate.
    - exists i. split; [rewrite E; reflexivity|]. subst line. lia. }
  rewrite (served_counts_sum HIGH_COUNTER) by (intros c Hc; apply (Hrange HIGH_COUNTER c Hc)).
  rewrite (served_counts_sum LOW_COUNTER) by (intros c Hc; apply (Hrange LOW_COUNTER c Hc)).
  apply filter_two_way. intro c. unfold MetricsPanel.on_line.
  destruct (serviceType c); reflexivity.
Qed.

Lemma fold_plus_nonneg (f : Customer -> Q) (l : list Customer) :
  (forall c, In c l -> 0 <= f c) -> 0 <= fold_left (fun acc c => acc + f c) l 0.
Proof.
  induction l as [|c l IH]; intro H; [simpl; lra|].
  rewrite fold_plus_cons.
  pose proof (H c (or_introl eq_refl)).
  assert (0 <= fold_left (fun acc c => acc + f c) l 0)
    by (apply IH; intros x Hx; apply H; right; exact Hx).
  lra.
Qed.

Lemma teller_stats_In (cs : list Customer) (cfg : SimulationConfig) (m : TellerMetric.t) :
  In m (high (tellerStats (calculateMetrics cs cfg))
        ++ low (tellerStats (calculateMetrics cs cfg))) ->
  exists line prefix i,
    m = teller_metric (durationMinutes cfg) (filter has_ended cs) line prefix i.
Proof.
  cbn [calculateMetrics tellerStats high low]. unfold createTellerStats. intro H.
  apply in_app_or in H. destruct H as [H|H]; apply in_map_iff in H;
    destruct H as [i [<- _]]; eauto.
Qed.

(** X19.  With a positive duration and service times that are not
    negative, the utilization of every teller is a number between 0 and 1,
    and its idle time and busy time are not negative; the utilization is 1
    exactly when the teller has been busy for at least the duration, and
    exactly then its idle time is 0. *)
Theorem utilization_is_a_fraction (cs : list Customer) (cfg : SimulationConfig)
        (m : TellerMetric.t) :
  0 < durationMinutes cfg ->
  (forall c, In c cs -> was_served c -> 0 <= serviceTime c) ->
  In m (high (tellerStats (calculateMetrics cs cfg))
        ++ low (tellerStats (calculateMetrics cs cfg))) ->
  exists u, TellerMetric.utilization m = Finite u /\
            0 <= u /\ u <= 1 /\
            0 <= TellerMetric.busyTime m /\ 0 <= TellerMetric.idleTime m /\
            (u == 1 <-> durationMinutes cfg <= TellerMetric.busyTime m) /\
            (TellerMetric.idleTime m == 0 <-> durationMinutes cfg <= TellerMetric.busyTime m).
Proof.
  intros Hd Hserv Hm. destruct (teller_stats_In cs cfg m Hm) as [line [prefix [i ->]]].
  cbn [teller_metric TellerMetric.utilization TellerMetric.busyTime TellerMetric.idleTime].
  set (busy := fold_left (fun acc c => acc + serviceTime c)
                         (filter (served_by line i) (filter has_ended cs)) 0).
  assert (Hbusy : 0 <= busy).
  { apply fold_plus_nonneg. intros c Hc. apply filter_In in Hc. destruct Hc as [Hc _].
    apply filter_In in Hc. destruct Hc as [Hc He]. apply (Hserv c Hc).
    apply has_ended_served, He. }
  unfold js_div. replace (Qeq_bool (durationMinutes cfg) 0) with false.
  2:{ symmetry. apply not_true_is_false. intro K. apply Qeq_bool_iff in K. lra. }
  assert (Hq : busy / durationMinutes cfg * durationMinutes cfg == busy) by (field; lra).
  assert (Hq0 : 0 <= busy / durationMinutes cfg).
  { apply Qle_shift_div_l; [exact Hd | lra]. }
  cbn [Math_min_1]. unfold Math_min, Math_max.
  eexists. split; [reflexivity|].
  destruct (Qltb (busy / durationMinutes cfg) 1) eqn:E1.
  - apply Qltb_lt in E1.
    assert (Hlt : busy < durationMinutes cfg).
    { assert (busy / durationMinutes cfg * durationMinutes cfg < 1 * durationMinutes cfg)
        by (apply Qmult_lt_compat_r; assumption).
      lra. }
    replace (Qltb 0 (durationMinutes cfg - busy)) with true
      by (symmetry; apply Qltb_lt; lra).
    repeat split; lra.
  - apply Qltb_ge in E1.
    assert (Hge : durationMinutes cfg <= busy).
    { assert (1 * durationMinutes cfg <= busy / durationMinutes cfg * durationMinutes cfg)
        by (apply Qmult_le_compat_r; lra).
      lra. }
    replace (Qltb 0 (durationMinutes cfg - busy)) with false
      by (symmetry; apply Qltb_ge; lra).
    repeat split; try lra; intros _; reflexivity.
Qed.

(** X20.  With a duration of zero no customer is created, and the
    utilization of every teller is NaN (zero busy time divided by zero
    duration), while its served count and idle time are 0. *)
Theorem utilization_without_duration_is_NaN (cfg : SimulationConfig) (draws : list Draw)
        (result : SimulationResult) (m : TellerMetric.t) :
  durationMinutes cfg == 0 ->
  run cfg draws = Completed result ->
  In m (high (tellerStats (metrics result)) ++ low (tellerStats (metrics result))) ->
  customers result = [] /\
  TellerMetric.utilization m = NaN /\
  TellerMetric.servedCount m = 0%nat /\
  TellerMetric.idleTime m == 0.
Proof.
  intros Hd Hrun Hm. destruct (run_inv _ _ _ Hrun) as [p [Hp [Hcs Hcfg]]].
  assert (Hgen : generateArrivals cfg draws = []).
  { unfold generateArrivals. destruct draws as [|d draws]; simpl; [reflexivity|].
    replace (Qltb 0 (durationMinutes cfg)) with false; [reflexivity|].
    symmetry. apply Qltb_ge. lra. }
  assert (Hnil : customers result = []).
  { rewrite Hcs.
    destruct (processEvents_lines cfg _ p (generateArrivals_NoDup cfg draws)
                (generateArrivals_fresh cfg draws) Hp) as [Hst _].
    rewrite Hgen in Hst. simpl in Hst. inversion Hst. reflexivity. }
  split; [exact Hnil|].
  unfold metrics in Hm. destruct (teller_stats_In _ _ m Hm) as [line [prefix [i ->]]].
  rewrite Hnil, Hcfg. simpl. unfold js_div.
  replace (Qeq_bool (durationMinutes cfg) 0) with true
    by (symmetry; apply Qeq_bool_iff, Hd).
  simpl. split; [reflexivity|]. split; [reflexivity|].
  unfold Math_max. destruct (Qltb 0 (durationMinutes cfg - 0)) eqn:E; [|reflexivity].
  apply Qltb_lt in E. lra.
Qed.

(** *** The labels of the tellers *)

Lemma decimal_inj (n m : nat) : Text.decimal n = Text.decimal m -> n = m.
Proof.
  unfold Text.decimal. intro H. apply DecimalNat.Unsigned.to_uint_inj.
  assert (K : Some (Nat.to_uint n) = Some (Nat.to_uint m)).
  { rewrite <- !DecimalString.NilEmpty.usu. rewrite H. reflexivity. }
  inversion K. reflexivity.
Qed.

Lemma append_inj_r (p a b : String.string) :
  String.append p a = String.append p b -> a = b.
Proof.
  induction p as [|ch p IH]; simpl; intro H; [exact H|]. inversion H. auto.
Qed.

Lemma teller_label_inj (prefix : String.string) (i j : nat) :
  Text.teller_label prefix i = Text.teller_label prefix j -> i = j.
Proof.
  unfold Text.teller_label. intro H. apply append_inj_r in H. apply append_inj_r in H.
  apply decimal_inj in H. lia.
Qed.

Lemma NoDup_map_inj {A B : Type} (f : A -> B) (l : list A) :
  (forall x y, f x = f y -> x = y) -> NoDup l -> NoDup (map f l).
Proof.
  intros Hinj H. induction H as [|x l Hx Hl IH]; simpl; constructor; [|exact IH].
  intro K. apply in_map_iff in K. destruct K as [y [Hy Hin]].
  apply Hinj in Hy. subst y. contradiction.
Qed.

(** X21.  The records of a line are numbered 0, 1, 2, ... and labelled
    with the prefix of the line and the number plus one; no two tellers of
    the two lines together carry the same label. *)
Theorem teller_labels_are_distinct (cs : list Customer) (cfg : SimulationConfig) :
  map TellerMetric.id (high (tellerStats (calculateMetrics cs cfg)))
  = seq 0 (Z.to_nat (count (highCounter cfg))) /\
  map TellerMetric.id (low (tellerStats (calculateMetrics cs cfg)))
  = seq 0 (Z.to_nat (count (lowCounter cfg))) /\
  (forall m, In m (high (tellerStats (calculateMetrics cs cfg))) ->
     TellerMetric.label m = Text.teller_label Text.High (TellerMetric.id m)) /\
  (forall m, In m (low (tellerStats (calculateMetrics cs cfg))) ->
     TellerMetric.label m = Text.teller_label Text.Low (TellerMetric.id m)) /\
  NoDup (map TellerMetric.label (high (tellerStats (calculateMetrics cs cfg))
                                 ++ low (tellerStats (calculateMetrics cs cfg)))).
Proof.
  cbn [calculateMetrics tellerStats high low]. unfold createTellerStats.
  split; [rewrite map_map; apply map_id|].
  split; [rewrite map_map; apply map_id|].
  split; [intros m Hm; apply in_map_iff in Hm; destruct Hm as [i [<- _]]; reflexivity|].
  split; [intros m Hm; apply in_map_iff in Hm; destruct Hm as [i [<- _]]; reflexivity|].
  rewrite map_app, !map_map. cbn [teller_metric TellerMetric.label].
  apply NoDup_disjoint_app.
  - apply NoDup_map_inj; [apply teller_label_inj | apply seq_NoDup].
  - apply NoDup_map_inj; [apply teller_label_inj | apply seq_NoDup].
  - intros x H1 H2. apply in_map_iff in H1, H2.
    destruct H1 as [i [<- _]]. destruct H2 as [j [H2 _]].
    unfold Text.teller_label, Text.High, Text.Low in H2. simpl in H2. discriminate.
Qed.

(** *** Sentiments and waits *)

Lemma filter_twice {A : Type} (p q : A -> bool) (l : list A) :
  filter p (filter q l) = filter (fun x => q x && p x) l.
Proof.
  induction l as [|x l IH]; simpl; [reflexivity|].
  destruct (q x); simpl; [destruct (p x); rewrite IH; reflexivity | exact IH].
Qed.

Lemma counts_sentiment (s : Sentiment) (P : Customer -> Prop) (cs : list Customer) :
  (forall c, In c cs -> (was_served c /\ sentiment c = s <-> P c)) ->
  counts P cs (length (filter (has_sentiment s) (filter has_ended cs))).
Proof.
  intro H. rewrite filter_twice.
  apply (counts_ext (fun c => has_ended c && has_sentiment s c = true)).
  - intros c Hc. rewrite <- (H c Hc). rewrite andb_true_iff, has_ended_served.
    unfold has_sentiment. destruct (sentiment c), s; simpl; intuition congruence.
  - apply counts_filter. intro c. reflexivity.
Qed.

(** X22.  In the metrics of a result of [run] the sentiment counts follow
    the waits: the happy count is the number of served customers that waited
    at most 5 minutes, the neutral count the number of those that waited more
    than 5 and at most 15 minutes, and the angry count the number of those
    that waited more than 15 minutes. *)
Theorem sentiment_counts_follow_the_waits (cfg : SimulationConfig) (draws : list Draw)
        (result : SimulationResult) :
  run cfg draws = Completed result ->
  counts (fun c => was_served c /\ waitTime c <= 5) (customers result)
         (happy (sentimentStats (metrics result))) /\
  counts (fun c => was_served c /\ 5 < waitTime c /\ waitTime c <= 15) (customers result)
         (neutral (sentimentStats (metrics result))) /\
  counts (fun c => was_served c /\ 15 < waitTime c) (customers result)
         (angry (sentimentStats (metrics result))).
Proof.
  intro Hrun. destruct (run_inv _ _ _ Hrun) as [p [Hp [Hcs _]]].
  destruct (processEvents_lines cfg _ p (generateArrivals_NoDup cfg draws)
              (generateArrivals_fresh cfg draws) Hp) as [_ [_ [_ [_ Hcons]]]].
  rewrite Forall_forall in Hcons.
  assert (Hrule : forall c, In c (customers result) -> was_served c ->
            (waitTime c <= 5 -> sentiment c = HAPPY) /\
            (5 < waitTime c -> waitTime c <= 15 -> sentiment c = NEUTRAL) /\
            (15 < waitTime c -> sentiment c = ANGRY)).
  { intros c Hc [e He]. rewrite Hcs in Hc.
    destruct (processEvents_customer cfg _ p c (generateArrivals_NoDup cfg draws)
                (generateArrivals_fresh cfg draws) Hp Hc) as [H|[c0 [i [t [_ [E _]]]]]].
    - pose proof (generateArrivals_fresh cfg draws) as F. rewrite Forall_forall in F.
      destruct (F c H) as [_ [Hn _]]. congruence.
    - assert (Hs : serviceStartTime c = Some t) by (rewrite E; reflexivity).
      destruct (Hcons c Hc t Hs) as [_ [_ K]]. exact K. }
  unfold metrics. cbn [calculateMetrics sentimentStats happy neutral angry].
  split; [|split]; apply counts_sentiment; intros c Hc; split.
  - intros [Hs Hh]. split; [exact Hs|]. destruct (Hrule c Hc Hs) as [_ [Hn Ha]].
    destruct (Qlt_le_dec 5 (waitTime c)) as [K|K]; [|exact K]. exfalso.
    destruct (Qlt_le_dec 15 (waitTime c)) as [K'|K'];
      [rewrite (Ha K') in Hh | rewrite (Hn K K') in Hh]; discriminate.
  - intros [Hs Hw]. split; [exact Hs | apply (Hrule c Hc Hs), Hw].
  - intros [Hs Hh]. split; [exact Hs|]. destruct (Hrule c Hc Hs) as [H5 [_ Ha]].
    destruct (Qlt_le_dec 5 (waitTime c)) as [K|K];
      [|rewrite (H5 K) in Hh; discriminate].
    split; [exact K|]. destruct (Qlt_le_dec 15 (waitTime c)) as [K'|K']; [|exact K'].
    rewrite (Ha K') in Hh. discriminate.
  - intros [Hs [H1 H2]]. split; [exact Hs | apply (Hrule c Hc Hs); assumption].
  - intros [Hs Hh]. split; [exact Hs|]. destruct (Hrule c Hc Hs) as [H5 [Hn _]].
    destruct (Qlt_le_dec 15 (waitTime c)) as [K|K]; [exact K|]. exfalso.
    destruct (Qlt_le_dec 5 (waitTime c)) as [K'|K'];
      [rewrite (Hn K' K) in Hh | rewrite (H5 K') in Hh]; discriminate.
  - intros [Hs Hw]. split; [exact Hs | apply (Hrule c Hc Hs), Hw].
Qed.

(** ** The header count and the throughput *)

(** X23.  The finished count of a snapshot never exceeds the throughput of
    the metrics block, and equals it once every service that ends has ended
    by the time of the snapshot. *)
Theorem finished_count_within_throughput (result : SimulationResult) (t : Q)
        (s : Snapshot.t) :
  getSnapshotAtTime result t = Completed s ->
  (Snapshot.finishedCount s <= throughput (metrics result))%nat /\
  ((forall c e, In c (customers result) -> serviceEndTime c = Some e -> e <= t) ->
   Snapshot.finishedCount s = throughput (metrics result)).
Proof.
  intro H. rewrite (getSnapshotAtTime_finishedCount _ _ _ H).
  unfold metrics. cbn [calculateMetrics throughput]. split.
  - apply filter_length_le_impl. intro c. unfold finished_at, has_ended.
    destruct (serviceEndTime c); [reflexivity | discriminate].
  - intro Hall. f_equal. apply filter_ext_in. intros c Hc.
    unfold finished_at, has_ended. destruct (serviceEndTime c) as [e|] eqn:E; [|reflexivity].
    apply Qle_bool_iff. apply (Hall c e Hc E).
Qed.

(** ** The samplers *)

Module SamplingFacts.
Import Reals Lra.
Local Open Scope R_scope.

(** The sign of the exponential sample is the sign of the rate: for a
    uniform draw [u] in [0, 1) the sample is not negative when the rate is
    positive, and not positive when the rate is negative. *)
Lemma randomExponential_sign (lambda u : R) :
  0 <= u < 1 ->
  (0 < lambda -> 0 <= Sampling.randomExponential lambda u) /\
  (lambda < 0 -> Sampling.randomExponential lambda u <= 0).
Proof.
  intros [H0 H1]. unfold Sampling.randomExponential.
  assert (Hln : ln (1 - u) <= 0).
  { rewrite <- ln_1. destruct (Req_dec u 0) as [->|Hne].
    - rewrite Rminus_0_r. lra.
    - left. apply ln_increasing; lra. }
  split; intro Hl.
  - assert (0 < / lambda) by (apply Rinv_0_lt_compat, Hl).
    unfold Rdiv. apply Rmult_le_pos; lra.
  - assert (/ lambda < 0) by (apply Rinv_lt_0_compat, Hl).
    unfold Rdiv. replace (- ln (1 - u) * / lambda) with (- ((- ln (1 - u)) * (- / lambda)))
      by ring.
    assert (0 <= (- ln (1 - u)) * (- / lambda)) by (apply Rmult_le_pos; lra).
    lra.
Qed.

(** X24.  For a uniform draw [u] in [0, 1) and a positive rate the
    exponential sample is not negative, it is the point at which the
    exponential distribution function takes the value [u], and it grows
    with [u]. *)
Theorem randomExponential_inverts_the_distribution (lambda u : R) :
  0 < lambda -> 0 <= u < 1 ->
  0 <= Sampling.randomExponential lambda u /\
  1 - exp (- (lambda * Sampling.randomExponential lambda u)) = u /\
  forall u', u <= u' < 1 ->
    Sampling.randomExponential lambda u <= Sampling.randomExponential lambda u'.
Proof.
  intros Hl [H0 H1]. unfold Sampling.randomExponential.
  assert (Hln : forall v, 0 <= v < 1 -> ln (1 - v) <= 0).
  { intros v [Hv0 Hv1]. rewrite <- ln_1. destruct (Req_dec v 0) as [->|Hne].
    - rewrite Rminus_0_r. lra.
    - left. apply ln_increasing; lra. }
  assert (Hinv : 0 < / lambda) by (apply Rinv_0_lt_compat, Hl).
  split; [|split].
  - unfold Rdiv. apply Rmult_le_pos; [|lra]. pose proof (Hln u (conj H0 H1)). lra.
  - replace (- (lambda * (- ln (1 - u) / lambda))) with (ln (1 - u)) by (field; lra).
    rewrite exp_ln by lra. lra.
  - intros u' [Hu Hu1]. unfold Rdiv. apply Rmult_le_compat_r; [lra|].
    apply Ropp_le_contravar. destruct (Req_dec u u') as [->|Hne]; [lra|].
    left. apply ln_increasing; lra.
Qed.

(** X25.  For a uniform draw [u] in [0, 1) and parameters
    [min <= mode <= max] with [min < max] the triangular sample lies
    between [min] and [max]; it is below [mode] when [u] is below
    [(mode - min) / (max - min)] and at least [mode] otherwise. *)
Theorem randomTriangular_is_in_range (min max mode u : R) :
  min < max -> min <= mode <= max -> 0 <= u < 1 ->
  min <= Sampling.randomTriangular min max mode u <= max /\
  (u < (mode - min) / (max - min) -> Sampling.randomTriangular min max mode u < mode) /\
  ((mode - min) / (max - min) <= u -> mode <= Sampling.randomTriangular min max mode u).
Proof.
  intros Hmm [Hlo Hhi] [H0 H1]. unfold Sampling.randomTriangular.
  set (F := (mode - min) / (max - min)).
  assert (HF : F * (max - min) = mode - min) by (unfold F; field; lra).
  destruct (Rlt_dec u F) as [Hu|Hu].
  - assert (Hpos : 0 <= u * (max - min) * (mode - min)).
    { apply Rmult_le_pos; [apply Rmult_le_pos|]; lra. }
    assert (Hsq : sqrt (u * (max - min) * (mode - min)) < mode - min).
    { assert (Hlt : u * (max - min) < mode - min).
      { rewrite <- HF. apply Rmult_lt_compat_r; lra. }
      assert (Hum : 0 <= u * (max - min)) by (apply Rmult_le_pos; lra).
      apply Rlt_le_trans with (sqrt ((mode - min) * (mode - min)));
        [|rewrite sqrt_square; lra].
      apply sqrt_lt_1; [exact Hpos | apply Rmult_le_pos; lra|].
      apply Rmult_lt_compat_r; lra. }
    pose proof (sqrt_pos (u * (max - min) * (mode - min))).
    repeat split; try lra.
  - apply Rnot_lt_le in Hu.
    assert (Hpos : 0 <= (1 - u) * (max - min) * (max - mode)).
    { apply Rmult_le_pos; [apply Rmult_le_pos|]; lra. }
    assert (Hsq : sqrt ((1 - u) * (max - min) * (max - mode)) <= max - mode).
    { assert (Hle : (1 - u) * (max - min) <= max - mode).
      { assert (u * (max - min) >= F * (max - min)) by (apply Rmult_ge_compat_r; lra).
        lra. }
      apply Rle_trans with (sqrt ((max - mode) * (max - mode)));
        [|rewrite sqrt_square; lra].
      apply sqrt_le_1; [exact Hpos | apply Rmult_le_pos; lra|].
      apply Rmult_le_compat_r; lra. }
    pose proof (sqrt_pos ((1 - u) * (max - min) * (max - mode))).
    repeat split; try lra.
Qed.

(** An arrival rate of one per minute and the draw 1/2. *)
Lemma randomExponential_inverts_the_distribution_example :
  0 <= Sampling.randomExponential 1 (1 / 2) /\
  1 - exp (- (1 * Sampling.randomExponential 1 (1 / 2))) = 1 / 2 /\
  forall u', 1 / 2 <= u' < 1 ->
    Sampling.randomExponential 1 (1 / 2) <= Sampling.randomExponential 1 u'.
Proof.
  apply (randomExponential_inverts_the_distribution 1 (1 / 2)); lra.
Defined.

(** The service times of the high counter, between 2 and 8 minutes with
    the mode at 4, and the draw 1/2. *)
Lemma randomTriangular_is_in_range_example :
  2 <= Sampling.randomTriangular 2 8 4 (1 / 2) <= 8 /\
  (1 / 2 < (4 - 2) / (8 - 2) -> Sampling.randomTriangular 2 8 4 (1 / 2) < 4) /\
  ((4 - 2) / (8 - 2) <= 1 / 2 -> 4 <= Sampling.randomTriangular 2 8 4 (1 / 2)).
Proof.
  apply (randomTriangular_is_in_range 2 8 4 (1 / 2)); lra.
Defined.

End SamplingFacts.

(** ** The customer icons *)

Lemma bgColor_cases (c : Customer) (t : Q) :
  (15 < t - arrivalTime c /\ CustomerIcon.bgColor c t false = CustomerIcon.red) \/
  (5 < t - arrivalTime c /\ t - arrivalTime c <= 15 /\
   CustomerIcon.bgColor c t false = CustomerIcon.yellow) \/
  (t - arrivalTime c <= 5 /\ CustomerIcon.bgColor c t false = CustomerIcon.emerald).
Proof.
  unfold CustomerIcon.bgColor.
  destruct (Qltb 15 (t - arrivalTime c)) eqn:E1.
  - left. split; [apply Qltb_lt, E1 | reflexivity].
  - right. apply Qltb_ge in E1. destruct (Qltb 5 (t - arrivalTime c)) eqn:E2.
    + left. split; [apply Qltb_lt, E2|]. split; [exact E1 | reflexivity].
    + right. split; [apply Qltb_ge, E2 | reflexivity].
Qed.

(** X26.  For a served customer of a result of [run]: the colour its icon
    would have in the waiting line at the moment its service starts is the
    colour the legend gives to its final sentiment; and at no earlier time
    does the icon overstate the final sentiment: an icon that is red belongs
    to a customer that ends angry, and an icon that is yellow to one that
    does not end happy. *)
Theorem icon_colour_never_overstates_the_sentiment
        (cfg : SimulationConfig) (draws : list Draw) (result : SimulationResult)
        (c : Customer) (start t : Q) :
  run cfg draws = Completed result ->
  In c (customers result) ->
  serviceStartTime c = Some start ->
  CustomerIcon.bgColor c start false = CustomerIcon.legend (sentiment c) /\
  (t <= start ->
   (CustomerIcon.bgColor c t false = CustomerIcon.red -> sentiment c = ANGRY) /\
   (CustomerIcon.bgColor c t false = CustomerIcon.yellow -> sentiment c <> HAPPY)).
Proof.
  intros Hrun Hc Hs. destruct (run_inv _ _ _ Hrun) as [p [Hp [Hcs _]]].
  destruct (processEvents_lines cfg _ p (generateArrivals_NoDup cfg draws)
              (generateArrivals_fresh cfg draws) Hp) as [_ [_ [_ [_ Hcons]]]].
  rewrite Forall_forall in Hcons. rewrite Hcs in Hc.
  destruct (Hcons c Hc start Hs) as [Hw [_ [Hh [Hn Ha]]]].
  split.
  - destruct (bgColor_cases c start) as [[H1 ->]|[[H1 [H2 ->]]|[H1 ->]]].
    + rewrite Ha by (rewrite Hw; exact H1). reflexivity.
    + rewrite Hn by (rewrite Hw; assumption). reflexivity.
    + rewrite Hh by (rewrite Hw; exact H1). reflexivity.
  - intro Hle. split; intro Hcol.
    + apply Ha. rewrite Hw.
      destruct (bgColor_cases c t) as [[H1 _]|[[_ [_ E]]|[_ E]]];
        [lra | rewrite E in Hcol; discriminate | rewrite E in Hcol; discriminate].
    + intro Hhappy.
      destruct (bgColor_cases c t) as [[_ E]|[[H1 _]|[_ E]]];
        [rewrite E in Hcol; discriminate | | rewrite E in Hcol; discriminate].
      destruct (Qlt_le_dec 15 (waitTime c)) as [K|K];
        [rewrite (Ha K) in Hhappy; discriminate|].
      assert (K5 : 5 < waitTime c) by (rewrite Hw; lra).
      rewrite (Hn K5 K) in Hhappy. discriminate.
Qed.

(** ** The playback clock *)

Lemma ticks_stopped (d v : Q) (n : nat) (s : App.Playback) :
  App.isPlaying s = false -> App.ticks d v n s = s.
Proof.
  revert s. induction n as [|n IH]; intros s H; simpl; [reflexivity|].
  unfold App.tick. rewrite H. apply IH, H.
Qed.

Lemma ticks_playing (d v : Q) (n : nat) (x : Q) :
  0 <= App.timeAdvance v ->
  (App.isPlaying (App.ticks d v n (App.mkPlayback x true)) = true ->
   App.currentTime (App.ticks d v n (App.mkPlayback x true))
   == x + inject_Z (Z.of_nat n) * App.timeAdvance v /\
   (n = 0%nat \/ x + inject_Z (Z.of_nat n) * App.timeAdvance v < d)) /\
  (App.isPlaying (App.ticks d v n (App.mkPlayback x true)) = false ->
   App.currentTime (App.ticks d v n (App.mkPlayback x true)) = d /\
   d <= x + inject_Z (Z.of_nat n) * App.timeAdvance v).
Proof.
  intro Hadv. revert x. induction n as [|n IH]; intro x.
  - simpl. split; [|discriminate]. intros _. split; [|left; reflexivity].
    change (inject_Z 0) with 0. ring.
  - cbn [App.ticks]. unfold App.tick. cbn [App.isPlaying App.currentTime].
    rewrite Nat2Z.inj_succ. unfold Z.succ. rewrite inject_Z_plus.
    change (inject_Z 1) with 1.
    assert (Hn : 0 <= inject_Z (Z.of_nat n)).
    { change 0 with (inject_Z 0). rewrite <- Zle_Qle. lia. }
    assert (Hnv : 0 <= inject_Z (Z.of_nat n) * App.timeAdvance v)
      by (apply Qmult_le_0_compat; assumption).
    destruct (Qle_bool d (x + App.timeAdvance v)) eqn:E.
    + apply Qle_bool_iff in E. rewrite ticks_stopped by reflexivity. simpl.
      split; [discriminate|]. intros _. split; [reflexivity | lra].
    + apply Qle_bool_false in E. destruct (IH (x + App.timeAdvance v)) as [IH1 IH2].
      split.
      * intro Hp. destruct (IH1 Hp) as [Ht Hlt]. split; [rewrite Ht; ring|].
        right. destruct Hlt as [->|Hlt]; [change (inject_Z (Z.of_nat 0)) with 0|]; lra.
      * intro Hp. destruct (IH2 Hp) as [Ht Hle]. split; [exact Ht | lra].
Qed.

Lemma ticks_add (d v : Q) (n m : nat) (s : App.Playback) :
  App.ticks d v (n + m) s = App.ticks d v m (App.ticks d v n s).
Proof.
  revert s. induction n as [|n IH]; intro s; simpl; [reflexivity | apply IH].
Qed.

Lemma ticks_succ (d v : Q) (n : nat) (s : App.Playback) :
  App.ticks d v (S n) s = App.tick d v (App.ticks d v n s).
Proof.
  replace (S n) with (n + 1)%nat by lia. rewrite ticks_add. reflexivity.
Qed.

(** X27.  Started at 0 with a duration and a speed that are not negative,
    the playback clock stays between 0 and the duration and never runs
    backwards; while it plays, after the first tick, it is below the
    duration; once it has stopped it shows exactly the duration, and
    further ticks change nothing. *)
Theorem playback_clock_stops_at_the_horizon (durationMinutes playbackSpeed : Q) (n : nat) :
  0 <= durationMinutes -> 0 <= playbackSpeed ->
  0 <= App.currentTime (App.ticks durationMinutes playbackSpeed n App.started)
  /\ App.currentTime (App.ticks durationMinutes playbackSpeed n App.started)
     <= durationMinutes
  /\ App.currentTime (App.ticks durationMinutes playbackSpeed n App.started)
     <= App.currentTime (App.ticks durationMinutes playbackSpeed (S n) App.started)
  /\ (App.isPlaying (App.ticks durationMinutes playbackSpeed n App.started) = true ->
      n = 0%nat \/
      App.currentTime (App.ticks durationMinutes playbackSpeed n App.started)
      < durationMinutes)
  /\ (App.isPlaying (App.ticks durationMinutes playbackSpeed n App.started) = false ->
      App.currentTime (App.ticks durationMinutes playbackSpeed n App.started)
      = durationMinutes /\
      forall m, (n <= m)%nat ->
        App.ticks durationMinutes playbackSpeed m App.started
        = App.ticks durationMinutes playbackSpeed n App.started).
Proof.
  intros Hd Hv.
  assert (Eadv : App.timeAdvance playbackSpeed == playbackSpeed * (1 # 10)).
  { unfold App.timeAdvance, App.tickRate. field. }
  assert (Hadv : 0 <= App.timeAdvance playbackSpeed) by (rewrite Eadv; lra).
  destruct (ticks_playing durationMinutes playbackSpeed n 0 Hadv) as [H1 H2].
  fold App.started in H1, H2.
  assert (Hn : 0 <= inject_Z (Z.of_nat n) * App.timeAdvance playbackSpeed).
  { apply Qmult_le_0_compat; [|exact Hadv]. change 0 with (inject_Z 0).
    rewrite <- Zle_Qle. lia. }
  rewrite ticks_succ. unfold App.tick.
  destruct (App.isPlaying (App.ticks durationMinutes playbackSpeed n App.started)) eqn:E.
  - destruct (H1 eq_refl) as [Ht Hlt].
    assert (Hbelow : n = 0%nat \/
              App.currentTime (App.ticks durationMinutes playbackSpeed n App.started)
              < durationMinutes).
    { destruct Hlt as [Hk|Hlt]; [left; exact Hk | right; rewrite Ht; lra]. }
    split; [rewrite Ht; lra|]. split.
    { destruct Hbelow as [->|Hb]; [simpl; exact Hd | lra]. }
    split.
    { destruct (Qle_bool durationMinutes
                  (App.currentTime (App.ticks durationMinutes playbackSpeed n App.started)
                   + App.timeAdvance playbackSpeed)) eqn:E'; cbn [App.currentTime].
      - destruct Hbelow as [->|Hb]; [simpl; exact Hd | lra].
      - lra. }
    split; [intros _; exact Hbelow | discriminate].
  - destruct (H2 eq_refl) as [Ht Hle]. rewrite Ht.
    split; [exact Hd|]. split; [apply Qle_refl|]. split; [apply Qle_refl|].
    split; [discriminate|]. intros _. split; [reflexivity|].
    intros m Hm. replace m with (n + (m - n))%nat by lia.
    rewrite ticks_add. apply ticks_stopped, E.
Qed.
(** * The snapshot projector: totality, shape and finished count *)

Lemma getSnapshotAtTime_raises (result : SimulationResult) (t : Q) :
  ~ (array_length (count (highCounter (config result))) /\
     array_length (count (lowCounter (config result)))) ->
  getSnapshotAtTime result t = Failed RangeError.
Proof.
  intro H. unfold getSnapshotAtTime.
  destruct (array_length_dec (count (highCounter (config result)))) as [H1|H1].
  - rewrite (new_filled_array_ok _ (@None Customer) H1).
    destruct (array_length_dec (count (lowCounter (config result)))) as [H2|H2]; [tauto|].
    rewrite (new_filled_array_fails _ (@None Customer) H2). reflexivity.
  - rewrite (new_filled_array_fails _ (@None Customer) H1). reflexivity.
Qed.

(** C10, as amended.  [getSnapshotAtTime] is total exactly on the results
    whose two server counts are array lengths, which the results of
    completed runs are; on any other result it raises the RangeError of the
    array constructor, at every time.  Where it returns, at a time [t] of
    any sign: each teller array has exactly the configured length; a slot
    [i] holds a customer only if that customer is in the population, belongs
    to the line, is being served at [t], and has [tellerId = i] below the
    length (a customer whose [tellerId] is null or out of range is placed
    nowhere); and every customer listed as waiting is in the population, has
    arrived by [t], and has no start time or one strictly after [t]. *)
Theorem getSnapshotAtTime_total_and_shaped (result : SimulationResult) (t : Q) :
  (array_length (count (highCounter (config result))) ->
   array_length (count (lowCounter (config result))) ->
   exists s,
     getSnapshotAtTime result t = Completed s /\
     length (Snapshot.customersAtTellerHigh s)
       = Z.to_nat (count (highCounter (config result))) /\
     length (Snapshot.customersAtTellerLow s)
       = Z.to_nat (count (lowCounter (config result))) /\
     (forall i c, nth_error (Snapshot.customersAtTellerHigh s) i = Some (Some c) ->
        placed_ok HIGH_COUNTER t (customers result)
                  (length (Snapshot.customersAtTellerHigh s)) i c) /\
     (forall i c, nth_error (Snapshot.customersAtTellerLow s) i = Some (Some c) ->
        placed_ok LOW_COUNTER t (customers result)
                  (length (Snapshot.customersAtTellerLow s)) i c) /\
     (forall c, In c (Snapshot.customersInQueueHigh s) ->
        In c (customers result) /\ serviceType c = HIGH_COUNTER /\ waiting_at t c) /\
     (forall c, In c (Snapshot.customersInQueueLow s) ->
        In c (customers result) /\ serviceType c = LOW_COUNTER /\ waiting_at t c)) /\
  (~ (array_length (count (highCounter (config result))) /\
      array_length (count (lowCounter (config result)))) ->
   getSnapshotAtTime result t = Failed RangeError) /\
  (forall cfg draws, run cfg draws = Completed result ->
     array_length (count (highCounter (config result))) /\
     array_length (count (lowCounter (config result)))).
Proof.
  split; [|split; [apply getSnapshotAtTime_raises | intros cfg draws; apply run_counts]].
  intros H1 H2. eexists. split; [apply getSnapshotAtTime_eq; assumption|]. simpl.
  set (a0 := (repeat (@None Customer) (Z.to_nat (count (highCounter (config result)))),
              repeat (@None Customer) (Z.to_nat (count (lowCounter (config result)))))).
  destruct (fold_place_length t (customers result) a0) as [L1 L2].
  destruct (fold_place_ok t (customers result) (customers result) a0) as [K1 K2].
  { apply incl_refl. }
  { apply slots_ok_empty. }
  { apply slots_ok_empty. }
  unfold a0 in L1, L2. simpl in L1, L2. rewrite repeat_length in L1, L2.
  assert (Hq : forall line c,
             In c (js_sort compareArrival (filter (in_queue_at line t) (customers result))) ->
             In c (customers result) /\ serviceType c = line /\ waiting_at t c).
  { intros line c H. apply js_sort_In in H. apply filter_In in H. destruct H as [Hin H].
    apply in_queue_at_waiting in H. tauto. }
  split; [exact L1|]. split; [exact L2|]. split; [exact K1|]. split; [exact K2|].
  split; intros c Hc; apply Hq; exact Hc.
Qed.

(** The snapshot of a result whose high-counter line is configured with -1
    servers, or whose low-counter line is configured with 2^32 servers, is
    not produced: the array constructor raises a RangeError. *)
Lemma getSnapshotAtTime_not_total :
  getSnapshotAtTime negative_count_result 0 = Failed RangeError /\
  getSnapshotAtTime huge_count_result 0 = Failed RangeError.
Proof. split; reflexivity. Qed.

(** A snapshot of a result in which a served customer names teller 7 of a
    line with one teller: the customer is dropped, nothing is raised; and no
    snapshot of the result with -1 servers. *)
Lemma getSnapshotAtTime_total_and_shaped_example :
  (exists s,
     getSnapshotAtTime stray_result 2 = Completed s /\
     length (Snapshot.customersAtTellerHigh s) = 1%nat /\
     length (Snapshot.customersAtTellerLow s) = 1%nat /\
     (forall i c, nth_error (Snapshot.customersAtTellerHigh s) i = Some (Some c) ->
        placed_ok HIGH_COUNTER 2 (customers stray_result)
                  (length (Snapshot.customersAtTellerHigh s)) i c) /\
     (forall i c, nth_error (Snapshot.customersAtTellerLow s) i = Some (Some c) ->
        placed_ok LOW_COUNTER 2 (customers stray_result)
                  (length (Snapshot.customersAtTellerLow s)) i c) /\
     (forall c, In c (Snapshot.customersInQueueHigh s) ->
        In c (customers stray_result) /\ serviceType c = HIGH_COUNTER /\ waiting_at 2 c) /\
     (forall c, In c (Snapshot.customersInQueueLow s) ->
        In c (customers stray_result) /\ serviceType c = LOW_COUNTER /\ waiting_at 2 c)) /\
  getSnapshotAtTime negative_count_result 2 = Failed RangeError.
Proof.
  split.
  - apply (proj1 (getSnapshotAtTime_total_and_shaped stray_result 2));
      unfold array_length, max_array_length; simpl; lia.
  - apply (proj1 (proj2 (getSnapshotAtTime_total_and_shaped negative_count_result 2))).
    unfold array_length, max_array_length. simpl. lia.
Defined.

(** C9, as amended.  For every result and every time [t] at which the
    snapshot is produced, the finished count is the number of customers
    whose service end is defined and at most [t], and it is the number of
    all served customers when [t] has reached every defined end.  At [t = 0]
    it is 0 after every run whose gaps are not negative and whose service
    durations are positive. *)
Theorem finishedCount_counts_ended :
  (forall result t s,
     getSnapshotAtTime result t = Completed s ->
     counts (ended_by t) (customers result) (Snapshot.finishedCount s) /\
     ((forall c e, In c (customers result) -> serviceEndTime c = Some e -> e <= t) ->
      counts was_served (customers result) (Snapshot.finishedCount s))) /\
  (forall cfg draws result,
     run cfg draws = Completed result ->
     Forall (fun d => 0 <= interArrival d /\ 0 < serviceDraw d) draws ->
     exists s, getSnapshotAtTime result 0 = Completed s /\
               Snapshot.finishedCount s = 0%nat).
Proof.
  split.
  - intros result t s H. apply getSnapshotAtTime_finishedCount in H.
    assert (Hc : counts (ended_by t) (customers result) (Snapshot.finishedCount s)).
    { rewrite H. apply counts_filter. intro c. apply finished_at_ended. }
    split; [exact Hc|].
    intro Hall. apply (counts_ext (ended_by t)); [|exact Hc].
    intros c Hin. unfold ended_by, was_served. split.
    + intros [e [He _]]. exists e. exact He.
    + intros [e He]. exists e. split; [exact He | apply (Hall c e Hin He)].
  - intros cfg draws result Hrun Hd.
    destruct (run_counts _ _ _ Hrun) as [H1 H2].
    eexists. split; [apply getSnapshotAtTime_eq; assumption|]. simpl.
    pose proof (run_ends_after_zero _ _ _ Hrun Hd) as Hz.
    rewrite Forall_forall in Hz.
    apply (counts_fun (ended_by 0) (customers result)).
    + apply counts_filter. intro c. apply finished_at_ended.
    + apply counts_none. intros c Hin [e [He Hle]].
      destruct (Hz c Hin) as [_ [_ Hend]]. pose proof (Hend e He). lra.
Qed.

(** The customer that arrives at 59 is served until 64: at the horizon 60
    one customer has been served in all, and the finished count is 0.  And a
    customer that arrives at 0 and needs no service time has finished at 0:
    the finished count at 0 is 1. *)
Lemma finishedCount_at_horizon :
  (run example_config late_draws = Completed late_result /\
   durationMinutes (config late_result) = 60 /\
   counts was_served (customers late_result) 1 /\
   exists s, getSnapshotAtTime late_result 60 = Completed s /\
             Snapshot.finishedCount s = 0%nat) /\
  (run instant_config instant_draws = Completed instant_result /\
   exists s, getSnapshotAtTime instant_result 0 = Completed s /\
             Snapshot.finishedCount s = 1%nat).
Proof.
  split.
  - split; [vm_compute; reflexivity|]. split; [reflexivity|]. split.
    + simpl. apply counts_yes; [|constructor]. exists 64. reflexivity.
    + eexists. split; [vm_compute; reflexivity|]. reflexivity.
  - split; [vm_compute; reflexivity|].
    eexists. split; [vm_compute; reflexivity|]. reflexivity.
Qed.

Lemma example_draws_positive :
  Forall (fun d => 0 <= interArrival d /\ 0 < serviceDraw d) example_draws.
Proof. repeat constructor; simpl; intro H; discriminate H. Qed.

(** In the example the finished count is 0 at time 0, 1 at time 12 (the
    service that ended at 11), and 3, the number of served customers, at
    time 17, when the last service ends. *)
Lemma finishedCount_counts_ended_example :
  (exists s, getSnapshotAtTime example_result 0 = Completed s /\
             Snapshot.finishedCount s = 0%nat) /\
  counts (ended_by 12) (customers example_result) 1 /\
  counts was_served (customers example_result) 3.
Proof.
  split; [|split].
  - apply (proj2 finishedCount_counts_ended example_config example_draws example_result).
    + vm_compute. reflexivity.
    + apply example_draws_positive.
  - apply (proj1 (proj1 finishedCount_counts_ended example_result 12
                        example_snapshot_12 eq_refl)).
  - assert (E : getSnapshotAtTime example_result 17
                = Completed (Snapshot.mk 17 [] [] [None] [None] 3)).
    { vm_compute. reflexivity. }
    apply (proj2 (proj1 finishedCount_counts_ended example_result 17 _ E)).
    intros c e Hc He. simpl in Hc.
    destruct Hc as [<-|[<-|[<-|[]]]]; simpl in He; inversion He; subst e;
      apply Qle_bool_iff; reflexivity.
Defined.

(** * The further properties on the worked inputs *)

Lemma example_draws_nonneg :
  Forall (fun d => 0 <= interArrival d /\ 0 <= serviceDraw d) example_draws.
Proof. repeat constructor; simpl; discriminate. Qed.

Lemma example_durations : Forall (fun d => 0 <= serviceDraw d) example_draws.
Proof. repeat constructor; simpl; discriminate. Qed.

Lemma example_no_near_tie :
  Forall no_near_tie (highProcessed example_processing ++ lowProcessed example_processing).
Proof. apply no_near_tieb_sound. vm_compute. reflexivity. Qed.

Lemma example_snapshot_at_12 :
  getSnapshotAtTime example_result 12 = Completed example_snapshot_12.
Proof. vm_compute. reflexivity. Qed.

Lemma example_snapshot_at_14 :
  getSnapshotAtTime example_result 14 = Completed example_snapshot_14.
Proof. vm_compute. reflexivity. Qed.

(** The first customer of the example comes from the first draw. *)
Lemma generated_customer_from_its_draw_example :
  exists d, nth_error example_draws 0 = Some d /\
    arrivalTime (mkCustomer 1 WALK_IN HIGH_COUNTER 1 None None None 0 10 HAPPY)
    = elapsed (firstn 1 example_draws) /\
    serviceTime (mkCustomer 1 WALK_IN HIGH_COUNTER 1 None None None 0 10 HAPPY)
    = serviceDraw d /\
    (type (mkCustomer 1 WALK_IN HIGH_COUNTER 1 None None None 0 10 HAPPY) = RESERVED <->
     uReserved d * 100 < percentReserved example_config) /\
    (serviceType (mkCustomer 1 WALK_IN HIGH_COUNTER 1 None None None 0 10 HAPPY)
     = HIGH_COUNTER <->
     uHighCounter d * 100 < percentHighCounterTasks example_config) /\
    elapsed (firstn 0 example_draws) < durationMinutes example_config /\
    arrivalTime (mkCustomer 1 WALK_IN HIGH_COUNTER 1 None None None 0 10 HAPPY)
    <= durationMinutes example_config.
Proof.
  apply (generated_customer_from_its_draw example_config example_draws 0).
  vm_compute. reflexivity.
Defined.

(** In the example every task is a high-counter task. *)
Lemma generated_classes_at_extreme_percentages_example :
  Forall (fun c => serviceType c = HIGH_COUNTER)
         (generateArrivals example_config example_draws).
Proof.
  apply (generated_classes_at_extreme_percentages example_config example_draws).
  - repeat constructor; simpl; try discriminate; reflexivity.
  - simpl. discriminate.
Defined.

Lemma result_keeps_creation_order_example :
  Forall2 same_static (customers example_result)
          (generateArrivals example_config example_draws) /\
  map id (customers example_result) = seq 1 (length (customers example_result)) /\
  StronglySorted arrives_before (customers example_result).
Proof.
  apply (result_keeps_creation_order example_config example_draws example_result).
  - repeat constructor; simpl; discriminate.
  - exact example_run.
Defined.

(** The reserved customer of the example is served. *)
Lemma every_customer_is_served_example :
  exists s, serviceStartTime example_third = Some s /\
            serviceEndTime example_third = Some (s + serviceTime example_third) /\
            arrivalTime example_third <= s.
Proof.
  apply (every_customer_is_served example_config example_draws example_processing
           HIGH_COUNTER example_draws_nonneg example_processed).
  - apply no_near_tieb_sound. vm_compute. reflexivity.
  - simpl. lia.
  - simpl. right. right. left. reflexivity.
  - reflexivity.
Defined.

Lemma served_teller_is_in_range_example :
  (Z.of_nat 0 < line_count (config example_result) (serviceType example_third))%Z.
Proof.
  apply (served_teller_is_in_range example_config example_draws example_result example_run
           example_third 0).
  - simpl. right. right. left. reflexivity.
  - reflexivity.
Defined.

(** The first walk-in of the example starts before the second one. *)
Lemma nobody_is_passed_without_right_example :
  exists s1, serviceStartTime example_first = Some s1 /\ s1 <= 13.
Proof.
  apply (nobody_is_passed_without_right example_config example_draws example_processing
           example_first example_second 13 example_draws_nonneg example_processed).
  - simpl. left. reflexivity.
  - simpl. right. left. reflexivity.
  - reflexivity.
  - apply no_near_tieb_sound. vm_compute. reflexivity.
  - right. reflexivity.
  - reflexivity.
  - reflexivity.
Defined.

(** The service of the reserved customer of the example starts when teller
    0 ends the service of the first walk-in. *)
Lemma service_starts_on_arrival_or_handover_example :
  11 = arrivalTime example_third \/
  exists c', In c' (customers example_result) /\ id c' <> id example_third /\
             serviceType c' = serviceType example_third /\
             tellerId c' = Some 0%nat /\ serviceEndTime c' = Some 11.
Proof.
  apply (service_starts_on_arrival_or_handover example_config example_draws example_result
           example_third 11 0 example_run).
  - simpl. right. right. left. reflexivity.
  - reflexivity.
  - reflexivity.
Defined.

(** At 12 the second walk-in of the example is the only one waiting. *)
Lemma waiting_lines_are_complete_and_sorted_example :
  ((forall c, In c (customers example_result) -> waiting_in HIGH_COUNTER 12 c ->
              In c (Snapshot.customersInQueueHigh example_snapshot_12)) /\
   counts (waiting_in HIGH_COUNTER 12) (customers example_result)
          (length (Snapshot.customersInQueueHigh example_snapshot_12)) /\
   StronglySorted arrives_before (Snapshot.customersInQueueHigh example_snapshot_12)) /\
  ((forall c, In c (customers example_result) -> waiting_in LOW_COUNTER 12 c ->
              In c (Snapshot.customersInQueueLow example_snapshot_12)) /\
   counts (waiting_in LOW_COUNTER 12) (customers example_result)
          (length (Snapshot.customersInQueueLow example_snapshot_12)) /\
   StronglySorted arrives_before (Snapshot.customersInQueueLow example_snapshot_12)).
Proof.
  apply (waiting_lines_are_complete_and_sorted example_result 12 example_snapshot_12).
  exact example_snapshot_at_12.
Defined.

Lemma finishedCount_never_decreases_example :
  (Snapshot.finishedCount example_snapshot_12
   <= Snapshot.finishedCount example_snapshot_14)%nat /\
  (Snapshot.finishedCount example_snapshot_14 <= length (customers example_result))%nat.
Proof.
  apply (finishedCount_never_decreases example_result 12 14 example_snapshot_12
           example_snapshot_14 example_snapshot_at_12 example_snapshot_at_14).
  discriminate.
Defined.

(** At 12 the reserved customer of the example is shown at teller 0. *)
Lemma customer_in_service_is_shown_example :
  exists i, tellerId example_third = Some i /\
            nth_error (snapshot_slots example_snapshot_12 (serviceType example_third)) i
            = Some (Some example_third).
Proof.
  apply (customer_in_service_is_shown example_config example_draws example_result
           example_processing 12 example_snapshot_12 example_third 11
           example_run example_processed example_durations example_no_near_tie
           example_snapshot_at_12).
  - simpl. right. right. left. reflexivity.
  - reflexivity.
  - discriminate.
  - reflexivity.
Defined.

(** At 12 the three customers of the example have arrived: one waits, one
    is at the teller, one has finished. *)
Lemma snapshot_accounts_for_every_arrival_example :
  counts (arrived_by 12) (customers example_result)
         (length (Snapshot.customersInQueueHigh example_snapshot_12)
          + length (Snapshot.customersInQueueLow example_snapshot_12)
          + occupied (Snapshot.customersAtTellerHigh example_snapshot_12)
          + occupied (Snapshot.customersAtTellerLow example_snapshot_12)
          + Snapshot.finishedCount example_snapshot_12).
Proof.
  apply (snapshot_accounts_for_every_arrival example_config example_draws example_result
           example_processing 12 example_snapshot_12
           example_run example_processed example_durations example_no_near_tie
           example_snapshot_at_12).
Defined.

Lemma finished_count_within_throughput_example :
  (Snapshot.finishedCount example_snapshot_12 <= throughput (metrics example_result))%nat /\
  ((forall c e, In c (customers example_result) -> serviceEndTime c = Some e -> e <= 12) ->
   Snapshot.finishedCount example_snapshot_12 = throughput (metrics example_result)).
Proof.
  apply (finished_count_within_throughput example_result 12 example_snapshot_12).
  exact example_snapshot_at_12.
Defined.

Lemma served_counts_add_up_example :
  (list_sum (map TellerMetric.servedCount (high (tellerStats (metrics example_result))))
   + list_sum (map TellerMetric.servedCount (low (tellerStats (metrics example_result))))
   = throughput (metrics example_result))%nat /\
  length (high (tellerStats (metrics example_result)))
  = Z.to_nat (count (highCounter example_config)) /\
  length (low (tellerStats (metrics example_result)))
  = Z.to_nat (count (lowCounter example_config)).
Proof.
  apply (served_counts_add_up example_config example_draws example_result example_run).
Defined.

Lemma sentiment_counts_follow_the_waits_example :
  counts (fun c => was_served c /\ waitTime c <= 5) (customers example_result)
         (happy (sentimentStats (metrics example_result))) /\
  counts (fun c => was_served c /\ 5 < waitTime c /\ waitTime c <= 15)
         (customers example_result)
         (neutral (sentimentStats (metrics example_result))) /\
  counts (fun c => was_served c /\ 15 < waitTime c) (customers example_result)
         (angry (sentimentStats (metrics example_result))).
Proof.
  apply (sentiment_counts_follow_the_waits example_config example_draws example_result
           example_run).
Defined.

(** Teller 0 of the high-counter line of the example is busy for 16 of the
    60 minutes. *)
Lemma utilization_is_a_fraction_example :
  exists u,
    TellerMetric.utilization
      (teller_metric 60 (filter has_ended (customers example_result)) HIGH_COUNTER
                     Text.High 0) = Finite u /\
    0 <= u /\ u <= 1 /\
    0 <= TellerMetric.busyTime
           (teller_metric 60 (filter has_ended (customers example_result)) HIGH_COUNTER
                          Text.High 0) /\
    0 <= TellerMetric.idleTime
           (teller_metric 60 (filter has_ended (customers example_result)) HIGH_COUNTER
                          Text.High 0) /\
    (u == 1 <->
     durationMinutes example_config
     <= TellerMetric.busyTime
          (teller_metric 60 (filter has_ended (customers example_result)) HIGH_COUNTER
                         Text.High 0)) /\
    (TellerMetric.idleTime
       (teller_metric 60 (filter has_ended (customers example_result)) HIGH_COUNTER
                      Text.High 0) == 0 <->
     durationMinutes example_config
     <= TellerMetric.busyTime
          (teller_metric 60 (filter has_ended (customers example_result)) HIGH_COUNTER
                         Text.High 0)).
Proof.
  apply (utilization_is_a_fraction (customers example_result) example_config).
  - reflexivity.
  - intros c Hc _. simpl in Hc. destruct Hc as [<-|[<-|[<-|[]]]]; simpl; discriminate.
  - left. reflexivity.
Defined.

Lemma zero_duration_run : run zero_duration_config example_draws = Completed zero_duration_result.
Proof. vm_compute. reflexivity. Qed.

(** With a duration of zero the utilization of teller 0 is NaN. *)
Lemma utilization_without_duration_is_NaN_example :
  customers zero_duration_result = [] /\
  TellerMetric.utilization (teller_metric 0 [] HIGH_COUNTER Text.High 0) = NaN /\
  TellerMetric.servedCount (teller_metric 0 [] HIGH_COUNTER Text.High 0) = 0%nat /\
  TellerMetric.idleTime (teller_metric 0 [] HIGH_COUNTER Text.High 0) == 0.
Proof.
  apply (utilization_without_duration_is_NaN zero_duration_config example_draws
           zero_duration_result).
  - reflexivity.
  - exact zero_duration_run.
  - left. reflexivity.
Defined.

(** The icon of the reserved customer of the example, which ends neutral,
    is yellow when its service starts. *)
Lemma icon_colour_never_overstates_the_sentiment_example :
  CustomerIcon.bgColor example_third 11 false
  = CustomerIcon.legend (sentiment example_third) /\
  (5 <= 11 ->
   (CustomerIcon.bgColor example_third 5 false = CustomerIcon.red ->
    sentiment example_third = ANGRY) /\
   (CustomerIcon.bgColor example_third 5 false = CustomerIcon.yellow ->
    sentiment example_third <> HAPPY)).
Proof.
  apply (icon_colour_never_overstates_the_sentiment example_config example_draws
           example_result example_third 11 5 example_run).
  - simpl. right. right. left. reflexivity.
  - reflexivity.
Defined.

(** With a duration of 480 minutes and speed 10 the clock is within the
    duration after three ticks, and later than after two. *)
Lemma playback_clock_stops_at_the_horizon_example :
  0 <= App.currentTime (App.ticks 480 10 3 App.started)
  /\ App.currentTime (App.ticks 480 10 3 App.started) <= 480
  /\ App.currentTime (App.ticks 480 10 3 App.started)
     <= App.currentTime (App.ticks 480 10 (S 3) App.started)
  /\ (App.isPlaying (App.ticks 480 10 3 App.started) = true ->
      3%nat = 0%nat \/ App.currentTime (App.ticks 480 10 3 App.started) < 480)
  /\ (App.isPlaying (App.ticks 480 10 3 App.started) = false ->
      App.currentTime (App.ticks 480 10 3 App.started) = 480 /\
      forall m, (3 <= m)%nat ->
        App.ticks 480 10 m App.started = App.ticks 480 10 3 App.started).
Proof.
  apply (playback_clock_stops_at_the_horizon 480 10 3); discriminate.
Defined.

(** While the second walk-in of the example waits, at time 5, teller 0 is
    busy with the first walk-in. *)
Lemma nobody_waits_for_an_idle_teller_example :
  exists c' s e, In c' (population example_processing) /\
                 serviceType c' = serviceType example_second /\
                 tellerId c' = Some 0%nat /\
                 serviceStartTime c' = Some s /\ serviceEndTime c' = Some e /\
                 s <= 5 /\ 5 < e.
Proof.
  apply (nobody_waits_for_an_idle_teller example_config example_draws example_processing
           example_second 13 0 5 example_draws_nonneg example_processed).
  - simpl. right. left. reflexivity.
  - apply no_near_tieb_sound. vm_compute. reflexivity.
  - reflexivity.
  - simpl. lia.
  - discriminate.
  - reflexivity.
Defined.

Lemma snapshot_of_a_run_never_fails_example :
  exists s, getSnapshotAtTime example_result 12 = Completed s /\
            Snapshot.time s = 12 /\
            length (Snapshot.customersAtTellerHigh s)
            = Z.to_nat (count (highCounter example_config)) /\
            length (Snapshot.customersAtTellerLow s)
            = Z.to_nat (count (lowCounter example_config)).
Proof.
  apply (snapshot_of_a_run_never_fails example_config example_draws example_result 12
           example_run).
Defined.
